(** * ARDL: lag-order validation, design-matrix assembly, forecasting and
      order selection of [statsmodels/tsa/ardl.py], embedded in Rocq.

    The development follows the source file top to bottom:
    - [Py]      : the Python and NumPy conventions the source relies on
                  (exceptions, [range], slices, negative indices);
    - [_check_order], [_format_order], [_format_exog] : the order validator
      and the lag-matrix builder;
    - [ARDL_init], [_initialize_model] : the design-matrix assembler;
    - [_forecasting_x], [predict], [forecast] : the forecast engine;
    - [select_order] : the selection loop of [ardl_select_order].

    Floating-point arithmetic is not interpreted: array entries range over
    an arbitrary carrier equipped with the operations of [Scalar], so every
    theorem holds for any choice of arithmetic. Concrete inputs are
    evaluated in the instance [Scalar_optZ]. *)

From Stdlib Require Import ZArith String Ascii Bool Lia.
From Stdlib Require Import Decimal DecimalString Permutation Sorted List.
Import ListNotations.

Set Implicit Arguments.
Local Open Scope string_scope.
Local Open Scope list_scope.
Local Open Scope Z_scope.

(** ** Python conventions *)

Module Py.

(** Exceptions raised by the source, with their message. [IndexError] and
    [UnboundLocalError] are raised by the interpreter itself. *)
Inductive exn : Type :=
| ValueError (msg : string)
| TypeError (msg : string)
| IndexError (msg : string)
| AttributeError (msg : string)
| UnboundLocalError (msg : string)
| NotImplementedError (msg : string).

Inductive result (A : Type) : Type :=
| Ok (a : A)
| Raise (e : exn).

Arguments Ok {A} a.
Arguments Raise {A} e.

Definition bind {A B : Type} (r : result A) (k : A -> result B) : result B :=
  match r with
  | Ok a => k a
  | Raise e => Raise e
  end.

Definition is_raise {A : Type} (r : result A) : Prop :=
  exists e, r = Raise e.

Definition is_ok {A : Type} (r : result A) : Prop :=
  exists a, r = Ok a.

(** [for a in l: f(a)] where [f] may raise. *)
Fixpoint for_each {A : Type} (f : A -> result unit) (l : list A) : result unit
    :=
  match l with
  | [] => Ok tt
  | a :: l' => bind (f a) (fun _ => for_each f l')
  end.

(** [[f(a) for a in l]] where [f] may raise. *)
Fixpoint map_result {A B : Type} (f : A -> result B) (l : list A)
  : result (list B) :=
  match l with
  | [] => Ok []
  | a :: l' =>
      bind (f a) (fun b => bind (map_result f l') (fun bs => Ok (b :: bs)))
  end.

(** [str(z)] for an integer. *)
Definition str_of_Z (z : Z) : string := NilZero.string_of_int (Z.to_int z).

Definition str_of_bool (b : bool) : string := if b then "True" else "False".

(** [list(range(a, b))]. *)
Definition range (a b : Z) : list Z :=
  map (fun i => a + Z.of_nat i) (seq 0 (Z.to_nat (b - a))).

(** [min(l)] and [max(l)] of a non-empty list of integers. *)
Definition min_list (d : Z) (l : list Z) : Z := fold_left Z.min l d.
Definition max_list (d : Z) (l : list Z) : Z := fold_left Z.max l d.

(** [max(l) if l else 0]. *)
Definition max_or_0 (l : list Z) : Z :=
  match l with
  | [] => 0
  | z :: l' => max_list z l'
  end.

Definition py_min (l : list Z) : result Z :=
  match l with
  | [] => Raise (ValueError "min() arg is an empty sequence")
  | z :: l' => Ok (min_list z l')
  end.

Definition py_max (l : list Z) : result Z :=
  match l with
  | [] => Raise (ValueError "max() arg is an empty sequence")
  | z :: l' => Ok (max_list z l')
  end.

(** A slice bound [i] of a sequence of length [n]: negative bounds count
    from the end, and the result is clamped to [0..n]. *)
Definition clamp (n : nat) (i : Z) : nat :=
  let j := if i <? 0 then i + Z.of_nat n else i in
  Z.to_nat (Z.min (Z.max j 0) (Z.of_nat n)).

(** [l[lo:hi]], [l[lo:]] and [l[:hi]]. *)
Definition slice {A : Type} (l : list A) (lo hi : Z) : list A :=
  let a := clamp (length l) lo in
  let b := clamp (length l) hi in
  firstn (b - a) (skipn a l).

Definition slice_from {A : Type} (l : list A) (lo : Z) : list A :=
  skipn (clamp (length l) lo) l.

Definition slice_to {A : Type} (l : list A) (hi : Z) : list A :=
  firstn (clamp (length l) hi) l.

(** [l[i]]: a negative index counts from the end; out of range raises. *)
Definition index {A : Type} (l : list A) (i : Z) : result A :=
  let j := if i <? 0 then i + Z.of_nat (length l) else i in
  if (j <? 0) || (Z.of_nat (length l) <=? j)
  then Raise (IndexError "index out of range")
  else match nth_error l (Z.to_nat j) with
       | Some a => Ok a
       | None => Raise (IndexError "index out of range")
       end.

(** [l[i] = v] on a list that is known to hold position [i]. *)
Fixpoint set_nth {A : Type} (l : list A) (i : nat) (v : A) : list A :=
  match l, i with
  | [], _ => []
  | _ :: l', O => v :: l'
  | a :: l', S i' => a :: set_nth l' i' v
  end.

Definition set_index {A : Type} (l : list A) (i : Z) (v : A) : result (list A)
    :=
  let j := if i <? 0 then i + Z.of_nat (length l) else i in
  if (j <? 0) || (Z.of_nat (length l) <=? j)
  then Raise (IndexError "index out of range")
  else Ok (set_nth l (Z.to_nat j) v).

(** [len(set(l)) != len(l)]: some value occurs twice. *)
Fixpoint has_dup (l : list Z) : bool :=
  match l with
  | [] => false
  | z :: l' => existsb (Z.eqb z) l' || has_dup l'
  end.

End Py.

Export Py.

Declare Scope py_scope.
Delimit Scope py_scope with py.
Notation "x <- c ;; k" := (bind c (fun x => k))
  (at level 61, c at next level, right associativity) : py_scope.
Notation "c ;;; k" := (bind c (fun _ => k))
  (at level 61, right associativity) : py_scope.
Local Open Scope py_scope.

(** ** Keys of exogenous variables, order specifications *)

(** A key is a column position (NumPy exog) or a column label (DataFrame). *)
Inductive key : Type :=
| KInt (i : Z)
| KStr (s : string).

Definition key_eqb (a b : key) : bool :=
  match a, b with
  | KInt i, KInt j => Z.eqb i j
  | KStr s, KStr t => String.eqb s t
  | _, _ => false
  end.

Definition key_in (k : key) (l : list key) : bool := existsb (key_eqb k) l.

(** [str(k)]. *)
Definition str_of_key (k : key) : string :=
  match k with
  | KInt i => str_of_Z i
  | KStr s => s
  end.

(** [a <= b] between keys of one kind; Python cannot order an integer
    against a string. *)
Definition key_leb (a b : key) : option bool :=
  match a, b with
  | KInt i, KInt j => Some (Z.leb i j)
  | KStr s, KStr t => Some (String.leb s t)
  | _, _ => None
  end.


Fixpoint insert_key (k : key) (l : list key) : result (list key) :=
  match l with
  | [] => Ok [k]
  | h :: t =>
      match key_leb k h with
      | None => Raise (TypeError "'<' not supported between instances")
      | Some true => Ok (k :: h :: t)
      | Some false => t' <- insert_key k t ;; Ok (h :: t')
      end
  end.

(** [sorted(keys)]. *)
Fixpoint sorted_keys (l : list key) : result (list key) :=
  match l with
  | [] => Ok []
  | k :: l' => s <- sorted_keys l' ;; insert_key k s
  end.

(** An entry of a sequence order: an integer, or anything else. *)
Inductive elem : Type :=
| EInt (z : Z)
| EOther.

(** The order of one variable: [None], an integer ([np] tells a NumPy
    integer from a Python [int]), or a sequence. *)
Inductive order_value : Type :=
| ONone
| OInt (np : bool) (k : Z)
| OSeq (l : list elem).

(** The [order] argument: one value for all variables, or a mapping. A
    mapping is listed in its iteration order. *)
Inductive order_spec : Type :=
| OVal (v : order_value)
| OMap (d : list (key * order_value)).

Inductive warning : Type :=
| SpecificationWarning (msg : string).

Definition is_int (e : elem) : bool :=
  match e with EInt _ => true | EOther => false end.

Definition int_of (e : elem) : Z :=
  match e with EInt z => z | EOther => 0 end.

(** [_check_order] *)
Definition _check_order (order : order_value) (causal : bool) : result bool :=
  match order with
  | ONone => Ok true
  | OInt _ k =>
      if k <? Z.b2z causal
      then Raise (ValueError
             ("integer orders must be at least " ++ str_of_Z (Z.b2z causal)
              ++ " when causal is " ++ str_of_bool causal ++ ".")%string)
      else Ok true
  | OSeq l =>
      if negb (forallb is_int l)
      then Raise (TypeError
             "sequence orders must contain non-negative integer values")
      else
        let order := map int_of l in
        dup_or_neg <-
          (if has_dup order then Ok true
           else m <- py_min order ;; Ok (m <? 0)) ;;
        if (dup_or_neg : bool)
        then Raise (ValueError
               "sequence orders must contain distinct non-negative values")
        else
          not_pos <-
            (if causal then m <- py_min order ;; Ok (m <? 1) else Ok false) ;;
          if (not_pos : bool)
          then Raise (ValueError
                 "sequence orders must be strictly positive when causal is True")
          else Ok true
  end.

(** The keys of the exogenous data: [range(exog.shape[1])] for an array,
    [exog.columns] for a DataFrame. *)
Definition keys_of (labels : option (list string)) (ncols : nat) : list key :=
  match labels with
  | Some names => map KStr names
  | None => map KInt (range 0 (Z.of_nat ncols))
  end.

(** The last loop of [_format_order]: [None] is skipped, a Python [int]
    [k] becomes [range(int(causal), k + 1)], anything else is iterated. *)
Definition expand_order (causal : bool) (kv : key * order_value)
  : result (list (key * list Z)) :=
  match snd kv with
  | ONone => Ok []
  | OInt false k => Ok [(fst kv, range (Z.b2z causal) (k + 1))]
  | OInt true _ => Raise (TypeError "'numpy.int64' object is not iterable")
  | OSeq l => Ok [(fst kv, map int_of l)]
  end.

Definition final_order (causal : bool) (exog_order : list (key * order_value))
  : result (list (key * list Z)) :=
  blocks <- map_result (expand_order causal) exog_order ;;
  Ok (concat blocks).

Definition join_keys (l : list key) : string :=
  String.concat ", " (map str_of_key l).

Definition extra_keys_msg (sorted_extra : list key) : string :=
  ("order dictionary contains keys for exogenous "
   ++ "variable(s) that are not contained in exog"
   ++ " Extra keys: " ++ join_keys sorted_extra ++ ".")%string.

Definition missing_keys_msg (sorted_missing : list key) : string :=
  ("exog contains variables that are missing from the order "
   ++ "dictionary.  Missing keys: " ++ join_keys sorted_missing ++ ".")%string.

Definition order_is_0_or_None (order : order_spec) : bool :=
  match order with
  | OVal ONone => true
  | OVal (OInt _ k) => k =? 0
  | _ => false
  end.

(** [set(l)]: every key once. *)
Fixpoint unique_keys (l : list key) : list key :=
  match l with
  | [] => []
  | k :: l' => if key_in k l' then unique_keys l' else k :: unique_keys l'
  end.

(** [set(keys).difference(order.keys())] and
    [set(order.keys()).difference(keys)]. *)
Definition missing_keys (keys : list key) (d : list (key * order_value))
  : list key :=
  filter (fun k => negb (key_in k (map fst d))) (unique_keys keys).

Definition extra_keys (keys : list key) (d : list (key * order_value))
  : list key :=
  filter (fun k => negb (key_in k keys)) (unique_keys (map fst d)).

(** [_format_order], on the keys of [exog] ([None] when there is no exog).
    The warnings issued are returned next to the result. What
    [array_like] (not part of this file) makes of a missing exog is not
    interpreted: without exog, an order other than [0] or [None] is taken
    to fail. *)
Definition _format_order (exog : option (list key)) (order : order_spec)
    (causal : bool) : list warning * result (list (key * list Z)) :=
  match exog with
  | None =>
      if order_is_0_or_None order then ([], Ok [])
      else ([], Raise (IndexError "tuple index out of range"))
  | Some keys =>
      match order with
      | OVal ONone =>
          ([], final_order causal (map (fun k => (k, ONone)) keys))
      | OMap d =>
          let missing := missing_keys keys d in
          let extra := extra_keys keys d in
          match extra with
          | _ :: _ =>
              ([], s <- sorted_keys extra ;;
                   Raise (ValueError (extra_keys_msg s)))
          | [] =>
              let checked :=
                for_each (fun kv => _check_order (snd kv) causal ;;; Ok tt) d
                    ;;;
                final_order causal d in
              match missing with
              | [] => ([], checked)
              | _ :: _ =>
                  match sorted_keys missing with
                  | Ok s => ([SpecificationWarning (missing_keys_msg s)],
                      checked)
                  | Raise e => ([], Raise e)
                  end
              end
          end
      | OVal (OInt np k) =>
          ([], _check_order (OInt np k) causal ;;;
               final_order causal (map (fun key => (key, OInt false k)) keys))
      | OVal (OSeq l) =>
          ([], _check_order (OSeq l) causal ;;;
               final_order causal (map (fun key => (key, OSeq l)) keys))
      end
  end.

(** ** Arrays *)

(** The arithmetic of array entries: [0.0] (the padding of [lagmat]),
    [np.nan], addition, multiplication and [np.isfinite]. *)
Class Scalar (V : Type) : Type := {
  s_zero : V;
  s_nan : V;
  s_add : V -> V -> V;
  s_mul : V -> V -> V;
  s_isfinite : V -> bool
}.

(** Integers with a not-a-number value that every operation propagates. *)
#[export] Instance Scalar_optZ : Scalar (option Z) := {
  s_zero := Some 0;
  s_nan := None;
  s_add := fun a b =>
    match a, b with Some x, Some y => Some (x + y) | _, _ => None end;
  s_mul := fun a b =>
    match a, b with Some x, Some y => Some (x * y) | _, _ => None end;
  s_isfinite := fun a => match a with Some _ => true | None => false end
}.

Section Model.

Context {V : Type} {Sc : Scalar V}.

(** A two-dimensional array of shape (n, k) is the list of its n rows. The
    column count of an array without rows is not represented. *)
Definition matrix : Type := list (list V).

Definition shape0 (a : matrix) : Z := Z.of_nat (length a).

Definition shape1 (a : matrix) : Z :=
  match a with
  | [] => 0
  | r :: _ => Z.of_nat (length r)
  end.

(** [np.full((n, k), np.nan)] and [np.full(n, np.nan)]. *)
Definition full_nan (n k : nat) : matrix := repeat (repeat s_nan k) n.
Definition full_nan1 (n : nat) : list V := repeat s_nan n.

(** [row @ params], summed from left to right. *)
Definition dot (row params : list V) : V :=
  fold_left (fun acc xp => s_add acc (s_mul (fst xp) (snd xp)))
            (combine row params) s_zero.

(** [x @ params] for a matrix [x]; the inner dimensions must agree. *)
Definition matvec (x : matrix) (params : list V) : result (list V) :=
  if forallb (fun r => Nat.eqb (length r) (length params)) x
  then Ok (map (fun r => dot r params) x)
  else Raise (ValueError "matmul: mismatch in its core dimension").

(** [a[:, idx]]: the columns at the positions [idx] of every row. *)
Definition select_cols (a : matrix) (idx : list Z) : result matrix :=
  map_result (fun row => map_result (index row) idx) a.

(** [np.column_stack] of two blocks and of a list of blocks with [n] rows. *)
Fixpoint zip_rows (a b : matrix) : matrix :=
  match a, b with
  | r :: a', s :: b' => (r ++ s) :: zip_rows a' b'
  | _, _ => []
  end.

Definition column_stack (n : nat) (blocks : list matrix) : result matrix :=
  if forallb (fun b => Nat.eqb (length b) n) blocks
  then Ok (fold_right zip_rows (repeat [] n) blocks)
  else Raise (ValueError
    "all the input array dimensions except for the concatenation axis must match exactly").

(** Exogenous or fixed data: rows of observations, and the column labels
    when the data is a DataFrame. *)
Record frame : Type := {
  labels : option (list string);
  values : matrix
}.

Definition frame_keys (f : frame) : list key :=
  keys_of (labels f) (Z.to_nat (shape1 (values f))).

(** Position of a label among the columns. *)
Fixpoint label_pos (s : string) (names : list string) : option Z :=
  match names with
  | [] => None
  | n :: names' =>
      if String.eqb s n then Some 0
      else match label_pos s names' with
           | Some i => Some (i + 1)
           | None => None
           end
  end.

(** [exog[:, key]] for an array, [exog[key]] for a DataFrame. *)
Definition get_column (f : frame) (k : key) : result (list V) :=
  match labels f, k with
  | None, KInt i => map_result (fun row => index row i) (values f)
  | None, KStr _ =>
      Raise (IndexError "only integers, slices are valid indices")
  | Some names, KStr s =>
      match label_pos s names with
      | Some i => map_result (fun row => index row i) (values f)
      | None => Raise (IndexError s)
      end
  | Some _, KInt i => Raise (IndexError (str_of_Z i))
  end.

(** Modelled from the spec: [lagmat] of [statsmodels.tsa.tsatools] is not
    part of this file. For one column it builds the lags [0..maxlag] (first
    rows padded with zeros, as many rows as the column), and refuses a
    [maxlag] that is not below the number of observations. [original="in"]
    keeps the column itself as lag 0, [original="ex"] and ["sep"] drop it. *)
Definition lag_value (x : list V) (t : nat) (lag : Z) : V :=
  if Z.of_nat t <? lag then s_zero
  else nth (Z.to_nat (Z.of_nat t - lag)) x s_nan.

Definition lagmat (x : list V) (maxlag : Z) (original_in : bool)
  : result matrix :=
  if Z.of_nat (length x) <=? maxlag
  then Raise (ValueError "maxlag should be < nobs")
  else Ok (map (fun t =>
                  map (lag_value x t)
                      (range (if original_in then 0 else 1) (maxlag + 1)))
               (seq 0 (length x))).

(** The deterministic process: named terms, each a function of the time
    index. [in_sample] has one row per observation, [out_of_sample] the
    rows that follow. *)
Record det_process : Type := {
  det_terms : list (string * (nat -> V))
}.

Definition det_columns (d : det_process) : list string :=
  map fst (det_terms d).

Definition det_row (d : det_process) (t : nat) : list V :=
  map (fun c => snd c t) (det_terms d).

Definition in_sample (d : det_process) (nobs : nat) : matrix :=
  map (det_row d) (seq 0 nobs).

Definition out_of_sample (d : det_process) (nobs steps : nat) : matrix :=
  map (det_row d) (seq nobs steps).

(** ** The lag-matrix builder, [_format_exog] *)

(** The loop over [order.values()] that computes [max_order]. *)
Fixpoint max_order_of (vals : list (list Z)) (acc : Z) : result Z :=
  match vals with
  | [] => Ok acc
  | val :: vals' => m <- py_max val ;; max_order_of vals' (Z.max m acc)
  end.

Definition exog_base (f : frame) (k : key) : string :=
  match labels f with
  | None => ("x" ++ str_of_key k)%string
  | Some _ => str_of_key k
  end.

Definition lag_names (base : string) (lags : list Z) : list string :=
  map (fun lag => (base ++ ".L" ++ str_of_Z lag)%string) lags.

(** [_format_exog]. As in [_format_order], a missing exog with a
    non-empty order is taken to fail. *)
Definition _format_exog (exog : option frame) (order : list (key * list Z))
  : result (list (key * matrix) * list (key * list string)) :=
  match order with
  | [] => Ok ([], [])
  | _ :: _ =>
      max_order <- max_order_of (map snd order) 0 ;;
      match exog with
      | None => Raise (IndexError "tuple index out of range")
      | Some exog =>
          exog_lags <-
            map_result (fun kv =>
              col <- get_column exog (fst kv) ;;
              lagged_col <- lagmat col max_order true ;;
              blk <- select_cols lagged_col (snd kv) ;;
              Ok (fst kv, blk)) order ;;
          Ok (exog_lags,
              map (fun kv =>
                     (fst kv, lag_names (exog_base exog (fst kv)) (snd kv)))
                  order)
      end
  end.

(** ** The model and its constructor *)

(** The [lags] argument: [None], an integer, or a list of lag indices. *)
Inductive lags_spec : Type :=
| LNone
| LInt (k : Z)
| LList (l : list Z).

(** The trend argument, and the names of the columns it generates.
    Modelled from the spec: [DeterministicProcess] is not part of this
    file; the constant column is named [const], the time trends [trend]
    and [trend_squared]. *)
Inductive trend : Type := Trend_n | Trend_c | Trend_ct | Trend_ctt.

Definition trend_columns (tr : trend) : list string :=
  match tr with
  | Trend_n => []
  | Trend_c => ["const"]
  | Trend_ct => ["const"; "trend"]
  | Trend_ctt => ["const"; "trend"; "trend_squared"]
  end.

Definition trend_process (tr : trend) (term : string -> nat -> V)
  : det_process :=
  {| det_terms := map (fun n => (n, term n)) (trend_columns tr) |}.

(** The arguments of [ARDL.__init__]. [a_det] is the deterministic process
    that the base class derives from [trend], [seasonal], [period] and
    [deterministic]. *)
Record ARDL_args : Type := {
  a_endog : list V;
  a_ynames : string;
  a_lags : lags_spec;
  a_exog : option frame;
  a_order : order_spec;
  a_det : det_process;
  a_fixed : option frame;
  a_causal : bool;
  a_hold_back : option Z
}.

(** The attributes of a constructed model. [endog] stands for [self.endog]
    and [self.data.endog], [orig_exog] for [self.data.orig_exog],
    [self.data.exog] and [self.exog]. *)
Record ARDL : Type := {
  endog : list V;
  ynames : string;
  orig_exog : option frame;
  _deterministics : det_process;
  _hold_back : Z;
  _causal : bool;
  _fixed : matrix;
  _fixed_names : list string;
  _lags : list Z;
  _maxlag : Z;
  _endog_reg : matrix;
  _endog_lag_names : list string;
  _order : list (key * list Z);
  _exog : list (key * matrix);
  _exog_var_names : list (key * list string);
  _deterministic_reg : matrix;
  _exog_names : list string;
  _x : matrix;
  _y : list V
}.

Definition nobs_of (m : ARDL) : nat := length (endog m).

(** [_setup_regressors]: the placeholder that lets the base constructor
    complete; [np.empty] refuses a negative dimension. *)
Definition _setup_regressors (nobs : nat) (hold_back : Z) : result matrix :=
  if Z.of_nat nobs - hold_back <? 0
  then Raise (ValueError "negative dimensions are not allowed")
  else Ok (repeat [] (Z.to_nat (Z.of_nat nobs - hold_back))).

Definition rectangular (a : matrix) : bool :=
  forallb (fun r => Z.of_nat (length r) =? shape1 a) a.

(** Modelled from the spec: [AutoReg.__init__] is not part of this file.
    It requires integer lags to be non-negative and listed lags to be
    positive and distinct, sets [hold_back] to the largest autoregressive
    lag when it is absent and refuses a smaller one, requires exog to be a
    rectangular array with one row per observation, and calls
    [_setup_regressors]. *)
Definition AutoReg_init (args : ARDL_args) : result unit :=
  let nobs := length (a_endog args) in
  ar_lags <-
    match a_lags args with
    | LNone => Ok []
    | LInt k =>
        if k <? 0 then Raise (ValueError "lags must be a positive scalar.")
        else Ok (range 1 (k + 1))
    | LList l =>
        if existsb (fun z => z <? 1) l || has_dup l
        then Raise (ValueError
               "All values in lags must be positive and distinct.")
        else Ok l
    end ;;
  let maxlag := max_or_0 ar_lags in
  let hold_back :=
    match a_hold_back args with None => maxlag | Some h => h end in
  (if hold_back <? maxlag
   then Raise (ValueError "hold_back must be >= lags")
   else Ok tt) ;;;
  match a_exog args with
  | None => Ok tt
  | Some f =>
      if negb (rectangular (values f))
         || negb (Nat.eqb (length (values f)) nobs)
         || match labels f with
            | None => false
            | Some names =>
                negb (Z.of_nat (length names) =? shape1 (values f))
            end
      then Raise (ValueError "endog and exog matrices are different sizes")
      else Ok tt
  end ;;;
  _setup_regressors nobs hold_back ;;; Ok tt.

(** The lags of the [lags] argument: [None] counts as [0], an integer [k]
    as [range(1, k + 1)]. *)
Definition lags_of (lags : lags_spec) : list Z :=
  match lags with
  | LNone => range 1 (0 + 1)
  | LInt k => range 1 (k + 1)
  | LList l => l
  end.

(** The partially initialised model that [_initialize_model] completes. *)
Record ARDL_self : Type := {
  s_endog : list V;
  s_ynames : string;
  s_orig_exog : option frame;
  s_deterministics : det_process;
  s_hold_back : option Z;
  s_causal : bool;
  s_fixed : matrix;
  s_fixed_names : list string
}.

Definition too_many_regressors_msg (k n : Z) : string :=
  ("The number of regressors (" ++ str_of_Z k ++ ") including "
   ++ "deterministics, lags of the endog, lags of the exogenous, "
   ++ "and fixed regressors is larer than the sample available "
   ++ "for estimation (" ++ str_of_Z n ++ ").")%string.

(** [_initialize_model]. The column count of [self._x] is read before the
    rows are trimmed, since trimming rows keeps the columns. *)
Definition _initialize_model (self : ARDL_self) (lags : lags_spec)
    (order : order_spec) : result ARDL :=
  let nobs := length (s_endog self) in
  let lags := lags_of lags in
  let maxlag0 := max_or_0 lags in
  endog_reg0 <- lagmat (s_endog self) maxlag0 false ;;
  endog_reg <-
    (if negb (shape1 endog_reg0 =? Z.of_nat (length lags))
     then select_cols endog_reg0 (map (fun l => l - 1) lags)
     else Ok endog_reg0) ;;
  let endog_lag_names := lag_names (s_ynames self) lags in
  order <- snd (_format_order (option_map frame_keys (s_orig_exog self))
                              order (s_causal self)) ;;
  ex <- _format_exog (s_orig_exog self) order ;;
  let exog := fst ex in
  let exog_var_names := snd ex in
  exog_maxlag <- max_order_of (map snd order) 0 ;;
  let maxlag := Z.max maxlag0 exog_maxlag in
  let deterministic_reg := in_sample (s_deterministics self) nobs in
  let exog_names :=
    det_columns (s_deterministics self) ++ endog_lag_names
    ++ concat (map snd exog_var_names) ++ s_fixed_names self in
  full <- column_stack nobs
            ([deterministic_reg; endog_reg] ++ map snd exog ++ [s_fixed self])
                ;;
  let hold_back :=
    match s_hold_back self with None => maxlag | Some h => h end in
  if hold_back <? maxlag
  then Raise (ValueError
         "hold_back must be >= the maximum lag of the endog and exog variables")
  else
    let x := slice_from full hold_back in
    if shape1 full >? shape0 x
    then Raise (ValueError (too_many_regressors_msg (shape1 full) (shape0 x)))
    else
      Ok {| endog := s_endog self;
            ynames := s_ynames self;
            orig_exog := s_orig_exog self;
            _deterministics := s_deterministics self;
            _hold_back := hold_back;
            _causal := s_causal self;
            _fixed := s_fixed self;
            _fixed_names := s_fixed_names self;
            _lags := lags;
            _maxlag := maxlag;
            _endog_reg := endog_reg;
            _endog_lag_names := endog_lag_names;
            _order := order;
            _exog := exog;
            _exog_var_names := exog_var_names;
            _deterministic_reg := deterministic_reg;
            _exog_names := exog_names;
            _x := x;
            _y := slice_from (s_endog self) hold_back |}.

Definition set_causal (m : ARDL) (c : bool) : ARDL :=
  {| endog := endog m; ynames := ynames m; orig_exog := orig_exog m;
     _deterministics := _deterministics m; _hold_back := _hold_back m;
     _causal := c; _fixed := _fixed m; _fixed_names := _fixed_names m;
     _lags := _lags m; _maxlag := _maxlag m; _endog_reg := _endog_reg m;
     _endog_lag_names := _endog_lag_names m; _order := _order m;
     _exog := _exog m; _exog_var_names := _exog_var_names m;
     _deterministic_reg := _deterministic_reg m;
     _exog_names := _exog_names m; _x := _x m; _y := _y m |}.

Definition fixed_msg : string :=
  ("fixed must be an (nobs, m) array where nobs matches the "
   ++ "number of observations in the endog variable, and all"
   ++ "values must be finite")%string.

(** [ARDL.__init__]. *)
Definition ARDL_init (args : ARDL_args) : result ARDL :=
  AutoReg_init args ;;;
  let nobs := length (a_endog args) in
  fx <-
    match a_fixed args with
    | Some f =>
        if negb (rectangular (values f)) then
          Raise (ValueError "fixed must have ndim 2")
        else if negb (Nat.eqb (length (values f)) nobs)
             || negb (forallb (forallb s_isfinite) (values f))
        then Raise (ValueError fixed_msg)
        else
          Ok (values f,
              match labels f with
              | Some names => names
              | None =>
                  map (fun i => ("z." ++ str_of_Z i)%string)
                      (range 0 (shape1 (values f)))
              end)
    | None => Ok (repeat [] nobs, [])
    end ;;
  let self :=
    {| s_endog := a_endog args; s_ynames := a_ynames args;
       s_orig_exog := a_exog args; s_deterministics := a_det args;
       s_hold_back := a_hold_back args; s_causal := a_causal args;
       s_fixed := fst fx; s_fixed_names := snd fx |} in
  m <- _initialize_model self (a_lags args) (a_order args) ;;
  match _order m with
  | [] => Ok (set_causal m true)
  | _ :: _ =>
      min_lags <- map_result py_min (map snd (_order m)) ;;
      lowest <- py_min min_lags ;;
      Ok (set_causal m (lowest >? 0))
  end.

(** The same arguments with another [hold_back]. *)
Definition with_hold_back (args : ARDL_args) (hold_back : option Z)
  : ARDL_args :=
  {| a_endog := a_endog args; a_ynames := a_ynames args;
     a_lags := a_lags args; a_exog := a_exog args; a_order := a_order args;
     a_det := a_det args; a_fixed := a_fixed args;
     a_causal := a_causal args; a_hold_back := hold_back |}.

(** ** The forecast engine *)

(** [ardl_order]: the largest autoregressive lag and the largest exogenous
    lag ([None] without exogenous lags). *)
Fixpoint dl_order_of (vals : list (list Z)) (acc : Z) : result Z :=
  match vals with
  | [] => Ok acc
  | val :: vals' => m <- py_max val ;; dl_order_of vals' (Z.max acc m)
  end.

Definition ardl_order (m : ARDL) : result (Z * option Z) :=
  let ar_order := max_or_0 (_lags m) in
  dl_order <- dl_order_of (map snd (_order m)) (-1) ;;
  Ok (ar_order, if dl_order <? 0 then None else Some dl_order).

(** The array that [_forecasting_x] returns: either a slice of [self._x],
    which shares its memory ([View lo n] stands for the [n] rows from row
    [lo] on), or a newly allocated array. *)
Inductive xarray : Type :=
| View (lo n : nat)
| Fresh (a : matrix).

Definition rows_of (self_x : matrix) (x : xarray) : matrix :=
  match x with
  | View lo n => firstn n (skipn lo self_x)
  | Fresh a => a
  end.

(** [self._x[lo:hi]] as a view. *)
Definition view_slice (self_x : matrix) (lo hi : Z) : xarray :=
  let a := clamp (length self_x) lo in
  let b := clamp (length self_x) hi in
  View a (b - a).

(** [pad_x]: the array itself without padding, a stacked copy otherwise. *)
Definition pad_x (self_x : matrix) (x : xarray) (pad : Z) : xarray :=
  if pad =? 0 then x
  else
    let k := Z.to_nat (shape1 self_x) in
    Fresh (full_nan (Z.to_nat pad) k ++ rows_of self_x x).

(** [_x[:hold_back] = np.nan]. *)
Definition set_rows_nan (a : matrix) (hold_back : Z) : matrix :=
  let c := clamp (length a) hold_back in
  map (fun r => repeat s_nan (length r)) (firstn c a) ++ skipn c a.

(** The shortcut of [_forecasting_x]. *)
Definition shortcut_x (m : ARDL) (start end_ : Z) : xarray :=
  let pad := if start >=? _hold_back m then 0 else _hold_back m - start in
  let adjusted_start := Z.max (start - _hold_back m) 0 in
  pad_x (_x m)
        (view_slice (_x m) adjusted_start (end_ + 1 - _hold_back m)) pad.

(** The rebuild of [_forecasting_x]. *)
Definition rebuild_x (m : ARDL) (start end_ num_oos : Z)
    (exog exog_oos fixed fixed_oos : option frame) : result matrix :=
  let exog :=
    match exog with
    | None => option_map values (orig_exog m)
    | Some e => Some (values e)
    end in
  exog <-
    match exog_oos, exog with
    | None, _ => Ok exog
    | Some oos, Some e => Ok (Some (e ++ slice_to (values oos) num_oos))
    | Some _, None =>
        Raise (ValueError
          "all the input arrays must have same number of dimensions")
    end ;;
  let fixed := match fixed with None => _fixed m | Some f => values f end in
  let fixed :=
    match fixed_oos with
    | None => fixed
    | Some oos => fixed ++ slice_to (values oos) num_oos
    end in
  let nobs := nobs_of m in
  let det := in_sample (_deterministics m) nobs in
  let det :=
    if num_oos =? 0 then det
    else det ++ out_of_sample (_deterministics m) nobs (Z.to_nat num_oos) in
  let endog := endog m in
  let endog :=
    if num_oos =? 0 then endog else endog ++ full_nan1 (Z.to_nat num_oos) in
  x1 <-
    match _lags m with
    | [] => Ok []
    | z :: l =>
        endog_reg <- lagmat endog (max_list z l) false ;;
        blk <- select_cols endog_reg (map (fun lag => lag - 1) (_lags m)) ;;
        Ok [blk]
    end ;;
  ao <- ardl_order m ;;
  x2 <-
    match snd ao with
    | None => Ok []
    | Some _ =>
        let exog :=
          option_map (fun e =>
            {| labels := match orig_exog m with
                         | Some f => labels f
                         | None => None
                         end;
               values := e |}) exog in
        ex <- _format_exog exog (_order m) ;;
        Ok (map snd (fst ex))
    end ;;
  let x3 := if shape1 fixed >? 0 then [fixed] else [] in
  stacked <- column_stack (length det) ([det] ++ x1 ++ x2 ++ x3) ;;
  let stacked := set_rows_nan stacked (_hold_back m) in
  Ok (slice_from stacked start).

(** [_forecasting_x]. *)
Definition _forecasting_x (m : ARDL) (start end_ num_oos : Z)
    (exog exog_oos fixed fixed_oos : option frame) : result xarray :=
  match exog, fixed with
  | None, None =>
      if end_ + 1 <? Z.of_nat (nobs_of m)
      then Ok (shortcut_x m start end_)
      else a <- rebuild_x m start end_ num_oos exog exog_oos fixed fixed_oos ;;
           Ok (Fresh a)
  | _, _ =>
      a <- rebuild_x m start end_ num_oos exog exog_oos fixed fixed_oos ;;
      Ok (Fresh a)
  end.

(** Extended integers: [np.inf] bounds the steps of a model without lags. *)
Inductive ext : Type :=
| Fin (z : Z)
| Inf.

Definition ext_min (a b : ext) : ext :=
  match a, b with
  | Fin x, Fin y => Fin (Z.min x y)
  | Fin x, Inf => Fin x
  | Inf, b => b
  end.

(** [z > a] and [n + a < z] for an integer [z] and a bound [a]. *)
Definition gt_ext (z : Z) (a : ext) : bool :=
  match a with Fin x => z >? x | Inf => false end.

Definition plus_lt_ext (n : Z) (a : ext) (z : Z) : bool :=
  match a with Fin x => n + x <? z | Inf => false end.

(** The maximum number of 1-step predictions that can be made. *)
Definition max_1step (m : ARDL) : result ext :=
  if negb (shape1 (_fixed m) =? 0) || negb (_causal m) then Ok (Fin 0)
  else
    let max_1step :=
      match _lags m with
      | [] => Inf
      | z :: l => Fin (min_list z l)
      end in
    match _order m with
    | [] => Ok max_1step
    | _ :: _ =>
        mins <- map_result py_min (map snd (_order m)) ;;
        min_exog <- py_min mins ;;
        Ok (ext_min max_1step (Fin min_exog))
    end.

Definition same_columns_msg (name : string) : string :=
  (name ++ " must have the same columns as the original exog")%string.

Definition same_ncols_msg (name : string) (k : Z) : string :=
  (name ++ " must have the same number of columns as the "
   ++ "original data, " ++ str_of_Z k)%string.

Definition same_nrows_msg (name : string) (n : Z) : string :=
  (name ++ " must have the same number of rows as the "
   ++ "original data (" ++ str_of_Z n ++ ").")%string.

Definition exog_oos_rows_msg (num_oos : Z) (max_1step : ext) : string :=
  ("exog_oos must have at least "
   ++ match max_1step with
      | Fin x => str_of_Z (num_oos - x)
      | Inf => "-inf"
      end
   ++ " observations to produce " ++ str_of_Z num_oos
   ++ " forecasts based on the model specification.")%string.

Definition fixed_oos_rows_msg (num_oos : Z) : string :=
  ("fixed_oos must have at least " ++ str_of_Z num_oos
   ++ " observations to produce " ++ str_of_Z num_oos
   ++ " forecasts.")%string.

Definition keys_eqb (a b : list key) : bool :=
  Nat.eqb (length a) (length b)
  && forallb (fun p => key_eqb (fst p) (snd p)) (combine a b).

(** [check_exog], the helper of [predict]. *)
Definition check_exog (m : ARDL) (arr : frame) (name : string)
    (orig : option frame) (exact : bool) : result frame :=
  let n := Z.of_nat (nobs_of m) in
  arr <-
    match orig with
    | Some {| labels := Some _ |} =>
        match labels arr with
        | None =>
            Raise (TypeError
              (name ++ " must be a DataFrame when the original exog "
               ++ "was a DataFrame")%string)
        | Some cols =>
            a <- sorted_keys (map KStr cols) ;;
            b <- sorted_keys
                   (match orig_exog m with
                    | Some {| labels := Some names |} => map KStr names
                    | _ => []
                    end) ;;
            if negb (keys_eqb a b)
            then Raise (ValueError (same_columns_msg name))
            else Ok arr
        end
    | _ =>
        if rectangular (values arr)
        then Ok {| labels := None; values := values arr |}
        else Raise (ValueError (name ++ " must have ndim 2")%string)
    end ;;
  match orig with
  | None => Raise (AttributeError "'NoneType' object has no attribute 'shape'")
  | Some orig =>
      if negb (shape1 (values arr) =? shape1 (values orig))
      then Raise (ValueError (same_ncols_msg name (shape1 (values orig))))
      else if exact && negb (shape0 (values arr) =? shape0 (values orig))
      then Raise (ValueError (same_nrows_msg name n))
      else Ok arr
  end.

Definition check_opt (m : ARDL) (arr : option frame) (name : string)
    (orig : option frame) (exact : bool) : result (option frame) :=
  match arr with
  | None => Ok None
  | Some a => a' <- check_exog m a name orig exact ;; Ok (Some a')
  end.

(** Modelled from the spec: [_prepare_prediction] of [AutoReg] is not part
    of this file. For integer positions it defaults [start] to the first
    and [end] to the last observation, counts a negative position from the
    end of the sample, refuses an [end] before [start], and splits off the
    number of steps beyond the sample: the returned [end] never exceeds
    the last observation. *)
Definition _prepare_prediction (nobs : nat) (start end_ : option Z)
  : result (Z * Z * Z) :=
  let n := Z.of_nat nobs in
  let wrap k := if (k <? 0) && (- k <=? n) then k + n else k in
  let start := match start with None => 0 | Some k => wrap k end in
  let end_ := match end_ with None => n - 1 | Some k => wrap k end in
  if (start <? 0) || (end_ <? 0)
  then Raise (IndexError "index out of range")
  else if end_ <? start
  then Raise (ValueError "Prediction must have `end` after `start`.")
  else
    let num_oos := Z.max (end_ - (n - 1)) 0 in
    Ok (start, end_ - num_oos, num_oos).

(** [for ... : state = f(state, a)] where [f] may raise. *)
Fixpoint fold_result {A S : Type} (f : S -> A -> result S) (l : list A)
    (s : S) : result S :=
  match l with
  | [] => Ok s
  | a :: l' => s' <- f s a ;; fold_result f l' s'
  end.

(** [x[i, j] = v]. *)
Definition set_entry (x : matrix) (i j : Z) (v : V) : result matrix :=
  row <- index x i ;;
  row' <- set_index row j v ;;
  set_index x i row'.

(** [x[i] @ params]. *)
Definition row_dot (row params : list V) : result V :=
  if Nat.eqb (length row) (length params) then Ok (dot row params)
  else Raise (ValueError "matmul: mismatch in its core dimension").

(** [enumerate(lags)]. *)
Definition enumerate (l : list Z) : list (Z * Z) :=
  combine (range 0 (Z.of_nat (length l))) l.

(** The inner loop of [predict]: row [i] receives, for the [j]-th lag, the
    forecast at [i - lag] from the dynamic start on and the observation at
    [start + i - lag] before it. *)
Definition fill_lags (m : ARDL) (start dynamic_start offset : Z)
    (fcasts : list V) (i : Z) (x : matrix) : result matrix :=
  fold_result (fun x jl =>
      let j := fst jl in
      let lag := snd jl in
      let loc := i - lag in
      val <- (if loc >=? dynamic_start then index fcasts loc
              else index (endog m) (start + loc)) ;;
      set_entry x i (offset + j) val)
    (enumerate (_lags m)) x.

(** The outer loop of [predict] over [range(dynamic_start, len(fcasts))]. *)
Definition walk_step (m : ARDL) (params : list V)
    (start dynamic_start offset : Z) (st : matrix * list V) (i : Z)
  : result (matrix * list V) :=
  x <- fill_lags m start dynamic_start offset (snd st) i (fst st) ;;
  row <- index x i ;;
  v <- row_dot row params ;;
  fcasts <- set_index (snd st) i v ;;
  Ok (x, fcasts).

Definition walk (m : ARDL) (params : list V) (start dynamic_start offset : Z)
    (x : matrix) (fcasts : list V) : result (matrix * list V) :=
  fold_result (walk_step m params start dynamic_start offset)
    (range dynamic_start (Z.of_nat (length fcasts))) (x, fcasts).

(** Writing through to [self._x]: rows written into a view are rows of the
    model's matrix; a fresh array leaves the model alone. *)
Definition set_x (m : ARDL) (x : matrix) : ARDL :=
  {| endog := endog m; ynames := ynames m; orig_exog := orig_exog m;
     _deterministics := _deterministics m; _hold_back := _hold_back m;
     _causal := _causal m; _fixed := _fixed m;
     _fixed_names := _fixed_names m; _lags := _lags m;
     _maxlag := _maxlag m; _endog_reg := _endog_reg m;
     _endog_lag_names := _endog_lag_names m; _order := _order m;
     _exog := _exog m; _exog_var_names := _exog_var_names m;
     _deterministic_reg := _deterministic_reg m;
     _exog_names := _exog_names m; _x := x; _y := _y m |}.

Definition write_back (m : ARDL) (x : xarray) (final : matrix) : ARDL :=
  match x with
  | View lo n =>
      set_x m (firstn lo (_x m) ++ final ++ skipn (lo + n) (_x m))
  | Fresh _ => m
  end.

(** The state after a [predict] call: the model, the design matrix the
    forecasts were computed from, and the forecasts handed to
    [_wrap_prediction]. *)
Record prediction : Type := {
  p_model : ARDL;
  p_x : matrix;
  p_fcasts : list V
}.

(** The body of [predict], from the prepared [start], [end] and [num_oos]
    on. [dynamic] is [None] for [False] and the offset that
    [_parse_dynamic] returns otherwise ([True] is offset 0). *)
Definition predict_from (m : ARDL) (params : list V) (start end_ num_oos : Z)
    (dynamic : option Z) (exog exog_oos fixed fixed_oos : option frame)
  : result prediction :=
  exog <- check_opt m exog "exog" (orig_exog m) true ;;
  exog_oos <- check_opt m exog_oos "exog_oos" (orig_exog m) false ;;
  let fixed_orig := Some {| labels := None; values := _fixed m |} in
  fixed <- check_opt m fixed "fixed" fixed_orig true ;;
  fixed_oos <-
    check_opt m
      (option_map (fun f => {| labels := None; values := values f |}) fixed_oos)
      "fixed_oos" fixed_orig false ;;
  max_1step <- max_1step m ;;
  let has_order := match _order m with [] => false | _ :: _ => true end in
  let has_fixed := negb (shape1 (_fixed m) =? 0) in
  (if gt_ext num_oos max_1step then
     (match exog_oos with
      | None =>
          if has_order
          then Raise (ValueError
            ("exog_oos must be provided when out-of-sample "
             ++ "observations require values of the exog not in the "
             ++ "original sample")%string)
          else Ok tt
      | Some oos =>
          if has_order && plus_lt_ext (shape0 (values oos)) max_1step num_oos
          then Raise (ValueError (exog_oos_rows_msg num_oos max_1step))
          else Ok tt
      end) ;;;
     (match fixed_oos with
      | None =>
          if has_fixed
          then Raise (ValueError
            ("fixed_oos must be provided when predicting "
             ++ "out-of-sample observations")%string)
          else Ok tt
      | Some oos =>
          if has_fixed && (shape0 (values oos) <? num_oos)
          then Raise (ValueError (fixed_oos_rows_msg num_oos))
          else Ok tt
      end)
   else Ok tt) ;;;
  let exog_oos :=
    match orig_exog m, exog_oos with
    | Some f, None =>
        if num_oos =? 0 then None
        else Some {| labels := labels f;
                     values := full_nan (Z.to_nat num_oos)
                                        (Z.to_nat (shape1 (values f))) |}
    | _, _ => exog_oos
    end in
  x <- _forecasting_x m start end_ num_oos exog exog_oos fixed fixed_oos ;;
  let dynamic_start :=
    match dynamic with
    | None => end_ + 1 - start
    | Some dynamic_step =>
        if start <? _hold_back m
        then Z.max dynamic_step (_hold_back m - start)
        else dynamic_step
    end in
  let rows := rows_of (_x m) x in
  let fcasts := full_nan1 (length rows) in
  static <- matvec (slice_to rows dynamic_start) params ;;
  let fcasts := static ++ skipn (length static) fcasts in
  let offset := shape1 (_deterministic_reg m) in
  st <- walk m params start dynamic_start offset rows fcasts ;;
  Ok {| p_model := write_back m x (fst st);
        p_x := fst st;
        p_fcasts := snd st |}.

(** [ARDL.predict]. *)
Definition predict (m : ARDL) (params : list V) (start end_ : option Z)
    (dynamic : option Z) (exog exog_oos fixed fixed_oos : option frame)
  : result prediction :=
  pp <- _prepare_prediction (nobs_of m) start end_ ;;
  let start := fst (fst pp) in
  let end_ := snd (fst pp) in
  let num_oos := snd pp in
  predict_from m params start end_ num_oos dynamic
               exog exog_oos fixed fixed_oos.

(** [ARDLResults]: the model and the fitted parameters. *)
Record ARDLResults : Type := {
  model : ARDL;
  _params : list V
}.

(** [ARDLResults.predict]. *)
Definition results_predict (res : ARDLResults) (start end_ : option Z)
    (dynamic : option Z) (exog exog_oos fixed fixed_oos : option frame)
  : result prediction :=
  predict (model res) (_params res) start end_ dynamic
          exog exog_oos fixed fixed_oos.

(** [ARDLResults.forecast] for an integer number of [steps]. *)
Definition forecast (res : ARDLResults) (steps : Z)
    (exog fixed : option frame) : result prediction :=
  let start := Z.of_nat (nobs_of (model res)) in
  let end_ := start + steps - 1 in
  results_predict res (Some start) (Some end_) None None exog None fixed.

(** ** Order selection *)

(** A value of an information criterion: a float compared with [<]. *)
Inductive ic_value : Type :=
| IcNaN
| IcNegInf
| IcFin (z : Z)
| IcInf.

Definition ic_ltb (a b : ic_value) : bool :=
  match a, b with
  | IcNaN, _ | _, IcNaN => false
  | _, IcNegInf => false
  | IcNegInf, _ => true
  | IcInf, _ => false
  | IcFin _, IcInf => true
  | IcFin x, IcFin y => x <? y
  end.

Inductive ic_name : Type := aic | bic | hqic.

Definition ics_entry : Type := ic_value * ic_value * ic_value.

(** [ics[key][index]] with [index = {"aic": 0, "bic": 1, "hqic": 2}[ic]]. *)
Definition ic_of (ic : ic_name) (e : ics_entry) : ic_value :=
  match ic with
  | aic => fst (fst e)
  | bic => snd (fst e)
  | hqic => snd e
  end.

(** A selection key: the [lags] and the order mapping of a candidate, as
    they are handed to the constructor. *)
Definition sel_key : Type := lags_spec * list (key * order_value).

(** The criterion table, in the iteration order of the dictionary. *)
Definition ics_table : Type := list (sel_key * ics_entry).

(** The selection loop: the first key whose value is below every value
    seen before it, starting from [np.inf]. *)
Definition select_loop (ics : ics_table) (ic : ic_name)
  : ic_value * option sel_key :=
  fold_left (fun st kv =>
               let val := ic_of ic (snd kv) in
               if ic_ltb val (fst st) then (val, Some (fst kv)) else st)
            ics (IcInf, None).

Definition select_order (ics : ics_table) (ic : ic_name) : result sel_key :=
  match snd (select_loop ics ic) with
  | Some k => Ok k
  | None =>
      Raise (UnboundLocalError
        "local variable 'selected_order' referenced before assignment")
  end.

(** [ardl_select_order]. The enumeration of the candidates and their
    least-squares scores are numerical; [scores] stands for the table they
    fill from the base model. *)
Definition ardl_select_order (args : ARDL_args) (maxlag : Z)
    (maxorder : order_spec) (scores : ARDL -> ics_table) (ic : ic_name)
  : result (ARDL * ics_table) :=
  let with_orders lags order hold_back :=
    {| a_endog := a_endog args; a_ynames := a_ynames args;
       a_lags := lags; a_exog := a_exog args; a_order := order;
       a_det := a_det args; a_fixed := a_fixed args;
       a_causal := a_causal args; a_hold_back := hold_back |} in
  base <- ARDL_init (with_orders (LInt maxlag) maxorder (a_hold_back args)) ;;
  let hold_back := _hold_back base in
  let ics := scores base in
  selected_order <- select_order ics ic ;;
  model <- ARDL_init (with_orders (fst selected_order)
                                  (OMap (snd selected_order))
                                  (Some hold_back)) ;;
  Ok (model, ics).

End Model.

Arguments matrix : clear implicits.
Arguments frame : clear implicits.
Arguments det_process : clear implicits.
Arguments ARDL_args : clear implicits.
Arguments ARDL : clear implicits.
Arguments ARDL_self : clear implicits.
Arguments xarray : clear implicits.
Arguments prediction : clear implicits.
Arguments ARDLResults : clear implicits.

(** ** Closed forms *)

Section ClosedForms.

Context {V : Type} {Sc : Scalar V}.

(** The lags held by the columns of the endogenous block that the
    constructor builds: when there are as many lags as the largest one,
    the block is the whole lag matrix, in the order of [lagmat]. *)
Definition endog_cols (lags : list Z) : list Z :=
  if max_or_0 lags =? Z.of_nat (length lags)
  then range 1 (max_or_0 lags + 1)
  else lags.

Definition column_of (f : option (frame V)) (k : key) : list V :=
  match f with
  | Some f => match get_column f k with Ok c => c | Raise _ => [] end
  | None => []
  end.

Definition exog_part (f : option (frame V)) (order : list (key * list Z))
    (t : nat) : list V :=
  concat (map (fun kv => map (lag_value (column_of f (fst kv)) t) (snd kv))
              order).

(** Row [t] of the stacked blocks: deterministic terms, lags of the
    response, lags of each exogenous variable, fixed regressors. *)
Definition stacked_row (d : det_process V) (y : list V) (ecols : list Z)
    (f : option (frame V)) (order : list (key * list Z)) (fixed : matrix V)
    (t : nat) : list V :=
  det_row d t ++ map (lag_value y t) ecols ++ exog_part f order t
  ++ nth t fixed [].

(** Row [t] of the stacked design matrix of a model. *)
Definition design_row (m : ARDL V) (t : nat) : list V :=
  stacked_row (_deterministics m) (endog m) (endog_cols (_lags m))
              (orig_exog m) (_order m) (_fixed m) t.

(** The data that [_forecasting_x] stacks when no new data is passed: the
    response and the exogenous data followed by [num_oos] missing
    observations. *)
Definition ext_endog (m : ARDL V) (num_oos : Z) : list V :=
  endog m ++ full_nan1 (Z.to_nat num_oos).

Definition ext_exog (m : ARDL V) (num_oos : Z) : option (frame V) :=
  option_map
    (fun f => {| labels := labels f;
                 values := values f
                           ++ full_nan (Z.to_nat num_oos)
                                       (Z.to_nat (shape1 (values f))) |})
    (orig_exog m).

(** Row [t] of the matrix that [_forecasting_x] rebuilds: the lags of the
    response stand in the order of [_lags]. *)
Definition forecast_row (m : ARDL V) (num_oos : Z) (t : nat) : list V :=
  stacked_row (_deterministics m) (ext_endog m num_oos) (_lags m)
              (ext_exog m num_oos) (_order m) (_fixed m) t.

(** A row below the hold-back is missing. *)
Definition nan_below (hold_back : Z) (row_of : nat -> list V) (t : nat)
  : list V :=
  if Z.of_nat t <? hold_back then repeat s_nan (length (row_of t))
  else row_of t.

(** The rows from [start] on of the rebuilt matrix. *)
Definition forecasting_rows (m : ARDL V) (start num_oos : Z) : matrix V :=
  map (nan_below (_hold_back m) (forecast_row m num_oos))
      (seq (Z.to_nat start)
           (nobs_of m + Z.to_nat num_oos - Z.to_nat start)).

(** The rows from [start] on of the matrix stacked by the constructor. *)
Definition design_rows (m : ARDL V) (start : Z) : matrix V :=
  map (nan_below (_hold_back m) (design_row m))
      (seq (Z.to_nat start) (nobs_of m - Z.to_nat start)).

(** The first row that [predict] computes from earlier forecasts:
    [dynamic] is [None] for [False] and the parsed offset otherwise. *)
Definition dynamic_start_of (m : ARDL V) (start end_ : Z)
    (dynamic : option Z) : Z :=
  match dynamic with
  | None => end_ + 1 - start
  | Some dynamic_step =>
      if start <? _hold_back m
      then Z.max dynamic_step (_hold_back m - start)
      else dynamic_step
  end.

(** The out-of-sample exogenous data that [predict] makes up when none is
    passed. *)
Definition default_exog_oos (m : ARDL V) (num_oos : Z) : option (frame V) :=
  match orig_exog m with
  | Some f =>
      if num_oos =? 0 then None
      else Some {| labels := labels f;
                   values := full_nan (Z.to_nat num_oos)
                                      (Z.to_nat (shape1 (values f))) |}
  | None => None
  end.

(** The out-of-sample exogenous data that [_forecasting_x] receives from
    [predict]: the data of the call, or missing values for every step when
    the model has exogenous data and the call has none. *)
Definition extended_exog_oos (m : ARDL V) (num_oos : Z)
    (exog_oos : option (frame V)) : option (frame V) :=
  match orig_exog m, exog_oos with
  | Some f, None =>
      if num_oos =? 0 then None
      else Some {| labels := labels f;
                   values := full_nan (Z.to_nat num_oos)
                                      (Z.to_nat (shape1 (values f))) |}
  | _, _ => exog_oos
  end.

(** The names that [_format_exog] gives the exogenous columns. *)
Definition exog_names_of (f : option (frame V)) (order : list (key * list Z))
  : list (key * list string) :=
  match f with
  | Some f =>
      map (fun kv => (fst kv, lag_names (exog_base f (fst kv)) (snd kv))) order
  | None => []
  end.

(** The smallest element of a list of lags, [np.inf] for none. *)
Definition ext_min_list (l : list Z) : ext :=
  match l with
  | [] => Inf
  | z :: l' => Fin (min_list z l')
  end.

(** The bound of naive forecasting as the specification words it: the
    smaller of the smallest autoregressive lag and the smallest exogenous
    lag for a causal model without fixed regressors, zero otherwise. *)
Definition one_step_bound (m : ARDL V) : ext :=
  if (shape1 (_fixed m) =? 0) && _causal m
  then ext_min (ext_min_list (_lags m))
               (ext_min_list (concat (map snd (_order m))))
  else Fin 0.

(** The concrete scenario of the specification: a response [y] named
    ["y"], one exogenous variable [x] labelled ["x"], [causal=False],
    autoregressive lag 2, exogenous order 1, the default trend. *)
Definition scenario_args (y x : list V) (term : string -> nat -> V)
  : ARDL_args V :=
  {| a_endog := y;
     a_ynames := "y";
     a_lags := LInt 2;
     a_exog := Some {| labels := Some ["x"];
                       values := map (fun v => [v]) x |};
     a_order := OVal (OInt false 1);
     a_det := trend_process Trend_c term;
     a_fixed := None;
     a_causal := false;
     a_hold_back := None |}.

End ClosedForms.

(** ** Predicates of the statements *)

(** Keys of one kind: all column positions, or all labels. *)
Definition same_kind (l : list key) : Prop :=
  Forall (fun k => exists i, k = KInt i) l
  \/ Forall (fun k => exists t, k = KStr t) l.

(** A lag list accepted for one variable: not empty, nothing below
    [int(causal)]. *)
Definition accepted (c : bool) (kv : key * list Z) : Prop :=
  snd kv <> [] /\ forall z, In z (snd kv) -> Z.b2z c <= z.

(** Autoregressive lags are positive. *)
Definition valid_lags (lags : list Z) : Prop := forall z, In z lags -> 1 <= z.

(** The state of the selection loop after the candidates [seen]. *)
Definition loop_inv (ic : ic_name) (seen : ics_table)
    (st : ic_value * option sel_key) : Prop :=
  match snd st with
  | None =>
      fst st = IcInf
      /\ forall kv, In kv seen -> ic_ltb (ic_of ic (snd kv)) IcInf = false
  | Some k =>
      exists i e,
        nth_error seen i = Some (k, e)
        /\ fst st = ic_of ic e
        /\ ic_ltb (fst st) IcInf = true
        /\ (forall kv, In kv seen ->
              ic_ltb (ic_of ic (snd kv)) (fst st) = false)
        /\ (forall j kv, (j < i)%nat -> nth_error seen j = Some kv ->
              ic_ltb (fst st) (ic_of ic (snd kv)) = true
              \/ ic_of ic (snd kv) = IcNaN)
  end.

Section Statements.

Context {V : Type} {Sc : Scalar V}.

(** The rows that [lagmat] followed by a column selection produces. *)
Definition lag_rows (x : list V) (lags : list Z) (n : nat) : matrix V :=
  map (fun t => map (lag_value x t) lags) (seq 0 n).

(** The number of columns of the design matrix. *)
Definition n_columns (m : ARDL V) : Z :=
  Z.of_nat (length (det_terms (_deterministics m)))
  + Z.of_nat (length (endog_cols (_lags m)))
  + Z.of_nat (length (concat (map snd (_order m))))
  + shape1 (_fixed m).

(** The value that the walk writes for a lag of row [i]: the forecast at
    [i - lag] from the dynamic start on, the observation at
    [start + i - lag] before it. *)
Definition lag_source (m : ARDL V) (start dynamic_start : Z)
    (fcasts : list V) (i lag : Z) : V :=
  if i - lag >=? dynamic_start
  then nth (Z.to_nat (i - lag)) fcasts s_nan
  else nth (Z.to_nat (start + i - lag)) (endog m) s_nan.

(** The positions read for row [i] exist. *)
Definition readable (m : ARDL V) (start dynamic_start : Z) (n : nat)
    (i lag : Z) : Prop :=
  if i - lag >=? dynamic_start
  then 0 <= i - lag < Z.of_nat n
  else 0 <= start + i - lag < Z.of_nat (length (endog m)).

(** Row [t] of the walked matrix [X] and forecasts [F], started from the
    matrix [x0]: the forecast is the product of the row with the
    parameters, the lag entries are the values of [lag_source], and the
    other entries are those of [x0]. *)
Definition row_walked (m : ARDL V) (params : list V)
    (start dynamic_start offset : Z) (x0 X : matrix V) (F : list V)
    (t : nat) : Prop :=
  nth t F s_nan = dot (nth t X []) params
  /\ (forall j lag, nth_error (_lags m) j = Some lag ->
        nth (Z.to_nat offset + j) (nth t X []) s_nan
        = lag_source m start dynamic_start F (Z.of_nat t) lag)
  /\ (forall c, (c < Z.to_nat offset)%nat
                \/ (Z.to_nat offset + length (_lags m) <= c)%nat ->
        nth c (nth t X []) s_nan = nth c (nth t x0 []) s_nan).

(** The state of the walk before row [k]. *)
Definition walked (m : ARDL V) (params : list V)
    (start dynamic_start offset : Z) (x0 : matrix V) (f0 : list V)
    (k : nat) (X : matrix V) (F : list V) : Prop :=
  length X = length x0 /\ length F = length f0
  /\ (forall t, (t < Z.to_nat dynamic_start)%nat \/ (k <= t)%nat ->
        nth t X [] = nth t x0 [] /\ nth t F s_nan = nth t f0 s_nan)
  /\ (forall t, length (nth t X []) = length (nth t x0 []))
  /\ (forall t, (Z.to_nat dynamic_start <= t < k)%nat ->
        row_walked m params start dynamic_start offset x0 X F t).

(** What the rows of the forecasting matrix look like: the width of the
    model, and from the hold-back on the deterministic terms of their
    date first. *)
Definition forecasting_shape (m : ARDL V) (start : Z) (rows : matrix V)
  : Prop :=
  forall t, (t < length rows)%nat ->
    Z.of_nat (length (nth t rows [])) = n_columns m
    /\ (_hold_back m <= start + Z.of_nat t ->
        exists tail,
          nth t rows []
          = det_row (_deterministics m) (Z.to_nat start + t) ++ tail).

(** What a [predict] call computes from the forecasting matrix [x0]: the
    rows before the dynamic start are those of [x0] and their forecasts
    are static, the rows from the dynamic start on are walked. *)
Definition predicted (m : ARDL V) (params : list V) (start ds : Z)
    (x0 X : matrix V) (F : list V) : Prop :=
  length X = length x0 /\ length F = length x0
  /\ (forall t, length (nth t X []) = length (nth t x0 []))
  /\ (forall t, (t < Z.to_nat ds)%nat -> (t < length x0)%nat ->
        nth t X [] = nth t x0 []
        /\ nth t F s_nan = dot (nth t x0 []) params)
  /\ (forall t, (Z.to_nat ds <= t < length x0)%nat ->
        row_walked m params start ds (shape1 (_deterministic_reg m))
                   x0 X F t).

(** The bound check of [predict] lets the call through: the steps are
    within the bound, or there are neither exogenous lags nor fixed
    regressors to ask data for. *)
Definition within_bound (m : ARDL V) (num_oos : Z) : Prop :=
  gt_ext num_oos (one_step_bound m) = false
  \/ (_order m = [] /\ shape1 (_fixed m) = 0).

End Statements.

(** ** A small model

    An autoregression of order one on five observations, without
    deterministic terms, exogenous variables or fixed regressors; scalars
    are integers, [None] standing for a missing value. *)

Definition demo_args : ARDL_args (option Z) :=
  {| a_endog := [Some 1; Some 2; Some 4; Some 8; Some 16];
     a_ynames := "y";
     a_lags := LInt 1;
     a_exog := None;
     a_order := OVal (OInt false 0);
     a_det := trend_process Trend_n (fun _ _ => Some 1);
     a_fixed := None;
     a_causal := false;
     a_hold_back := None |}.

(** The model that the constructor builds from [demo_args]. *)
Definition demo_model : ARDL (option Z) :=
  {| endog := [Some 1; Some 2; Some 4; Some 8; Some 16];
     ynames := "y";
     orig_exog := None;
     _deterministics := {| det_terms := [] |};
     _hold_back := 1;
     _causal := true;
     _fixed := [[]; []; []; []; []];
     _fixed_names := [];
     _lags := [1];
     _maxlag := 1;
     _endog_reg := [[Some 0]; [Some 1]; [Some 2]; [Some 4]; [Some 8]];
     _endog_lag_names := ["y.L1"];
     _order := [];
     _exog := [];
     _exog_var_names := [];
     _deterministic_reg := [[]; []; []; []; []];
     _exog_names := ["y.L1"];
     _x := [[Some 1]; [Some 2]; [Some 4]; [Some 8]];
     _y := [Some 2; Some 4; Some 8; Some 16] |}.

Definition demo_results : ARDLResults (option Z) :=
  {| model := demo_model; _params := [Some 3] |}.

(** The state after a dynamic prediction over the dates 1 to 3 of the
    small model. *)
Definition demo_prediction : prediction (option Z) :=
  Eval vm_compute in
    match predict demo_model [Some 3] (Some 1) (Some 3) (Some 0)
                  None None None None with
    | Ok p => p
    | Raise _ => {| p_model := demo_model; p_x := []; p_fcasts := [] |}
    end.

(** The small model with the lags 2 and 1 of the response, in this
    order. *)
Definition demo_unsorted_args : ARDL_args (option Z) :=
  {| a_endog := [Some 1; Some 2; Some 4; Some 8; Some 16; Some 32];
     a_ynames := "y";
     a_lags := LList [2; 1];
     a_exog := None;
     a_order := OVal (OInt false 0);
     a_det := trend_process Trend_n (fun _ _ => Some 1);
     a_fixed := None;
     a_causal := false;
     a_hold_back := None |}.

Definition demo_unsorted_model : ARDL (option Z) :=
  Eval vm_compute in
    match ARDL_init demo_unsorted_args with
    | Ok m => m
    | Raise _ => demo_model
    end.

(** A second small model, with one exogenous variable at the lags 0 and
    1: six observations, the lag 1 of the response, not causal. *)
Definition demo_exog_args : ARDL_args (option Z) :=
  {| a_endog := [Some 1; Some 2; Some 4; Some 8; Some 16; Some 32];
     a_ynames := "y";
     a_lags := LInt 1;
     a_exog := Some {| labels := Some ["x"];
                       values := [[Some 5]; [Some 6]; [Some 7]; [Some 8];
                                  [Some 9]; [Some 10]] |};
     a_order := OVal (OInt false 1);
     a_det := trend_process Trend_n (fun _ _ => Some 1);
     a_fixed := None;
     a_causal := false;
     a_hold_back := None |}.

Definition demo_exog_model : ARDL (option Z) :=
  Eval vm_compute in
    match ARDL_init demo_exog_args with
    | Ok m => m
    | Raise _ => demo_model
    end.

(** A response and an exogenous variable of 100 observations. *)
Definition scenario_y : list (option Z) :=
  map (fun i => Some (2 * i)) (range 0 100).

Definition scenario_x : list (option Z) :=
  map (fun i => Some (i + 7)) (range 0 100).

(** ** Further functions and inputs *)

(** A model with two labelled exogenous variables at lag 0 and the lag 1
    of the response, on six observations. *)
Definition demo_two_args : ARDL_args (option Z) :=
  {| a_endog := [Some 1; Some 2; Some 4; Some 8; Some 16; Some 32];
     a_ynames := "y";
     a_lags := LInt 1;
     a_exog := Some {| labels := Some ["a"; "b"];
                       values := [[Some 1; Some 10]; [Some 2; Some 20];
                                  [Some 3; Some 30]; [Some 4; Some 40];
                                  [Some 5; Some 50]; [Some 6; Some 60]] |};
     a_order := OVal (OInt false 0);
     a_det := trend_process Trend_n (fun _ _ => Some 1);
     a_fixed := None;
     a_causal := false;
     a_hold_back := None |}.

Definition demo_two_model : ARDL (option Z) :=
  Eval vm_compute in
    match ARDL_init demo_two_args with
    | Ok m => m
    | Raise _ => demo_model
    end.

(** Replacement data for [demo_two_model]: the same values under the
    labels of the model and under the labels in the other order. *)
Definition demo_two_values : matrix (option Z) :=
  [[Some 7; Some 70]; [Some 8; Some 80]; [Some 9; Some 90];
   [Some 1; Some 10]; [Some 2; Some 20]; [Some 3; Some 30]].

Definition demo_exog_ab : frame (option Z) :=
  {| labels := Some ["a"; "b"]; values := demo_two_values |}.

Definition demo_exog_ba : frame (option Z) :=
  {| labels := Some ["b"; "a"]; values := demo_two_values |}.

Section NewDataShapes.

Context {V : Type}.

(** [exog_oos[:n]]: the first [n] rows, under the same labels. *)
Definition head_rows (oos : frame V) (n : Z) : frame V :=
  {| labels := labels oos; values := slice_to (values oos) n |}.

End NewDataShapes.

(** A causal model: the lag 1 of the response and the lag 1 of one
    exogenous variable, on six observations. *)
Definition demo_causal_args : ARDL_args (option Z) :=
  {| a_endog := [Some 1; Some 2; Some 4; Some 8; Some 16; Some 32];
     a_ynames := "y";
     a_lags := LInt 1;
     a_exog := Some {| labels := Some ["x"];
                       values := [[Some 5]; [Some 6]; [Some 7]; [Some 8];
                                  [Some 9]; [Some 10]] |};
     a_order := OVal (OInt false 1);
     a_det := trend_process Trend_n (fun _ _ => Some 1);
     a_fixed := None;
     a_causal := true;
     a_hold_back := None |}.

Definition demo_causal_model : ARDL (option Z) :=
  Eval vm_compute in
    match ARDL_init demo_causal_args with
    | Ok m => m
    | Raise _ => demo_model
    end.

(** Out-of-sample data for the models with one exogenous variable. *)
Definition demo_oos_1 : frame (option Z) :=
  {| labels := Some ["x"]; values := [[Some 11]] |}.

Definition demo_oos_3 : frame (option Z) :=
  {| labels := Some ["x"]; values := [[Some 11]; [Some 12]; [Some 13]] |}.


(** A causal model whose smallest exogenous lag is below its smallest
    lag of the response: the lag 2 of the response and the lag 1 of one
    exogenous variable, on six observations. *)
Definition demo_lagged_args : ARDL_args (option Z) :=
  {| a_endog := [Some 1; Some 2; Some 4; Some 8; Some 16; Some 32];
     a_ynames := "y";
     a_lags := LList [2];
     a_exog := Some {| labels := Some ["x"];
                       values := [[Some 5]; [Some 6]; [Some 7]; [Some 8];
                                  [Some 9]; [Some 10]] |};
     a_order := OVal (OInt false 1);
     a_det := trend_process Trend_n (fun _ _ => Some 1);
     a_fixed := None;
     a_causal := true;
     a_hold_back := None |}.

Definition demo_lagged_model : ARDL (option Z) :=
  Eval vm_compute in
    match ARDL_init demo_lagged_args with
    | Ok m => m
    | Raise _ => demo_model
    end.

(** ** The lag polynomial *)

(** The sign and the unit of array entries, for [_lag_repr]. *)
Class Signed (V : Type) : Type := {
  s_one : V;
  s_neg : V -> V
}.

#[export] Instance Signed_optZ : Signed (option Z) := {
  s_one := Some 1;
  s_neg := option_map Z.opp
}.

Section LagPolynomial.

Context {V : Type} {Sc : Scalar V} {Sg : Signed V}.

(** [ARDL.ar_lags]: [None] for a model without lags of the response. *)
Definition ar_lags (m : ARDL V) : option (list Z) :=
  match _lags m with
  | [] => None
  | _ :: _ => Some (_lags m)
  end.

(** [ARDLResults._lag_repr], with the [_ar_lags] and the [_max_lag] that
    [ARDLResults.__init__] reads from the model. *)
Definition _lag_repr (res : ARDLResults V) : result (list V) :=
  let ar_lags :=
    match ar_lags (model res) with Some l => l | None => [] end in
  let k_ar := Z.of_nat (length ar_lags) in
  let max_lag := max_or_0 ar_lags in
  let ar_params := repeat s_zero (Z.to_nat (max_lag + 1)) in
  ar_params <- set_index ar_params 0 s_one ;;
  let offset := shape1 (_deterministic_reg (model res)) in
  let params := slice (_params res) offset (offset + k_ar) in
  fold_result (fun ar il =>
      p <- index params (fst il) ;;
      set_index ar (snd il) (s_neg p))
    (enumerate ar_lags) ar_params.

End LagPolynomial.

(** ** The candidates of the order selection *)

(** [itertools.product] of the lists [ls]: the last position varies
    fastest. *)
Fixpoint product (ls : list (list Z)) : list (list Z) :=
  match ls with
  | [] => [[]]
  | l :: ls' => flat_map (fun a => map (cons a) (product ls')) l
  end.

(** [itertools.combinations(l, r)], in lexicographic order. *)
Fixpoint combinations (l : list Z) (r : nat) {struct l} : list (list Z) :=
  match r, l with
  | O, _ => [[]]
  | S _, [] => []
  | S r', a :: l' => map (cons a) (combinations l' r') ++ combinations l' r
  end.

(** The key of a candidate of the nested search: [io[0] if io[0] else
    None], then for the [j]-th variable [None if val == 0 else val] when
    causal and [val - 1 if val - 1 >= 0 else None] otherwise. *)
Definition nested_entry (causal : bool) (val : Z) : order_value :=
  if causal
  then (if val =? 0 then ONone else OInt false val)
  else (if val - 1 >=? 0 then OInt false (val - 1) else ONone).

Definition nested_key (causal : bool) (var_names : list key) (io : list Z)
  : result sel_key :=
  io0 <- index io 0 ;;
  entries <-
    map_result (fun jv =>
        var <- index var_names (fst jv) ;;
        Ok (var, nested_entry causal (snd jv)))
      (enumerate (slice_from io 1)) ;;
  Ok (if io0 =? 0 then LNone else LInt io0, entries).

(** A column of the global search: [None] for a lag of the response or
    the key of an exogenous variable, and the lag. *)
Definition column_key : Type := option key * Z.

(** [d[k].append(v)] on a [defaultdict(list)]: a new key enters last. *)
Fixpoint dict_append (d : list (key * list Z)) (k : key) (v : Z)
  : list (key * list Z) :=
  match d with
  | [] => [(k, [v])]
  | (k', l) :: d' =>
      if key_eqb k' k then (k', l ++ [v]) :: d'
      else (k', l) :: dict_append d' k v
  end.

(** [d[k] = v] for a key that is not in [d] yet, and nothing otherwise. *)
Definition dict_default {B : Type} (d : list (key * B)) (k : key) (v : B)
  : list (key * B) :=
  if key_in k (map fst d) then d else d ++ [(k, v)].

(** [perm_to_tuple]. *)
Definition perm_to_tuple (keys : list column_key) (perm : list Z)
  : result sel_key :=
  match perm with
  | [] =>
      let d :=
        fold_left (fun d ck =>
            match fst ck with
            | Some k => dict_default d k (OInt false 0)
            | None => d
            end) keys [] in
      Ok (LInt 0, d)
  | _ :: _ =>
      st <-
        fold_result (fun (st : list (key * list Z) * list Z) v =>
            ck <- index keys v ;;
            match fst ck with
            | None => Ok (fst st, snd st ++ [snd ck])
            | Some k => Ok (dict_append (fst st) k (snd ck), snd st)
            end) perm ([], []) ;;
      let d := map (fun kv => (fst kv, Some (snd kv))) (fst st) in
      let y_lags :=
        match snd st with
        | [] => LInt 0
        | [0] => LInt 0
        | l => LList l
        end in
      let d :=
        fold_left (fun d ck =>
            match fst ck with
            | Some k => dict_default d k None
            | None => d
            end) keys d in
      Ok (y_lags,
          map (fun kv =>
                 (fst kv,
                  match snd kv with
                  | None => ONone
                  | Some l => OSeq (map EInt l)
                  end)) d)
  end.

Section Candidates.

Context {V : Type} {Sc : Scalar V}.

(** The blocks that the search selects columns from, [iter_orders] and
    [var_names]. An array without rows counts as an array without
    columns, which it is for a constructed model, whose design matrix has
    no more columns than rows. *)
Definition select_blocks (base : ARDL V) : list (matrix V) :=
  slice_from (_endog_reg base) (_hold_back base)
  :: map (fun kb => slice_from (snd kb) (_hold_back base)) (_exog base).

Definition iter_orders (base : ARDL V) : list (list Z) :=
  range 0 (shape1 (_endog_reg base) + 1)
  :: map (fun kb =>
            range 0 (shape1 (slice_from (snd kb) (_hold_back base)) + 1))
         (_exog base).

Definition var_names (base : ARDL V) : list key := map fst (_exog base).

(** The keys that the nested search fills [ics] with, in the order of the
    loop. *)
Definition nested_keys (base : ARDL V) (causal : bool)
  : result (list sel_key) :=
  map_result (nested_key causal (var_names base)) (product (iter_orders base)).

(** The columns of the global search, and the subsets of their positions
    that it scores: [x.shape[1]] is the number of columns of the stacked
    blocks. *)
Definition glob_columns (base : ARDL V) : list column_key :=
  map (fun i => (None, i))
      (match @ar_lags V base with Some l => l | None => [] end)
  ++ flat_map (fun kv => map (fun i => (Some (fst kv), i)) (snd kv))
              (_order base).

Definition glob_width (base : ARDL V) : Z :=
  fold_right Z.add 0 (map (@shape1 V) (select_blocks base)).

Definition glob_perms (base : ARDL V) : list (list Z) :=
  let all_columns := range 0 (glob_width base) in
  flat_map (fun i => combinations all_columns (Z.to_nat i))
           (range 0 (glob_width base)).


End Candidates.

(** ** Closed forms of the candidates *)

(** The key of the nested candidate that takes the first [k0] lags of
    the response and the first [k] lags of each variable. *)
Definition nested_key_of (causal : bool) (vars : list key) (k0 : Z)
    (ks : list Z) : sel_key :=
  (if k0 =? 0 then LNone else LInt k0,
   map (fun vk => (fst vk, nested_entry causal (snd vk))) (combine vars ks)).

(** The first [k] lags of each variable; a variable without lags is left
    out. *)
Definition prefix_orders (order : list (key * list Z)) (ks : list Z)
  : list (key * list Z) :=
  concat (map (fun p =>
                 if snd p =? 0 then []
                 else [(fst (fst p), firstn (Z.to_nat (snd p)) (snd (fst p)))])
              (combine order ks)).

(** [p] selects entries of [l], in the order of [l]. *)
Inductive subseq {A : Type} : list A -> list A -> Prop :=
| subseq_nil : forall l, subseq [] l
| subseq_take : forall a p l, subseq p l -> subseq (a :: p) (a :: l)
| subseq_skip : forall a p l, subseq p l -> subseq p (a :: l).

Section SelectionArguments.

Context {V : Type}.

(** The arguments that [ardl_select_order] hands to the constructor: its
    own, with the lags, the order and the [hold_back] of the call. *)
Definition with_orders (args : ARDL_args V) (lags : lags_spec)
    (order : order_spec) (hold_back : option Z) : ARDL_args V :=
  {| a_endog := a_endog args; a_ynames := a_ynames args;
     a_lags := lags; a_exog := a_exog args; a_order := order;
     a_det := a_det args; a_fixed := a_fixed args;
     a_causal := a_causal args; a_hold_back := hold_back |}.

End SelectionArguments.

(** A table in which the candidate without columns has the lowest
    value. *)
Definition demo_empty_best (base : ARDL (option Z)) : ics_table :=
  [((LInt 1, [(KStr "x", OSeq [EInt 1])]), (IcFin 5, IcFin 5, IcFin 5));
   ((LInt 0, [(KStr "x", OInt false 0)]), (IcFin 2, IcFin 2, IcFin 2))].


(** The exogenous data of [demo_exog_args], and a shorter frame with an
    order that skips a lag. *)
Definition demo_x_frame : frame (option Z) :=
  {| labels := Some ["x"];
     values := [[Some 5]; [Some 6]; [Some 7]; [Some 8]; [Some 9];
                [Some 10]] |}.

Definition demo_short_frame : frame (option Z) :=
  {| labels := Some ["x"]; values := [[Some 5]; [Some 6]; [Some 7]] |}.

Definition demo_skip_order : list (key * list Z) := [(KStr "x", [0; 2])].

(** ** Estimation *)

Section Estimation.

Context {V : Type} {Sc : Scalar V}.

(** [ARDL.fit]: a model without columns gets the empty parameter vector
    without estimation; otherwise the parameters are those of [OLS], which
    is not part of this file and stands as [ols] here. Only the model and
    the parameters of the results are kept. *)
Definition fit (ols : list V -> matrix V -> list V) (m : ARDL V)
  : ARDLResults V :=
  if shape1 (_x m) =? 0
  then {| model := m; _params := [] |}
  else {| model := m; _params := ols (_y m) (_x m) |}.

End Estimation.

(** A table over two candidates of the nested search on
    [demo_exog_model]. *)
Definition demo_nested_scores (base : ARDL (option Z)) : ics_table :=
  [((LNone, [(KStr "x", OInt false 0)]), (IcFin 3, IcFin 3, IcFin 3));
   ((LInt 1, [(KStr "x", ONone)]), (IcFin 1, IcFin 1, IcFin 1))].

Definition demo_nested_keys : list sel_key :=
  Eval vm_compute in
    match nested_keys demo_exog_model false with
    | Ok keys => keys
    | Raise _ => []
    end.

(** A model without any column: no lags, no deterministic terms, no
    exogenous variables. *)
Definition demo_bare_args : ARDL_args (option Z) :=
  {| a_endog := [Some 1; Some 2; Some 4];
     a_ynames := "y";
     a_lags := LInt 0;
     a_exog := None;
     a_order := OVal (OInt false 0);
     a_det := trend_process Trend_n (fun _ _ => Some 1);
     a_fixed := None;
     a_causal := false;
     a_hold_back := None |}.

Definition demo_bare_model : ARDL (option Z) :=
  Eval vm_compute in
    match ARDL_init demo_bare_args with
    | Ok m => m
    | Raise _ => demo_model
    end.

(** The columns that a selection of the global search takes, and the
    lags among them of the response ([None]) or of a variable. *)
Definition selected_columns (cols : list column_key) (perm : list Z)
  : list column_key :=
  map (fun v => nth (Z.to_nat v) cols (None, 0)) perm.

Definition same_variable (a b : option key) : bool :=
  match a, b with
  | None, None => true
  | Some x, Some y => key_eqb x y
  | _, _ => false
  end.

Definition selected_lags (sel : list column_key) (k : option key) : list Z :=
  map snd (filter (fun ck => same_variable (fst ck) k) sel).

(** * Properties *)

(** ** Python conventions *)

Section PyFacts.

Lemma in_range (a b z : Z) : In z (range a b) <-> a <= z < b.
Proof.
  unfold range. rewrite in_map_iff. split.
  - intros [i [<- Hi]]. apply in_seq in Hi. lia.
  - intros H. exists (Z.to_nat (z - a)). split; [lia|].
    apply in_seq. lia.
Qed.

Lemma range_length (a b : Z) : length (range a b) = Z.to_nat (b - a).
Proof. unfold range. now rewrite length_map, length_seq. Qed.

Lemma range_nth (a b : Z) (i : nat) (d : Z) :
  (i < Z.to_nat (b - a))%nat -> nth i (range a b) d = a + Z.of_nat i.
Proof.
  intros H. unfold range.
  rewrite nth_indep with (d' := a + Z.of_nat 0)
    by (rewrite length_map, length_seq; exact H).
  rewrite (map_nth (fun i => a + Z.of_nat i) (seq 0 (Z.to_nat (b - a))) O i).
  now rewrite seq_nth.
Qed.

Lemma range_NoDup (a b : Z) : NoDup (range a b).
Proof.
  unfold range. apply NoDup_map_inv with (f := fun z => z - a).
  rewrite map_map.
  rewrite map_ext with (g := Z.of_nat) by (intros i; lia).
  generalize (seq_NoDup (Z.to_nat (b - a)) 0).
  generalize (seq 0 (Z.to_nat (b - a))).
  induction 1 as [|x l Hx Hl IH]; cbn; constructor; [|exact IH].
  rewrite in_map_iff. intros [y [Hy Hin]].
  apply Nat2Z.inj in Hy. now subst.
Qed.

Lemma range_empty (a b : Z) : b <= a -> range a b = [].
Proof.
  intros H. unfold range. replace (Z.to_nat (b - a)) with O by lia.
  reflexivity.
Qed.

Lemma range_cons (a b : Z) : a < b -> range a b = a :: range (a + 1) b.
Proof.
  intros H. unfold range.
  replace (Z.to_nat (b - a)) with (S (Z.to_nat (b - (a + 1)))) by lia.
  cbn [seq map]. f_equal; [lia|].
  rewrite <- seq_shift, map_map. apply map_ext. intros i. lia.
Qed.

Lemma key_eqb_eq (a b : key) : key_eqb a b = true <-> a = b.
Proof.
  destruct a, b; cbn; split; intros H; try discriminate.
  - apply Z.eqb_eq in H. now subst.
  - injection H as ->. apply Z.eqb_refl.
  - apply String.eqb_eq in H. now subst.
  - injection H as ->. apply String.eqb_refl.
Qed.

Lemma key_in_In (k : key) (l : list key) : key_in k l = true <-> In k l.
Proof.
  unfold key_in. rewrite existsb_exists. split.
  - intros [x [Hx He]]. apply key_eqb_eq in He. now subst.
  - intros H. exists k. split; [exact H|]. now apply key_eqb_eq.
Qed.



End PyFacts.

(** ** The order validator *)

Section OrderValidator.

Lemma final_order_int (c : bool) (k : Z) (keys : list key) :
  final_order c (map (fun key => (key, OInt false k)) keys)
  = Ok (map (fun key => (key, range (Z.b2z c) (k + 1))) keys).
Proof.
  unfold final_order.
  assert (H : map_result (expand_order c)
                (map (fun key => (key, OInt false k)) keys)
              = Ok (map (fun key => [(key, range (Z.b2z c) (k + 1))]) keys)).
  { induction keys as [|a keys IH]; [reflexivity|].
    cbn [map map_result]. rewrite IH. reflexivity. }
  rewrite H. cbn [bind]. f_equal. clear H.
  induction keys as [|a keys IH]; [reflexivity|].
  cbn [map concat app]. now rewrite IH.
Qed.

(** C7. For an integer order [k] and a causal flag [c], [_check_order]
    raises exactly when [k < int(c)]; with exogenous variables present,
    [_format_order] raises in that case and otherwise gives every variable
    the lags [int(c), ..., k], each once. *)
Theorem integer_order_rule (np c : bool) (k : Z) (keys : list key) :
  (is_raise (_check_order (OInt np k) c) <-> k < Z.b2z c)
  /\ (k < Z.b2z c ->
      is_raise (snd (_format_order (Some keys) (OVal (OInt np k)) c)))
  /\ (Z.b2z c <= k ->
      _format_order (Some keys) (OVal (OInt np k)) c
      = ([], Ok (map (fun key => (key, range (Z.b2z c) (k + 1))) keys)))
  /\ (forall z, In z (range (Z.b2z c) (k + 1)) <-> Z.b2z c <= z <= k)
  /\ NoDup (range (Z.b2z c) (k + 1)).
Proof.
  repeat split.
  - intros [e He]. cbn in He.
    destruct (Z.ltb_spec k (Z.b2z c)); [assumption | discriminate].
  - intros H. cbn. apply Z.ltb_lt in H. rewrite H. eexists. reflexivity.
  - intros H. cbn. apply Z.ltb_lt in H. rewrite H. cbn.
    eexists. reflexivity.
  - intros H. cbn.
    destruct (Z.ltb_spec k (Z.b2z c)); [lia|]. cbn.
    now rewrite final_order_int.
  - rewrite in_range in H. lia.
  - rewrite in_range in H. lia.
  - intros H. apply in_range. lia.
  - apply range_NoDup.
Qed.

Lemma for_each_check_ok (c : bool) (d : list (key * order_value)) :
  (forall kv, In kv d -> _check_order (snd kv) c = Ok true) ->
  for_each (fun kv => _check_order (snd kv) c ;;; Ok tt) d = Ok tt.
Proof.
  induction d as [|kv d IH]; cbn; intros H; [reflexivity|].
  rewrite (H kv) by now left. cbn. apply IH. intros kv' Hin.
  apply H. now right.
Qed.


Lemma final_order_keys (c : bool) (d : list (key * order_value))
    (fo : list (key * list Z)) :
  final_order c d = Ok fo -> incl (map fst fo) (map fst d).
Proof.
  unfold final_order. revert fo.
  induction d as [|kv d IH]; cbn; intros fo H.
  - injection H as <-. intros x [].
  - destruct (expand_order c kv) as [b|] eqn:Eb; cbn in H; try discriminate.
    destruct (map_result (expand_order c) d) as [bs|] eqn:Ebs; cbn in H;
      try discriminate.
    injection H as <-. rewrite map_app.
    specialize (IH (concat bs) eq_refl).
    intros x Hx. apply in_app_or in Hx. destruct Hx as [Hx|Hx].
    + left. unfold expand_order in Eb.
      destruct (snd kv) as [|[|] z|l]; try discriminate;
        injection Eb as <-; cbn in Hx; try contradiction;
        destruct Hx as [<-|[]]; reflexivity.
    + right. now apply IH.
Qed.

Lemma insert_key_same_kind (P : key -> Prop) (k : key) (l : list key) :
  (forall a b, P a -> P b -> key_leb a b <> None) ->
  P k -> Forall P l -> exists s, insert_key k l = Ok s /\ Forall P s.
Proof.
  intros Hcmp Hk Hl. induction Hl as [|h t Hh Ht IH]; cbn.
  - eexists. split; [reflexivity|]. now constructor.
  - destruct (key_leb k h) as [[|]|] eqn:E.
    + eexists. split; [reflexivity|]. now repeat constructor.
    + destruct IH as [s [-> Hs]]. cbn. eexists. split; [reflexivity|].
      now constructor.
    + now apply Hcmp in E.
Qed.

Lemma sorted_keys_same_kind (P : key -> Prop) (l : list key) :
  (forall a b, P a -> P b -> key_leb a b <> None) ->
  Forall P l -> exists s, sorted_keys l = Ok s /\ Forall P s.
Proof.
  intros Hcmp Hl. induction Hl as [|k l Hk Hl IH]; cbn.
  - eexists. split; [reflexivity|]. constructor.
  - destruct IH as [s [-> Hs]]. cbn. now apply insert_key_same_kind.
Qed.

Lemma sorted_keys_ok (l : list key) :
  same_kind l -> is_ok (sorted_keys l).
Proof.
  intros [H|H];
    (eapply sorted_keys_same_kind in H; [destruct H as [s [Hs _]]; now exists
        s|]);
    intros a b [i ->] [j ->]; cbn; discriminate.
Qed.

Lemma keys_of_same_kind (lbl : option (list string)) (n : nat) :
  same_kind (keys_of lbl n).
Proof.
  destruct lbl as [names|]; cbn; [right|left];
    apply Forall_forall; intros k Hk; apply in_map_iff in Hk;
    destruct Hk as [x [<- _]]; eexists; reflexivity.
Qed.

Lemma same_kind_filter (f : key -> bool) (l : list key) :
  same_kind l -> same_kind (filter f l).
Proof.
  intros [H|H]; [left|right]; rewrite Forall_forall in *; intros k Hk;
    apply filter_In in Hk; now apply H.
Qed.

Lemma unique_keys_In (l : list key) (k : key) :
  In k (unique_keys l) <-> In k l.
Proof.
  induction l as [|a l IH]; cbn; [reflexivity|].
  destruct (key_in a l) eqn:E.
  - rewrite IH. split; [now right|]. intros [<-|H]; [|assumption].
    now apply key_in_In.
  - cbn. now rewrite IH.
Qed.


Lemma same_kind_incl (l l' : list key) :
  incl l' l -> same_kind l -> same_kind l'.
Proof.
  intros Hi [H|H]; [left|right]; rewrite Forall_forall in *; intros k Hk;
    apply H, Hi, Hk.
Qed.

Lemma missing_keys_In (keys : list key) (d : list (key * order_value))
    (k : key) :
  In k (missing_keys keys d) <-> In k keys /\ ~ In k (map fst d).
Proof.
  unfold missing_keys. rewrite filter_In, unique_keys_In, negb_true_iff.
  split; intros [H1 H2]; (split; [assumption|]).
  - intros Hin. apply key_in_In in Hin. congruence.
  - destruct (key_in k _) eqn:E; [|reflexivity].
    exfalso. now apply H2, key_in_In.
Qed.

Lemma extra_keys_In (keys : list key) (d : list (key * order_value))
    (k : key) :
  In k (extra_keys keys d) <-> In k (map fst d) /\ ~ In k keys.
Proof.
  unfold extra_keys. rewrite filter_In, unique_keys_In, negb_true_iff.
  split; intros [H1 H2]; (split; [assumption|]).
  - intros Hin. apply key_in_In in Hin. congruence.
  - destruct (key_in k _) eqn:E; [|reflexivity].
    exfalso. now apply H2, key_in_In.
Qed.



Lemma missing_keys_same_kind (keys : list key)
    (d : list (key * order_value)) :
  same_kind keys -> same_kind (missing_keys keys d).
Proof.
  apply same_kind_incl. intros k Hk. now apply missing_keys_In in Hk.
Qed.










End OrderValidator.

(** ** Lists, indices and slices *)

Section ListFacts.

Context {A B : Type}.

Lemma bind_ok {X Y : Type} (r : result X) (k : X -> result Y) (y : Y) :
  bind r k = Ok y -> exists x, r = Ok x /\ k x = Ok y.
Proof. destruct r as [x|e]; cbn; [eauto | discriminate]. Qed.

Lemma index_ok (l : list A) (i : Z) (d : A) :
  0 <= i < Z.of_nat (length l) -> index l i = Ok (nth (Z.to_nat i) l d).
Proof.
  intros H. unfold index.
  destruct (Z.ltb_spec i 0); [lia|].
  destruct (Z.ltb_spec i 0); [lia|].
  destruct (Z.leb_spec (Z.of_nat (length l)) i); [lia|]. cbn.
  destruct (nth_error l (Z.to_nat i)) as [a|] eqn:E.
  - now rewrite (nth_error_nth _ _ d E).
  - apply nth_error_None in E. lia.
Qed.

Lemma index_inv (l : list A) (i : Z) (a d : A) :
  0 <= i -> index l i = Ok a ->
  i < Z.of_nat (length l) /\ nth (Z.to_nat i) l d = a.
Proof.
  intros Hi H. unfold index in H.
  destruct (Z.ltb_spec i 0); [lia|].
  destruct (Z.ltb_spec i 0); [lia|].
  destruct (Z.leb_spec (Z.of_nat (length l)) i); cbn in H; [discriminate|].
  split; [assumption|].
  destruct (nth_error l (Z.to_nat i)) as [a'|] eqn:E; [|discriminate].
  injection H as <-. now apply nth_error_nth.
Qed.

Lemma set_index_ok (l : list A) (i : Z) (v : A) :
  0 <= i < Z.of_nat (length l) ->
  set_index l i v = Ok (set_nth l (Z.to_nat i) v).
Proof.
  intros H. unfold set_index.
  destruct (Z.ltb_spec i 0); [lia|].
  destruct (Z.ltb_spec i 0); [lia|].
  destruct (Z.leb_spec (Z.of_nat (length l)) i); [lia|]. reflexivity.
Qed.

Lemma set_nth_length (l : list A) (i : nat) (v : A) :
  length (set_nth l i v) = length l.
Proof.
  revert i. induction l as [|a l IH]; intros [|i]; cbn; auto.
Qed.

Lemma set_nth_same (l : list A) (i : nat) (v d : A) :
  (i < length l)%nat -> nth i (set_nth l i v) d = v.
Proof.
  revert i. induction l as [|a l IH]; intros [|i] H; cbn in *; try lia.
  - reflexivity.
  - apply IH. lia.
Qed.

Lemma set_nth_other (l : list A) (i j : nat) (v d : A) :
  i <> j -> nth j (set_nth l i v) d = nth j l d.
Proof.
  revert i j. induction l as [|a l IH]; intros [|i] [|j] H; cbn;
    try reflexivity; try lia.
  apply IH. lia.
Qed.

Lemma set_nth_firstn (l : list A) (i n : nat) (v : A) :
  (n <= i)%nat -> firstn n (set_nth l i v) = firstn n l.
Proof.
  revert i n. induction l as [|a l IH]; intros [|i] [|n] H; cbn;
    try reflexivity; try lia.
  f_equal. apply IH. lia.
Qed.

Lemma map_result_ok (f : A -> result B) (g : A -> B) (l : list A) :
  (forall a, In a l -> f a = Ok (g a)) -> map_result f l = Ok (map g l).
Proof.
  induction l as [|a l IH]; intros H; cbn; [reflexivity|].
  rewrite (H a) by now left. cbn. rewrite IH; [reflexivity|].
  intros b Hb. apply H. now right.
Qed.

Lemma map_result_inv (f : A -> result B) (l : list A) (bs : list B) :
  map_result f l = Ok bs -> Forall2 (fun a b => f a = Ok b) l bs.
Proof.
  revert bs. induction l as [|a l IH]; cbn; intros bs H.
  - injection H as <-. constructor.
  - apply bind_ok in H. destruct H as [b [Hb H]].
    apply bind_ok in H. destruct H as [bs' [Hbs H]].
    injection H as <-. constructor; auto.
Qed.

Lemma map_result_length (f : A -> result B) (l : list A) (bs : list B) :
  map_result f l = Ok bs -> length bs = length l.
Proof.
  intros H. apply map_result_inv in H. symmetry.
  eapply Forall2_length. exact H.
Qed.

Lemma list_as_map_nth (l : list A) (d : A) :
  l = map (fun t => nth t l d) (seq 0 (length l)).
Proof.
  induction l as [|a l IH]; cbn; [reflexivity|]. f_equal.
  rewrite <- seq_shift, map_map. exact IH.
Qed.

Lemma clamp_in_range (n : nat) (i : Z) :
  0 <= i <= Z.of_nat n -> clamp n i = Z.to_nat i.
Proof.
  intros H. unfold clamp. destruct (Z.ltb_spec i 0); lia.
Qed.

Lemma clamp_above (n : nat) (i : Z) : Z.of_nat n <= i -> clamp n i = n.
Proof.
  intros H. unfold clamp. destruct (Z.ltb_spec i 0); lia.
Qed.

Lemma clamp_le (n : nat) (i : Z) : (clamp n i <= n)%nat.
Proof. unfold clamp. destruct (Z.ltb_spec i 0); lia. Qed.

Lemma skipn_map_seq (f : nat -> A) (a n k : nat) :
  (k <= n)%nat ->
  skipn k (map f (seq a n)) = map f (seq (a + k) (n - k)).
Proof.
  intros H. rewrite skipn_map. f_equal.
  replace n with (k + (n - k))%nat at 1 by lia.
  rewrite seq_app, skipn_app, length_seq, Nat.sub_diag.
  rewrite skipn_all2 by (rewrite length_seq; lia). reflexivity.
Qed.

Lemma firstn_map_seq (f : nat -> A) (a n k : nat) :
  (k <= n)%nat -> firstn k (map f (seq a n)) = map f (seq a k).
Proof.
  intros H. rewrite firstn_map. f_equal.
  replace n with (k + (n - k))%nat by lia.
  rewrite seq_app, firstn_app, length_seq, Nat.sub_diag.
  rewrite firstn_all2 by (rewrite length_seq; lia).
  cbn. apply app_nil_r.
Qed.

End ListFacts.

(** ** The lag-matrix builder *)

Section LagFacts.

Context {V : Type} {Sc : Scalar V}.

Lemma max_list_ge (l : list Z) (d : Z) :
  d <= max_list d l /\ forall z, In z l -> z <= max_list d l.
Proof.
  unfold max_list. revert d. induction l as [|a l IH]; intros d; cbn.
  - split; [lia | contradiction].
  - destruct (IH (Z.max d a)) as [H1 H2]. split; [lia|].
    intros z [<-|Hz]; [lia | now apply H2].
Qed.

Lemma max_list_in (l : list Z) (d : Z) : In (max_list d l) (d :: l).
Proof.
  unfold max_list. revert d. induction l as [|a l IH]; intros d; cbn.
  - now left.
  - destruct (IH (Z.max d a)) as [H|H].
    + destruct (Z.max_spec d a) as [[_ E]|[_ E]]; rewrite E in *; auto.
    + right. now right.
Qed.

Lemma min_list_le (l : list Z) (d : Z) :
  min_list d l <= d /\ forall z, In z l -> min_list d l <= z.
Proof.
  unfold min_list. revert d. induction l as [|a l IH]; intros d; cbn.
  - split; [lia | contradiction].
  - destruct (IH (Z.min d a)) as [H1 H2]. split; [lia|].
    intros z [<-|Hz]; [lia | now apply H2].
Qed.

Lemma min_list_in (l : list Z) (d : Z) : In (min_list d l) (d :: l).
Proof.
  unfold min_list. revert d. induction l as [|a l IH]; intros d; cbn.
  - now left.
  - destruct (IH (Z.min d a)) as [H|H].
    + destruct (Z.min_spec d a) as [[_ E]|[_ E]]; rewrite E in *; auto.
    + right. now right.
Qed.

Lemma lagmat_inv (x : list V) (maxlag : Z) (oi : bool) (a : matrix V) :
  lagmat x maxlag oi = Ok a ->
  maxlag < Z.of_nat (length x)
  /\ a = lag_rows x (range (if oi then 0 else 1) (maxlag + 1)) (length x).
Proof.
  unfold lagmat.
  destruct (Z.leb_spec (Z.of_nat (length x)) maxlag) as [Hle|Hlt];
    [discriminate|].
  intros H. injection H as <-. split; [assumption | reflexivity].
Qed.

Lemma lagmat_ok (x : list V) (maxlag : Z) (oi : bool) :
  maxlag < Z.of_nat (length x) ->
  lagmat x maxlag oi
  = Ok (lag_rows x (range (if oi then 0 else 1) (maxlag + 1)) (length x)).
Proof.
  intros H. unfold lagmat.
  destruct (Z.leb_spec (Z.of_nat (length x)) maxlag); [lia | reflexivity].
Qed.

Lemma select_lag_cols (x : list V) (lo hi : Z) (lags : list Z) (n : nat) :
  (forall z, In z lags -> lo <= z < hi) ->
  select_cols (lag_rows x (range lo hi) n) (map (fun l => l - lo) lags)
  = Ok (lag_rows x lags n).
Proof.
  intros H. unfold select_cols, lag_rows.
  rewrite map_result_ok with
    (g := fun row : list V =>
            map (fun l => nth (Z.to_nat (l - lo)) row s_nan) lags).
  - rewrite map_map. f_equal. apply map_ext. intros t.
    apply map_ext_in. intros z Hz. apply H in Hz.
    rewrite nth_indep with (d' := lag_value x t 0)
      by (rewrite length_map, range_length; lia).
    rewrite (map_nth (lag_value x t)).
    rewrite range_nth by lia. f_equal. lia.
  - intros row Hrow. apply in_map_iff in Hrow. destruct Hrow as [t [<- _]].
    rewrite map_result_ok with
      (g := fun i => nth (Z.to_nat i)
                         (map (lag_value x t) (range lo hi)) s_nan).
    + now rewrite map_map.
    + intros i Hi. apply in_map_iff in Hi. destruct Hi as [z [<- Hz]].
      apply H in Hz. apply index_ok.
      rewrite length_map, range_length. lia.
Qed.

Lemma lag_rows_length (x : list V) (lags : list Z) (n : nat) :
  length (lag_rows x lags n) = n.
Proof. unfold lag_rows. now rewrite length_map, length_seq. Qed.

Lemma shape1_lag_rows (x : list V) (lags : list Z) (n : nat) :
  (0 < n)%nat -> shape1 (lag_rows x lags n) = Z.of_nat (length lags).
Proof.
  intros H. unfold lag_rows. destruct n as [|n]; [lia|].
  cbn. now rewrite length_map.
Qed.

(** ** Stacking blocks *)

Lemma zip_rows_map (f g : nat -> list V) (a n : nat) :
  zip_rows (map f (seq a n)) (map g (seq a n))
  = map (fun t => f t ++ g t) (seq a n).
Proof.
  revert a. induction n as [|n IH]; intros a; cbn; [reflexivity|].
  now rewrite IH.
Qed.

Lemma stack_row_blocks (fs : list (nat -> list V)) (n : nat) :
  column_stack n (map (fun f => map f (seq 0 n)) fs)
  = Ok (map (fun t => concat (map (fun f => f t) fs)) (seq 0 n)).
Proof.
  unfold column_stack.
  rewrite (proj2 (forallb_forall _ _)).
  2:{ intros b Hb. apply in_map_iff in Hb. destruct Hb as [f [<- _]].
      rewrite length_map, length_seq. apply Nat.eqb_refl. }
  f_equal. induction fs as [|f fs IH]; cbn [map fold_right concat].
  - generalize 0%nat. induction n as [|n IHn]; intros a; cbn;
      [reflexivity | f_equal; apply IHn].
  - rewrite IH. apply zip_rows_map.
Qed.

End LagFacts.

(** ** Accepted orders *)

Section AcceptedOrders.

Lemma py_min_inv (l : list Z) (m : Z) :
  py_min l = Ok m -> l <> [] /\ In m l /\ forall z, In z l -> m <= z.
Proof.
  destruct l as [|a l]; cbn; [discriminate|]. intros H. injection H as <-.
  split; [discriminate|]. split; [apply min_list_in|].
  destruct (min_list_le l a) as [H1 H2].
  intros z [<-|Hz]; [exact H1 | now apply H2].
Qed.

Lemma py_max_inv (l : list Z) (m : Z) :
  py_max l = Ok m -> l <> [] /\ In m l /\ forall z, In z l -> z <= m.
Proof.
  destruct l as [|a l]; cbn; [discriminate|]. intros H. injection H as <-.
  split; [discriminate|]. split; [apply max_list_in|].
  destruct (max_list_ge l a) as [H1 H2].
  intros z [<-|Hz]; [exact H1 | now apply H2].
Qed.

Lemma check_order_true (v : order_value) (c b : bool) :
  _check_order v c = Ok b -> b = true.
Proof.
  destruct v as [|np k|l]; cbn.
  - now intros [= <-].
  - destruct (k <? Z.b2z c); [discriminate | now intros [= <-]].
  - destruct (negb (forallb is_int l)); [discriminate|].
    intros H. apply bind_ok in H. destruct H as [[|] [_ H]]; [discriminate|].
    apply bind_ok in H. destruct H as [[|] [_ H]]; [discriminate|].
    now injection H as <-.
Qed.

Lemma expand_accepted (c : bool) (kv : key * order_value)
    (b : list (key * list Z)) :
  _check_order (snd kv) c = Ok true -> expand_order c kv = Ok b ->
  Forall (accepted c) b.
Proof.
  unfold expand_order. destruct (snd kv) as [|[|] k|l]; cbn.
  - intros _ [= <-]. constructor.
  - discriminate.
  - destruct (Z.ltb_spec k (Z.b2z c)) as [Hlt|Hge]; [discriminate|].
    intros _ [= <-]. constructor; [|constructor]. split; cbn.
    + rewrite range_cons by lia. discriminate.
    + intros z Hz. apply in_range in Hz. lia.
  - destruct (negb (forallb is_int l)); [discriminate|].
    intros H [= <-]. constructor; [|constructor].
    apply bind_ok in H. destruct H as [[|] [H1 H]]; [discriminate|].
    apply bind_ok in H. destruct H as [[|] [H2 H]]; [discriminate|].
    destruct (has_dup (map int_of l)); [discriminate|].
    apply bind_ok in H1. destruct H1 as [m [Hm H1]].
    injection H1 as H1. apply py_min_inv in Hm.
    destruct Hm as [Hne [_ Hmin]]. split; cbn; [assumption|].
    intros z Hz. destruct (Z.ltb_spec m 0); [discriminate|].
    destruct c; cbn in *.
    + apply bind_ok in H2. destruct H2 as [m' [Hm' H2]].
      injection H2 as H2. apply py_min_inv in Hm'.
      destruct Hm' as [_ [_ Hmin']]. apply Hmin' in Hz.
      destruct (Z.ltb_spec m' 1); [discriminate | lia].
    + apply Hmin in Hz. lia.
Qed.

Lemma final_order_accepted (c : bool) (d : list (key * order_value))
    (fo : list (key * list Z)) :
  (forall kv, In kv d -> _check_order (snd kv) c = Ok true) ->
  final_order c d = Ok fo -> Forall (accepted c) fo.
Proof.
  unfold final_order. intros Hall H.
  apply bind_ok in H. destruct H as [bs [Hbs H]]. injection H as <-.
  apply map_result_inv in Hbs.
  induction Hbs as [|kv b d bs Hb Hbs IH]; cbn; [constructor|].
  apply Forall_app. split.
  - eapply expand_accepted; [|exact Hb]. apply Hall. now left.
  - apply IH. intros kv' Hin. apply Hall. now right.
Qed.

Lemma for_each_check_inv (c : bool) (d : list (key * order_value)) :
  for_each (fun kv => _check_order (snd kv) c ;;; Ok tt) d = Ok tt ->
  forall kv, In kv d -> _check_order (snd kv) c = Ok true.
Proof.
  induction d as [|kv d IH]; cbn; intros H kv' Hin; [contradiction|].
  apply bind_ok in H. destruct H as [[] [H1 H]].
  apply bind_ok in H1. destruct H1 as [b [Hb _]].
  destruct Hin as [<-|Hin].
  - now rewrite Hb, (check_order_true _ _ Hb).
  - now apply IH.
Qed.

Lemma format_order_accepted (keys : option (list key)) (order : order_spec)
    (c : bool) (fo : list (key * list Z)) :
  snd (_format_order keys order c) = Ok fo -> Forall (accepted c) fo.
Proof.
  unfold _format_order. destruct keys as [keys|].
  2:{ destruct (order_is_0_or_None order); cbn; [|discriminate].
      intros [= <-]. constructor. }
  destruct order as [[|np k|l]|d].
  - cbn [snd]. apply final_order_accepted.
    intros kv Hin. apply in_map_iff in Hin. destruct Hin as [k [<- _]].
    reflexivity.
  - cbn [snd]. intros H. apply bind_ok in H. destruct H as [b [Hb H]].
    apply check_order_true in Hb as Hb'. subst b.
    revert H. apply final_order_accepted.
    intros kv Hin. apply in_map_iff in Hin. destruct Hin as [k' [<- _]].
    exact Hb.
  - cbn [snd]. intros H. apply bind_ok in H. destruct H as [b [Hb H]].
    apply check_order_true in Hb as Hb'. subst b.
    revert H. apply final_order_accepted.
    intros kv Hin. apply in_map_iff in Hin. destruct Hin as [k' [<- _]].
    exact Hb.
  - destruct (extra_keys keys d).
    2:{ cbn [snd]. intros H. apply bind_ok in H. now destruct H as [s [_ H]]. }
    intros H.
    assert (H' : for_each (fun kv => _check_order (snd kv) c ;;; Ok tt) d ;;;
                 final_order c d = Ok fo).
    { destruct (missing_keys keys d); [exact H|].
      destruct (sorted_keys (k :: l)); [exact H | discriminate]. }
    apply bind_ok in H'. destruct H' as [[] [Hc Hf]].
    revert Hf. apply final_order_accepted. now apply for_each_check_inv.
Qed.

Lemma format_order_keys (keys : option (list key)) (order : order_spec)
    (c : bool) (fo : list (key * list Z)) :
  snd (_format_order keys order c) = Ok fo ->
  incl (map fst fo) (match keys with Some ks => ks | None => [] end).
Proof.
  unfold _format_order. destruct keys as [keys|].
  2:{ destruct (order_is_0_or_None order); cbn; [|discriminate].
      intros [= <-]. intros x []. }
  assert (Hmap : forall (v : order_value) fo',
            final_order c (map (fun k => (k, v)) keys) = Ok fo' ->
            incl (map fst fo') keys).
  { intros v fo' H. apply final_order_keys in H.
    rewrite map_map in H. cbn in H. now rewrite map_id in H. }
  destruct order as [[|np k|l]|d]; cbn [snd].
  - apply Hmap.
  - intros H. apply bind_ok in H. destruct H as [b [_ H]]. eapply Hmap, H.
  - intros H. apply bind_ok in H. destruct H as [b [_ H]]. eapply Hmap, H.
  - destruct (extra_keys keys d) eqn:Ex.
    2:{ cbn [snd]. intros H. apply bind_ok in H. now destruct H as [s [_ H]]. }
    intros H.
    assert (H' : for_each (fun kv => _check_order (snd kv) c ;;; Ok tt) d ;;;
                 final_order c d = Ok fo).
    { destruct (missing_keys keys d); [exact H|].
      destruct (sorted_keys (k :: l)); [exact H | discriminate]. }
    apply bind_ok in H'. destruct H' as [[] [_ Hf]].
    apply final_order_keys in Hf. intros k Hk. apply Hf in Hk.
    apply key_in_In.
    destruct (key_in k keys) eqn:E; [reflexivity|].
    assert (In k (extra_keys keys d)).
    { apply extra_keys_In. split; [assumption|].
      intros Hin. apply key_in_In in Hin. congruence. }
    rewrite Ex in *. contradiction.
Qed.

Lemma max_order_of_inv (vals : list (list Z)) (acc mo : Z) :
  max_order_of vals acc = Ok mo ->
  acc <= mo /\ forall l z, In l vals -> In z l -> z <= mo.
Proof.
  revert acc. induction vals as [|val vals IH]; cbn; intros acc H.
  - injection H as <-. split; [lia | contradiction].
  - apply bind_ok in H. destruct H as [m [Hm H]].
    apply IH in H. destruct H as [H1 H2].
    apply py_max_inv in Hm. destruct Hm as [_ [_ Hmax]].
    split; [lia|]. intros l z [<-|Hl] Hz.
    + apply Hmax in Hz. lia.
    + eapply H2; eassumption.
Qed.

Lemma max_order_of_attained (vals : list (list Z)) (acc mo : Z) :
  max_order_of vals acc = Ok mo ->
  mo = acc \/ exists l, In l vals /\ In mo l.
Proof.
  revert acc. induction vals as [|val vals IH]; cbn; intros acc H.
  - injection H as <-. now left.
  - apply bind_ok in H. destruct H as [m [Hm H]].
    destruct val as [|z l]; [discriminate|]. injection Hm as <-.
    apply IH in H. destruct H as [->|[l' [Hl' Hin]]].
    + destruct (Z.max_spec (max_list z l) acc) as [[_ ->]|[_ ->]].
      * now left.
      * right. exists (z :: l). split; [now left | apply max_list_in].
    + right. exists l'. split; [now right | assumption].
Qed.

End AcceptedOrders.

(** ** The design-matrix assembler *)

Section Assembler.

Context {V : Type} {Sc : Scalar V}.

Lemma AutoReg_init_inv (args : ARDL_args V) :
  AutoReg_init args = Ok tt ->
  valid_lags (lags_of (a_lags args))
  /\ (forall h, a_hold_back args = Some h ->
        h <= Z.of_nat (length (a_endog args)))
  /\ (forall f, a_exog args = Some f ->
        length (values f) = length (a_endog args))
  /\ (forall f, a_exog args = Some f ->
        rectangular (values f) = true
        /\ forall names, labels f = Some names ->
             Z.of_nat (length names) = shape1 (values f)).
Proof.
  unfold AutoReg_init. intros H.
  apply bind_ok in H. destruct H as [ar_lags [Hl H]].
  apply bind_ok in H. destruct H as [[] [Hh H]].
  apply bind_ok in H. destruct H as [[] [Hx H]].
  apply bind_ok in H. destruct H as [a [Hs _]].
  assert (Hexog : forall f, a_exog args = Some f ->
            rectangular (values f) = true
            /\ length (values f) = length (a_endog args)
            /\ forall names, labels f = Some names ->
                 Z.of_nat (length names) = shape1 (values f)).
  { intros f Hf. rewrite Hf in Hx.
    destruct (rectangular (values f)); cbn in Hx; [|discriminate].
    destruct (Nat.eqb_spec (length (values f)) (length (a_endog args)));
      cbn in Hx; [|discriminate].
    split; [reflexivity|]. split; [assumption|].
    intros names Hn. rewrite Hn in Hx.
    destruct (Z.eqb_spec (Z.of_nat (length names)) (shape1 (values f)));
      [assumption | discriminate]. }
  split; [|split; [|split]].
  - intros z Hz. destruct (a_lags args) as [|k|l]; cbn in Hz.
    + contradiction.
    + apply in_range in Hz. lia.
    + destruct (existsb (fun z => z <? 1) l) eqn:E; [discriminate|].
      destruct (Z.ltb_spec z 1) as [Hlt|]; [|assumption].
      assert (existsb (fun z => z <? 1) l = true); [|congruence].
      apply existsb_exists. exists z. split; [assumption|].
      now apply Z.ltb_lt.
  - intros h Hh'. rewrite Hh' in Hs. unfold _setup_regressors in Hs.
    destruct (Z.ltb_spec (Z.of_nat (length (a_endog args)) - h) 0);
      [discriminate | lia].
  - intros f Hf. now apply Hexog.
  - intros f Hf. destruct (Hexog f Hf) as [Hr [_ Hn]]. now split.
Qed.

Lemma get_column_length (f : frame V) (k : key) (col : list V) :
  get_column f k = Ok col -> length col = length (values f).
Proof.
  unfold get_column. destruct (labels f) as [names|]; destruct k as [i|s];
    try discriminate.
  - destruct (label_pos s names); [|discriminate]. apply map_result_length.
  - apply map_result_length.
Qed.

Lemma format_exog_inv (c : bool) (f : option (frame V))
    (ord : list (key * list Z))
    (ex : list (key * matrix V) * list (key * list string)) (n : nat) :
  Forall (accepted c) ord ->
  (forall f', f = Some f' -> length (values f') = n) ->
  _format_exog f ord = Ok ex ->
  map snd (fst ex)
  = map (fun kv => lag_rows (column_of f (fst kv)) (snd kv) n) ord
  /\ snd ex = exog_names_of f ord
  /\ exists mo, max_order_of (map snd ord) 0 = Ok mo
       /\ (ord <> [] -> mo < Z.of_nat n).
Proof.
  intros Hacc Hn H.
  destruct ord as [|kv0 ord0].
  { injection H as <-. split; [reflexivity|].
    split; [now destruct f|]. exists 0.
    split; [reflexivity | congruence]. }
  unfold _format_exog in H.
  remember (kv0 :: ord0) as ord eqn:Eord.
  assert (Hne : ord <> []) by (subst ord; discriminate).
  clear Eord kv0 ord0.
  apply bind_ok in H. destruct H as [mo [Hmo H]].
  destruct f as [f|]; [|discriminate].
  apply bind_ok in H. destruct H as [exog_lags [Hlags H]].
  injection H as <-. cbn [fst].
  apply map_result_inv in Hlags.
  pose proof (max_order_of_inv _ _ Hmo) as [Hmo0 Hmax].
  assert (Hblocks : Forall2 (fun kv b =>
            snd b = lag_rows (column_of (Some f) (fst kv)) (snd kv) n
            /\ mo < Z.of_nat n) ord exog_lags).
  { clear Hmo Hne. induction Hlags as [|kv b ord' bs Hb Hbs IH];
      constructor.
    - apply bind_ok in Hb. destruct Hb as [col [Hcol Hb]].
      apply bind_ok in Hb. destruct Hb as [lagged [Hlag Hb]].
      apply bind_ok in Hb. destruct Hb as [blk [Hblk Hb]].
      injection Hb as <-. cbn [snd fst].
      apply lagmat_inv in Hlag. destruct Hlag as [Hlt ->].
      pose proof (get_column_length _ _ Hcol) as Hlen.
      rewrite (Hn f eq_refl) in Hlen. rewrite Hlen in *.
      cbn [column_of]. rewrite Hcol. split; [|assumption].
      rewrite <- (map_id (snd kv)) in Hblk at 1.
      rewrite map_ext with (g := fun l => l - 0) in Hblk
        by (intros; lia).
      rewrite select_lag_cols in Hblk.
      + now injection Hblk as <-.
      + intros z Hz. inversion Hacc as [|? ? [_ Hge] _]; subst.
        specialize (Hge z Hz).
        specialize (Hmax (snd kv) z (or_introl eq_refl) Hz).
        destruct c; cbn in Hge; lia.
    - inversion Hacc; subst. apply IH; [assumption|].
      intros l z Hl Hz. apply (Hmax l z); [now right | assumption]. }
  split; [|split].
  - clear - Hblocks. induction Hblocks as [|kv b ord' bs [Hb _] _ IH];
      cbn; [reflexivity|]. now rewrite Hb, IH.
  - reflexivity.
  - exists mo. split; [assumption|]. intros _.
    destruct Hblocks as [|kv b ord' bs [_ Hb] _];
      [now contradiction Hne | assumption].
Qed.


Lemma format_exog_columns (f : option (frame V))
    (ord : list (key * list Z))
    (ex : list (key * matrix V) * list (key * list string)) :
  _format_exog f ord = Ok ex -> ord <> [] ->
  exists f', f = Some f'
    /\ forall kv, In kv ord -> is_ok (get_column f' (fst kv)).
Proof.
  intros H Hne. unfold _format_exog in H.
  destruct ord as [|kv0 ord0]; [congruence|].
  remember (kv0 :: ord0) as ord eqn:Eord. clear Eord kv0 ord0 Hne.
  apply bind_ok in H. destruct H as [mo [_ H]].
  destruct f as [f|]; [|discriminate].
  exists f. split; [reflexivity|].
  apply bind_ok in H. destruct H as [lags [H _]].
  apply map_result_inv in H.
  induction H as [|kv b l bs Hkv _ IH]; intros kv' Hin; [contradiction|].
  destruct Hin as [<-|Hin]; [|now apply IH].
  apply bind_ok in Hkv. destruct Hkv as [col [Hcol _]].
  now exists col.
Qed.

Lemma max_or_0_valid (lags : list Z) :
  valid_lags lags ->
  0 <= max_or_0 lags /\ forall z, In z lags -> 1 <= z <= max_or_0 lags.
Proof.
  intros H. destruct lags as [|a l]; cbn.
  - split; [lia | contradiction].
  - destruct (max_list_ge l a) as [H1 H2].
    pose proof (H a (or_introl eq_refl)).
    split; [lia|]. intros z Hz. split; [now apply H|].
    destruct Hz as [<-|Hz]; [assumption | now apply H2].
Qed.

Lemma column_stack_inv (n : nat) (blocks : list (matrix V)) (a : matrix V) :
  column_stack n blocks = Ok a ->
  forall b, In b blocks -> length b = n.
Proof.
  unfold column_stack.
  destruct (forallb (fun b => Nat.eqb (length b) n) blocks) eqn:E;
    [|discriminate].
  intros _ b Hb. rewrite forallb_forall in E. apply E in Hb.
  now apply Nat.eqb_eq.
Qed.

Lemma stack_design (d : det_process V) (y : list V) (ecols : list Z)
    (f : option (frame V)) (ord : list (key * list Z)) (fixed : matrix V)
    (n : nat) :
  length fixed = n ->
  column_stack n
    ([in_sample d n; lag_rows y ecols n]
     ++ map (fun kv => lag_rows (column_of f (fst kv)) (snd kv) n) ord
     ++ [fixed])
  = Ok (map (stacked_row d y ecols f ord fixed) (seq 0 n)).
Proof.
  intros Hfix.
  assert (Hf : map (fun t => nth t fixed []) (seq 0 n) = fixed).
  { rewrite <- Hfix. symmetry. apply list_as_map_nth. }
  assert (Hb : [in_sample d n; lag_rows y ecols n]
               ++ map (fun kv => lag_rows (column_of f (fst kv)) (snd kv) n)
                      ord
               ++ [fixed]
               = map (fun g : nat -> list V => map g (seq 0 n))
                   ([det_row d; fun t => map (lag_value y t) ecols]
                    ++ map (fun kv t =>
                              map (lag_value (column_of f (fst kv)) t)
                                  (snd kv)) ord
                    ++ [fun t => nth t fixed []])).
  { rewrite !map_app, map_map. cbn [map]. now rewrite Hf. }
  rewrite Hb, stack_row_blocks. f_equal.
  apply map_ext. intros t. rewrite !map_app, !concat_app, map_map.
  cbn. rewrite !app_nil_r. unfold stacked_row, exog_part.
  now rewrite <- app_assoc.
Qed.

Lemma initialize_model_inv (self : ARDL_self V) (lags : lags_spec)
    (order : order_spec) (m : ARDL V) :
  valid_lags (lags_of lags) ->
  (forall f, s_orig_exog self = Some f ->
     length (values f) = length (s_endog self)) ->
  _initialize_model self lags order = Ok m ->
  let nobs := length (s_endog self) in
  (endog m = s_endog self /\ orig_exog m = s_orig_exog self
   /\ _fixed m = s_fixed self /\ _deterministics m = s_deterministics self
   /\ _lags m = lags_of lags /\ _fixed_names m = s_fixed_names self
   /\ ynames m = s_ynames self /\ _causal m = s_causal self)
  /\ snd (_format_order (option_map frame_keys (s_orig_exog self)) order
                        (s_causal self)) = Ok (_order m)
  /\ (max_or_0 (_lags m) <= _maxlag m /\ _maxlag m < Z.of_nat nobs
      /\ forall kv z, In kv (_order m) -> In z (snd kv) -> z <= _maxlag m)
  /\ (_maxlag m <= _hold_back m
      /\ _hold_back m = match s_hold_back self with
                        | None => _maxlag m
                        | Some h => h
                        end)
  /\ length (_fixed m) = nobs
  /\ _x m = slice_from (map (design_row m) (seq 0 nobs)) (_hold_back m)
  /\ _y m = slice_from (endog m) (_hold_back m)
  /\ shape1 (map (design_row m) (seq 0 nobs)) <= shape0 (_x m)
  /\ _deterministic_reg m = in_sample (_deterministics m) nobs
  /\ _exog_names m
     = det_columns (_deterministics m) ++ lag_names (ynames m) (_lags m)
       ++ concat (map snd (exog_names_of (orig_exog m) (_order m)))
       ++ _fixed_names m
  /\ (exists mo, max_order_of (map snd (_order m)) 0 = Ok mo
       /\ _maxlag m = Z.max (max_or_0 (_lags m)) mo)
  /\ (_order m <> [] ->
      exists f, orig_exog m = Some f
        /\ forall kv, In kv (_order m) -> is_ok (get_column f (fst kv))).
Proof.
  intros Hlags Hex H nobs. unfold _initialize_model in H.
  fold nobs in H.
  destruct (max_or_0_valid Hlags) as [Hml0 Hmlz].
  apply bind_ok in H. destruct H as [endog_reg0 [He0 H]].
  apply lagmat_inv in He0. destruct He0 as [Hml He0]. fold nobs in Hml, He0.
  apply bind_ok in H. destruct H as [endog_reg [He H]].
  assert (Hereg : endog_reg
                  = lag_rows (s_endog self) (endog_cols (lags_of lags)) nobs).
  { rewrite He0 in He. rewrite shape1_lag_rows in He by lia.
    rewrite range_length in He. unfold endog_cols.
    replace (Z.of_nat (Z.to_nat (max_or_0 (lags_of lags) + 1 - 1)))
      with (max_or_0 (lags_of lags)) in He by lia.
    destruct (max_or_0 (lags_of lags) =? Z.of_nat (length (lags_of lags)));
      cbn [negb] in He.
    - now injection He as <-.
    - rewrite select_lag_cols in He; [now injection He as <-|].
      intros z Hz. apply Hmlz in Hz. lia. }
  clear He. subst endog_reg.
  apply bind_ok in H. destruct H as [ord [Hord H]].
  pose proof (format_order_accepted _ _ _ Hord) as Hacc.
  apply bind_ok in H. destruct H as [ex [Hexog H]].
  destruct (format_exog_inv Hacc Hex Hexog)
    as [Hblocks [Hnames [mo [Hmo Hmolt]]]].
  apply bind_ok in H. destruct H as [exog_maxlag [Hxm H]].
  rewrite Hmo in Hxm. injection Hxm as <-.
  pose proof (max_order_of_inv _ _ Hmo) as [Hmo0 Hmax].
  pose proof (format_exog_columns _ Hexog) as Hcols.
  apply bind_ok in H. destruct H as [full [Hfull H]].
  assert (Hfix : length (s_fixed self) = nobs).
  { eapply column_stack_inv; [exact Hfull|].
    apply in_or_app. right. apply in_or_app. right. now left. }
  assert (Hfull' : full
            = map (stacked_row (s_deterministics self) (s_endog self)
                     (endog_cols (lags_of lags)) (s_orig_exog self) ord
                     (s_fixed self)) (seq 0 nobs)).
  { rewrite Hblocks, stack_design in Hfull by assumption.
    now injection Hfull as <-. }
  clear Hfull.
  set (maxlag := Z.max (max_or_0 (lags_of lags)) mo) in *.
  set (hold_back := match s_hold_back self with
                    | Some h => h
                    | None => maxlag
                    end) in *.
  destruct (Z.ltb_spec hold_back maxlag) as [|Hhb]; [discriminate|].
  destruct (Z.gtb_spec (shape1 full) (shape0 (slice_from full hold_back)))
    as [|Hshape]; [discriminate|].
  injection H as <-. cbn -[design_row slice_from shape1 shape0].
  rewrite Hfull', Hnames in *.
  repeat split; try reflexivity; try assumption; try lia.
  - destruct ord as [|kv ord'].
    + cbn in Hmo. injection Hmo as <-. unfold maxlag. lia.
    + assert (mo < Z.of_nat nobs) by (apply Hmolt; discriminate).
      unfold maxlag. lia.
  - intros kv z Hkv Hz. assert (z <= mo); [|unfold maxlag; lia].
    apply (Hmax (snd kv)); [|assumption]. now apply in_map.
  - exists mo. split; [assumption | reflexivity].
Qed.

Lemma rectangular_rows (a : matrix V) (t : nat) :
  rectangular a = true -> (t < length a)%nat ->
  Z.of_nat (length (nth t a [])) = shape1 a.
Proof.
  unfold rectangular. intros H Ht. rewrite forallb_forall in H.
  apply Z.eqb_eq, H, nth_In, Ht.
Qed.

Lemma rectangular_repeat_nil (n : nat) : rectangular (repeat (@nil V) n) = true.
Proof.
  unfold rectangular. apply forallb_forall. intros r Hr.
  apply repeat_spec in Hr. subst r. destruct n; reflexivity.
Qed.

Lemma ext_min_list_spec (l : list Z) (z : Z) :
  In z l -> (forall x, In x l -> z <= x) -> ext_min_list l = Fin z.
Proof.
  destruct l as [|a l]; [contradiction|]. intros Hin Hle. cbn. f_equal.
  destruct (min_list_le l a) as [H1 H2].
  pose proof (min_list_in l a) as H3.
  apply Hle in H3.
  assert (min_list a l <= z).
  { destruct Hin as [<-|Hin]; [assumption | now apply H2]. }
  lia.
Qed.

Lemma min_of_mins (c : bool) (ord : list (key * list Z)) :
  Forall (accepted c) ord -> ord <> [] ->
  exists mins lowest,
    map_result py_min (map snd ord) = Ok mins
    /\ py_min mins = Ok lowest
    /\ ext_min_list (concat (map snd ord)) = Fin lowest.
Proof.
  intros Hacc Hne.
  assert (H : exists mins, map_result py_min (map snd ord) = Ok mins
              /\ length mins = length ord
              /\ (forall x, In x mins -> In x (concat (map snd ord)))
              /\ (forall z, In z (concat (map snd ord)) ->
                    exists x, In x mins /\ x <= z)).
  { clear Hne. induction Hacc as [|kv ord [Hk _] _ IH].
    - exists []. repeat split; cbn; try contradiction.
    - destruct IH as [mins [Hm [Hlen [H1 H2]]]].
      cbn [map map_result concat]. rewrite Hm.
      destruct (snd kv) as [|a l] eqn:E; [contradiction|]. cbn [py_min bind].
      exists (min_list a l :: mins). split; [reflexivity|].
      split; [cbn; now rewrite Hlen|]. split.
      + intros x [<-|Hx]; apply in_or_app.
        * left. apply min_list_in.
        * right. now apply H1.
      + intros z Hz. apply in_app_or in Hz. destruct Hz as [Hz|Hz].
        * exists (min_list a l). split; [now left|].
          destruct (min_list_le l a) as [Ha Hb].
          destruct Hz as [<-|Hz]; [assumption | now apply Hb].
        * destruct (H2 z Hz) as [x [Hx Hle]]. exists x.
          split; [now right | assumption]. }
  destruct H as [mins [Hm [Hlen [H1 H2]]]].
  destruct mins as [|a mins]; [destruct ord; [congruence | discriminate]|].
  exists (a :: mins), (min_list a mins). split; [assumption|].
  split; [reflexivity|].
  apply ext_min_list_spec.
  - apply H1, min_list_in.
  - intros x Hx. destruct (H2 x Hx) as [y [Hy Hle]].
    destruct (min_list_le mins a) as [Ha Hb].
    destruct Hy as [<-|Hy]; [lia|]. apply Hb in Hy. lia.
Qed.

(** What a constructed model holds. *)
Lemma ARDL_init_inv (args : ARDL_args V) (m : ARDL V) :
  ARDL_init args = Ok m ->
  let nobs := length (a_endog args) in
  (endog m = a_endog args /\ orig_exog m = a_exog args
   /\ _deterministics m = a_det args /\ _lags m = lags_of (a_lags args)
   /\ ynames m = a_ynames args)
  /\ valid_lags (_lags m)
  /\ Forall (accepted false) (_order m)
  /\ (0 <= _maxlag m <= _hold_back m /\ _hold_back m <= Z.of_nat nobs
      /\ max_or_0 (_lags m) <= _maxlag m
      /\ (forall kv z, In kv (_order m) -> In z (snd kv) -> z <= _maxlag m)
      /\ _hold_back m = match a_hold_back args with
                        | None => _maxlag m
                        | Some h => h
                        end)
  /\ (length (_fixed m) = nobs /\ rectangular (_fixed m) = true)
  /\ _x m = map (design_row m)
               (seq (Z.to_nat (_hold_back m)) (nobs - Z.to_nat (_hold_back m)))
  /\ _y m = skipn (Z.to_nat (_hold_back m)) (endog m)
  /\ shape1 (map (design_row m) (seq 0 nobs)) <= shape0 (_x m)
  /\ _deterministic_reg m = in_sample (_deterministics m) nobs
  /\ (0 < nobs)%nat
  /\ snd (_format_order (option_map frame_keys (a_exog args)) (a_order args)
                        (a_causal args)) = Ok (_order m)
  /\ _fixed m = match a_fixed args with
                | Some f => values f
                | None => repeat [] nobs
                end
  /\ (exists mo, max_order_of (map snd (_order m)) 0 = Ok mo
       /\ _maxlag m = Z.max (max_or_0 (_lags m)) mo)
  /\ _causal m = match ext_min_list (concat (map snd (_order m))) with
                 | Inf => true
                 | Fin z => z >? 0
                 end
  /\ _exog_names m
     = det_columns (_deterministics m) ++ lag_names (ynames m) (_lags m)
       ++ concat (map snd (exog_names_of (orig_exog m) (_order m)))
       ++ _fixed_names m
  /\ _fixed_names m
     = match a_fixed args with
       | Some f =>
           match labels f with
           | Some names => names
           | None => map (fun i => ("z." ++ str_of_Z i)%string)
                         (range 0 (shape1 (values f)))
           end
       | None => []
       end
  /\ (forall f, orig_exog m = Some f ->
        rectangular (values f) = true
        /\ length (values f) = nobs
        /\ forall names, labels f = Some names ->
             Z.of_nat (length names) = shape1 (values f))
  /\ incl (map fst (_order m))
          (match orig_exog m with Some f => frame_keys f | None => [] end)
  /\ (_order m <> [] ->
      exists f, orig_exog m = Some f
        /\ forall kv, In kv (_order m) -> is_ok (get_column f (fst kv)))
  /\ _maxlag m < Z.of_nat nobs.
Proof.
  intros H nobs. unfold ARDL_init in H.
  apply bind_ok in H. destruct H as [[] [Hbase H]].
  apply AutoReg_init_inv in Hbase.
  destruct Hbase as [Hlags [Hhb [Hexog Hxrect]]].
  apply bind_ok in H. destruct H as [fx [Hfx H]].
  apply bind_ok in H. destruct H as [m0 [Hm0 H]].
  apply initialize_model_inv in Hm0; [|assumption|assumption].
  cbn [s_endog s_orig_exog s_fixed s_deterministics s_hold_back s_causal
       s_fixed_names s_ynames] in Hm0. fold nobs in Hm0.
  destruct Hm0 as [[E1 [E2 [E3 [E4 [E5 [E6 [E7 E8]]]]]]]
                   [Hord [[Hm1 [Hm2 Hm3]] [[Hh1 Hh2] [Hfl [Hx [Hy [Hsh [Hdet
                       [Hnm [Hmo Hcol]]]]]]]]]]].
  assert (Hm : m = set_causal m0
                     match ext_min_list (concat (map snd (_order m0))) with
                     | Inf => true
                     | Fin z => z >? 0
                     end).
  { pose proof (format_order_accepted _ _ _ Hord) as Hacc.
    destruct (_order m0) as [|kv ord] eqn:Eo.
    - now injection H as <-.
    - rewrite <- Eo in *.
      destruct (min_of_mins Hacc) as [mins [lowest [Hm [Hl He]]]];
        [rewrite Eo; discriminate|].
      rewrite Hm in H. cbn [bind] in H. rewrite Hl in H. cbn [bind] in H.
      rewrite He. now injection H as <-. }
  subst m. clear H.
  assert (Hrect : rectangular (fst fx) = true
                  /\ fst fx = match a_fixed args with
                              | Some f => values f
                              | None => repeat [] nobs
                              end
                  /\ snd fx
                     = match a_fixed args with
                       | Some f =>
                           match labels f with
                           | Some names => names
                           | None => map (fun i => ("z." ++ str_of_Z i)%string)
                                         (range 0 (shape1 (values f)))
                           end
                       | None => []
                       end).
  { destruct (a_fixed args) as [f|].
    - destruct (rectangular (values f)) eqn:Er; cbn in Hfx; [|discriminate].
      destruct (_ || _); [discriminate|]. now injection Hfx as <-.
    - injection Hfx as <-. split; [apply rectangular_repeat_nil|].
      split; reflexivity. }
  destruct Hrect as [Hrect [Hfxv Hfxn]].
  assert (Hml0 : 0 <= max_or_0 (_lags m0)).
  { rewrite E5. exact (proj1 (max_or_0_valid Hlags)). }
  assert (Hhbn : _hold_back m0 <= Z.of_nat nobs).
  { rewrite Hh2. destruct (a_hold_back args) as [h|]; [now apply Hhb | lia]. }
  unfold design_row in *.
  cbn [set_causal endog orig_exog _deterministics _lags ynames _order _maxlag
       _hold_back _fixed _x _y _deterministic_reg _causal _exog_names
       _fixed_names] in *.
  repeat split; try assumption; try lia.
  - now rewrite E5.
  - apply format_order_accepted in Hord.
    eapply Forall_impl; [|exact Hord]. intros kv [Ha Hb]. split; [assumption|].
    intros z Hz. apply Hb in Hz. destruct (a_causal args); cbn in *; lia.
  - now rewrite E3.
  - rewrite Hx. unfold slice_from. rewrite length_map, length_seq.
    rewrite clamp_in_range by lia.
    rewrite skipn_map_seq by lia. reflexivity.
  - rewrite Hy. unfold slice_from. rewrite E1. fold nobs.
    now rewrite clamp_in_range by lia.
  - now rewrite E3.
  - now rewrite E6.
  - rewrite E2 in *. now apply Hxrect.
  - rewrite E2 in *. now apply Hexog.
  - rewrite E2 in *. now apply Hxrect.
  - apply format_order_keys in Hord. rewrite E2.
    now destruct (a_exog args).
Qed.

Lemma design_row_same (m m' : ARDL V) (t : nat) :
  endog m = endog m' -> orig_exog m = orig_exog m' ->
  _deterministics m = _deterministics m' -> _lags m = _lags m' ->
  _order m = _order m' -> _fixed m = _fixed m' ->
  design_row m t = design_row m' t.
Proof.
  unfold design_row. now intros -> -> -> -> -> ->.
Qed.

Lemma shape1_map_seq (f : nat -> list V) (n : nat) :
  (0 < n)%nat -> shape1 (map f (seq 0 n)) = Z.of_nat (length (f O)).
Proof. destruct n; [lia | reflexivity]. Qed.

Lemma exog_part_length (f : option (frame V)) (order : list (key * list Z))
    (t : nat) :
  length (exog_part f order t) = length (concat (map snd order)).
Proof.
  unfold exog_part. induction order as [|kv order IH]; cbn; [reflexivity|].
  now rewrite !length_app, length_map, IH.
Qed.

Lemma design_row_length (m : ARDL V) (t : nat) :
  rectangular (_fixed m) = true -> (t < length (_fixed m))%nat ->
  Z.of_nat (length (design_row m t)) = n_columns m.
Proof.
  intros Hr Ht. unfold design_row, stacked_row, n_columns, det_row.
  rewrite !length_app, !length_map, exog_part_length.
  rewrite <- (rectangular_rows _ Hr Ht). lia.
Qed.

(** C9. In a constructed model the trimmed design matrix and the trimmed
    response have [nobs - hold_back] rows, where [hold_back] is the one
    given or else the largest lag [_maxlag] (the largest of the lags of
    the response and of the exogenous variables, 0 without any); the
    largest lag does not exceed [hold_back] and the matrix has no more
    columns than rows. Accordingly,
    for arguments that construct a model [m] with the default [hold_back],
    an explicit [hold_back] below the largest lag of [m] raises, and so
    does one that leaves fewer rows than [m] has columns. *)
Theorem construction_row_counts (args : ARDL_args V) :
  let nobs := Z.of_nat (length (a_endog args)) in
  (forall m, ARDL_init args = Ok m ->
     shape0 (_x m) = nobs - _hold_back m
     /\ Z.of_nat (length (_y m)) = nobs - _hold_back m
     /\ _hold_back m = match a_hold_back args with
                       | None => _maxlag m
                       | Some h => h
                       end
     /\ (forall z, In z (_lags m) -> z <= _maxlag m)
     /\ (forall kv z, In kv (_order m) -> In z (snd kv) -> z <= _maxlag m)
     /\ 0 <= _maxlag m <= _hold_back m
     /\ _hold_back m <= nobs
     /\ Forall (fun row => Z.of_nat (length row) = n_columns m) (_x m)
     /\ n_columns m <= shape0 (_x m)
     /\ (_maxlag m = 0 \/ In (_maxlag m) (_lags m)
         \/ exists kv, In kv (_order m) /\ In (_maxlag m) (snd kv)))
  /\ (forall m h, ARDL_init (with_hold_back args None) = Ok m ->
        h < _maxlag m ->
        is_raise (ARDL_init (with_hold_back args (Some h))))
  /\ (forall m h, ARDL_init (with_hold_back args None) = Ok m ->
        nobs - h < n_columns m ->
        is_raise (ARDL_init (with_hold_back args (Some h)))).
Proof.
  intros nobs. split; [|split].
  - intros m H. apply ARDL_init_inv in H.
    destruct H as [[E1 [E2 [E3 [E4 E5]]]] [Hlags [Hacc [[Hm0 [Hhn [Hml [Hmo
        Hhb]]]]
                   [[Hfl Hrect] [Hx [Hy [Hsh [Hdet [Hn [_ [_
                   [[mo [Hmo' Hmax]] _]]]]]]]]]]]]].
    assert (Hrows : shape0 (_x m) = nobs - _hold_back m).
    { rewrite Hx. unfold shape0. rewrite length_map, length_seq.
      unfold nobs. lia. }
    rewrite shape1_map_seq in Hsh by assumption.
    rewrite design_row_length in Hsh by (assumption || lia).
    repeat split; try assumption; try lia.
    + rewrite Hy, length_skipn, E1. unfold nobs. lia.
    + intros z Hz. destruct (max_or_0_valid Hlags) as [_ Hb].
      apply Hb in Hz. lia.
    + rewrite Hx at 1. apply Forall_forall. intros row Hrow.
      apply in_map_iff in Hrow. destruct Hrow as [t [<- Ht]].
      apply in_seq in Ht.
      apply design_row_length; [assumption | lia].
    + rewrite Hmax.
      destruct (Z.max_spec (max_or_0 (_lags m)) mo) as [[_ ->]|[_ ->]].
      * apply max_order_of_attained in Hmo'.
        destruct Hmo' as [->|[l [Hl Hin]]]; [now left|].
        right. right. apply in_map_iff in Hl. destruct Hl as [kv [<- Hkv]].
        now exists kv.
      * destruct (_lags m) as [|z l]; [now left|].
        right. left. apply max_list_in.
  - intros m h Hm Hh.
    destruct (ARDL_init (with_hold_back args (Some h))) as [m'|e] eqn:E;
      [|eexists; reflexivity].
    exfalso. apply ARDL_init_inv in Hm, E. cbn [with_hold_back a_endog a_exog
      a_det a_lags a_ynames a_hold_back a_order a_causal a_fixed] in *.
    destruct Hm as [[_ [_ [_ [L _]]]] [_ [_ [_ [_ [_ [_ [_ [_ [_ [O [_ [[mo
        [Hmo M]] _]]]]]]]]]]]]].
    destruct E as [[_ [_ [_ [L' _]]]] [_ [_ [[B [_ [_ [_ Hb]]]] [_ [_ [_ [_ [_
        [_ [O' [_ [[mo' [Hmo' M']] _]]]]]]]]]]]]].
    rewrite O in O'. injection O' as O'. rewrite <- O' in Hmo'.
    rewrite Hmo in Hmo'. injection Hmo' as <-.
    rewrite L in M. rewrite L' in M'. lia.
  - intros m h Hm Hh.
    destruct (ARDL_init (with_hold_back args (Some h))) as [m'|e] eqn:E;
      [|eexists; reflexivity].
    exfalso. apply ARDL_init_inv in Hm, E. cbn [with_hold_back a_endog a_exog
      a_det a_lags a_ynames a_hold_back a_order a_causal a_fixed] in *.
    destruct Hm as [[E1 [E2 [E3 [E4 _]]]] [_ [_ [_ [_ [_ [_ [_ [_ [_ [O [F
        _]]]]]]]]]]]].
    destruct E as [[E1' [E2' [E3' [E4' _]]]] [_ [_ [[B [Hhn [_ [_ Hb]]]] [[Hfl
        Hrect] [Hx [_ [Hsh [_ [Hn [O' [F' _]]]]]]]]]]]].
    rewrite shape1_map_seq in Hsh by assumption.
    rewrite design_row_length in Hsh by (assumption || lia).
    assert (Hrows : shape0 (_x m') = nobs - h).
    { rewrite Hx. unfold shape0. rewrite length_map, length_seq.
      unfold nobs. lia. }
    assert (n_columns m' = n_columns m).
    { unfold n_columns. rewrite E3, E3', E4, E4', F, F'.
      rewrite O in O'. now injection O' as ->. }
    unfold nobs in *. lia.
Qed.

End Assembler.

(** ** When the constructor succeeds *)

Section ConstructorSucceeds.

Context {V : Type} {Sc : Scalar V}.

Lemma endog_block_ok (x : list V) (lags : list Z) :
  valid_lags lags -> max_or_0 lags < Z.of_nat (length x) ->
  (endog_reg0 <- lagmat x (max_or_0 lags) false ;;
   if negb (shape1 endog_reg0 =? Z.of_nat (length lags))
   then select_cols endog_reg0 (map (fun l => l - 1) lags)
   else Ok endog_reg0)
  = Ok (lag_rows x (endog_cols lags) (length x)).
Proof.
  intros Hv Hlt. destruct (max_or_0_valid Hv) as [H0 Hz].
  rewrite lagmat_ok by assumption. cbn [bind].
  rewrite shape1_lag_rows by lia. rewrite range_length. unfold endog_cols.
  replace (Z.of_nat (Z.to_nat (max_or_0 lags + 1 - 1)))
    with (max_or_0 lags) by lia.
  destruct (max_or_0 lags =? Z.of_nat (length lags)); cbn [negb].
  - reflexivity.
  - apply select_lag_cols. intros z Hin. apply Hz in Hin. lia.
Qed.

Lemma format_exog_ok (c : bool) (f : frame V) (ord : list (key * list Z))
    (mo : Z) :
  Forall (accepted c) ord ->
  max_order_of (map snd ord) 0 = Ok mo ->
  mo < Z.of_nat (length (values f)) ->
  (forall kv, In kv ord -> is_ok (get_column f (fst kv))) ->
  is_ok (_format_exog (Some f) ord).
Proof.
  intros Hacc Hmo Hlt Hcols. unfold _format_exog.
  destruct ord as [|kv0 ord0]; [eexists; reflexivity|].
  remember (kv0 :: ord0) as ord eqn:Eord. clear Eord kv0 ord0.
  rewrite Hmo. cbn [bind].
  pose proof (max_order_of_inv _ _ Hmo) as [Hmo0 Hmax].
  rewrite map_result_ok with
    (g := fun kv => (fst kv, lag_rows (column_of (Some f) (fst kv)) (snd kv)
                                      (length (values f)))).
  { eexists. reflexivity. }
  intros kv Hkv. destruct (Hcols kv Hkv) as [col Hcol].
  cbn [column_of]. rewrite Hcol. cbn [bind].
  pose proof (get_column_length _ _ Hcol) as Hlen.
  rewrite lagmat_ok by lia. cbn [bind]. rewrite Hlen.
  rewrite <- (map_id (snd kv)) at 1.
  rewrite map_ext with (g := fun l => l - 0) by (intros; lia).
  rewrite select_lag_cols; [reflexivity|].
  intros z Hz. rewrite Forall_forall in Hacc.
  destruct (Hacc kv Hkv) as [_ Hge]. specialize (Hge z Hz).
  specialize (Hmax (snd kv) z (in_map snd _ _ Hkv) Hz).
  destruct c; cbn in Hge; lia.
Qed.

Lemma initialize_model_ok (self : ARDL_self V) (lags : lags_spec)
    (order : order_spec) (ord : list (key * list Z)) (mo : Z) :
  let nobs := length (s_endog self) in
  let maxlag := Z.max (max_or_0 (lags_of lags)) mo in
  let hb := match s_hold_back self with None => maxlag | Some h => h end in
  valid_lags (lags_of lags) ->
  max_or_0 (lags_of lags) < Z.of_nat nobs ->
  snd (_format_order (option_map frame_keys (s_orig_exog self)) order
                     (s_causal self)) = Ok ord ->
  max_order_of (map snd ord) 0 = Ok mo ->
  (ord <> [] ->
     exists f, s_orig_exog self = Some f
       /\ length (values f) = nobs /\ mo < Z.of_nat nobs
       /\ forall kv, In kv ord -> is_ok (get_column f (fst kv))) ->
  length (s_fixed self) = nobs ->
  maxlag <= hb <= Z.of_nat nobs ->
  Z.of_nat (length (stacked_row (s_deterministics self) (s_endog self)
                      (endog_cols (lags_of lags)) (s_orig_exog self) ord
                      (s_fixed self) 0))
    <= Z.of_nat nobs - hb ->
  is_ok (_initialize_model self lags order).
Proof.
  intros nobs maxlag hb Hv Hml Hord Hmo Hex Hfix Hhb Hcols.
  unfold _initialize_model.
  pose proof (endog_block_ok (s_endog self) Hv Hml) as He. fold nobs in He.
  apply bind_ok in He. destruct He as [e0 [He0 He]].
  fold nobs. rewrite He0. cbn [bind]. rewrite He. cbn [bind].
  rewrite Hord. cbn [bind].
  pose proof (format_order_accepted _ _ _ Hord) as Hacc.
  assert (Hfe : exists ex, _format_exog (s_orig_exog self) ord = Ok ex
                /\ map snd (fst ex)
                   = map (fun kv => lag_rows (column_of (s_orig_exog self)
                                                (fst kv)) (snd kv) nobs) ord).
  { destruct ord as [|kv0 ord0] eqn:Eo.
    - eexists. split; reflexivity.
    - rewrite <- Eo in *.
      destruct Hex as [f [Ef [Hlen [Hlt Hc]]]]; [subst; discriminate|].
      rewrite Ef.
      destruct (format_exog_ok f Hacc Hmo) as [ex Hfe]; [lia|assumption|].
      exists ex. split; [assumption|].
      eapply format_exog_inv; [exact Hacc| |exact Hfe].
      intros f' [= <-]. assumption. }
  destruct Hfe as [ex [Hfe Hblocks]]. rewrite Hfe. cbn [bind].
  rewrite Hmo. cbn [bind]. rewrite Hblocks.
  rewrite stack_design by assumption. cbn [bind].
  fold maxlag. fold hb.
  destruct (Z.ltb_spec hb maxlag); [lia|].
  destruct (max_or_0_valid Hv) as [H0 _].
  unfold slice_from, shape0.
  rewrite shape1_map_seq by lia.
  rewrite length_map, length_seq, clamp_in_range by (unfold maxlag in *; lia).
  rewrite length_skipn, length_map, length_seq.
  destruct (Z.gtb_spec
              (Z.of_nat (length (stacked_row (s_deterministics self)
                 (s_endog self) (endog_cols (lags_of lags))
                 (s_orig_exog self) ord (s_fixed self) 0)))
              (Z.of_nat (nobs - Z.to_nat hb))); [lia|].
  eexists. reflexivity.
Qed.

End ConstructorSucceeds.

(** ** The bound of naive forecasting *)

Section OneStep.

Context {V : Type} {Sc : Scalar V}.

Lemma max_1step_bound (m : ARDL V) :
  Forall (accepted false) (_order m) ->
  max_1step m = Ok (one_step_bound m).
Proof.
  intros Hacc. unfold max_1step, one_step_bound.
  destruct (shape1 (_fixed m) =? 0); cbn [negb orb andb]; [|reflexivity].
  destruct (_causal m); cbn [negb]; [|reflexivity].
  destruct (_order m) as [|kv ord] eqn:Eo.
  - cbn. destruct (_lags m); reflexivity.
  - rewrite <- Eo in *.
    destruct (min_of_mins Hacc) as [mins [lowest [-> [Hl ->]]]];
      [rewrite Eo; discriminate|].
    cbn [bind]. rewrite Hl. cbn [bind].
    destruct (_lags m); reflexivity.
Qed.

Lemma predict_raises_beyond (m : ARDL V) (bound : ext) (params : list V)
    (start end_ dynamic : option Z)
    (exog exog_oos fixed fixed_oos : option (frame V)) (s e num_oos : Z) :
  max_1step m = Ok bound ->
  _prepare_prediction (nobs_of m) start end_ = Ok (s, e, num_oos) ->
  gt_ext num_oos bound = true ->
  (_order m <> [] /\ exog_oos = None)
  \/ (shape1 (_fixed m) <> 0 /\ fixed_oos = None) ->
  is_raise (predict m params start end_ dynamic
                    exog exog_oos fixed fixed_oos).
Proof.
  intros Hmax Hprep Hgt Hmiss.
  unfold predict. rewrite Hprep. cbn [bind fst snd]. unfold predict_from.
  destruct (check_opt m exog "exog" (orig_exog m) true);
    cbn [bind]; [|eexists; reflexivity].
  destruct (check_opt m exog_oos "exog_oos" (orig_exog m) false)
    as [xo|] eqn:Exo; cbn [bind]; [|eexists; reflexivity].
  destruct (check_opt m fixed "fixed" _ true);
    cbn [bind]; [|eexists; reflexivity].
  destruct (check_opt m (option_map _ fixed_oos) "fixed_oos" _ false)
    as [fo|] eqn:Efo; cbn [bind]; [|eexists; reflexivity].
  rewrite Hmax. cbn [bind]. rewrite Hgt.
  destruct Hmiss as [[Ho ->]|[Hf ->]].
  - cbn in Exo. injection Exo as <-.
    destruct (_order m); [contradiction|]. cbn. eexists. reflexivity.
  - cbn in Efo. injection Efo as <-.
    destruct (Z.eqb_spec (shape1 (_fixed m)) 0); [contradiction|].
    cbn [negb].
    match goal with
    | |- is_raise (bind (bind ?r _) _) => destruct r; cbn [bind]
    end; eexists; reflexivity.
Qed.

End OneStep.

(** ** The concrete scenario *)

Section Scenario.

Context {V : Type} {Sc : Scalar V}.

Lemma rectangular_single_column (x : list V) :
  rectangular (map (fun v => [v]) x) = true.
Proof.
  unfold rectangular. apply forallb_forall. intros r Hr.
  apply in_map_iff in Hr. destruct Hr as [v [<- Hv]].
  destruct x; [contradiction | reflexivity].
Qed.

Lemma get_single_column (x : list V) :
  map_result (fun row : list V => index row 0) (map (fun v => [v]) x) = Ok x.
Proof.
  rewrite map_result_ok with (g := fun row => nth 0 row s_nan).
  - rewrite map_map. cbn. now rewrite map_id.
  - intros row Hr. apply in_map_iff in Hr. destruct Hr as [v [<- _]].
    reflexivity.
Qed.

Lemma scenario_constructs (y x : list V) (term : string -> nat -> V) :
  length y = 100%nat -> length x = 100%nat ->
  is_ok (ARDL_init (scenario_args y x term)).
Proof.
  intros Hy Hx.
  assert (Hs1 : shape1 (map (fun v : V => [v]) x) = 1).
  { destruct x; [discriminate | reflexivity]. }
  unfold ARDL_init.
  assert (Hbase : AutoReg_init (scenario_args y x term) = Ok tt).
  { unfold AutoReg_init, scenario_args.
    cbn [a_endog a_lags a_exog a_hold_back values labels].
    rewrite rectangular_single_column, length_map, Hx, Hy, Hs1.
    reflexivity. }
  rewrite Hbase. cbn [bind scenario_args a_fixed a_endog a_ynames a_exog
                      a_det a_hold_back a_causal a_lags a_order fst snd].
  match goal with
  | |- is_ok (bind (_initialize_model ?self ?l ?o) _) =>
      destruct (@initialize_model_ok V Sc self l o [(KStr "x", [0; 1])] 1)
        as [m0 Hm0]
  end; cbn [s_endog s_orig_exog s_fixed s_hold_back s_causal s_deterministics].
  - intros z Hz. apply in_range in Hz. lia.
  - rewrite Hy. reflexivity.
  - reflexivity.
  - reflexivity.
  - intros _. eexists. split; [reflexivity|]. cbn [values].
    rewrite length_map, Hx, Hy. repeat split; try reflexivity.
    intros kv [<-|[]]. exists x. apply get_single_column.
  - rewrite repeat_length. now rewrite Hy.
  - rewrite Hy. replace (max_or_0 (lags_of (LInt 2))) with 2 by reflexivity.
    lia.
  - rewrite Hy. replace (max_or_0 (lags_of (LInt 2))) with 2 by reflexivity.
    unfold stacked_row, exog_part.
    rewrite !length_app, !length_map. cbn [map concat app length snd].
    vm_compute. discriminate.
  - rewrite Hm0. cbn [bind].
    apply initialize_model_inv in Hm0.
    + destruct Hm0 as [_ [Hord _]]. cbn in Hord. injection Hord as <-.
      eexists. reflexivity.
    + intros z Hz. apply in_range in Hz. lia.
    + intros f [= <-]. cbn. now rewrite length_map, Hx, Hy.
Qed.

(** C3. A response of 100 observations named [y], one exogenous variable
    labelled [x], [causal=False], autoregressive lag 2, exogenous order 1
    and the default trend construct a model whose columns are named
    [const, y.L1, y.L2, x.L0, x.L1] in this order, whose [hold_back] is 2,
    whose design matrix has 98 rows of 5 entries, one per parameter, and
    for which a forecast of 3 steps without out-of-sample exogenous data
    raises. *)
Theorem concrete_scenario (y x : list V) (term : string -> nat -> V)
    (params : list V) :
  length y = 100%nat -> length x = 100%nat ->
  exists m,
    ARDL_init (scenario_args y x term) = Ok m
    /\ _exog_names m = ["const"; "y.L1"; "y.L2"; "x.L0"; "x.L1"]
    /\ _hold_back m = 2
    /\ n_columns m = 5
    /\ length (_x m) = 98%nat
    /\ Forall (fun row => length row = 5%nat) (_x m)
    /\ max_1step m = Ok (Fin 0)
    /\ is_raise (forecast {| model := m; _params := params |} 3 None None).
Proof.
  intros Hy Hx.
  destruct (scenario_constructs y x term Hy Hx) as [m Hm].
  exists m. split; [assumption|].
  pose proof (ARDL_init_inv _ Hm) as Hinv.
  cbn [scenario_args a_endog a_exog a_det a_lags a_ynames a_hold_back
       a_order a_causal a_fixed] in Hinv.
  destruct Hinv
    as [[E1 [E2 [E3 [E4 E5]]]] [Hlags [Hacc [[Hm0 [Hhn [Hml [Hmo Hhb]]]] [[Hfl
        Hrect] [Hx' [Hy' [Hsh [Hdet [Hn [Hord [Hfix [[mo [Hmo' Hmax]] [Hc
            [Hnames [Hfn _]]]]]]]]]]]]]]]].
  cbn in Hord. injection Hord as Hord. rewrite <- Hord in *.
  cbn in Hmo'. injection Hmo' as <-.
  rewrite E4 in Hmax. change (max_or_0 (lags_of (LInt 2))) with 2 in Hmax.
  assert (Hhb2 : _hold_back m = 2) by (rewrite Hhb, Hmax; reflexivity).
  assert (Hcols : n_columns m = 5).
  { unfold n_columns. rewrite E3, E4, <- Hord, Hfix, Hy. reflexivity. }
  assert (Hbound : max_1step m = Ok (Fin 0)).
  { rewrite max_1step_bound by (rewrite <- Hord; assumption).
    unfold one_step_bound. rewrite Hc. cbn. now rewrite andb_false_r. }
  repeat split.
  - rewrite Hnames, Hfn, E2, E3, E4, E5. reflexivity.
  - assumption.
  - assumption.
  - rewrite Hx', length_map, length_seq, Hhb2, Hy. reflexivity.
  - rewrite Hx'. apply Forall_forall. intros row Hrow.
    apply in_map_iff in Hrow. destruct Hrow as [t [<- Ht]].
    apply in_seq in Ht. apply Nat2Z.inj.
    rewrite design_row_length, Hcols; [reflexivity|assumption|lia].
  - assumption.
  - unfold forecast, results_predict. cbn [model _params].
    eapply predict_raises_beyond with (bound := Fin 0) (num_oos := 3).
    + assumption.
    + unfold nobs_of. rewrite E1, Hy. reflexivity.
    + reflexivity.
    + left. split; [|reflexivity]. rewrite <- Hord. discriminate.
Qed.

End Scenario.

(** ** Order selection *)

Section Selection.

Context {V : Type} {Sc : Scalar V}.

Lemma ic_ltb_trans (a b c : ic_value) :
  ic_ltb a b = true -> ic_ltb b c = true -> ic_ltb a c = true.
Proof.
  destruct a, b, c; cbn; try discriminate; try reflexivity.
  intros H1 H2. apply Z.ltb_lt in H1, H2. apply Z.ltb_lt. lia.
Qed.

Lemma ic_ltb_total (a b : ic_value) :
  a <> IcNaN -> b <> IcNaN -> ic_ltb a b = false ->
  a = b \/ ic_ltb b a = true.
Proof.
  destruct a, b; cbn; intros Ha Hb H; try contradiction; try discriminate;
    auto.
  apply Z.ltb_ge in H. destruct (Z.eq_dec z z0) as [->|Hne]; [now left|].
  right. apply Z.ltb_lt. lia.
Qed.

Lemma ic_ltb_not_nan (a b : ic_value) : ic_ltb a b = true -> a <> IcNaN.
Proof. destruct a; cbn; congruence. Qed.

Lemma ic_ltb_not_nan_r (a b : ic_value) : ic_ltb a b = true -> b <> IcNaN.
Proof. destruct a, b; cbn; congruence. Qed.

Lemma ic_ltb_irrefl (a : ic_value) : ic_ltb a a = false.
Proof. destruct a; cbn; try reflexivity. apply Z.ltb_irrefl. Qed.

Lemma loop_step (ic : ic_name) (seen : ics_table)
    (st : ic_value * option sel_key) (kv : sel_key * ics_entry) :
  loop_inv ic seen st ->
  loop_inv ic (seen ++ [kv])
    (if ic_ltb (ic_of ic (snd kv)) (fst st)
     then (ic_of ic (snd kv), Some (fst kv)) else st).
Proof.
  intros Hinv. destruct (ic_ltb (ic_of ic (snd kv)) (fst st)) eqn:Elt.
  - (* the new candidate is strictly better *)
    unfold loop_inv. cbn [fst snd].
    exists (length seen), (snd kv).
    assert (Hprev : forall kv', In kv' seen ->
              ic_ltb (ic_of ic (snd kv')) (fst st) = false).
    { unfold loop_inv in Hinv. destruct (snd st).
      - destruct Hinv as [i [e [_ [_ [_ [H _]]]]]]. exact H.
      - destruct Hinv as [-> H]. exact H. }
    assert (Hinf : ic_ltb (ic_of ic (snd kv)) IcInf = true).
    { unfold loop_inv in Hinv. destruct (snd st).
      - destruct Hinv as [i [e [_ [_ [H _]]]]].
        eapply ic_ltb_trans; eassumption.
      - destruct Hinv as [E _]. now rewrite E in Elt. }
    repeat split.
    + rewrite nth_error_app2, Nat.sub_diag by lia. cbn.
      now destruct kv.
    + assumption.
    + intros kv' Hin. apply in_app_or in Hin. destruct Hin as [Hin|[<-|[]]].
      * destruct (ic_ltb (ic_of ic (snd kv')) (ic_of ic (snd kv))) eqn:E;
          [|reflexivity].
        pose proof (Hprev kv' Hin) as Hp.
        rewrite (ic_ltb_trans _ _ _ E Elt) in Hp. discriminate.
      * apply ic_ltb_irrefl.
    + intros j kv' Hj Hnth. rewrite nth_error_app1 in Hnth by assumption.
      apply nth_error_In in Hnth. specialize (Hprev kv' Hnth).
      assert (Hdec : ic_of ic (snd kv') = IcNaN \/ ic_of ic (snd kv') <> IcNaN)
        by (destruct (ic_of ic (snd kv')); auto; right; discriminate).
      destruct Hdec as [Hnan|Hnn]; [now right | left].
      destruct (ic_ltb_total Hnn (@ic_ltb_not_nan_r _ _ Elt) Hprev) as [E|E].
      * now rewrite E.
      * exact (ic_ltb_trans _ _ _ Elt E).
  - (* the state is kept *)
    unfold loop_inv in *. destruct (snd st) as [k|].
    + destruct Hinv as [i [e [Hn [He [Hi [Hmin Hfirst]]]]]].
      exists i, e. repeat split; try assumption.
      * rewrite nth_error_app1; [assumption|].
        apply nth_error_Some. congruence.
      * intros kv' Hin. apply in_app_or in Hin.
        destruct Hin as [Hin|[<-|[]]]; [now apply Hmin | assumption].
      * intros j kv' Hj Hnth.
        assert (i < length seen)%nat by (apply nth_error_Some; congruence).
        rewrite nth_error_app1 in Hnth by lia. eapply Hfirst; eassumption.
    + destruct Hinv as [E Hall]. split; [assumption|].
      intros kv' Hin. apply in_app_or in Hin.
      destruct Hin as [Hin|[<-|[]]]; [now apply Hall|].
      now rewrite E in Elt.
Qed.

Lemma loop_all (ic : ic_name) (seen rest : ics_table)
    (st : ic_value * option sel_key) :
  loop_inv ic seen st ->
  loop_inv ic (seen ++ rest)
    (fold_left (fun st kv =>
                  let val := ic_of ic (snd kv) in
                  if ic_ltb val (fst st) then (val, Some (fst kv)) else st)
               rest st).
Proof.
  revert seen st. induction rest as [|kv rest IH]; intros seen st Hinv.
  - now rewrite app_nil_r.
  - cbn [fold_left].
    replace (seen ++ kv :: rest) with ((seen ++ [kv]) ++ rest)
      by now rewrite <- app_assoc.
    apply IH. now apply loop_step.
Qed.

Lemma select_loop_inv (ics : ics_table) (ic : ic_name) :
  loop_inv ic ics (select_loop ics ic).
Proof.
  unfold select_loop. apply (loop_all ic [] ics (IcInf, None)).
  split; [reflexivity | intros kv []].
Qed.

(** The selection loop returns a key exactly when some candidate of
    the criterion table has a value below [np.inf]. The key it returns is
    that of a candidate below which no candidate of the table lies, and
    every candidate enumerated before it has a strictly larger value (or no
    value at all); the model that [ardl_select_order] returns is the one
    constructed from the lags and the order mapping of that key. *)
Lemma select_order_first_minimum (ics : ics_table) (ic : ic_name) :
  ((exists kv, In kv ics /\ ic_ltb (ic_of ic (snd kv)) IcInf = true)
   <-> is_ok (select_order ics ic))
  /\ (forall k, select_order ics ic = Ok k ->
      exists i e,
        nth_error ics i = Some (k, e)
        /\ (forall kv, In kv ics ->
              ic_ltb (ic_of ic (snd kv)) (ic_of ic e) = false)
        /\ (forall j kv, (j < i)%nat -> nth_error ics j = Some kv ->
              ic_ltb (ic_of ic e) (ic_of ic (snd kv)) = true
              \/ ic_of ic (snd kv) = IcNaN))
  /\ (forall (args : ARDL_args V) maxlag maxorder scores model,
      ardl_select_order args maxlag maxorder scores ic = Ok (model, ics) ->
      exists k,
        select_order ics ic = Ok k
        /\ _lags model = lags_of (fst k)
        /\ snd (_format_order (option_map frame_keys (a_exog args))
                              (OMap (snd k)) (a_causal args))
           = Ok (_order model)).
Proof.
  pose proof (select_loop_inv ics ic) as Hinv.
  unfold select_order, loop_inv in *.
  destruct (snd (select_loop ics ic)) as [k|] eqn:Esel.
  - destruct Hinv as [i [e [Hn [He [Hi [Hmin Hfirst]]]]]].
    rewrite He in *. split; [|split].
    + split; [intros _; eexists; reflexivity|]. intros _.
      exists (k, e). split; [|assumption].
      eapply nth_error_In. eassumption.
    + intros k' [= <-]. exists i, e. repeat split; assumption.
    + intros args maxlag maxorder scores model H.
      unfold ardl_select_order in H.
      apply bind_ok in H. destruct H as [base [Hbase H]].
      apply bind_ok in H. destruct H as [k' [Hk H]].
      apply bind_ok in H. destruct H as [model' [Hmodel H]].
      injection H as -> Hics. rewrite Hics in Hk.
      unfold select_order in Hk. rewrite Esel in Hk. injection Hk as <-.
      exists k. split; [reflexivity|].
      apply ARDL_init_inv in Hmodel.
      cbn [a_lags a_exog a_order a_causal] in Hmodel.
      split; apply Hmodel.
  - destruct Hinv as [_ Hall]. split; [|split].
    + split.
      * intros [kv [Hin Hlt]]. rewrite (Hall kv Hin) in Hlt. discriminate.
      * intros [k Hk]. discriminate.
    + intros k Hk. discriminate.
    + intros args maxlag maxorder scores model H.
      unfold ardl_select_order in H.
      apply bind_ok in H. destruct H as [base [Hbase H]].
      apply bind_ok in H. destruct H as [k' [Hk H]].
      apply bind_ok in H. destruct H as [model' [Hmodel H]].
      injection H as -> Hics. unfold select_order in Hk.
      rewrite Hics, Esel in Hk. discriminate.
Qed.

End Selection.

(** ** The prediction walk *)

Section Walk.

Context {V : Type} {Sc : Scalar V}.

Variable m : ARDL V.
Variable params : list V.
Variables start dynamic_start offset : Z.

Lemma set_nth_twice {A : Type} (l : list A) (i : nat) (a b : A) :
  set_nth (set_nth l i a) i b = set_nth l i b.
Proof.
  revert i. induction l as [|x l IH]; intros [|i]; cbn; try reflexivity.
  now rewrite IH.
Qed.

Lemma set_entry_ok (x : matrix V) (i j : Z) (v : V) :
  0 <= i < Z.of_nat (length x) ->
  0 <= j < Z.of_nat (length (nth (Z.to_nat i) x [])) ->
  set_entry x i j v
  = Ok (set_nth x (Z.to_nat i) (set_nth (nth (Z.to_nat i) x []) (Z.to_nat j)
      v)).
Proof.
  intros Hi Hj. unfold set_entry.
  rewrite (@index_ok _ x i []) by assumption. cbn [bind].
  rewrite set_index_ok by assumption. cbn [bind].
  now rewrite set_index_ok by assumption.
Qed.

Lemma fill_pairs (ps : list (Z * Z)) (fcasts : list V) (i : Z) :
  forall (x : matrix V) (row : list V),
  0 <= i < Z.of_nat (length x) ->
  nth (Z.to_nat i) x [] = row ->
  NoDup (map fst ps) ->
  (forall j lag, In (j, lag) ps ->
     0 <= offset + j < Z.of_nat (length row)
     /\ readable m start dynamic_start (length fcasts) i lag) ->
  exists row',
    fold_result (fun x jl =>
        val <- (if i - snd jl >=? dynamic_start
                then index fcasts (i - snd jl)
                else index (endog m) (start + (i - snd jl))) ;;
        set_entry x i (offset + fst jl) val) ps x
    = Ok (set_nth x (Z.to_nat i) row')
    /\ length row' = length row
    /\ (forall j lag, In (j, lag) ps ->
          nth (Z.to_nat (offset + j)) row' s_nan = lag_source m start
              dynamic_start fcasts i lag)
    /\ (forall c, (forall j lag, In (j, lag) ps -> c <> Z.to_nat (offset + j))
        ->
          nth c row' s_nan = nth c row s_nan).
Proof.
  induction ps as [|[j lag] ps IH]; intros x row Hi Hrow Hnd Hps.
  - exists row. cbn. repeat split.
    + f_equal. subst row. clear Hps.
      assert (Hlt : (Z.to_nat i < length x)%nat) by lia.
      revert Hlt. generalize (Z.to_nat i). clear.
      induction x as [|r x IH]; intros [|n] H; cbn in *; try lia;
        [reflexivity|]. f_equal. apply IH. lia.
    + intros j lag [].
  - cbn [fold_result fst snd].
    destruct (Hps j lag (or_introl eq_refl)) as [Hpos Hread].
    assert (Hval : (if i - lag >=? dynamic_start
                    then index fcasts (i - lag)
                    else index (endog m) (start + (i - lag)))
                   = Ok (lag_source m start dynamic_start fcasts i lag)).
    { unfold lag_source, readable in *.
      destruct (i - lag >=? dynamic_start).
      - now apply index_ok.
      - replace (start + (i - lag)) with (start + i - lag) by lia.
        now apply index_ok. }
    rewrite Hval. cbn [bind].
    rewrite set_entry_ok by (rewrite ?Hrow; assumption).
    cbn [bind]. rewrite Hrow.
    set (row1 := set_nth row (Z.to_nat (offset + j)) (lag_source m start
        dynamic_start fcasts i lag)).
    set (x1 := set_nth x (Z.to_nat i) row1).
    inversion Hnd as [|? ? Hnotin Hnd']; subst.
    destruct (IH x1 row1) as [row' [Hfold [Hlen [Hset Hkeep]]]].
    + unfold x1. rewrite set_nth_length. assumption.
    + unfold x1. apply set_nth_same. lia.
    + assumption.
    + intros j' lag' Hin. unfold row1. rewrite set_nth_length.
      apply Hps. now right.
    + exists row'. split; [|split; [|split]].
      * rewrite Hfold. unfold x1. now rewrite set_nth_twice.
      * rewrite Hlen. unfold row1. apply set_nth_length.
      * intros j' lag' [[= <- <-]|Hin]; [|now apply Hset].
        rewrite Hkeep.
        -- unfold row1. apply set_nth_same. lia.
        -- intros j' lag' Hin Heq.
           destruct (Hps j' lag' (or_intror Hin)) as [Hpos' _].
           assert (j' = j) by lia. subst j'.
           apply Hnotin. apply in_map_iff. exists (j, lag'). now split.
      * intros c Hc. rewrite Hkeep.
        -- unfold row1. apply set_nth_other.
           intros Heq. apply (Hc j lag); [now left | now symmetry].
        -- intros j' lag' Hin. apply (Hc j' lag'). now right.
Qed.

Lemma enumerate_from (l : list Z) (k : Z) :
  forall j lag,
    In (j, lag) (combine (range k (k + Z.of_nat (length l))) l)
    <-> k <= j /\ nth_error l (Z.to_nat (j - k)) = Some lag.
Proof.
  revert k. induction l as [|a l IH]; intros k j lag.
  - cbn [length]. rewrite range_empty by lia. cbn. split; [contradiction|].
    intros [_ H]. now destruct (Z.to_nat (j - k)).
  - cbn [length]. rewrite range_cons by lia. cbn [combine].
    replace (k + Z.of_nat (S (length l)))
      with (k + 1 + Z.of_nat (length l)) by lia.
    cbn [In]. rewrite IH. split.
    + intros [[= <- <-]|[Hk Hn]].
      * split; [lia|]. now rewrite Z.sub_diag.
      * split; [lia|].
        replace (Z.to_nat (j - k)) with (S (Z.to_nat (j - (k + 1)))) by lia.
        exact Hn.
    + intros [Hk Hn]. destruct (Z.eq_dec j k) as [->|Hne].
      * left. rewrite Z.sub_diag in Hn. cbn in Hn. congruence.
      * right. split; [lia|].
        replace (Z.to_nat (j - k)) with (S (Z.to_nat (j - (k + 1)))) in Hn
          by lia.
        exact Hn.
Qed.

Lemma enumerate_In (l : list Z) (j lag : Z) :
  In (j, lag) (enumerate l)
  <-> 0 <= j /\ nth_error l (Z.to_nat j) = Some lag.
Proof.
  unfold enumerate. rewrite (enumerate_from l 0 j lag).
  now rewrite Z.sub_0_r.
Qed.

Lemma enumerate_NoDup (l : list Z) : NoDup (map fst (enumerate l)).
Proof.
  unfold enumerate.
  assert (H : forall (r l0 : list Z),
            map fst (combine r l0) = firstn (length l0) r).
  { intros r. induction r as [|x r IH]; intros [|y l0]; cbn;
      try reflexivity. now rewrite IH. }
  rewrite H.
  apply NoDup_app_remove_r
    with (l' := skipn (length l) (range 0 (Z.of_nat (length l)))).
  rewrite firstn_skipn. apply range_NoDup.
Qed.

Lemma fill_lags_spec (x : matrix V) (fcasts : list V) (i : Z) :
  0 <= i < Z.of_nat (length x) ->
  0 <= offset ->
  (forall j, (j < length (_lags m))%nat ->
     offset + Z.of_nat j < Z.of_nat (length (nth (Z.to_nat i) x []))) ->
  (forall lag, In lag (_lags m) -> readable m start dynamic_start (length
      fcasts) i lag) ->
  exists row',
    fill_lags m start dynamic_start offset fcasts i x
    = Ok (set_nth x (Z.to_nat i) row')
    /\ length row' = length (nth (Z.to_nat i) x [])
    /\ (forall j lag, nth_error (_lags m) j = Some lag ->
          nth (Z.to_nat offset + j) row' s_nan = lag_source m start
              dynamic_start fcasts i lag)
    /\ (forall c, (c < Z.to_nat offset)%nat
                  \/ (Z.to_nat offset + length (_lags m) <= c)%nat ->
          nth c row' s_nan = nth c (nth (Z.to_nat i) x []) s_nan).
Proof.
  intros Hi Hoff Hw Hread.
  destruct (@fill_pairs (enumerate (_lags m)) fcasts i x
              (nth (Z.to_nat i) x []) Hi eq_refl (enumerate_NoDup _))
    as [row' [Hfold [Hlen [Hset Hkeep]]]].
  { intros j lag Hin. apply enumerate_In in Hin. destruct Hin as [Hj Hn].
    assert (Hlt : (Z.to_nat j < length (_lags m))%nat)
      by (apply nth_error_Some; congruence).
    split; [specialize (Hw _ Hlt); lia|].
    apply Hread. eapply nth_error_In. eassumption. }
  exists row'. split; [exact Hfold|]. split; [assumption|]. split.
  - intros j lag Hn.
    replace (Z.to_nat offset + j)%nat with (Z.to_nat (offset + Z.of_nat j))
      by lia.
    apply Hset. apply enumerate_In. split; [lia|]. now rewrite Nat2Z.id.
  - intros c Hc. apply Hkeep. intros j lag Hin.
    apply enumerate_In in Hin. destruct Hin as [Hj Hn].
    assert (Z.to_nat j < length (_lags m))%nat
      by (apply nth_error_Some; congruence).
    lia.
Qed.

Hypothesis Hlags : valid_lags (_lags m).
Hypothesis Hoffset : 0 <= offset.
Hypothesis Hstart : 0 <= dynamic_start.

Lemma lag_source_set (F : list V) (k t : nat) (v : V) (lag : Z) :
  (t <= k)%nat -> 1 <= lag ->
  lag_source m start dynamic_start (set_nth F k v) (Z.of_nat t) lag =
      lag_source m start dynamic_start F (Z.of_nat t) lag.
Proof.
  intros Ht Hl. unfold lag_source.
  destruct (Z.of_nat t - lag >=? dynamic_start) eqn:E; [|reflexivity].
  apply set_nth_other.
  destruct (Z.geb_spec (Z.of_nat t - lag) dynamic_start); [lia|discriminate].
Qed.

Lemma walk_step_spec (x0 : matrix V) (f0 : list V) (k : nat) (X : matrix V)
    (F : list V) :
  length x0 = length f0 ->
  length (nth k x0 []) = length params ->
  (forall j, (j < length (_lags m))%nat ->
     offset + Z.of_nat j < Z.of_nat (length params)) ->
  (forall lag, In lag (_lags m) -> readable m start dynamic_start (length f0)
      (Z.of_nat k) lag) ->
  (Z.to_nat dynamic_start <= k < length x0)%nat ->
  walked m params start dynamic_start offset x0 f0 k X F ->
  exists X' F',
    walk_step m params start dynamic_start offset (X, F) (Z.of_nat k)
    = Ok (X', F')
    /\ walked m params start dynamic_start offset x0 f0 (S k) X' F'.
Proof.
  intros Hlen Hwk Hcols Hread Hk [HX [HF [Hout [Hrows Hin]]]].
  unfold walk_step. cbn [fst snd].
  destruct (@fill_lags_spec X F (Z.of_nat k)) as [row' [Hfill [Hl [Hset
      Hkeep]]]].
  { lia. }
  { assumption. }
  { intros j Hj. rewrite Nat2Z.id, Hrows, Hwk. now apply Hcols. }
  { now rewrite HF. }
  rewrite Nat2Z.id in *.
  rewrite Hfill. cbn [bind].
  rewrite (@index_ok _ (set_nth X k row') (Z.of_nat k) [])
    by (rewrite set_nth_length; lia).
  cbn [bind]. rewrite Nat2Z.id, set_nth_same by lia.
  unfold row_dot.
  assert (Hrl : length row' = length params).
  { now rewrite Hl, Hrows. }
  rewrite Hrl, Nat.eqb_refl. cbn [bind].
  rewrite set_index_ok by lia. cbn [bind]. rewrite Nat2Z.id.
  eexists. eexists. split; [reflexivity|].
  unfold walked. rewrite !set_nth_length. repeat split; try assumption.
  - rewrite set_nth_other by lia. now apply Hout; lia.
  - rewrite set_nth_other by lia. now apply Hout; lia.
  - intros t. destruct (Nat.eq_dec t k) as [->|Hne].
    + destruct (Nat.lt_ge_cases k (length X)) as [Hlt|Hge].
      * rewrite set_nth_same by assumption. now rewrite Hl.
      * lia.
    + rewrite set_nth_other by lia. apply Hrows.
  - destruct (Nat.eq_dec t k) as [->|Hne].
    + rewrite !set_nth_same by lia. reflexivity.
    + rewrite !set_nth_other by lia. apply Hin. lia.
  - intros j lag Hn. rewrite lag_source_set; [|lia|].
    2:{ apply Hlags. eapply nth_error_In. eassumption. }
    destruct (Nat.eq_dec t k) as [->|Hne].
    + rewrite set_nth_same by lia. now apply Hset.
    + rewrite set_nth_other by lia. apply Hin; [lia | assumption].
  - intros c Hc. destruct (Nat.eq_dec t k) as [->|Hne].
    + rewrite set_nth_same by lia. rewrite Hkeep by assumption.
      f_equal. apply Hout. lia.
    + rewrite set_nth_other by lia. apply Hin; [lia | assumption].
Qed.

Lemma walked_start (x0 : matrix V) (f0 : list V) (k : nat) :
  (k <= Z.to_nat dynamic_start)%nat -> walked m params start dynamic_start
      offset x0 f0 k x0 f0.
Proof.
  intros Hk. unfold walked. repeat split; try reflexivity; lia.
Qed.

Lemma walk_from (x0 : matrix V) (f0 : list V) (r : nat) :
  forall (k : nat) (X : matrix V) (F : list V),
  length x0 = length f0 ->
  (forall t, (t < length x0)%nat ->
     length (nth t x0 []) = length params
     /\ offset + Z.of_nat (length (_lags m)) <= Z.of_nat (length params)) ->
  (forall t lag, (Z.to_nat dynamic_start <= t < length x0)%nat ->
     In lag (_lags m) -> readable m start dynamic_start (length f0) (Z.of_nat
         t) lag) ->
  (k + r = length x0)%nat -> (Z.to_nat dynamic_start <= k)%nat ->
  walked m params start dynamic_start offset x0 f0 k X F ->
  exists X' F',
    fold_result (walk_step m params start dynamic_start offset)
      (range (Z.of_nat k) (Z.of_nat (length x0))) (X, F)
    = Ok (X', F')
    /\ walked m params start dynamic_start offset x0 f0 (length x0) X' F'.
Proof.
  induction r as [|r IH]; intros k X F Hlen Hwidth Hread Hkr Hk Hw.
  - rewrite range_empty by lia. exists X, F. split; [reflexivity|].
    now replace (length x0) with k by lia.
  - rewrite range_cons by lia. cbn [fold_result].
    destruct (@walk_step_spec x0 f0 k X F) as [X1 [F1 [Hstep Hw1]]];
      try assumption.
    + apply Hwidth. lia.
    + intros j Hj. destruct (Hwidth k) as [_ Hwd]; lia.
    + intros lag Hlag. apply Hread; [lia | assumption].
    + lia.
    + rewrite Hstep. cbn [bind].
      replace (Z.of_nat k + 1) with (Z.of_nat (S k)) by lia.
      apply IH; try assumption; lia.
Qed.

(** The walk of [predict] returns, and every row of the dynamic region
    is walked. *)
Lemma walk_spec (x0 : matrix V) (f0 : list V) :
  length x0 = length f0 ->
  (forall t, (t < length x0)%nat ->
     length (nth t x0 []) = length params
     /\ offset + Z.of_nat (length (_lags m)) <= Z.of_nat (length params)) ->
  (forall t lag, (Z.to_nat dynamic_start <= t < length x0)%nat ->
     In lag (_lags m) -> readable m start dynamic_start (length f0) (Z.of_nat
         t) lag) ->
  exists X F,
    walk m params start dynamic_start offset x0 f0 = Ok (X, F)
    /\ walked m params start dynamic_start offset x0 f0 (length x0) X F.
Proof.
  intros Hlen Hwidth Hread. unfold walk. rewrite <- Hlen.
  destruct (Nat.le_gt_cases (Z.to_nat dynamic_start) (length x0)) as [Hle|Hgt].
  - replace (range dynamic_start (Z.of_nat (length x0)))
      with (range (Z.of_nat (Z.to_nat dynamic_start))
                  (Z.of_nat (length x0)))
      by (f_equal; lia).
    apply walk_from with (r := (length x0 - Z.to_nat dynamic_start)%nat);
      try assumption; try lia.
    apply walked_start. lia.
  - rewrite range_empty by lia. exists x0, f0. split; [reflexivity|].
    unfold walked. repeat split; try reflexivity; lia.
Qed.

Lemma index_read {A : Type} (l : list A) (i : Z) (a d : A) :
  index l i = Ok a -> 0 <= i ->
  i < Z.of_nat (length l) /\ a = nth (Z.to_nat i) l d.
Proof.
  unfold index. intros H Hi.
  destruct (Z.ltb_spec i 0); [lia|].
  destruct (Z.ltb_spec i 0); [lia|].
  destruct (Z.leb_spec (Z.of_nat (length l)) i); [discriminate|].
  cbn in H. split; [assumption|].
  destruct (nth_error l (Z.to_nat i)) as [b|] eqn:E; [|discriminate].
  injection H as <-. symmetry. now apply nth_error_nth.
Qed.

Lemma set_index_read {A : Type} (l l' : list A) (i : Z) (v : A) :
  set_index l i v = Ok l' -> 0 <= i -> i < Z.of_nat (length l).
Proof.
  unfold set_index. intros H Hi.
  destruct (Z.ltb_spec i 0); [lia|].
  destruct (Z.ltb_spec i 0); [lia|].
  destruct (Z.leb_spec (Z.of_nat (length l)) i); [discriminate | assumption].
Qed.

Lemma set_entry_inv (x x' : matrix V) (i j : Z) (v : V) :
  set_entry x i j v = Ok x' -> 0 <= i -> 0 <= j ->
  i < Z.of_nat (length x)
  /\ j < Z.of_nat (length (nth (Z.to_nat i) x [])).
Proof.
  unfold set_entry. intros H Hi Hj.
  apply bind_ok in H. destruct H as [row [Hrow H]].
  apply bind_ok in H. destruct H as [row' [Hrow' H]].
  destruct (@index_read _ x i row [] Hrow Hi) as [Hlt ->].
  split; [assumption|]. eapply set_index_read; eassumption.
Qed.

(** When the inner loop returns, every position that it read and wrote
    exists. *)
Lemma fill_pairs_inv (ps : list (Z * Z)) (fcasts : list V) (i : Z) :
  forall (x x' : matrix V),
  0 <= i ->
  (forall j lag, In (j, lag) ps ->
     0 <= offset + j /\ 0 <= start + dynamic_start - lag) ->
  dynamic_start <= i ->
  fold_result (fun x jl =>
      val <- (if i - snd jl >=? dynamic_start
              then index fcasts (i - snd jl)
              else index (endog m) (start + (i - snd jl))) ;;
      set_entry x i (offset + fst jl) val) ps x
  = Ok x' ->
  forall j lag, In (j, lag) ps ->
    offset + j < Z.of_nat (length (nth (Z.to_nat i) x []))
    /\ i < Z.of_nat (length x)
    /\ readable m start dynamic_start (length fcasts) i lag.
Proof.
  induction ps as [|[j0 lag0] ps IH]; intros x x' Hi Hps Hds H j lag Hin;
    [contradiction|].
  cbn [fold_result fst snd] in H.
  apply bind_ok in H. destruct H as [x1 [H1 H]].
  apply bind_ok in H1. destruct H1 as [val [Hval Hset]].
  destruct (Hps j0 lag0 (or_introl eq_refl)) as [Hj0 Hl0].
  destruct (@set_entry_inv _ _ _ _ _ Hset Hi Hj0) as [Hix Hjx].
  assert (Hread : readable m start dynamic_start (length fcasts) i lag0).
  { unfold readable. destruct (Z.geb_spec (i - lag0) dynamic_start).
    - destruct (@index_read _ _ _ _ s_nan Hval) as [Hlt _]; lia.
    - destruct (@index_read _ _ _ _ s_nan Hval) as [Hlt _]; lia. }
  destruct Hin as [[= <- <-]|Hin]; [now repeat split|].
  assert (Hx1 : x1 = set_nth x (Z.to_nat i)
                       (set_nth (nth (Z.to_nat i) x []) (Z.to_nat (offset + j0))
                                val)).
  { rewrite set_entry_ok in Hset by lia. now injection Hset. }
  destruct (IH x1 x' Hi) with (j := j) (lag := lag) as [A1 [A2 A3]];
    try assumption.
  - intros j' lag' Hin'. apply Hps. now right.
  - rewrite Hx1, set_nth_length in A2.
    rewrite Hx1, set_nth_same, set_nth_length in A1 by lia.
    now repeat split.
Qed.

Lemma fill_lags_inv (x x' : matrix V) (fcasts : list V) (i : Z) :
  0 <= i -> dynamic_start <= i ->
  (forall lag, In lag (_lags m) -> 0 <= start + dynamic_start - lag) ->
  fill_lags m start dynamic_start offset fcasts i x = Ok x' ->
  (forall j, (j < length (_lags m))%nat ->
     offset + Z.of_nat j < Z.of_nat (length (nth (Z.to_nat i) x [])))
  /\ (forall lag, In lag (_lags m) ->
        readable m start dynamic_start (length fcasts) i lag).
Proof.
  intros Hi Hds Hpos H. unfold fill_lags in H.
  assert (Hps : forall j lag, In (j, lag) (enumerate (_lags m)) ->
            0 <= offset + j /\ 0 <= start + dynamic_start - lag).
  { intros j lag Hin. apply enumerate_In in Hin. destruct Hin as [Hj Hn].
    split; [lia|]. apply Hpos. eapply nth_error_In. eassumption. }
  pose proof (@fill_pairs_inv (enumerate (_lags m)) fcasts i x x' Hi Hps Hds H)
    as Hall.
  split.
  - intros j Hj.
    destruct (nth_error (_lags m) j) as [lag|] eqn:E;
      [|apply nth_error_None in E; lia].
    destruct (Hall (Z.of_nat j) lag) as [A _]; [|exact A].
    apply enumerate_In. split; [lia|]. now rewrite Nat2Z.id.
  - intros lag Hlag. apply In_nth_error in Hlag. destruct Hlag as [j Hj].
    destruct (Hall (Z.of_nat j) lag) as [_ [_ A]]; [|exact A].
    apply enumerate_In. split; [lia|]. now rewrite Nat2Z.id.
Qed.

(** A step of the walk that returns has read and written existing
    positions only, and so moved the walk one row on. *)
Lemma walk_step_sound (x0 : matrix V) (f0 : list V) (k : nat) (X X' : matrix V)
    (F F' : list V) :
  length x0 = length f0 ->
  (forall lag, In lag (_lags m) -> 0 <= start + dynamic_start - lag) ->
  (Z.to_nat dynamic_start <= k)%nat ->
  walked m params start dynamic_start offset x0 f0 k X F ->
  walk_step m params start dynamic_start offset (X, F) (Z.of_nat k)
  = Ok (X', F') ->
  walked m params start dynamic_start offset x0 f0 (S k) X' F'
  /\ (k < length x0)%nat
  /\ length (nth k x0 []) = length params
  /\ (forall lag, In lag (_lags m) ->
        readable m start dynamic_start (length f0) (Z.of_nat k) lag).
Proof.
  intros Hlen Hpos Hk Hw Hstep.
  pose proof Hw as [HX [HF [_ [Hrows _]]]].
  pose proof Hstep as Hs. unfold walk_step in Hs. cbn [fst snd] in Hs.
  apply bind_ok in Hs. destruct Hs as [x1 [Hfill Hs]].
  apply bind_ok in Hs. destruct Hs as [row [Hrow Hs]].
  apply bind_ok in Hs. destruct Hs as [v [Hdot Hs]].
  apply bind_ok in Hs. destruct Hs as [f1 [Hset _]].
  assert (Hk0 : 0 <= Z.of_nat k) by lia.
  assert (Hkd : dynamic_start <= Z.of_nat k) by lia.
  destruct (@fill_lags_inv _ _ _ _ Hk0 Hkd Hpos Hfill) as [Hcols Hread].
  apply set_index_read in Hset; [|lia].
  assert (Hkx : (k < length x0)%nat) by lia.
  rewrite Nat2Z.id in Hcols.
  assert (Hread' : forall lag, In lag (_lags m) ->
            readable m start dynamic_start (length f0) (Z.of_nat k) lag)
    by (intros lag Hlag; rewrite <- HF; now apply Hread).
  assert (Hwk : length (nth k x0 []) = length params).
  { destruct (@fill_lags_spec X F (Z.of_nat k)) as [row' [Hfill' [Hl _]]];
      try assumption.
    - lia.
    - now rewrite Nat2Z.id.
    - rewrite Hfill' in Hfill. injection Hfill as <-.
      destruct (@index_read _ _ _ _ [] Hrow Hk0) as [_ ->].
      rewrite Nat2Z.id, set_nth_same in Hdot by lia.
      unfold row_dot in Hdot.
      destruct (Nat.eqb_spec (length row') (length params));
        [|discriminate].
      rewrite Nat2Z.id, Hrows in Hl. congruence. }
  destruct (@walk_step_spec x0 f0 k X F Hlen Hwk) as [X1 [F1 [Hstep1 Hw1]]];
    try assumption.
  - intros j Hj. rewrite <- Hwk, <- Hrows. now apply Hcols.
  - lia.
  - rewrite Hstep1 in Hstep. injection Hstep as <- <-.
    split; [exact Hw1|]. split; [exact Hkx|]. split; [exact Hwk|].
    exact Hread'.
Qed.

Lemma walk_from_sound (x0 : matrix V) (f0 : list V) (r : nat) :
  forall (k : nat) (X X' : matrix V) (F F' : list V),
  length x0 = length f0 ->
  (forall lag, In lag (_lags m) -> 0 <= start + dynamic_start - lag) ->
  (k + r = length x0)%nat -> (Z.to_nat dynamic_start <= k)%nat ->
  walked m params start dynamic_start offset x0 f0 k X F ->
  fold_result (walk_step m params start dynamic_start offset)
    (range (Z.of_nat k) (Z.of_nat (length x0))) (X, F)
  = Ok (X', F') ->
  walked m params start dynamic_start offset x0 f0 (length x0) X' F'
  /\ forall t, (k <= t < length x0)%nat ->
       length (nth t x0 []) = length params
       /\ forall lag, In lag (_lags m) ->
            readable m start dynamic_start (length f0) (Z.of_nat t) lag.
Proof.
  induction r as [|r IH]; intros k X X' F F' Hlen Hpos Hkr Hk Hw Hfold.
  - rewrite range_empty in Hfold by lia. injection Hfold as <- <-.
    split; [now replace (length x0) with k by lia | lia].
  - rewrite range_cons in Hfold by lia. cbn [fold_result] in Hfold.
    apply bind_ok in Hfold. destruct Hfold as [[X1 F1] [Hstep Hfold]].
    destruct (@walk_step_sound x0 f0 k X X1 F F1 Hlen Hpos Hk Hw Hstep)
      as [Hw1 [Hkx [Hwk Hread]]].
    replace (Z.of_nat k + 1) with (Z.of_nat (S k)) in Hfold by lia.
    destruct (IH (S k) X1 X' F1 F' Hlen Hpos) as [Hend Hall];
      try assumption; try lia.
    split; [assumption|]. intros t Ht.
    destruct (Nat.eq_dec t k) as [->|Hne]; [now split|].
    apply Hall. lia.
Qed.

(** When the walk of [predict] returns, every row of the dynamic region
    was walked, and every position read for it exists. *)
Lemma walk_sound (x0 X : matrix V) (f0 F : list V) :
  length x0 = length f0 ->
  (forall lag, In lag (_lags m) -> 0 <= start + dynamic_start - lag) ->
  walk m params start dynamic_start offset x0 f0 = Ok (X, F) ->
  walked m params start dynamic_start offset x0 f0 (length x0) X F
  /\ forall t, (Z.to_nat dynamic_start <= t < length x0)%nat ->
       length (nth t x0 []) = length params
       /\ forall lag, In lag (_lags m) ->
            readable m start dynamic_start (length f0) (Z.of_nat t) lag.
Proof.
  intros Hlen Hpos H. unfold walk in H. rewrite <- Hlen in H.
  destruct (Nat.le_gt_cases (Z.to_nat dynamic_start) (length x0)) as [Hle|Hgt].
  - replace (range dynamic_start (Z.of_nat (length x0)))
      with (range (Z.of_nat (Z.to_nat dynamic_start))
                  (Z.of_nat (length x0))) in H
      by (f_equal; lia).
    eapply walk_from_sound
      with (r := (length x0 - Z.to_nat dynamic_start)%nat); try eassumption;
      try lia.
    apply walked_start. lia.
  - rewrite range_empty in H by lia. injection H as <- <-.
    split; [|lia]. unfold walked. repeat split; try reflexivity; lia.
Qed.

Lemma set_index_length {A : Type} (l l' : list A) (i : Z) (v : A) :
  set_index l i v = Ok l' -> length l' = length l.
Proof.
  unfold set_index. intros H.
  match type of H with
  | (if ?c then _ else _) = _ => destruct c; [discriminate|]
  end.
  injection H as <-. apply set_nth_length.
Qed.

Lemma walk_step_length (st st' : matrix V * list V) (i : Z) :
  walk_step m params start dynamic_start offset st i = Ok st' ->
  length (snd st') = length (snd st).
Proof.
  unfold walk_step. intros H.
  apply bind_ok in H. destruct H as [x1 [_ H]].
  apply bind_ok in H. destruct H as [row [_ H]].
  apply bind_ok in H. destruct H as [v [_ H]].
  apply bind_ok in H. destruct H as [f1 [Hset H]].
  injection H as <-. cbn [snd]. eapply set_index_length. eassumption.
Qed.

Lemma fold_walk_length (l : list Z) :
  forall st st' : matrix V * list V,
  fold_result (walk_step m params start dynamic_start offset) l st = Ok st' ->
  length (snd st') = length (snd st).
Proof.
  induction l as [|i l IH]; intros st st' H; cbn [fold_result] in H.
  - now injection H as <-.
  - apply bind_ok in H. destruct H as [st1 [H1 H]].
    rewrite (IH _ _ H). exact (@walk_step_length st st1 i H1).
Qed.

(** The walk of [predict] returns as many forecasts as it was given. *)
Lemma walk_length (x X : matrix V) (f F : list V) :
  walk m params start dynamic_start offset x f = Ok (X, F) ->
  length F = length f.
Proof.
  unfold walk. intros H. apply fold_walk_length in H. exact H.
Qed.

End Walk.

(** ** The rebuilt forecasting matrix *)

Section Rebuild.

Context {V : Type} {Sc : Scalar V}.

Lemma map_result_app {A B : Type} (f : A -> result B) (l1 l2 : list A)
    (b1 b2 : list B) :
  map_result f l1 = Ok b1 -> map_result f l2 = Ok b2 ->
  map_result f (l1 ++ l2) = Ok (b1 ++ b2).
Proof.
  revert b1. induction l1 as [|a l1 IH]; cbn; intros b1 H1 H2.
  - now injection H1 as <-.
  - apply bind_ok in H1. destruct H1 as [b [Hb H1]].
    apply bind_ok in H1. destruct H1 as [bs [Hbs H1]].
    injection H1 as <-. rewrite Hb. cbn.
    rewrite (IH bs) by assumption. reflexivity.
Qed.

Lemma map_result_repeat {A B : Type} (f : A -> result B) (a : A) (b : B)
    (n : nat) :
  f a = Ok b -> map_result f (repeat a n) = Ok (repeat b n).
Proof.
  intros H. induction n as [|n IH]; cbn; [reflexivity|].
  now rewrite H, IH.
Qed.

Lemma index_repeat_nan (row : list V) (i : Z) (v : V) :
  index row i = Ok v ->
  index (repeat s_nan (length row)) i = Ok s_nan.
Proof.
  unfold index. rewrite repeat_length.
  destruct ((_ <? 0) || (_ <=? _)) eqn:E; [discriminate|].
  intros _. apply orb_false_iff in E. destruct E as [E1 E2].
  set (j := if i <? 0 then i + Z.of_nat (length row) else i) in *.
  destruct (Z.ltb_spec j 0); [discriminate|].
  destruct (Z.leb_spec (Z.of_nat (length row)) j); [discriminate|].
  destruct (nth_error (repeat s_nan (length row)) (Z.to_nat j)) as [a|] eqn:En.
  - apply nth_error_In, repeat_spec in En. now subst.
  - apply nth_error_None in En. rewrite repeat_length in En. lia.
Qed.

(** A column of data followed by missing rows is the column followed by
    missing values. *)
Lemma get_column_ext (f : frame V) (k : key) (col : list V) (n : nat) :
  get_column f k = Ok col -> values f <> [] ->
  get_column {| labels := labels f;
                values := values f
                          ++ full_nan n (Z.to_nat (shape1 (values f))) |} k
  = Ok (col ++ repeat s_nan n).
Proof.
  intros H Hne. unfold get_column in *. cbn [labels values].
  assert (Hrows : forall i c,
            map_result (fun row : list V => index row i) (values f) = Ok c ->
            map_result (fun row : list V => index row i)
              (values f ++ full_nan n (Z.to_nat (shape1 (values f))))
            = Ok (c ++ repeat s_nan n)).
  { intros i c Hc. apply map_result_app; [assumption|].
    unfold full_nan. apply map_result_repeat.
    destruct (values f) as [|r0 rows]; [congruence|].
    cbn [shape1]. rewrite Nat2Z.id.
    cbn in Hc. apply bind_ok in Hc. destruct Hc as [v [Hv _]].
    eapply index_repeat_nan, Hv. }
  destruct (labels f) as [names|]; destruct k as [i|s]; try discriminate.
  - destruct (label_pos s names); [|discriminate]. now apply Hrows.
  - now apply Hrows.
Qed.

Lemma dl_order_of_ok (vals : list (list Z)) (acc : Z) :
  (forall l, In l vals -> l <> []) ->
  exists d, dl_order_of vals acc = Ok d
    /\ acc <= d /\ forall l z, In l vals -> In z l -> z <= d.
Proof.
  revert acc. induction vals as [|val vals IH]; intros acc H; cbn.
  - exists acc. split; [reflexivity|]. split; [lia | contradiction].
  - destruct val as [|z l]; [exfalso; now apply (H []); [left|]|].
    cbn [py_max bind].
    destruct (IH (Z.max acc (max_list z l))) as [d [Hd [Hle Hall]]].
    { intros l' Hl'. apply H. now right. }
    exists d. split; [assumption|]. split; [lia|].
    intros l' z' [<-|Hl'] Hz'.
    + destruct (max_list_ge l z) as [Hge1 Hge2].
      assert (z' <= max_list z l); [|lia].
      destruct Hz' as [<-|Hz']; [assumption | now apply Hge2].
    + eapply Hall; eassumption.
Qed.

(** [ardl_order] returns, and its second component is [None] exactly for
    a model without exogenous lags. *)
Lemma ardl_order_ok (m : ARDL V) :
  Forall (accepted false) (_order m) ->
  exists ao, ardl_order m = Ok ao
    /\ (_order m = [] -> snd ao = None)
    /\ (_order m <> [] -> exists d, snd ao = Some d).
Proof.
  intros Hacc. unfold ardl_order.
  destruct (dl_order_of_ok (map snd (_order m)) (-1)) as [d [Hd [Hle Hall]]].
  { intros l Hl. apply in_map_iff in Hl. destruct Hl as [kv [<- Hkv]].
    rewrite Forall_forall in Hacc. now apply Hacc. }
  rewrite Hd. cbn [bind]. eexists. split; [reflexivity|]. cbn [snd]. split.
  - intros E. rewrite E in Hd. cbn in Hd. injection Hd as <-. reflexivity.
  - intros Hne. destruct (_order m) as [|kv ord]; [congruence|].
    apply Forall_inv in Hacc. destruct Hacc as [Hn Hge].
    destruct (snd kv) as [|z l] eqn:Ez; [congruence|].
    assert (z <= d).
    { apply (Hall (z :: l)); [left; now rewrite <- Ez | now left]. }
    assert (0 <= z) by (apply Hge; now left).
    destruct (Z.ltb_spec d 0); [lia|]. now exists d.
Qed.

(** Stacking the blocks that [_forecasting_x] keeps: the block of the
    response without lags and a fixed block without columns are left
    out. *)
Lemma stack_forecast (d : det_process V) (y : list V) (lags : list Z)
    (f : option (frame V)) (ord : list (key * list Z)) (fixed : matrix V)
    (n : nat) :
  ((shape1 fixed >? 0) = true -> length fixed = n) ->
  ((shape1 fixed >? 0) = false -> forall t, nth t fixed [] = []) ->
  column_stack n
    ([in_sample d n]
     ++ match lags with [] => [] | _ :: _ => [lag_rows y lags n] end
     ++ map (fun kv => lag_rows (column_of f (fst kv)) (snd kv) n) ord
     ++ (if shape1 fixed >? 0 then [fixed] else []))
  = Ok (map (stacked_row d y lags f ord fixed) (seq 0 n)).
Proof.
  intros Hwide Hnone.
  set (fl := match lags with
             | [] => []
             | _ :: _ => [fun t : nat => map (lag_value y t) lags]
             end).
  set (ff := if shape1 fixed >? 0
             then [fun t : nat => nth t fixed []] else []).
  assert (Hb : [in_sample d n]
               ++ match lags with [] => [] | _ :: _ => [lag_rows y lags n] end
               ++ map (fun kv => lag_rows (column_of f (fst kv)) (snd kv) n)
                      ord
               ++ (if shape1 fixed >? 0 then [fixed] else [])
               = map (fun g : nat -> list V => map g (seq 0 n))
                   ([det_row d] ++ fl
                    ++ map (fun kv t =>
                              map (lag_value (column_of f (fst kv)) t)
                                  (snd kv)) ord
                    ++ ff)).
  { rewrite !map_app, map_map. cbn [map]. f_equal. f_equal.
    - unfold fl. now destruct lags.
    - f_equal. unfold ff. destruct (shape1 fixed >? 0); [|reflexivity].
      cbn [map]. rewrite <- (Hwide eq_refl).
      now rewrite <- list_as_map_nth. }
  rewrite Hb, stack_row_blocks. f_equal.
  apply map_ext. intros t. rewrite !map_app, !concat_app, map_map.
  unfold stacked_row, exog_part. cbn [map concat]. rewrite app_nil_r.
  f_equal. f_equal.
  - unfold fl. destruct lags; [reflexivity|].
    cbn [map concat]. now rewrite app_nil_r.
  - f_equal. unfold ff. destruct (shape1 fixed >? 0) eqn:E; cbn.
    + now rewrite app_nil_r.
    + now rewrite Hnone.
Qed.

Lemma set_rows_nan_seq (g : nat -> list V) (n : nat) (hold_back : Z) :
  0 <= hold_back <= Z.of_nat n ->
  set_rows_nan (map g (seq 0 n)) hold_back
  = map (nan_below hold_back g) (seq 0 n).
Proof.
  intros H. unfold set_rows_nan.
  rewrite length_map, length_seq, clamp_in_range by assumption.
  rewrite firstn_map_seq, skipn_map_seq by lia. rewrite map_map.
  assert (Hs : seq 0 n = seq 0 (Z.to_nat hold_back)
                        ++ seq (0 + Z.to_nat hold_back)
                               (n - Z.to_nat hold_back)).
  { rewrite <- seq_app. f_equal. lia. }
  rewrite Hs at 1. rewrite map_app. f_equal.
  - apply map_ext_in. intros t Ht. apply in_seq in Ht. unfold nan_below.
    destruct (Z.ltb_spec (Z.of_nat t) hold_back); [reflexivity | lia].
  - apply map_ext_in. intros t Ht. apply in_seq in Ht. unfold nan_below.
    destruct (Z.ltb_spec (Z.of_nat t) hold_back); [lia | reflexivity].
Qed.

Lemma in_out_of_sample (d : det_process V) (nobs steps : nat) :
  in_sample d nobs ++ out_of_sample d nobs steps = in_sample d (nobs + steps).
Proof.
  unfold in_sample, out_of_sample. now rewrite seq_app, map_app.
Qed.

Lemma zero_width_rows (a : matrix V) (t : nat) :
  rectangular a = true -> shape1 a = 0 -> nth t a [] = [].
Proof.
  intros Hr H0. destruct (Nat.lt_ge_cases t (length a)) as [Hlt|Hge].
  - pose proof (rectangular_rows _ Hr Hlt) as Hl. rewrite H0 in Hl.
    destruct (nth t a []); [reflexivity | cbn in Hl; lia].
  - now apply nth_overflow.
Qed.

Lemma ext_endog_length (m : ARDL V) (num_oos : Z) :
  length (ext_endog m num_oos) = (nobs_of m + Z.to_nat num_oos)%nat.
Proof.
  unfold ext_endog, full_nan1, nobs_of.
  now rewrite length_app, repeat_length.
Qed.

Lemma rebuild_x_ok (args : ARDL_args V) (m : ARDL V) (start end_ num_oos : Z) :
  ARDL_init args = Ok m ->
  0 <= start -> 0 <= num_oos ->
  num_oos = 0 \/ shape1 (_fixed m) = 0 ->
  rebuild_x m start end_ num_oos None (default_exog_oos m num_oos) None None
  = Ok (forecasting_rows m start num_oos).
Proof.
  intros Hm Hs Hk Hreg.
  destruct (ARDL_init_inv _ Hm)
    as [[E1 [E2 [E3 [E4 E5]]]] [Hlags [Hacc [[Hm0 [Hhn [Hml [Hmo Hhb]]]]
        [[Hfl Hrect] [Hx [Hy [Hsh [Hdet [Hn [Hord [Hfix [[mo [Hmo' Hmax]]
        [Hc [Hnames [Hfn [Hxf [Hkeys [Hcols Hmlt]]]]]]]]]]]]]]]]]]].
  rewrite <- E1 in *. fold (nobs_of m) in *.
  clear Hx Hy Hsh Hdet Hord Hfix Hc Hnames Hfn Hkeys E1 E2 E3 E4 E5.
  set (n := (nobs_of m + Z.to_nat num_oos)%nat).
  unfold rebuild_x. fold (nobs_of m).
  assert (A1 : match default_exog_oos m num_oos with
               | Some oos =>
                   match option_map values (orig_exog m) with
                   | Some e => Ok (Some (e ++ slice_to (values oos) num_oos))
                   | None =>
                       Raise (ValueError
                         "all the input arrays must have same number of dimensions")
                   end
               | None => Ok (option_map values (orig_exog m))
               end
               = Ok (option_map values (ext_exog m num_oos))).
  { unfold default_exog_oos, ext_exog.
    destruct (orig_exog m) as [f|]; [|reflexivity].
    destruct (Z.eqb_spec num_oos 0) as [->|Hne]; cbn.
    - now rewrite app_nil_r.
    - unfold slice_to, full_nan. rewrite repeat_length.
      rewrite clamp_in_range by lia.
      rewrite firstn_all2 by (rewrite repeat_length; lia). reflexivity. }
  rewrite A1. cbn [bind]. clear A1.
  assert (A2 : (if num_oos =? 0 then endog m
                else endog m ++ full_nan1 (Z.to_nat num_oos))
               = ext_endog m num_oos).
  { unfold ext_endog. destruct (Z.eqb_spec num_oos 0) as [->|]; cbn;
      [now rewrite app_nil_r | reflexivity]. }
  rewrite A2. clear A2.
  assert (A3 : (if num_oos =? 0 then in_sample (_deterministics m) (nobs_of m)
                else in_sample (_deterministics m) (nobs_of m)
                     ++ out_of_sample (_deterministics m) (nobs_of m)
                                      (Z.to_nat num_oos))
               = in_sample (_deterministics m) n).
  { destruct (Z.eqb_spec num_oos 0) as [->|].
    - unfold n. cbn. now rewrite Nat.add_0_r.
    - apply in_out_of_sample. }
  rewrite A3. clear A3.
  assert (A4 : match _lags m with
               | [] => Ok []
               | z :: l =>
                   endog_reg <- lagmat (ext_endog m num_oos) (max_list z l)
                                       false ;;
                   blk <- select_cols endog_reg
                            (map (fun lag => lag - 1) (_lags m)) ;;
                   Ok [blk]
               end
               = Ok match _lags m with
                    | [] => []
                    | _ :: _ => [lag_rows (ext_endog m num_oos) (_lags m) n]
                    end).
  { destruct (max_or_0_valid Hlags) as [_ Hb].
    destruct (_lags m) as [|z l] eqn:El; [reflexivity|].
    cbn [max_or_0] in *.
    rewrite lagmat_ok by (rewrite ext_endog_length; lia). cbn [bind].
    rewrite ext_endog_length. fold n.
    rewrite select_lag_cols; [reflexivity|].
    intros y Hy. pose proof (Hlags y Hy). apply Hb in Hy. lia. }
  rewrite A4. cbn [bind]. clear A4.
  destruct (ardl_order_ok m Hacc) as [ao [Hao [Hnone Hsome]]].
  rewrite Hao. cbn [bind].
  assert (Hfr : option_map
                  (fun e : matrix V =>
                     {| labels := match orig_exog m with
                                  | Some f => labels f
                                  | None => None
                                  end;
                        values := e |})
                  (option_map values (ext_exog m num_oos))
                = ext_exog m num_oos).
  { unfold ext_exog. now destruct (orig_exog m). }
  rewrite Hfr. clear Hfr.
  assert (A6 : match snd ao with
               | Some _ =>
                   ex <- _format_exog (ext_exog m num_oos) (_order m) ;;
                   Ok (map snd (fst ex))
               | None => Ok []
               end
               = Ok (map (fun kv =>
                            lag_rows (column_of (ext_exog m num_oos) (fst kv))
                                     (snd kv) n) (_order m))).
  { destruct (_order m) as [|kv0 ord0] eqn:Eo.
    - now rewrite Hnone.
    - rewrite <- Eo in *.
      assert (Hne : _order m <> []) by (rewrite Eo; discriminate).
      destruct (Hsome Hne) as [d ->].
      destruct (Hcols Hne) as [f [Ef Hcol]].
      destruct (Hxf f Ef) as [_ [Hlen _]].
      assert (Hext : ext_exog m num_oos
                     = Some {| labels := labels f;
                               values := values f
                                 ++ full_nan (Z.to_nat num_oos)
                                      (Z.to_nat (shape1 (values f))) |}).
      { unfold ext_exog. now rewrite Ef. }
      rewrite Hext.
      assert (Hlen' : length (values f
                        ++ full_nan (Z.to_nat num_oos)
                             (Z.to_nat (shape1 (values f)))) = n).
      { unfold full_nan. rewrite length_app, repeat_length. unfold n. lia. }
      assert (Hmolt : mo < Z.of_nat n).
      { assert (mo <= _maxlag m) by lia. unfold n. lia. }
      destruct (@format_exog_ok _ _ false
                  {| labels := labels f;
                     values := values f
                       ++ full_nan (Z.to_nat num_oos)
                            (Z.to_nat (shape1 (values f))) |}
                  (_order m) mo Hacc Hmo') as [ex Hex].
      + cbn [values]. lia.
      + intros kv Hkv. destruct (Hcol kv Hkv) as [col Hc].
        eexists. apply get_column_ext; [exact Hc|].
        intros Hnil. rewrite Hnil in Hlen. cbn in Hlen. lia.
      + rewrite Hex. cbn [bind]. f_equal.
        eapply format_exog_inv; [exact Hacc| |exact Hex].
        intros f' [= <-]. exact Hlen'. }
  rewrite A6. cbn [bind]. clear A6.
  unfold in_sample at 1. rewrite length_map, length_seq.
  rewrite stack_forecast.
  - cbn [bind]. rewrite set_rows_nan_seq by (unfold n; lia).
    unfold slice_from, forecasting_rows. rewrite length_map, length_seq.
    fold (forecast_row m num_oos). fold n. f_equal.
    destruct (Z.le_gt_cases start (Z.of_nat n)).
    + rewrite clamp_in_range by lia. now rewrite skipn_map_seq by lia.
    + rewrite clamp_above by lia.
      rewrite skipn_all2 by (rewrite length_map, length_seq; lia).
      replace (n - Z.to_nat start)%nat with O by lia. reflexivity.
  - intros Hw. destruct (Z.gtb_spec (shape1 (_fixed m)) 0); [|discriminate].
    destruct Hreg as [->|]; [|lia]. unfold n. cbn. lia.
  - intros Hw t. destruct (Z.gtb_spec (shape1 (_fixed m)) 0); [discriminate|].
    apply zero_width_rows; [assumption|].
    unfold shape1 in *. destruct (_fixed m); lia.
Qed.

(** With no steps beyond the sample and the lags of the response in the
    order of the constructor, the rebuilt rows are the constructor's. *)
Lemma forecast_row_in_sample (m : ARDL V) (t : nat) :
  endog_cols (_lags m) = _lags m ->
  forecast_row m 0 t = design_row m t.
Proof.
  intros H. unfold forecast_row, design_row. rewrite H.
  unfold ext_endog, ext_exog. cbn. rewrite app_nil_r. f_equal.
  destruct (orig_exog m) as [[lbl vals]|]; cbn; [|reflexivity].
  now rewrite app_nil_r.
Qed.

Lemma endog_cols_length (lags : list Z) :
  valid_lags lags -> length (endog_cols lags) = length lags.
Proof.
  intros Hv. destruct (max_or_0_valid Hv) as [H0 _]. unfold endog_cols.
  destruct (Z.eqb_spec (max_or_0 lags) (Z.of_nat (length lags))) as [E|];
    [|reflexivity].
  apply Nat2Z.inj. rewrite range_length. lia.
Qed.

Lemma forecast_row_length (m : ARDL V) (num_oos : Z) (t : nat) :
  valid_lags (_lags m) ->
  rectangular (_fixed m) = true ->
  (t < length (_fixed m))%nat \/ shape1 (_fixed m) = 0 ->
  Z.of_nat (length (forecast_row m num_oos t)) = n_columns m.
Proof.
  intros Hv Hr Ht. unfold forecast_row, stacked_row, n_columns, det_row.
  rewrite !length_app, !length_map, exog_part_length.
  rewrite (endog_cols_length Hv).
  assert (Z.of_nat (length (nth t (_fixed m) [])) = shape1 (_fixed m));
    [|lia].
  destruct Ht as [Ht|H0]; [now apply rectangular_rows|].
  now rewrite zero_width_rows.
Qed.

Lemma nan_below_length (hold_back : Z) (g : nat -> list V) (t : nat) :
  length (nan_below hold_back g t) = length (g t).
Proof.
  unfold nan_below. destruct (_ <? _); [apply repeat_length | reflexivity].
Qed.

Lemma n_columns_nonneg (m : ARDL V) : 0 <= n_columns m.
Proof.
  unfold n_columns, shape1. destruct (_fixed m); lia.
Qed.

(** The column count of the trimmed matrix of a constructed model. *)
Lemma shape1_x (args : ARDL_args V) (m : ARDL V) :
  ARDL_init args = Ok m -> shape1 (_x m) = n_columns m.
Proof.
  intros Hm.
  destruct (ARDL_init_inv _ Hm)
    as [[E1 _] [Hlags [_ [[Hm0 [Hhn _]] [[Hfl Hrect] [Hx [_ [Hsh [_ [Hn
        _]]]]]]]]]].
  rewrite <- E1 in *.
  rewrite shape1_map_seq in Hsh by assumption.
  rewrite design_row_length in Hsh by (assumption || lia).
  pose proof (n_columns_nonneg m) as H0.
  destruct (length (endog m) - Z.to_nat (_hold_back m))%nat as [|L] eqn:EL.
  - rewrite Hx in *. cbn in *. lia.
  - rewrite Hx. cbn [seq map shape1].
    apply design_row_length; [assumption | lia].
Qed.

(** The rows that the shortcut of [_forecasting_x] returns are the first
    rows of the constructor's matrix from [start] on, with missing rows
    below the hold-back. *)
Lemma shortcut_rows (args : ARDL_args V) (m : ARDL V) (start end_ : Z) :
  ARDL_init args = Ok m -> 0 <= start ->
  (exists rest,
     design_rows m start = rows_of (_x m) (shortcut_x m start end_) ++ rest)
  /\ (_hold_back m <= end_ + 1 -> start <= end_ + 1 ->
      end_ + 1 <= Z.of_nat (nobs_of m) ->
      Z.of_nat (length (rows_of (_x m) (shortcut_x m start end_)))
      = end_ + 1 - start).
Proof.
  intros Hm Hs. pose proof (shape1_x _ Hm) as Hk.
  destruct (ARDL_init_inv _ Hm)
    as [[E1 _] [Hlags [_ [[Hm0 [Hhn _]] [[Hfl Hrect] [Hx [_ [Hsh [_ [Hn
        _]]]]]]]]]].
  rewrite <- E1 in *. fold (nobs_of m) in *.
  set (hb := Z.to_nat (_hold_back m)) in *.
  set (L := (nobs_of m - hb)%nat) in *.
  assert (HL : length (_x m) = L) by now rewrite Hx, length_map, length_seq.
  unfold shortcut_x, view_slice, pad_x, design_rows. rewrite HL.
  set (b := clamp L (end_ + 1 - _hold_back m)).
  assert (Hb : (b <= L)%nat) by apply clamp_le.
  destruct (Z.geb_spec start (_hold_back m)) as [Hge|Hlt].
  - (* no padding: a view *)
    cbn [Z.eqb rows_of].
    set (a := clamp L (Z.max (start - _hold_back m) 0)).
    assert (Ha : (a <= L)%nat) by apply clamp_le.
    assert (Hfull : map (nan_below (_hold_back m) (design_row m))
                      (seq (Z.to_nat start) (nobs_of m - Z.to_nat start))
                    = skipn a (_x m)).
    { rewrite Hx, skipn_map_seq by assumption.
      destruct (Z.le_gt_cases start (Z.of_nat (nobs_of m))).
      - assert (a = Z.to_nat (start - _hold_back m)) as ->
          by (unfold a; rewrite clamp_in_range; unfold L, hb; lia).
        replace (hb + Z.to_nat (start - _hold_back m))%nat
          with (Z.to_nat start) by (unfold hb; lia).
        replace (L - Z.to_nat (start - _hold_back m))%nat
          with (nobs_of m - Z.to_nat start)%nat by (unfold L, hb; lia).
        apply map_ext_in. intros t Ht. apply in_seq in Ht. unfold nan_below.
        destruct (Z.ltb_spec (Z.of_nat t) (_hold_back m)); [lia|reflexivity].
      - assert (a = L) as ->
          by (unfold a; rewrite clamp_above; unfold L, hb; lia).
        replace (nobs_of m - Z.to_nat start)%nat with O by lia.
        now rewrite Nat.sub_diag. }
    rewrite Hfull. split.
    + exists (skipn (b - a) (skipn a (_x m))). now rewrite firstn_skipn.
    + intros H1 H2 H3. rewrite length_firstn, length_skipn, HL.
      assert (a = Z.to_nat (start - _hold_back m))
        by (unfold a; rewrite clamp_in_range; unfold L, hb; lia).
      assert (b = Z.to_nat (end_ + 1 - _hold_back m))
        by (unfold b; rewrite clamp_in_range; unfold L, hb; lia).
      unfold L, hb in *. lia.
  - (* padding: a new array *)
    destruct (Z.eqb_spec (_hold_back m - start) 0) as [|_]; [lia|].
    cbn [rows_of]. rewrite Z.max_r by lia.
    assert (clamp L 0 = O) as -> by (rewrite clamp_in_range; lia).
    rewrite Nat.sub_0_r. cbn [skipn].
    assert (Hfull : map (nan_below (_hold_back m) (design_row m))
                      (seq (Z.to_nat start) (nobs_of m - Z.to_nat start))
                    = full_nan (Z.to_nat (_hold_back m - start))
                               (Z.to_nat (shape1 (_x m)))
                      ++ _x m).
    { assert (Hsplit : seq (Z.to_nat start) (nobs_of m - Z.to_nat start)
                       = seq (Z.to_nat start) (hb - Z.to_nat start)
                         ++ seq (Z.to_nat start + (hb - Z.to_nat start)) L).
      { rewrite <- seq_app. f_equal. unfold L, hb. lia. }
      rewrite Hsplit, map_app. f_equal.
      - unfold full_nan.
        replace (Z.to_nat (_hold_back m - start))
          with (length (seq (Z.to_nat start) (hb - Z.to_nat start)))
          by (rewrite length_seq; unfold hb; lia).
        rewrite <- map_const. apply map_ext_in. intros t Ht.
        apply in_seq in Ht. unfold nan_below.
        destruct (Z.ltb_spec (Z.of_nat t) (_hold_back m));
          [|unfold hb in *; lia].
        f_equal. rewrite Hk. apply Nat2Z.inj.
        rewrite Z2Nat.id by apply n_columns_nonneg.
        apply design_row_length; [assumption|]. unfold hb in *. lia.
      - rewrite Hx.
        replace (Z.to_nat start + (hb - Z.to_nat start))%nat with hb
          by (unfold hb; lia).
        apply map_ext_in. intros t Ht. apply in_seq in Ht. unfold nan_below.
        destruct (Z.ltb_spec (Z.of_nat t) (_hold_back m));
          [unfold hb in *; lia | reflexivity]. }
    rewrite Hfull. split.
    + exists (skipn b (_x m)). rewrite <- app_assoc. f_equal.
      now rewrite firstn_skipn.
    + intros H1 H2 H3. unfold full_nan.
      rewrite length_app, repeat_length, length_firstn, HL.
      assert (b = Z.to_nat (end_ + 1 - _hold_back m))
        by (unfold b; rewrite clamp_in_range; unfold L, hb; lia).
      unfold L, hb in *. lia.
Qed.

End Rebuild.

(** ** The forecast engine without new data *)

Section Predict.

Context {V : Type} {Sc : Scalar V}.

(** Without new data [_forecasting_x] returns: the shortcut inside the
    sample, the rebuilt matrix otherwise. *)
Lemma forecasting_x_ok (args : ARDL_args V) (m : ARDL V)
    (start end_ num_oos : Z) :
  ARDL_init args = Ok m ->
  0 <= start -> 0 <= num_oos ->
  num_oos = 0 \/ shape1 (_fixed m) = 0 ->
  exists x,
    _forecasting_x m start end_ num_oos None (default_exog_oos m num_oos)
                   None None = Ok x
    /\ ((end_ + 1 < Z.of_nat (nobs_of m) /\ x = shortcut_x m start end_)
        \/ (Z.of_nat (nobs_of m) <= end_ + 1
            /\ x = Fresh (forecasting_rows m start num_oos))).
Proof.
  intros Hm Hs Hk Hreg. unfold _forecasting_x.
  destruct (Z.ltb_spec (end_ + 1) (Z.of_nat (nobs_of m))).
  - eexists. split; [reflexivity|]. left. now split.
  - rewrite (rebuild_x_ok _ end_ Hm Hs Hk Hreg). cbn [bind].
    eexists. split; [reflexivity|]. right. now split.
Qed.

Lemma In_firstn {A : Type} (n : nat) (l : list A) (a : A) :
  In a (firstn n l) -> In a l.
Proof.
  intros H. rewrite <- (firstn_skipn n l). apply in_or_app. now left.
Qed.

Lemma nth_firstn_lt {A : Type} (n t : nat) (l : list A) (d : A) :
  (t < Nat.min n (length l))%nat -> nth t (firstn n l) d = nth t l d.
Proof.
  intros H. rewrite <- (firstn_skipn n l) at 2.
  rewrite app_nth1; [reflexivity|]. now rewrite length_firstn.
Qed.

Lemma prefix_nth {A : Type} (l pre rest : list A) (t : nat) (d : A) :
  l = pre ++ rest -> (t < length pre)%nat -> nth t pre d = nth t l d.
Proof. intros -> Ht. now rewrite app_nth1. Qed.

Lemma forecasting_shape_ok (args : ARDL_args V) (m : ARDL V)
    (start end_ num_oos : Z) (x : xarray V) :
  ARDL_init args = Ok m ->
  0 <= start -> 0 <= num_oos ->
  num_oos = 0 \/ shape1 (_fixed m) = 0 ->
  (end_ + 1 < Z.of_nat (nobs_of m) /\ x = shortcut_x m start end_)
  \/ (Z.of_nat (nobs_of m) <= end_ + 1
      /\ x = Fresh (forecasting_rows m start num_oos)) ->
  forecasting_shape m start (rows_of (_x m) x).
Proof.
  intros Hm Hs Hk Hreg Hx.
  destruct (ARDL_init_inv _ Hm)
    as [[E1 _] [Hlags [_ [_ [[Hfl Hrect] _]]]]].
  rewrite <- E1 in *. fold (nobs_of m) in *.
  destruct Hx as [[_ ->]|[_ ->]]; intros t Ht.
  - destruct (shortcut_rows _ end_ Hm Hs) as [[rest Hpre] _].
    rewrite (@prefix_nth _ _ _ _ t [] Hpre Ht).
    assert (Hlen : (t < length (design_rows m start))%nat).
    { rewrite Hpre, length_app. lia. }
    unfold design_rows in *. rewrite length_map, length_seq in Hlen.
    rewrite nth_indep with (d' := nan_below (_hold_back m) (design_row m) O)
      by (rewrite length_map, length_seq; lia).
    rewrite map_nth, seq_nth by lia. split.
    + rewrite nan_below_length. apply design_row_length; [assumption|lia].
    + intros Hhb. unfold nan_below.
      destruct (Z.ltb_spec (Z.of_nat (Z.to_nat start + t)) (_hold_back m));
        [lia|].
      unfold design_row, stacked_row. eexists. reflexivity.
  - cbn [rows_of] in *. unfold forecasting_rows in *.
    rewrite length_map, length_seq in Ht.
    rewrite nth_indep
      with (d' := nan_below (_hold_back m) (forecast_row m num_oos) O)
      by (rewrite length_map, length_seq; lia).
    rewrite map_nth, seq_nth by lia. split.
    + rewrite nan_below_length. apply forecast_row_length; try assumption.
      destruct Hreg as [->|H0]; [left; lia | now right].
    + intros Hhb. unfold nan_below.
      destruct (Z.ltb_spec (Z.of_nat (Z.to_nat start + t)) (_hold_back m));
        [lia|].
      unfold forecast_row, stacked_row. eexists. reflexivity.
Qed.

Lemma within_bound_fixed (m : ARDL V) (num_oos : Z) :
  0 <= num_oos -> within_bound m num_oos ->
  num_oos = 0 \/ shape1 (_fixed m) = 0.
Proof.
  intros Hk [H|[_ H]]; [|now right].
  unfold one_step_bound in H.
  destruct (Z.eqb_spec (shape1 (_fixed m)) 0); [now right|].
  cbn in H. left. destruct (Z.gtb_spec num_oos 0); [discriminate | lia].
Qed.

Lemma predict_from_ok (args : ARDL_args V) (m : ARDL V) (params : list V)
    (start end_ num_oos : Z) (dynamic : option Z) :
  ARDL_init args = Ok m ->
  Z.of_nat (length params) = n_columns m ->
  0 <= start -> 0 <= num_oos ->
  within_bound m num_oos ->
  0 <= dynamic_start_of m start end_ dynamic ->
  _hold_back m <= start + dynamic_start_of m start end_ dynamic
    <= Z.of_nat (nobs_of m) ->
  exists x X F,
    _forecasting_x m start end_ num_oos None (default_exog_oos m num_oos)
                   None None = Ok x
    /\ predict_from m params start end_ num_oos dynamic None None None None
       = Ok {| p_model := write_back m x X; p_x := X; p_fcasts := F |}
    /\ predicted m params start (dynamic_start_of m start end_ dynamic)
                 (rows_of (_x m) x) X F
    /\ forecasting_shape m start (rows_of (_x m) x)
    /\ ((end_ + 1 < Z.of_nat (nobs_of m) /\ x = shortcut_x m start end_)
        \/ (Z.of_nat (nobs_of m) <= end_ + 1
            /\ x = Fresh (forecasting_rows m start num_oos))).
Proof.
  intros Hm Hp Hs Hk Hgate Hds0 Hds.
  set (ds := dynamic_start_of m start end_ dynamic) in *.
  pose proof (within_bound_fixed Hk Hgate) as Hreg.
  destruct (@forecasting_x_ok args m start end_ num_oos Hm Hs Hk Hreg)
    as [x [Hx Hcase]].
  pose proof (@forecasting_shape_ok args m start end_ num_oos x
                Hm Hs Hk Hreg Hcase) as Hshape.
  destruct (ARDL_init_inv _ Hm)
    as [[E1 _] [Hlags [Hacc [[Hm0 [Hhn [Hml _]]] [[Hfl Hrect]
        [_ [_ [_ [Hdet [Hn _]]]]]]]]]].
  rewrite <- E1 in *. fold (nobs_of m) in *.
  set (rows := rows_of (_x m) x) in *.
  set (offset := shape1 (_deterministic_reg m)).
  assert (Hoff : offset
                 = Z.of_nat (length (det_terms (_deterministics m)))).
  { unfold offset. rewrite Hdet. unfold in_sample.
    rewrite shape1_map_seq by assumption. unfold det_row.
    now rewrite length_map. }
  assert (Hwidth : forall t, (t < length rows)%nat ->
            length (nth t rows []) = length params).
  { intros t Ht. apply Nat2Z.inj. rewrite Hp. now apply Hshape. }
  exists x.
  set (static := map (fun r => dot r params) (slice_to rows ds)).
  set (f0 := static ++ skipn (length static) (full_nan1 (length rows))).
  assert (Hst : length static = Z.to_nat (Z.min ds (Z.of_nat (length rows)))).
  { unfold static, slice_to. rewrite length_map, length_firstn.
    unfold clamp. destruct (Z.ltb_spec ds 0); lia. }
  assert (Hf0 : length f0 = length rows).
  { unfold f0, full_nan1. rewrite length_app, length_skipn, repeat_length.
    lia. }
  destruct (@walk_spec _ _ m params start ds offset Hlags) with
    (x0 := rows) (f0 := f0) as [X [F [Hwalk Hwd]]].
  { rewrite Hoff. lia. }
  { assumption. }
  { now symmetry. }
  { intros t Ht. split; [now apply Hwidth|].
    rewrite Hoff, Hp. unfold n_columns.
    rewrite (endog_cols_length Hlags).
    assert (0 <= shape1 (_fixed m)) by (unfold shape1; destruct (_fixed m);
        lia).
    lia. }
  { intros t lag Ht Hlag. unfold readable.
    destruct (max_or_0_valid Hlags) as [_ Hb]. apply Hb in Hlag.
    unfold nobs_of in *. clearbody ds f0.
    destruct (Z.geb_spec (Z.of_nat t - lag) ds); lia. }
  exists X, F. split; [exact Hx|].
  split; [|split; [|split; [exact Hshape | exact Hcase]]].
  - unfold predict_from. cbn [check_opt option_map bind].
    rewrite (max_1step_bound m Hacc). cbn [bind].
    assert (Hg : (if gt_ext num_oos (one_step_bound m)
                  then
                    (if match _order m with [] => false | _ :: _ => true end
                     then Raise (ValueError
                       ("exog_oos must be provided when out-of-sample "
                        ++ "observations require values of the exog not in the "
                        ++ "original sample")%string)
                     else Ok tt) ;;;
                    (if negb (shape1 (_fixed m) =? 0)
                     then Raise (ValueError
                       ("fixed_oos must be provided when predicting "
                        ++ "out-of-sample observations")%string)
                     else Ok tt)
                  else Ok tt) = Ok tt).
    { destruct (gt_ext num_oos (one_step_bound m)) eqn:Eg; [|reflexivity].
      destruct Hgate as [Hg|[Ho Hfz]]; [congruence|].
      rewrite Ho, Hfz. reflexivity. }
    rewrite Hg. cbn [bind]. clear Hg.
    assert (Hoos : match orig_exog m with
                   | Some f =>
                       if num_oos =? 0 then None
                       else Some {| labels := labels f;
                                    values := full_nan (Z.to_nat num_oos)
                                      (Z.to_nat (shape1 (values f))) |}
                   | None => None
                   end = default_exog_oos m num_oos) by reflexivity.
    rewrite Hoos, Hx. cbn [bind]. fold rows.
    change (match dynamic with
            | Some dynamic_step =>
                if start <? _hold_back m
                then Z.max dynamic_step (_hold_back m - start)
                else dynamic_step
            | None => end_ + 1 - start
            end) with ds.
    unfold matvec.
    rewrite (proj2 (forallb_forall _ _)).
    2:{ intros r Hr. apply Nat.eqb_eq. unfold slice_to in Hr.
        apply In_firstn in Hr. apply In_nth with (d := []) in Hr.
        destruct Hr as [t [Ht <-]]. now apply Hwidth. }
    cbn [bind]. fold static. fold f0. fold offset.
    rewrite Hwalk. reflexivity.
  - destruct Hwd as [W1 [W2 [W3 [W4 W5]]]]. unfold predicted. fold offset.
    split; [assumption|]. split; [now rewrite W2|]. split; [assumption|].
    split; [|assumption].
    intros t Ht1 Ht2. destruct (W3 t) as [Wx Wf]; [now left|].
    split; [assumption|]. rewrite Wf.
    assert (Hts : (t < length static)%nat).
    { rewrite Hst. change (t < Z.to_nat ds)%nat in Ht1.
      change (t < length rows)%nat in Ht2. clearbody ds rows. lia. }
    unfold f0. rewrite app_nth1 by exact Hts. unfold static in *.
    rewrite nth_indep with (d' := dot [] params) by exact Hts.
    rewrite (map_nth (fun r => dot r params)). f_equal.
    rewrite length_map in Hts. unfold slice_to in *.
    apply nth_firstn_lt. now rewrite length_firstn in Hts.
Qed.







Lemma default_exog_oos_extended (m : ARDL V) (num_oos : Z) :
  default_exog_oos m num_oos = extended_exog_oos m num_oos None.
Proof.
  unfold default_exog_oos, extended_exog_oos. now destruct (orig_exog m).
Qed.

(** What a [predict] call that returns has computed, whatever data it
    was given: the checks passed, [_forecasting_x] returned a matrix, the
    rows before the dynamic start are static, the rows from it on are
    walked, and every position read for them exists. *)
Lemma predict_from_sound (args : ARDL_args V) (m : ARDL V) (params : list V)
    (start end_ num_oos : Z) (dynamic : option Z)
    (exog exog_oos fixed fixed_oos : option (frame V)) (p : prediction V) :
  ARDL_init args = Ok m ->
  0 <= dynamic_start_of m start end_ dynamic ->
  _hold_back m <= start + dynamic_start_of m start end_ dynamic ->
  predict_from m params start end_ num_oos dynamic
               exog exog_oos fixed fixed_oos = Ok p ->
  exists e eo f fo x,
    check_opt m exog "exog" (orig_exog m) true = Ok e
    /\ check_opt m exog_oos "exog_oos" (orig_exog m) false = Ok eo
    /\ check_opt m fixed "fixed"
         (Some {| labels := None; values := _fixed m |}) true = Ok f
    /\ check_opt m
         (option_map (fun f => {| labels := None; values := values f |})
                     fixed_oos)
         "fixed_oos" (Some {| labels := None; values := _fixed m |}) false
       = Ok fo
    /\ _forecasting_x m start end_ num_oos e
         (extended_exog_oos m num_oos eo) f fo = Ok x
    /\ p_model p = write_back m x (p_x p)
    /\ predicted m params start (dynamic_start_of m start end_ dynamic)
                 (rows_of (_x m) x) (p_x p) (p_fcasts p)
    /\ forall t,
         (Z.to_nat (dynamic_start_of m start end_ dynamic) <= t
          < length (rows_of (_x m) x))%nat ->
         length (nth t (rows_of (_x m) x) []) = length params
         /\ forall lag, In lag (_lags m) ->
              readable m start (dynamic_start_of m start end_ dynamic)
                       (length (rows_of (_x m) x)) (Z.of_nat t) lag.
Proof.
  intros Hm Hds0 Hds H.
  set (ds := dynamic_start_of m start end_ dynamic) in *.
  destruct (ARDL_init_inv _ Hm)
    as [_ [Hlags [_ [[Hm0 [_ [Hml _]]] _]]]].
  unfold predict_from in H.
  apply bind_ok in H. destruct H as [e [He H]].
  apply bind_ok in H. destruct H as [eo [Heo H]].
  apply bind_ok in H. destruct H as [f [Hf H]].
  apply bind_ok in H. destruct H as [fo [Hfo H]].
  apply bind_ok in H. destruct H as [b [_ H]].
  apply bind_ok in H. destruct H as [[] [_ H]].
  apply bind_ok in H. destruct H as [x [Hx H]].
  apply bind_ok in H. destruct H as [static [Hst H]].
  apply bind_ok in H. destruct H as [[X F] [Hwalk H]].
  injection H as <-. cbn [fst snd] in *.
  exists e, eo, f, fo, x.
  split; [exact He|]. split; [exact Heo|]. split; [exact Hf|].
  split; [exact Hfo|]. split; [exact Hx|]. cbn [p_model p_x p_fcasts].
  split; [reflexivity|].
  change (match dynamic with
          | Some dynamic_step =>
              if start <? _hold_back m
              then Z.max dynamic_step (_hold_back m - start)
              else dynamic_step
          | None => end_ + 1 - start
          end) with ds in *.
  set (rows := rows_of (_x m) x) in *.
  set (offset := shape1 (_deterministic_reg m)) in *.
  assert (Hstatic : static = map (fun r => dot r params) (slice_to rows ds)).
  { unfold matvec in Hst.
    destruct (forallb _ (slice_to rows ds)); [|discriminate].
    now injection Hst. }
  set (f0 := static ++ skipn (length static) (full_nan1 (length rows))) in *.
  assert (Hsl : length static = Z.to_nat (Z.min ds (Z.of_nat (length rows)))).
  { rewrite Hstatic. unfold slice_to. rewrite length_map, length_firstn.
    unfold clamp. destruct (Z.ltb_spec ds 0); lia. }
  assert (Hf0 : length f0 = length rows).
  { unfold f0, full_nan1. rewrite length_app, length_skipn, repeat_length.
    lia. }
  assert (Hoff : 0 <= offset)
    by (unfold offset, shape1; destruct (_deterministic_reg m); lia).
  destruct (@walk_sound _ _ m params start ds offset Hlags Hoff Hds0
              rows X f0 F) as [Hwd Hall].
  { now symmetry. }
  { intros lag Hlag. destruct (max_or_0_valid Hlags) as [_ Hb].
    apply Hb in Hlag. clearbody ds. lia. }
  { exact Hwalk. }
  split.
  - destruct Hwd as [W1 [W2 [W3 [W4 W5]]]]. unfold predicted. fold offset.
    split; [assumption|]. split; [now rewrite W2|]. split; [assumption|].
    split; [|assumption].
    intros t Ht1 Ht2. destruct (W3 t) as [Wx Wf]; [now left|].
    split; [assumption|]. rewrite Wf.
    assert (Hts : (t < length static)%nat).
    { rewrite Hsl. clearbody ds rows. lia. }
    unfold f0. rewrite app_nth1 by exact Hts.
    rewrite Hstatic in *.
    rewrite nth_indep with (d' := dot [] params) by exact Hts.
    rewrite (map_nth (fun r => dot r params)). f_equal.
    rewrite length_map in Hts. unfold slice_to in *.
    apply nth_firstn_lt. now rewrite length_firstn in Hts.
  - intros t Ht. destruct (Hall t Ht) as [Hw Hr]. split; [exact Hw|].
    intros lag Hlag. rewrite <- Hf0. now apply Hr.
Qed.




End Predict.

(** ** The one-step forecasting bound *)

Section ForecastingBound.

Context {V : Type} {Sc : Scalar V}.

Lemma ext_min_list_fin (l : list Z) (z : Z) :
  ext_min_list l = Fin z -> In z l /\ forall x, In x l -> z <= x.
Proof.
  destruct l as [|a l]; [discriminate|]. cbn. intros [= <-]. split.
  - apply min_list_in.
  - destruct (min_list_le l a) as [H1 H2].
    intros x [<-|Hx]; [assumption | now apply H2].
Qed.

Lemma in_order_lags (ord : list (key * list Z)) (z : Z) :
  In z (concat (map snd ord))
  <-> exists k lags, In (k, lags) ord /\ In z lags.
Proof.
  rewrite in_concat. split.
  - intros [l [Hl Hz]]. apply in_map_iff in Hl.
    destruct Hl as [[k lags] [<- Hin]]. now exists k, lags.
  - intros [k [lags [Hin Hz]]]. exists lags. split; [|assumption].
    apply in_map_iff. now exists (k, lags).
Qed.

Lemma prepare_prediction_inv (nobs : nat) (start end_ : option Z)
    (s e k : Z) :
  _prepare_prediction nobs start end_ = Ok (s, e, k) ->
  0 <= s /\ 0 <= k /\ s <= e + k /\ e <= Z.of_nat nobs - 1
  /\ (0 < k -> e = Z.of_nat nobs - 1).
Proof.
  unfold _prepare_prediction. cbv beta zeta.
  match goal with
  | |- (if (?a <? 0) || (?b <? 0) then _ else _) = _ -> _ =>
      set (s0 := a); set (e0 := b)
  end.
  destruct (Z.ltb_spec s0 0); [discriminate|].
  destruct (Z.ltb_spec e0 0); [discriminate|]. cbn [orb].
  destruct (Z.ltb_spec e0 s0); [discriminate|].
  intros [= <- <- <-]. lia.
Qed.

(** What the bound of a causal model without fixed regressors is:
    [np.inf] exactly without lags of either kind, and otherwise a lag of
    the model that no other lag of the model is below. *)
Lemma one_step_bound_least (m : ARDL V) :
  Forall (accepted false) (_order m) ->
  shape1 (_fixed m) = 0 -> _causal m = true ->
  (one_step_bound m = Inf <-> _lags m = [] /\ _order m = [])
  /\ forall z, one_step_bound m = Fin z ->
       (forall lag, In lag (_lags m) -> z <= lag)
       /\ (forall k lags lag,
             In (k, lags) (_order m) -> In lag lags -> z <= lag)
       /\ (In z (_lags m)
           \/ exists k lags, In (k, lags) (_order m) /\ In z lags).
Proof.
  intros Hacc Hf Hc. unfold one_step_bound. rewrite Hf, Hc.
  cbn [Z.eqb andb].
  assert (Hord : ext_min_list (concat (map snd (_order m))) = Inf
                 <-> _order m = []).
  { split.
    - intros H. destruct (_order m) as [|kv ord] eqn:Eo; [reflexivity|].
      rewrite <- Eo in *.
      destruct (min_of_mins Hacc) as [mins [lowest [_ [_ E]]]];
        [rewrite Eo; discriminate | congruence].
    - now intros ->. }
  destruct (ext_min_list (_lags m)) as [a|] eqn:Ea;
    destruct (ext_min_list (concat (map snd (_order m)))) as [b|] eqn:Eb;
    cbn [ext_min].
  - apply ext_min_list_fin in Ea, Eb. destruct Ea as [Ia La], Eb as [Ib Lb].
    split.
    + split; [discriminate|]. intros [E _]. rewrite E in Ia. contradiction.
    + intros z [= <-]. split; [|split].
      * intros lag Hl. apply La in Hl. lia.
      * intros k lags lag Hk Hl.
        assert (b <= lag) by (apply Lb, in_order_lags; now exists k, lags).
        lia.
      * destruct (Z.min_spec a b) as [[_ ->]|[_ ->]]; [now left|].
        right. now apply in_order_lags.
  - apply ext_min_list_fin in Ea. destruct Ea as [Ia La].
    pose proof (proj1 Hord eq_refl) as Ho. split.
    + split; [discriminate|]. intros [E _]. rewrite E in Ia. contradiction.
    + intros z [= <-]. split; [assumption|]. split; [|now left].
      intros k lags lag Hk. rewrite Ho in Hk. contradiction.
  - apply ext_min_list_fin in Eb. destruct Eb as [Ib Lb].
    assert (El : _lags m = []) by (destruct (_lags m); [reflexivity |
      discriminate]).
    split.
    + split; [discriminate|]. intros [_ E]. rewrite E in Ib. contradiction.
    + intros z [= <-]. split; [|split].
      * intros lag Hl. rewrite El in Hl. contradiction.
      * intros k lags lag Hk Hl. apply Lb, in_order_lags. now exists k, lags.
      * right. now apply in_order_lags.
  - split.
    + split; [|reflexivity]. intros _. split; [|now apply Hord].
      destruct (_lags m); [reflexivity | discriminate].
    + discriminate.
Qed.

(** C2. For a constructed model [max_1step] returns a bound. It is zero
    when the model is not causal or has fixed regressors. When the model
    is causal and has no fixed regressors, the bound is [np.inf] exactly
    when the model has neither lags of the response nor exogenous lags,
    and otherwise it is the smallest of all these lags: one of them, and
    no lag of the response and no exogenous lag is below it. A [predict]
    call that asks for more out-of-sample steps than the bound raises
    when the model has exogenous lags and no [exog_oos] is given, and when
    it has fixed regressors and no [fixed_oos] is given. A call without
    new data that starts in the sample or at its end and asks for
    out-of-sample steps within the bound returns, with one forecast for
    each date from [start] to the last step; the parameters are taken to
    have one entry for each column and the dynamic start, if any, to be an
    offset that is not negative and leads to a date of the sample or to
    its end. *)
Theorem one_step_forecasting_bound (args : ARDL_args V) (m : ARDL V) :
  ARDL_init args = Ok m ->
  exists bound,
    max_1step m = Ok bound
    /\ (shape1 (_fixed m) <> 0 \/ _causal m = false -> bound = Fin 0)
    /\ (shape1 (_fixed m) = 0 -> _causal m = true ->
        (bound = Inf <-> _lags m = [] /\ _order m = [])
        /\ forall z, bound = Fin z ->
             (forall lag, In lag (_lags m) -> z <= lag)
             /\ (forall k lags lag,
                   In (k, lags) (_order m) -> In lag lags -> z <= lag)
             /\ (In z (_lags m)
                 \/ exists k lags, In (k, lags) (_order m) /\ In z lags))
    /\ (forall params start end_ dynamic exog exog_oos fixed fixed_oos
               s e num_oos z,
          _prepare_prediction (nobs_of m) start end_ = Ok (s, e, num_oos) ->
          bound = Fin z -> z < num_oos ->
          (_order m <> [] /\ exog_oos = None)
          \/ (shape1 (_fixed m) <> 0 /\ fixed_oos = None) ->
          is_raise (predict m params start end_ dynamic
                            exog exog_oos fixed fixed_oos))
    /\ (forall params start end_ dynamic s e num_oos,
          _prepare_prediction (nobs_of m) start end_ = Ok (s, e, num_oos) ->
          Z.of_nat (length params) = n_columns m ->
          0 < num_oos ->
          (forall z, bound = Fin z -> num_oos <= z) ->
          s <= Z.of_nat (nobs_of m) ->
          (forall d, dynamic = Some d ->
             0 <= d /\ s + d <= Z.of_nat (nobs_of m)) ->
          exists p,
            predict m params start end_ dynamic None None None None = Ok p
            /\ Z.of_nat (length (p_fcasts p)) = e + num_oos + 1 - s).
Proof.
  intros Hinit. pose proof (ARDL_init_inv _ Hinit) as Hinv.
  destruct Hinv as [[E1 _] [_ [Hacc [[Hm0 [Hhn _]] _]]]].
  rewrite <- E1 in Hhn. fold (nobs_of m) in Hhn.
  pose proof (max_1step_bound m Hacc) as Hmax.
  exists (one_step_bound m). split; [assumption|].
  split; [|split; [|split]].
  - intros H. unfold one_step_bound.
    destruct H as [H| ->]; [|now rewrite andb_false_r].
    destruct (Z.eqb_spec (shape1 (_fixed m)) 0); [contradiction|reflexivity].
  - intros Hf Hc. now apply one_step_bound_least.
  - intros params start end_ dynamic exog exog_oos fixed fixed_oos
           s e num_oos z Hprep Hb Hlt Hmiss.
    eapply predict_raises_beyond; try eassumption.
    rewrite Hb. cbn. apply Z.gtb_lt. lia.
  - intros params start end_ dynamic s e num_oos Hprep Hp Hk Hle Hs Hd.
    destruct (prepare_prediction_inv _ _ _ Hprep)
      as [Hs0 [Hk0 [Hse [He Hlast]]]].
    specialize (Hlast Hk).
    assert (Hgate : within_bound m num_oos).
    { left. destruct (one_step_bound m) as [z|] eqn:Eb; [|reflexivity].
      cbn. specialize (Hle z eq_refl).
      destruct (Z.gtb_spec num_oos z); [lia | reflexivity]. }
    assert (Hds : 0 <= dynamic_start_of m s e dynamic
                  /\ _hold_back m <= s + dynamic_start_of m s e dynamic
                     <= Z.of_nat (nobs_of m)).
    { unfold dynamic_start_of. destruct dynamic as [d|].
      - destruct (Hd d eq_refl) as [Hd0 Hd1].
        destruct (Z.ltb_spec s (_hold_back m)); lia.
      - lia. }
    destruct Hds as [Hds0 Hds1].
    destruct (@predict_from_ok _ _ args m params s e num_oos dynamic
                Hinit Hp Hs0 Hk0 Hgate Hds0 Hds1)
      as [x [X [F [_ [Hpred [Hwd [_ Hcase]]]]]]].
    eexists. split.
    + unfold predict. rewrite Hprep. cbn [bind fst snd]. exact Hpred.
    + cbn [p_fcasts]. destruct Hwd as [_ [W2 _]]. rewrite W2.
      destruct Hcase as [[Hin _]|[_ ->]]; [lia|].
      cbn [rows_of]. unfold forecasting_rows.
      rewrite length_map, length_seq. lia.
Qed.

End ForecastingBound.

(** ** The dynamic region *)

Section DynamicRegion.

Context {V : Type} {Sc : Scalar V}.



End DynamicRegion.

(** ** Forecasts beyond the sample *)

Section Forecast.

Context {V : Type} {Sc : Scalar V}.

Lemma prepare_forecast (nobs : nat) (steps : Z) :
  1 <= steps ->
  _prepare_prediction nobs (Some (Z.of_nat nobs))
                      (Some (Z.of_nat nobs + steps - 1))
  = Ok (Z.of_nat nobs, Z.of_nat nobs - 1, steps).
Proof.
  intros H. unfold _prepare_prediction. cbv beta zeta.
  assert (E1 : (Z.of_nat nobs <? 0) = false) by (apply Z.ltb_ge; lia).
  assert (E2 : (Z.of_nat nobs + steps - 1 <? 0) = false)
    by (apply Z.ltb_ge; lia).
  assert (E3 : (Z.of_nat nobs + steps - 1 <? Z.of_nat nobs) = false)
    by (apply Z.ltb_ge; lia).
  rewrite E1, E2. cbn [andb orb]. rewrite E1, E2, E3. cbn [andb orb].
  replace (Z.max (Z.of_nat nobs + steps - 1 - (Z.of_nat nobs - 1)) 0)
    with steps by lia.
  replace (Z.of_nat nobs + steps - 1 - steps) with (Z.of_nat nobs - 1)
    by lia.
  reflexivity.
Qed.

(** C10. [forecast] is [predict] from the first date after the sample on,
    with [dynamic=False] and the data given as out-of-sample data. With
    [dynamic=False] the dynamic region starts where the in-sample part of
    the range ends, which for [forecast] is the first row. So a call
    without new data that passes the bound check returns [steps] forecasts, the
    model is left as it was, and every row is walked: the entry of each
    lag is the forecast of row [t - lag] when there is one and the
    observation at [nobs + t - lag] otherwise, the other entries are those
    of the rebuilt matrix, and the forecast is the product of the row with
    the parameters. *)
Theorem forecast_walks_every_row (args : ARDL_args V) (m : ARDL V)
    (params : list V) (steps : Z) :
  ARDL_init args = Ok m ->
  Z.of_nat (length params) = n_columns m ->
  1 <= steps ->
  within_bound m steps ->
  let res := {| model := m; _params := params |} in
  let nobs := Z.of_nat (nobs_of m) in
  let offset := Z.to_nat (shape1 (_deterministic_reg m)) in
  (forall exog fixed,
     forecast res steps exog fixed
     = predict m params (Some nobs) (Some (nobs + steps - 1)) None
               None exog None fixed)
  /\ exists p,
       forecast res steps None None = Ok p
       /\ p_model p = m
       /\ Z.of_nat (length (p_fcasts p)) = steps
       /\ forall t, (t < length (p_fcasts p))%nat ->
            nth t (p_fcasts p) s_nan = dot (nth t (p_x p) []) params
            /\ (forall j lag, nth_error (_lags m) j = Some lag ->
                  nth (offset + j) (nth t (p_x p) []) s_nan
                  = if Z.of_nat t - lag >=? 0
                    then nth (Z.to_nat (Z.of_nat t - lag)) (p_fcasts p) s_nan
                    else nth (Z.to_nat (nobs + Z.of_nat t - lag)) (endog m)
                             s_nan)
            /\ (forall c, (c < offset)%nat
                          \/ (offset + length (_lags m) <= c)%nat ->
                  nth c (nth t (p_x p) []) s_nan
                  = nth c (forecast_row m steps (nobs_of m + t)) s_nan).
Proof.
  intros Hm Hp Hk Hgate res nobs offset. split; [reflexivity|].
  destruct (ARDL_init_inv _ Hm)
    as [_ [_ [_ [[Hm0 [Hhn _]] _]]]].
  rewrite <- (proj1 (proj1 (ARDL_init_inv _ Hm))) in Hhn.
  fold (nobs_of m) in Hhn. fold nobs in Hhn.
  assert (Hds : dynamic_start_of m nobs (nobs - 1) None = 0)
    by (unfold dynamic_start_of; lia).
  destruct (@predict_from_ok _ _ args m params nobs (nobs - 1) steps None)
    as [x [X [F [Hx [Hpred [Hwd [Hshape Hcase]]]]]]];
    try assumption; try (rewrite Hds; unfold nobs; lia); try (unfold nobs; lia).
  rewrite Hds in *.
  destruct Hcase as [[Hlt _]|[_ ->]]; [lia|].
  cbn [rows_of write_back] in *.
  eexists. split.
  { unfold forecast, results_predict, predict. cbn [model _params].
    unfold nobs. rewrite prepare_forecast by assumption.
    cbn [bind fst snd]. exact Hpred. }
  cbn [p_model p_x p_fcasts].
  destruct Hwd as [W1 [W2 [W3 [W4 W5]]]].
  assert (Hlen : length (forecasting_rows m nobs steps) = Z.to_nat steps).
  { unfold forecasting_rows. rewrite length_map, length_seq.
    unfold nobs. lia. }
  split; [reflexivity|]. split; [lia|].
  intros t Ht. rewrite W2 in Ht. unfold offset.
  destruct (W5 t) as [R1 [R2 R3]]; [cbn; lia|].
  split; [exact R1|]. split.
  - intros j lag Hj. rewrite (R2 j lag Hj). unfold lag_source, nobs.
    reflexivity.
  - intros c Hc. rewrite (R3 c Hc). f_equal.
    unfold forecasting_rows.
    rewrite nth_indep
      with (d' := nan_below (_hold_back m) (forecast_row m steps) O)
      by (rewrite length_map, length_seq; unfold nobs; lia).
    rewrite map_nth, seq_nth by (unfold nobs; lia).
    unfold nan_below, nobs. rewrite Nat2Z.id.
    destruct (Z.ltb_spec (Z.of_nat (nobs_of m + t)) (_hold_back m));
      [unfold nobs in *; lia | reflexivity].
Qed.

End Forecast.

(** ** The shortcut and the rebuild *)

Section Shortcut.

Context {V : Type} {Sc : Scalar V}.

Lemma default_exog_oos_0 (m : ARDL V) : default_exog_oos m 0 = None.
Proof. unfold default_exog_oos. now destruct (orig_exog m). Qed.

Lemma forecasting_rows_in_sample (m : ARDL V) (start : Z) :
  endog_cols (_lags m) = _lags m ->
  forecasting_rows m start 0 = design_rows m start.
Proof.
  intros H. unfold forecasting_rows, design_rows. cbn [Z.to_nat].
  rewrite Nat.add_0_r. apply map_ext. intros t. unfold nan_below.
  now rewrite forecast_row_in_sample.
Qed.

(** For a model whose design matrix holds the lags of the response in
    the order of its lag list, and a call without new data: the rebuild of
    [_forecasting_x] returns the rows from [start] to the end of the
    sample, and the rows of the shortcut are the first of them, row for
    row. For a range inside the sample that ends at or after the hold-back
    the shortcut has the [end + 1 - start] rows of the range, and the
    rebuild has the rows up to the end of the sample in addition. *)
Lemma shortcut_rows_first_of_rebuild (args : ARDL_args V) (m : ARDL V)
    (start end_ : Z) :
  ARDL_init args = Ok m ->
  endog_cols (_lags m) = _lags m ->
  0 <= start ->
  exists full rest,
    rebuild_x m start end_ 0 None None None None = Ok full
    /\ full = rows_of (_x m) (shortcut_x m start end_) ++ rest
    /\ (end_ + 1 < Z.of_nat (nobs_of m) ->
        _forecasting_x m start end_ 0 None None None None
        = Ok (shortcut_x m start end_))
    /\ (_hold_back m <= end_ + 1 -> start <= end_ + 1 ->
        end_ + 1 <= Z.of_nat (nobs_of m) ->
        Z.of_nat (length (rows_of (_x m) (shortcut_x m start end_)))
        = end_ + 1 - start
        /\ Z.of_nat (length rest) = Z.of_nat (nobs_of m) - (end_ + 1)).
Proof.
  intros Hm Hl Hs.
  pose proof (@rebuild_x_ok _ _ args m start end_ 0 Hm Hs (Z.le_refl 0)
                (or_introl eq_refl)) as Hre.
  rewrite default_exog_oos_0 in Hre.
  rewrite (@forecasting_rows_in_sample m start Hl) in Hre.
  destruct (@shortcut_rows _ _ args m start end_ Hm Hs) as [[rest Hpre] Hlen].
  exists (design_rows m start), rest.
  split; [exact Hre|]. split; [exact Hpre|]. split.
  - intros Hlt. unfold _forecasting_x.
    destruct (Z.ltb_spec (end_ + 1) (Z.of_nat (nobs_of m))); [reflexivity|lia].
  - intros H1 H2 H3. specialize (Hlen H1 H2 H3). split; [exact Hlen|].
    apply (f_equal (@length (list V))) in Hpre.
    unfold design_rows in Hpre at 1.
    rewrite length_map, length_seq, length_app in Hpre. lia.
Qed.

End Shortcut.

(** ** The small model, evaluated *)

Section SmallModel.

Lemma demo_constructs : ARDL_init demo_args = Ok demo_model.
Proof. vm_compute. reflexivity. Qed.

(** C1. On the small model, a dynamic prediction over the in-sample range
    from 1 to 3 returns the forecasts 3, 9, 27 and leaves the model with
    another design matrix: the rows 1 and 2 of [_x] now hold the forecasts
    3 and 9 where the observations 2 and 4 stood. The array that the
    shortcut of [_forecasting_x] returns is a slice of [_x], and the walk
    of [predict] writes into it. *)
Theorem predict_overwrites_design_matrix :
  exists p,
    predict demo_model [Some 3] (Some 1) (Some 3) (Some 0)
            None None None None = Ok p
    /\ _forecasting_x demo_model 1 3 0 None None None None = Ok (View 0 3)
    /\ p_fcasts p = [Some 3; Some 9; Some 27]
    /\ _x demo_model = [[Some 1]; [Some 2]; [Some 4]; [Some 8]]
    /\ _x (p_model p) = [[Some 1]; [Some 3]; [Some 9]; [Some 8]]
    /\ _x (p_model p) <> _x demo_model.
Proof.
  eexists. split; [vm_compute; reflexivity|].
  cbn [p_model p_fcasts _x write_back set_x].
  repeat split; try (vm_compute; reflexivity).
  vm_compute. discriminate.
Qed.

(** On the small model the rebuilt matrix for the range from 1 to 2 has
    the four rows up to the end of the sample, the shortcut the two rows
    of the range. *)
Lemma shortcut_differs_from_rebuild :
  _forecasting_x demo_model 1 2 0 None None None None
  = Ok (shortcut_x demo_model 1 2)
  /\ rows_of (_x demo_model) (shortcut_x demo_model 1 2)
     = [[Some 1]; [Some 2]]
  /\ rebuild_x demo_model 1 2 0 None None None None
     = Ok [[Some 1]; [Some 2]; [Some 4]; [Some 8]]
  /\ rebuild_x demo_model 1 2 0 None None None None
     <> Ok (rows_of (_x demo_model) (shortcut_x demo_model 1 2)).
Proof.
  repeat split; try (vm_compute; reflexivity).
  vm_compute. discriminate.
Qed.

(** C6. The two paths of [_forecasting_x] do not give the same
    predictions. On the model with the lag 1 of the response and the lags
    0 and 1 of [x], take the range from 1 to 2, inside the sample, with
    [dynamic=False]. Without new data the shortcut returns the two rows of
    the range, a slice of [_x], and [predict] computes two forecasts. The
    same call with the model's own exogenous data passed as [exog] goes
    through the rebuild, which returns [_x[start:]] whatever [end] is: the
    five rows up to the end of the sample. The first two are the rows of
    the shortcut, but [predict] forecasts all five, the last three from
    earlier forecasts, and hands five values over where the shortcut hands
    over two; the last two of them are not the forecasts of the range. *)
Theorem rebuild_path_ignores_end :
  let params := [Some 1; Some 1; Some 1] in
  ARDL_init demo_exog_args = Ok demo_exog_model
  /\ orig_exog demo_exog_model = Some demo_x_frame
  /\ _prepare_prediction (nobs_of demo_exog_model) (Some 1) (Some 2)
     = Ok (1, 2, 0)
  /\ _forecasting_x demo_exog_model 1 2 0 None None None None
     = Ok (View 0 2)
  /\ rows_of (_x demo_exog_model) (View 0 2)
     = [[Some 1; Some 6; Some 5]; [Some 2; Some 7; Some 6]]
  /\ _forecasting_x demo_exog_model 1 2 0 (Some demo_x_frame) None None None
     = Ok (Fresh [[Some 1; Some 6; Some 5]; [Some 2; Some 7; Some 6];
                  [Some 4; Some 8; Some 7]; [Some 8; Some 9; Some 8];
                  [Some 16; Some 10; Some 9]])
  /\ exists p q,
       predict demo_exog_model params (Some 1) (Some 2) None
               None None None None = Ok p
       /\ predict demo_exog_model params (Some 1) (Some 2) None
                  (Some demo_x_frame) None None None = Ok q
       /\ p_fcasts p = [Some 12; Some 15]
       /\ p_fcasts q = [Some 12; Some 15; Some 19; Some 36; Some 55]
       /\ slice_from (p_fcasts q) (-2) = [Some 36; Some 55]
       /\ p_fcasts q <> p_fcasts p
       /\ slice_from (p_fcasts q) (-2) <> p_fcasts p.
Proof.
  cbv zeta.
  split; [vm_compute; reflexivity|].
  split; [reflexivity|]. split; [reflexivity|].
  split; [vm_compute; reflexivity|]. split; [reflexivity|].
  split; [vm_compute; reflexivity|].
  eexists. eexists.
  split; [vm_compute; reflexivity|].
  split; [vm_compute; reflexivity|].
  cbn [p_fcasts].
  split; [reflexivity|]. split; [reflexivity|]. split; [reflexivity|].
  split; discriminate.
Qed.

(** On the small model the second forecast is computed from the first: a
    static product of the forecasting matrix with the parameters would
    leave it missing. *)
Lemma forecast_reuses_forecasts :
  exists p,
    forecast demo_results 2 None None = Ok p
    /\ p_fcasts p = [Some 48; Some 144]
    /\ nth 0 (nth 1 (p_x p) []) None = nth 0 (p_fcasts p) None
    /\ _forecasting_x demo_model 5 4 2 None None None None
       = Ok (Fresh [[Some 16]; [None]])
    /\ matvec [[Some 16]; [None]] [Some 3] = Ok [Some 48; None]
    /\ Ok (p_fcasts p) <> matvec [[Some 16]; [None]] [Some 3].
Proof.
  eexists. split; [vm_compute; reflexivity|].
  cbn [p_x p_fcasts].
  repeat split; try (vm_compute; reflexivity).
  vm_compute. discriminate.
Qed.

Lemma demo_exog_constructs : ARDL_init demo_exog_args = Ok demo_exog_model.
Proof. vm_compute. reflexivity. Qed.


Lemma forecast_walks_every_row_witness :
  ARDL_init demo_args = Ok demo_model
  /\ Z.of_nat (length [Some 3]) = n_columns demo_model
  /\ within_bound demo_model 2
  /\ exists p,
       forecast demo_results 2 None None = Ok p
       /\ p_model p = demo_model
       /\ Z.of_nat (length (p_fcasts p)) = 2.
Proof.
  assert (H1 : Z.of_nat (length [Some 3]) = n_columns demo_model)
    by reflexivity.
  assert (H2 : within_bound demo_model 2) by (right; split; reflexivity).
  refine (conj demo_constructs (conj H1 (conj H2 _))).
  destruct (@forecast_walks_every_row _ _ demo_args demo_model [Some 3] 2
              demo_constructs H1) as [_ [p [Hp [Hm [Hlen _]]]]];
    [lia | assumption |].
  exists p. split; [exact Hp|]. split; assumption.
Defined.

Lemma concrete_scenario_witness :
  length scenario_y = 100%nat
  /\ length scenario_x = 100%nat
  /\ exists m,
       ARDL_init (scenario_args scenario_y scenario_x (fun _ _ => Some 1))
       = Ok m
       /\ _exog_names m = ["const"; "y.L1"; "y.L2"; "x.L0"; "x.L1"]
       /\ _hold_back m = 2
       /\ n_columns m = 5
       /\ length (_x m) = 98%nat
       /\ Forall (fun row => length row = 5%nat) (_x m)
       /\ max_1step m = Ok (Fin 0)
       /\ is_raise (forecast {| model := m; _params := repeat (Some 1) 5 |}
                             3 None None).
Proof.
  assert (H1 : length scenario_y = 100%nat) by reflexivity.
  assert (H2 : length scenario_x = 100%nat) by reflexivity.
  refine (conj H1 (conj H2 _)).
  exact (@concrete_scenario _ _ scenario_y scenario_x (fun _ _ => Some 1)
           (repeat (Some 1) 5) H1 H2).
Defined.

Lemma demo_lagged_constructs :
  ARDL_init demo_lagged_args = Ok demo_lagged_model.
Proof. vm_compute. reflexivity. Qed.

Lemma one_step_forecasting_bound_witness :
  ARDL_init demo_lagged_args = Ok demo_lagged_model
  /\ max_1step demo_lagged_model = Ok (Fin 1)
  /\ is_raise (predict demo_lagged_model [Some 1; Some 1]
                       (Some 6) (Some 7) None None None None None)
  /\ exists p,
       predict demo_lagged_model [Some 1; Some 1]
               (Some 6) (Some 6) None None None None None = Ok p
       /\ Z.of_nat (length (p_fcasts p)) = 1.
Proof.
  refine (conj demo_lagged_constructs _).
  destruct (@one_step_forecasting_bound _ _ demo_lagged_args
              demo_lagged_model demo_lagged_constructs)
    as [bound [Hmax [_ [Hleast [Hraise Hok]]]]].
  assert (Hb : bound = Fin 1).
  { assert (H : max_1step demo_lagged_model = Ok (Fin 1))
      by (vm_compute; reflexivity).
    rewrite H in Hmax. now injection Hmax as <-. }
  split; [now rewrite Hmax, Hb|]. split.
  - apply Hraise with (s := 6) (e := 5) (num_oos := 2) (z := 1).
    + reflexivity.
    + exact Hb.
    + lia.
    + left. split; [discriminate | reflexivity].
  - destruct (Hok [Some 1; Some 1] (Some 6) (Some 6) None
                  6 5 1) as [p [Hp Hl]].
    + reflexivity.
    + reflexivity.
    + lia.
    + intros z Hz. rewrite Hb in Hz. injection Hz as <-. lia.
    + vm_compute. discriminate.
    + discriminate.
    + exists p. split; [exact Hp | exact Hl].
Defined.

(** With the lags 2 and 1 given in this order, the constructor keeps the
    columns of [lagmat] (lag 1, then lag 2) under the names [y.L2] and
    [y.L1], and the rebuild of [_forecasting_x] selects lag 2, then
    lag 1. *)
Lemma unsorted_lags_change_columns :
  ARDL_init demo_unsorted_args = Ok demo_unsorted_model
  /\ _exog_names demo_unsorted_model = ["y.L2"; "y.L1"]
  /\ _x demo_unsorted_model
     = [[Some 2; Some 1]; [Some 4; Some 2]; [Some 8; Some 4];
        [Some 16; Some 8]]
  /\ rows_of (_x demo_unsorted_model) (shortcut_x demo_unsorted_model 2 3)
     = [[Some 2; Some 1]; [Some 4; Some 2]]
  /\ rebuild_x demo_unsorted_model 2 3 0 None None None None
     = Ok [[Some 1; Some 2]; [Some 2; Some 4]; [Some 4; Some 8];
           [Some 8; Some 16]].
Proof. repeat split; vm_compute; reflexivity. Qed.

End SmallModel.

(** * Further properties *)

(** ** Sequence orders and single orders *)

Section SequenceOrders.

Lemma has_dup_NoDup (l : list Z) : has_dup l = false <-> NoDup l.
Proof.
  induction l as [|z l IH]; cbn.
  - split; [constructor | reflexivity].
  - rewrite orb_false_iff, IH. split.
    + intros [Hex Hnd]. constructor; [|assumption].
      intros Hin. assert (existsb (Z.eqb z) l = true); [|congruence].
      apply existsb_exists. exists z. split; [assumption | apply Z.eqb_refl].
    + intros Hnd. inversion Hnd as [|? ? Hnin Hnd']; subst.
      split; [|assumption].
      destruct (existsb (Z.eqb z) l) eqn:E; [|reflexivity].
      apply existsb_exists in E. destruct E as [x [Hx Hzx]].
      apply Z.eqb_eq in Hzx. subst. contradiction.
Qed.

Lemma min_list_least (l : list Z) (d : Z) :
  (forall z, In z (d :: l) -> min_list d l <= z).
Proof.
  destruct (min_list_le l d) as [H1 H2]. intros z [<-|Hz]; auto.
Qed.

(** The rule of [_check_order] for a sequence: an entry that is not an
    integer raises a [TypeError]; an empty sequence raises the
    [ValueError] of [min]; repeated or negative entries raise a
    [ValueError], and so does an entry below 1 when [causal]; every other
    sequence is accepted. *)
Theorem sequence_order_rule (l : list elem) (c : bool) :
  let zs := map int_of l in
  (forallb is_int l = false ->
     _check_order (OSeq l) c
     = Raise (TypeError
         "sequence orders must contain non-negative integer values"))
  /\ (forallb is_int l = true ->
      (l = [] ->
         _check_order (OSeq l) c
         = Raise (ValueError "min() arg is an empty sequence"))
      /\ (l <> [] -> ~ NoDup zs \/ (exists z, In z zs /\ z < 0) ->
          _check_order (OSeq l) c
          = Raise (ValueError
              "sequence orders must contain distinct non-negative values"))
      /\ (l <> [] -> NoDup zs -> (forall z, In z zs -> 0 <= z) ->
          c = true -> (exists z, In z zs /\ z < 1) ->
          _check_order (OSeq l) c
          = Raise (ValueError
              "sequence orders must be strictly positive when causal is True"))
      /\ (l <> [] -> NoDup zs -> (forall z, In z zs -> Z.b2z c <= z) ->
          _check_order (OSeq l) c = Ok true)).
Proof.
  intros zs. split.
  - intros H. cbn. now rewrite H.
  - intros H. cbn [_check_order]. rewrite H. cbn [negb]. fold zs.
    assert (Hne : l <> [] -> exists z r, zs = z :: r).
    { intros Hl. destruct l as [|e l']; [congruence|].
      cbn in zs. now exists (int_of e), (map int_of l'). }
    split; [|split; [|split]].
    + intros ->. reflexivity.
    + intros Hl Hbad. destruct (Hne Hl) as [z [r E]].
      destruct (has_dup zs) eqn:Ed; [reflexivity|].
      apply has_dup_NoDup in Ed.
      destruct Hbad as [Hd|[x [Hx Hneg]]]; [contradiction|].
      rewrite E in *. cbn [py_min bind].
      pose proof (@min_list_least r z x Hx) as Hle.
      destruct (Z.ltb_spec (min_list z r) 0); [reflexivity | lia].
    + intros Hl Hnd Hpos -> [x [Hx Hlow]]. destruct (Hne Hl) as [z [r E]].
      apply has_dup_NoDup in Hnd. rewrite Hnd. rewrite E in *.
      cbn [py_min bind].
      pose proof (min_list_in r z) as Hin. apply Hpos in Hin.
      destruct (Z.ltb_spec (min_list z r) 0); [lia|].
      pose proof (@min_list_least r z x Hx) as Hle.
      destruct (Z.ltb_spec (min_list z r) 1); [reflexivity | lia].
    + intros Hl Hnd Hge. destruct (Hne Hl) as [z [r E]].
      apply has_dup_NoDup in Hnd. rewrite Hnd. rewrite E in *.
      cbn [py_min bind].
      pose proof (min_list_in r z) as Hin. apply Hge in Hin.
      destruct (Z.ltb_spec (min_list z r) 0); [destruct c; cbn in Hin; lia|].
      destruct c; cbn [bind]; [|reflexivity]. cbn in Hin.
      destruct (Z.ltb_spec (min_list z r) 1); [lia | reflexivity].
Qed.

Lemma final_order_const (c : bool) (v : order_value) (b : list Z)
    (keys : list key) :
  (forall k, expand_order c (k, v) = Ok [(k, b)]) ->
  final_order c (map (fun k => (k, v)) keys)
  = Ok (map (fun k => (k, b)) keys).
Proof.
  intros H. unfold final_order.
  rewrite map_result_ok with (g := fun kv => [(fst kv, b)]).
  - cbn [bind]. f_equal. rewrite map_map. cbn [fst].
    induction keys as [|k keys IH]; [reflexivity|].
    cbn [map concat app]. now rewrite IH.
  - intros kv Hkv. apply in_map_iff in Hkv. destruct Hkv as [k [<- _]].
    cbn [fst]. apply H.
Qed.

Lemma final_order_none (c : bool) (keys : list key) :
  final_order c (map (fun k => (k, ONone)) keys) = Ok [].
Proof.
  unfold final_order.
  rewrite map_result_ok with (g := fun _ => []).
  - cbn [bind]. f_equal. induction keys as [|k keys IH]; [reflexivity|].
    cbn [map concat app]. exact IH.
  - intros kv Hkv. apply in_map_iff in Hkv. destruct Hkv as [k [<- _]].
    reflexivity.
Qed.

(** One order for all variables. An accepted sequence gives every
    variable its entries in the order they were written; [None] leaves
    every variable out; and without exog the orders [0] and [None] give no
    lags and are not checked against [causal], while any integer below
    [int(causal)] raises when there is exog. *)
Theorem single_order_expansion (l : list elem) (np c : bool)
    (keys : list key) :
  (_check_order (OSeq l) c = Ok true ->
     _format_order (Some keys) (OVal (OSeq l)) c
     = ([], Ok (map (fun k => (k, map int_of l)) keys)))
  /\ (forall e, _check_order (OSeq l) c = Raise e ->
        _format_order (Some keys) (OVal (OSeq l)) c = ([], Raise e))
  /\ _format_order (Some keys) (OVal ONone) c = ([], Ok [])
  /\ _format_order None (OVal ONone) c = ([], Ok [])
  /\ _format_order None (OVal (OInt np 0)) c = ([], Ok [])
  /\ (c = true ->
      is_raise (snd (_format_order (Some keys) (OVal (OInt np 0)) c))).
Proof.
  repeat split.
  - intros H. cbn [_format_order]. rewrite H. cbn [bind].
    now rewrite final_order_const with (b := map int_of l).
  - intros e H. cbn [_format_order]. now rewrite H.
  - cbn [_format_order]. now rewrite final_order_none.
  - intros ->. cbn. eexists. reflexivity.
Qed.

End SequenceOrders.

(** ** Mapping orders with NumPy integers *)

Section NumpyIntegers.

Lemma mapping_checked (lbl : option (list string)) (ncols : nat)
    (d : list (key * order_value)) (c : bool) :
  extra_keys (keys_of lbl ncols) d = [] ->
  (forall kv, In kv d -> _check_order (snd kv) c = Ok true) ->
  snd (_format_order (Some (keys_of lbl ncols)) (OMap d) c)
  = final_order c d.
Proof.
  intros Hx Hall. cbn [_format_order]. rewrite Hx.
  rewrite for_each_check_ok by assumption. cbn [bind].
  destruct (missing_keys (keys_of lbl ncols) d) eqn:Em; [reflexivity|].
  rewrite <- Em.
  destruct (sorted_keys_ok (l := missing_keys (keys_of lbl ncols) d))
    as [s ->]; [|reflexivity].
  apply missing_keys_same_kind, keys_of_same_kind.
Qed.

Lemma mapping_unchecked (lbl : option (list string)) (ncols : nat)
    (d : list (key * order_value)) (c : bool) :
  extra_keys (keys_of lbl ncols) d = [] ->
  snd (_format_order (Some (keys_of lbl ncols)) (OMap d) c)
  = (for_each (fun kv => _check_order (snd kv) c ;;; Ok tt) d ;;;
     final_order c d).
Proof.
  intros Hx. cbn [_format_order]. rewrite Hx.
  destruct (missing_keys (keys_of lbl ncols) d) eqn:Em; [reflexivity|].
  rewrite <- Em.
  destruct (sorted_keys_ok (l := missing_keys (keys_of lbl ncols) d))
    as [s ->]; [|reflexivity].
  apply missing_keys_same_kind, keys_of_same_kind.
Qed.

Lemma extra_keys_none (keys : list key) (d : list (key * order_value)) :
  (forall k, In k (map fst d) -> In k keys) -> extra_keys keys d = [].
Proof.
  intros Hsub. destruct (extra_keys keys d) as [|x xs] eqn:Ex; [reflexivity|].
  assert (Hx : In x (extra_keys keys d)) by (rewrite Ex; now left).
  apply extra_keys_In in Hx. destruct Hx as [Hin Hout].
  exfalso. now apply Hout, Hsub.
Qed.

Lemma map_result_raise {A B : Type} (f : A -> result B) (l : list A) :
  is_raise (map_result f l) <-> exists a, In a l /\ is_raise (f a).
Proof.
  induction l as [|a l IH]; cbn.
  - split; [intros [e He]; discriminate | intros [a [[] _]]].
  - destruct (f a) as [b|e] eqn:Ea; cbn.
    + destruct (map_result f l) as [bs|e'] eqn:El; cbn.
      * split; [intros [e He]; discriminate|].
        intros [x [[<-|Hx] [e He]]]; [congruence|].
        assert (is_raise (Raise (A := list B) e)) as Hr
          by (eexists; reflexivity).
        exfalso. destruct (proj2 IH) as [e' He']; [|discriminate].
        exists x. split; [assumption | now exists e].
      * split; [|intros _; eexists; reflexivity].
        intros _. destruct (proj1 IH) as [x [Hx Hr]];
          [eexists; reflexivity|].
        exists x. split; [now right | assumption].
    + split; [|intros _; eexists; reflexivity].
      intros _. exists a. split; [now left|]. rewrite Ea. eexists.
      reflexivity.
Qed.

Lemma expand_order_error (c : bool) (d : list (key * order_value))
    (e : exn) :
  map_result (expand_order c) d = Raise e -> exists msg, e = TypeError msg.
Proof.
  induction d as [|[k v] d IH]; cbn; [discriminate|].
  unfold expand_order at 1. cbn [snd fst].
  destruct v as [|[|] n|l]; cbn [bind];
    try (intros [= <-]; eexists; reflexivity);
    (destruct (map_result (expand_order c) d) as [bs|e'];
     cbn [bind]; [discriminate|]; intros [= <-]; now apply IH).
Qed.

(** A mapping without unknown keys, all of whose values pass
    [_check_order], still raises exactly when one of its values is a
    NumPy integer, and then with a [TypeError]: the last loop of
    [_format_order] expands a Python [int] only and iterates over
    everything else. *)
Theorem numpy_integer_in_mapping (lbl : option (list string)) (ncols : nat)
    (d : list (key * order_value)) (c : bool) :
  extra_keys (keys_of lbl ncols) d = [] ->
  (forall kv, In kv d -> _check_order (snd kv) c = Ok true) ->
  let r := snd (_format_order (Some (keys_of lbl ncols)) (OMap d) c) in
  (is_raise r <-> exists k n, In (k, OInt true n) d)
  /\ (forall e, r = Raise e -> exists msg, e = TypeError msg).
Proof.
  intros Hx Hall r. subst r. rewrite mapping_checked by assumption.
  unfold final_order.
  assert (Hiff : is_raise (map_result (expand_order c) d)
                 <-> exists k n, In (k, OInt true n) d).
  { rewrite map_result_raise. split.
    - intros [[k v] [Hin [e He]]]. unfold expand_order in He. cbn in He.
      destruct v as [|[|] n|l]; try discriminate. now exists k, n.
    - intros [k [n Hin]]. exists (k, OInt true n). split; [assumption|].
      eexists. reflexivity. }
  split.
  - rewrite <- Hiff.
    destruct (map_result (expand_order c) d) as [bs|e0]; cbn; split;
      intros [e1 He]; try discriminate; eexists; reflexivity.
  - intros e He.
    destruct (map_result (expand_order c) d) as [bs|e'] eqn:E;
      cbn [bind] in He; [discriminate|].
    injection He as <-. eapply expand_order_error, E.
Qed.

Lemma numpy_integer_in_mapping_witness :
  extra_keys (keys_of (Some ["x"]) 1) [(KStr "x", OInt true 2)] = []
  /\ (forall kv, In kv [(KStr "x", OInt true 2)] ->
        _check_order (snd kv) false = Ok true)
  /\ is_raise (snd (_format_order (Some (keys_of (Some ["x"]) 1))
                                  (OMap [(KStr "x", OInt true 2)]) false)).
Proof.
  assert (H1 : extra_keys (keys_of (Some ["x"]) 1)
                          [(KStr "x", OInt true 2)] = []) by reflexivity.
  assert (H2 : forall kv, In kv [(KStr "x", OInt true 2)] ->
                 _check_order (snd kv) false = Ok true).
  { intros kv [<-|[]]. reflexivity. }
  refine (conj H1 (conj H2 _)).
  apply (proj1 (@numpy_integer_in_mapping (Some ["x"]) 1
                  [(KStr "x", OInt true 2)] false H1 H2)).
  exists (KStr "x"), 2. now left.
Defined.

End NumpyIntegers.

(** ** The causal flag and the order of a constructed model *)

Section ConstructedOrders.

Context {V : Type} {Sc : Scalar V}.

Lemma in_orders (ord : list (key * list Z)) (z : Z) :
  In z (concat (map snd ord)) <-> exists kv, In kv ord /\ In z (snd kv).
Proof.
  rewrite in_concat. split.
  - intros [l [Hl Hz]]. apply in_map_iff in Hl.
    destruct Hl as [kv [<- Hkv]]. now exists kv.
  - intros [kv [Hkv Hz]]. exists (snd kv). split; [|assumption].
    now apply in_map.
Qed.

(** The [causal] argument only decides which orders are accepted. The
    flag that a constructed model keeps, and that bounds naive
    forecasting, is derived from the orders: it is set exactly when no
    exogenous variable enters at lag 0; so it is set for a model built
    with [causal=True] and for a model without exogenous lags. *)
Theorem causal_flag_rederived (args : ARDL_args V) (m : ARDL V) :
  ARDL_init args = Ok m ->
  (_causal m = true
   <-> forall kv z, In kv (_order m) -> In z (snd kv) -> 1 <= z)
  /\ (a_causal args = true -> _causal m = true)
  /\ (_order m = [] -> _causal m = true).
Proof.
  intros Hm.
  destruct (ARDL_init_inv _ Hm)
    as [_ [_ [_ [_ [_ [_ [_ [_ [_ [_ [Hord [_ [_ [Hc _]]]]]]]]]]]]]].
  assert (Hiff : _causal m = true
                 <-> forall kv z, In kv (_order m) -> In z (snd kv) -> 1 <= z).
  { rewrite Hc.
    destruct (concat (map snd (_order m))) as [|a l] eqn:E; cbn.
    - split; [|reflexivity]. intros _ kv z Hkv Hz.
      assert (In z (concat (map snd (_order m))))
        by (apply in_orders; now exists kv).
      rewrite E in *. contradiction.
    - destruct (min_list_le l a) as [H1 H2].
      pose proof (min_list_in l a) as Hin. rewrite <- E in Hin.
      split.
      + intros Hgt kv z Hkv Hz.
        assert (Hz' : In z (concat (map snd (_order m))))
          by (apply in_orders; now exists kv).
        rewrite E in Hz'.
        assert (min_list a l <= z)
          by (destruct Hz' as [<-|Hz']; [assumption | now apply H2]).
        destruct (Z.gtb_spec (min_list a l) 0); [lia | discriminate].
      + intros Hall. apply in_orders in Hin. destruct Hin as [kv [Hkv Hz]].
        specialize (Hall kv _ Hkv Hz).
        destruct (Z.gtb_spec (min_list a l) 0); [reflexivity | lia]. }
  split; [exact Hiff|]. split.
  - intros Hca. apply Hiff. intros kv z Hkv Hz.
    apply format_order_accepted in Hord. rewrite Hca in Hord.
    rewrite Forall_forall in Hord. destruct (Hord kv Hkv) as [_ Hge].
    apply Hge in Hz. cbn in Hz. lia.
  - intros Ho. apply Hiff. rewrite Ho. intros kv z [].
Qed.

Lemma dl_order_of_attained (vals : list (list Z)) (acc d : Z) :
  dl_order_of vals acc = Ok d ->
  d = acc \/ exists l, In l vals /\ In d l.
Proof.
  revert acc. induction vals as [|val vals IH]; cbn; intros acc H.
  - injection H as <-. now left.
  - apply bind_ok in H. destruct H as [m [Hm H]].
    destruct val as [|z l]; [discriminate|]. injection Hm as <-.
    apply IH in H. destruct H as [->|[l' [Hl' Hin]]].
    + destruct (Z.max_spec acc (max_list z l)) as [[_ ->]|[_ ->]].
      * right. exists (z :: l). split; [now left | apply max_list_in].
      * now left.
    + right. exists l'. split; [now right | assumption].
Qed.

Lemma ardl_order_closed (args : ARDL_args V) (m : ARDL V) :
  ARDL_init args = Ok m ->
  exists q,
    ardl_order m = Ok (max_or_0 (_lags m), q)
    /\ (_order m = [] -> q = None /\ _maxlag m = max_or_0 (_lags m))
    /\ (_order m <> [] ->
        exists d,
          q = Some d
          /\ (exists kv, In kv (_order m) /\ In d (snd kv))
          /\ (forall kv z, In kv (_order m) -> In z (snd kv) -> z <= d)
          /\ _maxlag m = Z.max (max_or_0 (_lags m)) d).
Proof.
  intros Hm.
  destruct (ARDL_init_inv _ Hm)
    as [_ [_ [Hacc [_ [_ [_ [_ [_ [_ [_ [_ [_ [[mo [Hmo Hmax]] _]]]]]]]]]]]]].
  unfold ardl_order.
  destruct (dl_order_of_ok (map snd (_order m)) (-1)) as [d [Hd [Hle Hall]]].
  { intros l Hl. apply in_map_iff in Hl. destruct Hl as [kv [<- Hkv]].
    rewrite Forall_forall in Hacc. now apply Hacc. }
  rewrite Hd. cbn [bind]. eexists. split; [reflexivity|]. split.
  - intros Ho. rewrite Ho in *. cbn in Hd, Hmo.
    injection Hd as <-. injection Hmo as <-. split; [reflexivity|].
    destruct (max_or_0_valid (proj1 (proj2 (ARDL_init_inv _ Hm)))) as [H0 _].
    lia.
  - intros Hne.
    assert (Hd0 : 0 <= d).
    { destruct (_order m) as [|kv ord]; [congruence|].
      apply Forall_inv in Hacc. destruct Hacc as [Hn Hge].
      destruct (snd kv) as [|z l] eqn:Ez; [congruence|].
      assert (z <= d)
        by (apply (Hall (z :: l)); [left; now rewrite <- Ez | now left]).
      assert (0 <= z) by (apply Hge; now left). lia. }
    destruct (Z.ltb_spec d 0); [lia|].
    exists d. split; [reflexivity|].
    pose proof (dl_order_of_attained _ _ Hd) as Hatt.
    destruct Hatt as [->|[l [Hl Hin]]]; [lia|].
    apply in_map_iff in Hl. destruct Hl as [kv [<- Hkv]].
    split; [now exists kv|]. split.
    + intros kv' z Hkv' Hz. apply (Hall (snd kv')); [|assumption].
      now apply in_map.
    + rewrite Hmax. f_equal.
      pose proof (max_order_of_inv _ _ Hmo) as [Hmo0 Hmoall].
      assert (d <= mo)
        by (apply (Hmoall (snd kv)); [now apply in_map | assumption]).
      destruct (max_order_of_attained _ _ Hmo) as [->|[l' [Hl' Hin']]];
        [lia|].
      assert (mo <= d) by (eapply Hall; eassumption). lia.
Qed.

(** [ardl_order] of a constructed model is the pair (p, q) of the largest
    lag of the response (0 without lags) and the largest lag of the
    exogenous variables; q is [None] exactly when the model has no
    exogenous lags, and the largest lag [_maxlag] that bounds [hold_back]
    is the larger of p and q. *)
Theorem ardl_order_of_model (args : ARDL_args V) (m : ARDL V) :
  ARDL_init args = Ok m ->
  exists q,
    ardl_order m = Ok (max_or_0 (_lags m), q)
    /\ (_order m = [] -> q = None /\ _maxlag m = max_or_0 (_lags m))
    /\ (_order m <> [] ->
        exists d,
          q = Some d
          /\ (exists kv, In kv (_order m) /\ In d (snd kv))
          /\ (forall kv z, In kv (_order m) -> In z (snd kv) -> z <= d)
          /\ _maxlag m = Z.max (max_or_0 (_lags m)) d).
Proof. exact (@ardl_order_closed args m). Qed.

End ConstructedOrders.

(** ** The lag blocks of the exogenous variables *)

Section LagBlocks.

Context {V : Type} {Sc : Scalar V}.

Lemma max_order_of_ok (vals : list (list Z)) (acc : Z) :
  (forall l, In l vals -> l <> []) ->
  exists mo, max_order_of vals acc = Ok mo.
Proof.
  revert acc. induction vals as [|val vals IH]; intros acc H; cbn.
  - now exists acc.
  - destruct val as [|z l]; [exfalso; now apply (H []); [left|]|].
    cbn [py_max bind]. apply IH. intros l' Hl'. apply H. now right.
Qed.

(** [_format_exog] on accepted orders whose variables are columns of the
    data: with [mo] the largest lag asked for, the call returns when [mo]
    is below the number of observations and raises otherwise. It returns,
    variable by variable in the order of the orders, one block with a row
    per observation and a column per lag -- entry [(t, j)] is the
    observation [t - lag_j] of the variable, and a padding zero when
    [t < lag_j] -- together with the names [<base>.L<lag>], where the base
    is the label of a DataFrame column and [x<position>] for an array. *)
Theorem format_exog_blocks (c : bool) (f : frame V)
    (ord : list (key * list Z)) :
  Forall (accepted c) ord -> ord <> [] ->
  (forall kv, In kv ord -> is_ok (get_column f (fst kv))) ->
  let nobs := length (values f) in
  exists mo,
    max_order_of (map snd ord) 0 = Ok mo
    /\ (forall kv z, In kv ord -> In z (snd kv) -> z <= mo)
    /\ (exists kv, In kv ord /\ In mo (snd kv))
    /\ (mo < Z.of_nat nobs ->
        _format_exog (Some f) ord
        = Ok (map (fun kv =>
                     (fst kv,
                      map (fun t =>
                             map (lag_value (column_of (Some f) (fst kv)) t)
                                 (snd kv))
                          (seq 0 nobs))) ord,
              map (fun kv =>
                     (fst kv,
                      map (fun lag =>
                             (exog_base f (fst kv) ++ ".L" ++ str_of_Z lag)
                             %string) (snd kv))) ord))
    /\ (Z.of_nat nobs <= mo -> is_raise (_format_exog (Some f) ord)).
Proof.
  intros Hacc Hne Hcols nobs.
  destruct (max_order_of_ok (map snd ord) 0) as [mo Hmo].
  { intros l Hl. apply in_map_iff in Hl. destruct Hl as [kv [<- Hkv]].
    rewrite Forall_forall in Hacc. now apply Hacc. }
  exists mo. split; [exact Hmo|].
  pose proof (max_order_of_inv _ _ Hmo) as [Hmo0 Hmax].
  split; [|split; [|split]].
  - intros kv z Hkv Hz. apply (Hmax (snd kv)); [now apply in_map|assumption].
  - destruct (max_order_of_attained _ _ Hmo) as [->|[l [Hl Hin]]].
    + destruct ord as [|kv ord']; [congruence|]. exists kv.
      split; [now left|].
      apply Forall_inv in Hacc. destruct Hacc as [Hn Hge].
      destruct (snd kv) as [|z l] eqn:Ez; [congruence|].
      assert (z <= 0)
        by (apply (Hmax (z :: l)); [left; now rewrite Ez | now left]).
      assert (0 <= z)
        by (specialize (Hge z (or_introl eq_refl)); destruct c; cbn in Hge;
            lia).
      left. lia.
    + apply in_map_iff in Hl. destruct Hl as [kv [<- Hkv]]. now exists kv.
  - intros Hlt. unfold _format_exog.
    destruct ord as [|kv0 ord0]; [congruence|].
    remember (kv0 :: ord0) as ord' eqn:Eord. clear Eord kv0 ord0 Hne.
    rewrite Hmo. cbn [bind].
    rewrite map_result_ok with
      (g := fun kv => (fst kv, lag_rows (column_of (Some f) (fst kv))
                                        (snd kv) nobs)).
    { reflexivity. }
    intros kv Hkv. destruct (Hcols kv Hkv) as [col Hcol].
    cbn [column_of]. rewrite Hcol. cbn [bind].
    pose proof (get_column_length _ _ Hcol) as Hlen. fold nobs in Hlen.
    rewrite lagmat_ok by lia. cbn [bind]. rewrite Hlen.
    rewrite <- (map_id (snd kv)) at 1.
    rewrite map_ext with (g := fun l => l - 0) by (intros; lia).
    rewrite select_lag_cols; [reflexivity|].
    intros z Hz. rewrite Forall_forall in Hacc.
    destruct (Hacc kv Hkv) as [_ Hge]. specialize (Hge z Hz).
    specialize (Hmax (snd kv) z (in_map snd _ _ Hkv) Hz).
    destruct c; cbn in Hge; lia.
  - intros Hge. unfold _format_exog.
    destruct ord as [|kv0 ord0]; [congruence|].
    rewrite Hmo. cbn [bind map_result].
    destruct (Hcols kv0 (or_introl eq_refl)) as [col Hcol].
    rewrite Hcol. cbn [bind].
    pose proof (get_column_length _ _ Hcol) as Hlen. fold nobs in Hlen.
    unfold lagmat. rewrite Hlen.
    destruct (Z.leb_spec (Z.of_nat nobs) mo); [|lia].
    cbn [bind]. eexists. reflexivity.
Qed.

End LagBlocks.

(** ** Predictions that leave the model alone *)

Section StaticPredictions.

Context {V : Type} {Sc : Scalar V}.

Lemma set_x_same (m : ARDL V) : set_x m (_x m) = m.
Proof. now destruct m. Qed.

Lemma write_back_rows (m : ARDL V) (x : xarray V) :
  write_back m x (rows_of (_x m) x) = m.
Proof.
  destruct x as [lo n|a]; cbn [write_back rows_of]; [|reflexivity].
  rewrite <- (set_x_same m) at 5. f_equal.
  rewrite <- (firstn_skipn lo (_x m)) at 4. f_equal.
  rewrite <- (firstn_skipn n (skipn lo (_x m))) at 2. f_equal.
  rewrite skipn_skipn. f_equal. lia.
Qed.

Lemma check_opt_none (m : ARDL V) (arr : option (frame V)) (name : string)
    (orig : option (frame V)) (exact : bool) (r : option (frame V)) :
  check_opt m arr name orig exact = Ok r -> (r = None <-> arr = None).
Proof.
  destruct arr as [a|]; cbn.
  - intros H. apply bind_ok in H. destruct H as [a' [_ [= <-]]].
    split; discriminate.
  - intros [= <-]. split; reflexivity.
Qed.

(** The model after a [predict] call that returns: the model itself with
    the final matrix written into the array that [_forecasting_x]
    returned. *)
Lemma predict_from_written (m : ARDL V) (params : list V)
    (start end_ num_oos : Z) (dynamic : option Z)
    (exog exog_oos fixed fixed_oos : option (frame V)) (p : prediction V) :
  predict_from m params start end_ num_oos dynamic
               exog exog_oos fixed fixed_oos = Ok p ->
  exists e eo f fo x,
    (e = None <-> exog = None) /\ (f = None <-> fixed = None)
    /\ _forecasting_x m start end_ num_oos e eo f fo = Ok x
    /\ p_model p = write_back m x (p_x p).
Proof.
  intros H. unfold predict_from in H.
  apply bind_ok in H. destruct H as [e [He H]].
  apply bind_ok in H. destruct H as [eo [Heo H]].
  apply bind_ok in H. destruct H as [f [Hf H]].
  apply bind_ok in H. destruct H as [fo [Hfo H]].
  apply bind_ok in H. destruct H as [b [_ H]].
  apply bind_ok in H. destruct H as [[] [_ H]].
  apply bind_ok in H. destruct H as [x [Hx H]].
  apply bind_ok in H. destruct H as [static [Hst H]].
  apply bind_ok in H. destruct H as [[X F] [Hwalk H]].
  injection H as <-. cbn [fst snd p_model p_x].
  eexists e, _, f, fo, x.
  split; [exact (@check_opt_none _ _ _ _ _ _ He)|].
  split; [exact (@check_opt_none _ _ _ _ _ _ Hf)|].
  split; [exact Hx | reflexivity].
Qed.

(** The array that [_forecasting_x] returns is newly allocated unless the
    call has no replacement data, lies inside the sample and does not
    start before the hold-back; then it is the slice of [_x] with the rows
    of the range. *)
Lemma forecasting_x_view (m : ARDL V) (start end_ num_oos : Z)
    (e eo f fo : option (frame V)) (x : xarray V) :
  _forecasting_x m start end_ num_oos e eo f fo = Ok x ->
  (exists a, x = Fresh a)
  \/ (e = None /\ f = None /\ end_ + 1 < Z.of_nat (nobs_of m)
      /\ _hold_back m <= start
      /\ x = view_slice (_x m) (Z.max (start - _hold_back m) 0)
                        (end_ + 1 - _hold_back m)).
Proof.
  intros H. unfold _forecasting_x in H.
  destruct e as [e|]; [|destruct f as [f|]].
  - apply bind_ok in H. destruct H as [a [_ [= <-]]]. left. now exists a.
  - apply bind_ok in H. destruct H as [a [_ [= <-]]]. left. now exists a.
  - destruct (Z.ltb_spec (end_ + 1) (Z.of_nat (nobs_of m))) as [Hin|Hout].
    + injection H as <-. unfold shortcut_x, pad_x.
      destruct (Z.geb_spec start (_hold_back m)) as [Hge|Hlt].
      * right. cbn [Z.eqb]. repeat split; try reflexivity; assumption.
      * left. destruct (Z.eqb_spec (_hold_back m - start) 0); [lia|].
        eexists. reflexivity.
    + apply bind_ok in H. destruct H as [a [_ [= <-]]]. left. now exists a.
Qed.

Lemma splice_nth {A : Type} (l X : list A) (a n r : nat) (d : A) :
  length X = n -> (a + n <= length l)%nat ->
  nth r (firstn a l ++ X ++ skipn (a + n) l) d
  = if (a <=? r)%nat && (r <? a + n)%nat then nth (r - a) X d else nth r l d.
Proof.
  intros HX Hl.
  assert (Hfa : length (firstn a l) = a) by (rewrite length_firstn; lia).
  destruct (Nat.leb_spec a r) as [Har|Har]; cbn [andb].
  - rewrite app_nth2 by lia. rewrite Hfa.
    destruct (Nat.ltb_spec r (a + n)) as [Hrn|Hrn].
    + rewrite app_nth1 by lia. reflexivity.
    + rewrite app_nth2 by lia. rewrite nth_skipn. f_equal. lia.
  - rewrite app_nth1 by lia. apply nth_firstn_lt. lia.
Qed.

Lemma splice_length {A : Type} (l X : list A) (a n : nat) :
  length X = n -> (a + n <= length l)%nat ->
  length (firstn a l ++ X ++ skipn (a + n) l) = length l.
Proof.
  intros HX Hl. rewrite !length_app, length_firstn, length_skipn. lia.
Qed.

Lemma view_nth {A : Type} (l : list A) (a n t : nat) (d : A) :
  (t < n)%nat -> nth t (firstn n (skipn a l)) d = nth (a + t) l d.
Proof.
  intros Ht. destruct (Nat.lt_ge_cases (a + t) (length l)) as [Hlt|Hge].
  - rewrite nth_firstn_lt by (rewrite length_skipn; lia).
    apply nth_skipn.
  - rewrite (nth_overflow l) by lia. apply nth_overflow.
    rewrite length_firstn, length_skipn. lia.
Qed.

(** What a [predict] call that returns can have changed of the model:
    nothing but entries of [_x], none when the matrix of the call was
    newly allocated, and otherwise only entries in the columns of the lags
    of the response, in the rows of the range from the dynamic start
    on. *)
Lemma predict_from_frame (args : ARDL_args V) (m : ARDL V) (params : list V)
    (start end_ num_oos : Z) (dynamic : option Z)
    (exog exog_oos fixed fixed_oos : option (frame V)) (p : prediction V) :
  ARDL_init args = Ok m ->
  (exog = None -> fixed = None -> _hold_back m <= start ->
   end_ + 1 < Z.of_nat (nobs_of m) ->
   start <= end_ + 1 /\ 0 <= dynamic_start_of m start end_ dynamic) ->
  predict_from m params start end_ num_oos dynamic
               exog exog_oos fixed fixed_oos = Ok p ->
  p_model p = set_x m (_x (p_model p))
  /\ (exog <> None \/ fixed <> None \/ start < _hold_back m
      \/ Z.of_nat (nobs_of m) <= end_ + 1 -> p_model p = m)
  /\ length (_x (p_model p)) = length (_x m)
  /\ (forall r, length (nth r (_x (p_model p)) [])
                = length (nth r (_x m) []))
  /\ (forall r,
        Z.of_nat r < start + dynamic_start_of m start end_ dynamic
                     - _hold_back m
        \/ end_ - _hold_back m < Z.of_nat r ->
        nth r (_x (p_model p)) [] = nth r (_x m) [])
  /\ (forall r c,
        (c < Z.to_nat (shape1 (_deterministic_reg m)))%nat
        \/ (Z.to_nat (shape1 (_deterministic_reg m)) + length (_lags m)
            <= c)%nat ->
        nth c (nth r (_x (p_model p)) []) s_nan
        = nth c (nth r (_x m) []) s_nan).
Proof.
  intros Hm Hview Hp.
  destruct (@predict_from_written _ _ _ _ _ _ _ _ _ _ _ Hp)
    as [e [eo [f [fo [x [He [Hf [Hx Hmodel]]]]]]]].
  assert (Hsame : p_model p = m ->
            p_model p = set_x m (_x (p_model p))
            /\ (exog <> None \/ fixed <> None \/ start < _hold_back m
                \/ Z.of_nat (nobs_of m) <= end_ + 1 -> p_model p = m)
            /\ length (_x (p_model p)) = length (_x m)
            /\ (forall r, length (nth r (_x (p_model p)) [])
                          = length (nth r (_x m) []))
            /\ (forall r,
                  Z.of_nat r < start + dynamic_start_of m start end_ dynamic
                               - _hold_back m
                  \/ end_ - _hold_back m < Z.of_nat r ->
                  nth r (_x (p_model p)) [] = nth r (_x m) [])
            /\ (forall r c,
                  (c < Z.to_nat (shape1 (_deterministic_reg m)))%nat
                  \/ (Z.to_nat (shape1 (_deterministic_reg m))
                      + length (_lags m) <= c)%nat ->
                  nth c (nth r (_x (p_model p)) []) s_nan
                  = nth c (nth r (_x m) []) s_nan)).
  { intros ->. rewrite set_x_same. repeat split; reflexivity. }
  destruct (@forecasting_x_view _ _ _ _ _ _ _ _ _ Hx)
    as [[a ->]|[-> [-> [Hin [Hge ->]]]]]; [now apply Hsame|].
  assert (Hexog : exog = None) by now apply He.
  assert (Hfixed : fixed = None) by now apply Hf.
  destruct (Hview Hexog Hfixed Hge Hin) as [Hse Hds0].
  set (ds := dynamic_start_of m start end_ dynamic) in *.
  destruct (@predict_from_sound _ _ args m params start end_ num_oos dynamic
              exog exog_oos fixed fixed_oos p Hm Hds0)
    as [e' [eo' [f' [fo' [x' [He' [_ [Hf' [_ [Hx' [_ [Hwd _]]]]]]]]]]]];
    [fold ds; lia | exact Hp |].
  fold ds in Hwd.
  assert (Ee : e' = None)
    by (apply (@check_opt_none _ _ _ _ _ _ He'); exact Hexog).
  assert (Ef : f' = None)
    by (apply (@check_opt_none _ _ _ _ _ _ Hf'); exact Hfixed).
  subst e' f'.
  assert (Ex' : x' = view_slice (_x m) (Z.max (start - _hold_back m) 0)
                                (end_ + 1 - _hold_back m)).
  { destruct (@forecasting_x_view _ _ _ _ _ _ _ _ _ Hx')
      as [[a Ha]|[_ [_ [_ [_ Ha]]]]]; [|exact Ha].
    unfold _forecasting_x in Hx'.
    destruct (Z.ltb_spec (end_ + 1) (Z.of_nat (nobs_of m))); [|lia].
    injection Hx' as <-. unfold shortcut_x, pad_x in Ha.
    destruct (Z.geb_spec start (_hold_back m)); [|lia].
    cbn [Z.eqb] in Ha. discriminate. }
  subst x'. clear Hx' He' Hf'.
  unfold view_slice in *.
  set (L := length (_x m)) in *.
  set (a := clamp L (Z.max (start - _hold_back m) 0)) in *.
  set (b := clamp L (end_ + 1 - _hold_back m)) in *.
  set (n := (b - a)%nat) in *.
  cbn [rows_of write_back] in *.
  set (x0 := firstn n (skipn a (_x m))) in *.
  destruct Hwd as [W1 [W2 [W3 [W4 W5]]]].
  assert (Hb : (b <= L)%nat) by apply clamp_le.
  assert (Ha : (a <= L)%nat) by apply clamp_le.
  assert (Hx0 : length x0 = n).
  { unfold x0. rewrite length_firstn, length_skipn. fold L. lia. }
  assert (HX : length (p_x p) = n) by congruence.
  assert (Han : (a + n <= length (_x m))%nat) by (fold L; lia).
  assert (Hxm : _x (p_model p)
                = firstn a (_x m) ++ p_x p ++ skipn (a + n) (_x m))
    by (rewrite Hmodel; reflexivity).
  assert (Ha' : Z.of_nat a <= start - _hold_back m).
  { unfold a, clamp. destruct (Z.ltb_spec (Z.max (start - _hold_back m) 0) 0);
      lia. }
  assert (Hb' : Z.of_nat b <= end_ + 1 - _hold_back m).
  { unfold b, clamp. destruct (Z.ltb_spec (end_ + 1 - _hold_back m) 0); lia. }
  assert (Ha2 : Z.of_nat a = start - _hold_back m \/ a = L).
  { unfold a, clamp. destruct (Z.ltb_spec (Z.max (start - _hold_back m) 0) 0);
      lia. }
  assert (Hn : n = (b - a)%nat) by reflexivity.
  clearbody n a b ds.
  assert (Hrow : forall r,
            nth r (_x (p_model p)) []
            = if (a <=? r)%nat && (r <? a + n)%nat
              then nth (r - a) (p_x p) [] else nth r (_x m) []).
  { intros r. rewrite Hxm. now apply splice_nth. }
  assert (Hx0r : forall r, (a <= r < a + n)%nat ->
            nth (r - a) x0 [] = nth r (_x m) []).
  { intros r Hr. unfold x0. rewrite view_nth by lia. f_equal. lia. }
  split; [rewrite Hmodel; reflexivity|].
  split; [intros [H|[H|[H|H]]]; [congruence | congruence | lia | lia]|].
  split; [rewrite Hxm; now apply splice_length|].
  split; [|split].
  - intros r. rewrite Hrow.
    destruct (Nat.leb_spec a r); cbn [andb]; [|reflexivity].
    destruct (Nat.ltb_spec r (a + n)); [|reflexivity].
    rewrite W3. f_equal. apply Hx0r. lia.
  - intros r Hr. rewrite Hrow.
    destruct (Nat.leb_spec a r); cbn [andb]; [|reflexivity].
    destruct (Nat.ltb_spec r (a + n)); [|reflexivity].
    destruct Hr as [Hr|Hr]; [|lia].
    destruct (W4 (r - a)%nat) as [E _]; [lia | lia |].
    rewrite E. apply Hx0r. lia.
  - intros r c Hc. rewrite Hrow.
    destruct (Nat.leb_spec a r); cbn [andb]; [|reflexivity].
    destruct (Nat.ltb_spec r (a + n)); [|reflexivity].
    rewrite <- (Hx0r r) by lia.
    destruct (Nat.lt_ge_cases (r - a) (Z.to_nat ds)) as [Hlt|Hge'].
    + destruct (W4 (r - a)%nat) as [E _]; [lia | lia |]. now rewrite E.
    + destruct (W5 (r - a)%nat) as [_ [_ R3]]; [lia|]. now apply R3.
Qed.

Lemma ext_min_list_nonneg (l : list Z) (b : Z) :
  (forall z, In z l -> b <= z) ->
  match ext_min_list l with Fin x => b <= x | Inf => True end.
Proof.
  destruct l as [|a l]; cbn; [trivial|]. intros H.
  apply H. apply (min_list_in l a).
Qed.

Lemma one_step_bound_nonneg (args : ARDL_args V) (m : ARDL V) :
  ARDL_init args = Ok m -> gt_ext 0 (one_step_bound m) = false.
Proof.
  intros Hm.
  destruct (ARDL_init_inv _ Hm) as [_ [Hlags [Hacc _]]].
  unfold one_step_bound.
  destruct ((shape1 (_fixed m) =? 0) && _causal m); [|reflexivity].
  pose proof (@ext_min_list_nonneg (_lags m) 0) as H1.
  pose proof (@ext_min_list_nonneg (concat (map snd (_order m))) 0) as H2.
  destruct (ext_min_list (_lags m)) as [x|];
    destruct (ext_min_list (concat (map snd (_order m)))) as [y|];
    cbn; try reflexivity.
  - assert (0 <= x) by (apply H1; intros z Hz; apply Hlags in Hz; lia).
    assert (0 <= y).
    { apply H2. intros z Hz. apply in_orders in Hz.
      destruct Hz as [kv [Hkv Hz]]. rewrite Forall_forall in Hacc.
      destruct (Hacc kv Hkv) as [_ Hge]. apply Hge in Hz. cbn in Hz. lia. }
    destruct (Z.gtb_spec 0 (Z.min x y)); [lia | reflexivity].
  - assert (0 <= x) by (apply H1; intros z Hz; apply Hlags in Hz; lia).
    destruct (Z.gtb_spec 0 x); [lia | reflexivity].
  - assert (0 <= y).
    { apply H2. intros z Hz. apply in_orders in Hz.
      destruct Hz as [kv [Hkv Hz]]. rewrite Forall_forall in Hacc.
      destruct (Hacc kv Hkv) as [_ Hge]. apply Hge in Hz. cbn in Hz. lia. }
    destruct (Z.gtb_spec 0 y); [lia | reflexivity].
Qed.

Lemma within_bound_0 (args : ARDL_args V) (m : ARDL V) :
  ARDL_init args = Ok m -> within_bound m 0.
Proof. intros Hm. left. exact (one_step_bound_nonneg _ Hm). Qed.

Lemma keeps_model_outside_dynamic_view (args : ARDL_args V)
    (m : ARDL V) (params : list V) (start end_ num_oos : Z)
    (dynamic : option Z) :
  ARDL_init args = Ok m ->
  Z.of_nat (length params) = n_columns m ->
  0 <= start -> 0 <= num_oos ->
  within_bound m num_oos ->
  0 <= dynamic_start_of m start end_ dynamic ->
  _hold_back m <= start + dynamic_start_of m start end_ dynamic
    <= Z.of_nat (nobs_of m) ->
  dynamic = None \/ start < _hold_back m \/ Z.of_nat (nobs_of m) <= end_ + 1 ->
  exists p,
    predict_from m params start end_ num_oos dynamic None None None None
    = Ok p
    /\ p_model p = m.
Proof.
  intros Hm Hp Hs Hk Hgate Hds0 Hds Hwhy.
  destruct (@predict_from_ok _ _ args m params start end_ num_oos dynamic
              Hm Hp Hs Hk Hgate Hds0 Hds)
    as [x [X [F [Hx [Hpred [Hwd [Hshape Hcase]]]]]]].
  eexists. split; [exact Hpred|]. cbn [p_model].
  destruct Hcase as [[Hlt ->]|[Hge ->]]; [|reflexivity].
  destruct Hwhy as [->|[Hpad|Hend]]; [| |lia].
  - (* every row is static *)
    replace X with (rows_of (_x m) (shortcut_x m start end_));
      [apply write_back_rows|].
    destruct Hwd as [W1 [W2 [W3 [W4 _]]]].
    cbn [dynamic_start_of] in *.
    destruct (@shortcut_rows _ _ args m start end_ Hm Hs) as [_ Hlen].
    specialize (Hlen ltac:(lia) ltac:(lia) ltac:(lia)).
    apply nth_ext with (d := []) (d' := []); [now symmetry|].
    intros t Ht. symmetry. apply W4; lia.
  - unfold shortcut_x, pad_x.
    destruct (Z.geb_spec start (_hold_back m)); [lia|].
    destruct (Z.eqb_spec (_hold_back m - start) 0); [lia|]. reflexivity.
Qed.

Lemma prepared_view (m : ARDL V) (start end_ : option Z) (s e k : Z)
    (dynamic : option Z) :
  _prepare_prediction (nobs_of m) start end_ = Ok (s, e, k) ->
  (forall d, dynamic = Some d -> 0 <= d) ->
  _hold_back m <= s -> e + 1 < Z.of_nat (nobs_of m) ->
  s <= e + 1 /\ 0 <= dynamic_start_of m s e dynamic.
Proof.
  intros Hprep Hd Hge Hin.
  destruct (prepare_prediction_inv _ _ _ Hprep)
    as [Hs0 [Hk0 [Hse [He Hlast]]]].
  assert (k = 0) by (destruct (Z.eq_dec k 0); [assumption | lia]).
  subst k. split; [lia|]. unfold dynamic_start_of.
  destruct dynamic as [d|]; [|lia].
  specialize (Hd d eq_refl).
  destruct (Z.ltb_spec s (_hold_back m)); lia.
Qed.

(** What a [predict] call can change of the model. For a constructed
    model and a dynamic offset that is not negative, a call that returns,
    whatever data it is given, leaves every field of the model other than
    [_x] as it was, and [_x] with its rows and their lengths; a row of
    [_x] before the dynamic start of the call or after its last in-sample
    date is as it was, and so is every entry outside the columns of the
    lags of the response. *)
Theorem predict_writes_lag_entries_only (args : ARDL_args V) (m : ARDL V)
    (params : list V) (start end_ dynamic : option Z)
    (exog exog_oos fixed fixed_oos : option (frame V)) (s e k : Z)
    (p : prediction V) :
  ARDL_init args = Ok m ->
  _prepare_prediction (nobs_of m) start end_ = Ok (s, e, k) ->
  (forall d, dynamic = Some d -> 0 <= d) ->
  predict m params start end_ dynamic exog exog_oos fixed fixed_oos = Ok p ->
  p_model p = set_x m (_x (p_model p))
  /\ length (_x (p_model p)) = length (_x m)
  /\ (forall r, length (nth r (_x (p_model p)) [])
                = length (nth r (_x m) []))
  /\ (forall r,
        Z.of_nat r < s + dynamic_start_of m s e dynamic - _hold_back m
        \/ e - _hold_back m < Z.of_nat r ->
        nth r (_x (p_model p)) [] = nth r (_x m) [])
  /\ (forall r c,
        (c < Z.to_nat (shape1 (_deterministic_reg m)))%nat
        \/ (Z.to_nat (shape1 (_deterministic_reg m)) + length (_lags m)
            <= c)%nat ->
        nth c (nth r (_x (p_model p)) []) s_nan
        = nth c (nth r (_x m) []) s_nan).
Proof.
  intros Hm Hprep Hd Hp. unfold predict in Hp. rewrite Hprep in Hp.
  cbn [bind fst snd] in Hp.
  destruct (@predict_from_frame args m params s e k dynamic
              exog exog_oos fixed fixed_oos p Hm)
    as [F1 [_ [F3 [F4 [F5 F6]]]]]; [|exact Hp|].
  - intros _ _ Hge Hin. exact (prepared_view _ _ _ Hprep Hd Hge Hin).
  - split; [exact F1|]. split; [exact F3|]. split; [exact F4|].
    split; [exact F5 | exact F6].
Qed.

(** Only a dynamic prediction over a slice of the stored design matrix
    can modify the model. For a constructed model, a [predict] call that
    returns leaves the model as it was found when [dynamic] is [False], or
    the range starts before the hold-back (the padded rows are a new
    array), or it reaches the end of the sample (the matrix is rebuilt),
    or replacement data is given (the matrix is rebuilt). A call without
    new data returns when the parameters have one entry for each column,
    the steps beyond the sample pass the bound check, and the dynamic
    start is not negative and lies, counted from [start], at or after the
    hold-back and in the sample or at its end. *)
Theorem predict_keeps_model_outside_dynamic_view (args : ARDL_args V)
    (m : ARDL V) (params : list V) (start end_ dynamic : option Z)
    (s e k : Z) :
  ARDL_init args = Ok m ->
  _prepare_prediction (nobs_of m) start end_ = Ok (s, e, k) ->
  (forall exog exog_oos fixed fixed_oos p,
     dynamic = None \/ s < _hold_back m \/ Z.of_nat (nobs_of m) <= e + 1
     \/ exog <> None \/ fixed <> None ->
     predict m params start end_ dynamic exog exog_oos fixed fixed_oos
     = Ok p ->
     p_model p = m)
  /\ (Z.of_nat (length params) = n_columns m ->
      within_bound m k ->
      0 <= dynamic_start_of m s e dynamic ->
      _hold_back m <= s + dynamic_start_of m s e dynamic
        <= Z.of_nat (nobs_of m) ->
      is_ok (predict m params start end_ dynamic None None None None)).
Proof.
  intros Hm Hprep.
  destruct (prepare_prediction_inv _ _ _ Hprep)
    as [Hs0 [Hk0 [Hse [He Hlast]]]].
  split.
  - intros exog exog_oos fixed fixed_oos p Hwhy Hp.
    unfold predict in Hp. rewrite Hprep in Hp. cbn [bind fst snd] in Hp.
    destruct (Z.le_gt_cases (_hold_back m) s) as [Hge|Hlt].
    2:{ destruct (@predict_from_written _ _ _ _ _ _ _ _ _ _ _ Hp)
          as [e' [eo [f [fo [x [_ [_ [Hx Hmodel]]]]]]]].
        destruct (@forecasting_x_view _ _ _ _ _ _ _ _ _ Hx)
          as [[a ->]|[_ [_ [_ [Hge _]]]]]; [exact Hmodel | lia]. }
    destruct (Z.le_gt_cases (Z.of_nat (nobs_of m)) (e + 1)) as [Hout|Hin].
    { destruct (@predict_from_written _ _ _ _ _ _ _ _ _ _ _ Hp)
        as [e' [eo [f [fo [x [_ [_ [Hx Hmodel]]]]]]]].
      destruct (@forecasting_x_view _ _ _ _ _ _ _ _ _ Hx)
        as [[a ->]|[_ [_ [Hlt _]]]]; [exact Hmodel | lia]. }
    destruct exog as [ex|].
    { destruct (@predict_from_written _ _ _ _ _ _ _ _ _ _ _ Hp)
        as [e' [eo [f [fo [x [He' [_ [Hx Hmodel]]]]]]]].
      destruct (@forecasting_x_view _ _ _ _ _ _ _ _ _ Hx)
        as [[a ->]|[E _]]; [exact Hmodel|].
      apply He' in E. discriminate. }
    destruct fixed as [fx|].
    { destruct (@predict_from_written _ _ _ _ _ _ _ _ _ _ _ Hp)
        as [e' [eo [f [fo [x [_ [Hf' [Hx Hmodel]]]]]]]].
      destruct (@forecasting_x_view _ _ _ _ _ _ _ _ _ Hx)
        as [[a ->]|[_ [E _]]]; [exact Hmodel|].
      apply Hf' in E. discriminate. }
    destruct Hwhy as [->|[H|[H|[H|H]]]]; try lia; try congruence.
    (* every row of the slice is static *)
    assert (k = 0) by (destruct (Z.eq_dec k 0); [assumption | lia]).
    subst k.
    destruct (@predict_from_frame args m params s e 0 None
                None exog_oos None fixed_oos p Hm)
      as [F1 [_ [F3 [F4 [F5 _]]]]]; [|exact Hp|].
    { intros _ _ _ _. cbn [dynamic_start_of]. lia. }
    rewrite F1. rewrite <- (set_x_same m) at 2. f_equal.
    apply nth_ext with (d := []) (d' := []); [exact F3|].
    intros r Hr. apply F5. cbn [dynamic_start_of]. lia.
  - intros Hparams Hgate Hds0 Hds.
    destruct (@predict_from_ok _ _ args m params s e k dynamic
                Hm Hparams Hs0 Hk0 Hgate Hds0 Hds)
      as [x [X [F [_ [Hpred _]]]]].
    eexists. unfold predict. rewrite Hprep. cbn [bind fst snd].
    exact Hpred.
Qed.

Lemma static_predictions_closed (args : ARDL_args V) (m : ARDL V)
    (params : list V) (start end_ : Z) :
  ARDL_init args = Ok m ->
  Z.of_nat (length params) = n_columns m ->
  endog_cols (_lags m) = _lags m ->
  0 <= start <= end_ + 1 ->
  _hold_back m <= end_ + 1 <= Z.of_nat (nobs_of m) ->
  exists p,
    predict_from m params start end_ 0 None None None None None = Ok p
    /\ p_model p = m
    /\ Z.of_nat (length (p_fcasts p)) = end_ + 1 - start
    /\ forall t, (t < length (p_fcasts p))%nat ->
         nth t (p_fcasts p) s_nan
         = dot (if start + Z.of_nat t <? _hold_back m
                then repeat s_nan (Z.to_nat (n_columns m))
                else nth (Z.to_nat (start + Z.of_nat t - _hold_back m))
                         (_x m) [])
               params.
Proof.
  intros Hm Hp Hl Hs He.
  assert (Hds : dynamic_start_of m start end_ None = end_ + 1 - start)
    by reflexivity.
  destruct (@predict_from_ok _ _ args m params start end_ 0 None
              Hm Hp (proj1 Hs) (Z.le_refl 0) (within_bound_0 _ Hm))
    as [x [X [F [Hx [Hpred [Hwd [Hshape Hcase]]]]]]];
    [rewrite Hds; lia | rewrite Hds; lia |].
  rewrite Hds in Hwd.
  destruct (@keeps_model_outside_dynamic_view args m params start end_ 0
              None Hm Hp (proj1 Hs) (Z.le_refl 0) (within_bound_0 _ Hm))
    as [p' [Hp' Hmodel]];
    [rewrite Hds; lia | rewrite Hds; lia | now left |].
  rewrite Hpred in Hp'. injection Hp' as <-. cbn [p_model] in Hmodel.
  eexists. split; [exact Hpred|]. cbn [p_model p_fcasts].
  split; [exact Hmodel|].
  destruct Hwd as [W1 [W2 [W3 [W4 _]]]].
  destruct (ARDL_init_inv _ Hm)
    as [[E1 _] [Hlags [_ [[Hm0 [Hhn _]] [[Hfl Hrect] [Hxm _]]]]]].
  rewrite <- E1 in *. fold (nobs_of m) in *.
  (* the rows are those of the constructor *)
  assert (Hrows : exists rest,
            design_rows m start = rows_of (_x m) x ++ rest
            /\ Z.of_nat (length (rows_of (_x m) x)) = end_ + 1 - start).
  { destruct Hcase as [[Hlt ->]|[Hge ->]].
    - destruct (@shortcut_rows _ _ args m start end_ Hm (proj1 Hs))
        as [[rest Hpre] Hlen].
      exists rest. split; [exact Hpre|]. apply Hlen; lia.
    - exists []. cbn [rows_of].
      rewrite forecasting_rows_in_sample by assumption.
      split; [now rewrite app_nil_r|].
      unfold design_rows. rewrite length_map, length_seq. lia. }
  destruct Hrows as [rest [Hpre Hlen]].
  split; [rewrite W2; exact Hlen|].
  intros t Ht. rewrite W2 in Ht.
  destruct (W4 t) as [_ ->]; [lia | assumption |]. f_equal.
  rewrite (@prefix_nth _ _ _ _ t [] Hpre Ht).
  unfold design_rows.
  rewrite nth_indep with (d' := nan_below (_hold_back m) (design_row m) O)
    by (rewrite length_map, length_seq; lia).
  rewrite map_nth, seq_nth by lia. unfold nan_below.
  replace (Z.of_nat (Z.to_nat start + t)) with (start + Z.of_nat t) by lia.
  destruct (Z.ltb_spec (start + Z.of_nat t) (_hold_back m)).
  - f_equal. rewrite <- (@design_row_length _ _ m (Z.to_nat start + t));
      [now rewrite Nat2Z.id | assumption | lia].
  - rewrite Hxm.
    rewrite nth_indep with (d' := design_row m O)
      by (rewrite length_map, length_seq; lia).
    rewrite map_nth, seq_nth by lia. f_equal. lia.
Qed.

(** The number of forecasts of a [predict] call that returns is the
    number of rows of the matrix that [_forecasting_x] returned. *)
Lemma predict_from_length (m : ARDL V) (params : list V)
    (start end_ num_oos : Z) (dynamic : option Z)
    (exog exog_oos fixed fixed_oos : option (frame V)) (p : prediction V) :
  predict_from m params start end_ num_oos dynamic
               exog exog_oos fixed fixed_oos = Ok p ->
  exists e eo f fo x,
    (e = None <-> exog = None) /\ (f = None <-> fixed = None)
    /\ _forecasting_x m start end_ num_oos e eo f fo = Ok x
    /\ p_model p = write_back m x (p_x p)
    /\ length (p_fcasts p) = length (rows_of (_x m) x).
Proof.
  intros H. unfold predict_from in H.
  apply bind_ok in H. destruct H as [e [He H]].
  apply bind_ok in H. destruct H as [eo [Heo H]].
  apply bind_ok in H. destruct H as [f [Hf H]].
  apply bind_ok in H. destruct H as [fo [Hfo H]].
  apply bind_ok in H. destruct H as [b [_ H]].
  apply bind_ok in H. destruct H as [[] [_ H]].
  apply bind_ok in H. destruct H as [x [Hx H]].
  apply bind_ok in H. destruct H as [static [Hst H]].
  apply bind_ok in H. destruct H as [[X F] [Hwalk H]].
  injection H as <-. cbn [fst snd p_model p_x p_fcasts].
  eexists e, _, f, fo, x.
  split; [exact (@check_opt_none _ _ _ _ _ _ He)|].
  split; [exact (@check_opt_none _ _ _ _ _ _ Hf)|].
  split; [exact Hx|]. split; [reflexivity|].
  apply walk_length in Hwalk. rewrite Hwalk.
  unfold matvec in Hst.
  match type of Hst with
  | (if ?c then _ else _) = _ => destruct c; [|discriminate]
  end.
  injection Hst as <-.
  unfold full_nan1, slice_to.
  rewrite length_app, length_skipn, repeat_length, length_map, length_firstn.
  lia.
Qed.

(** Static in-sample predictions. For a constructed model and a range
    inside the sample with [0 <= start <= end + 1], take the body of
    [predict] with [dynamic=False], no new data and no steps beyond the
    sample.
    - When the range ends at or after the hold-back, the parameters have
      one entry for each column and the design matrix holds the lags of
      the response in the order of the lag list, the call returns one
      value per date of the range and leaves the model as it was: from the
      hold-back on the value of date [s] is the product of row
      [s - hold_back] of the design matrix [_x] with the parameters, and
      before the hold-back it is the product of a row of missing values
      with them.
    - When the range ends before the hold-back, the stop of the slice
      [_x[0 : end + 1 - hold_back]] is negative and counts from the end
      of [_x]: a call that returns leaves the model as it was and gives
      [hold_back - start + max(0, nobs + end + 1 - 2 hold_back)] values,
      one for each padded row and one for each row of that slice, instead
      of one per date of the range. *)
Theorem in_sample_static_prediction (args : ARDL_args V) (m : ARDL V)
    (params : list V) (start end_ : Z) :
  ARDL_init args = Ok m ->
  0 <= start <= end_ + 1 ->
  end_ + 1 <= Z.of_nat (nobs_of m) ->
  (Z.of_nat (length params) = n_columns m ->
   endog_cols (_lags m) = _lags m ->
   _hold_back m <= end_ + 1 ->
   exists p,
     predict_from m params start end_ 0 None None None None None = Ok p
     /\ p_model p = m
     /\ Z.of_nat (length (p_fcasts p)) = end_ + 1 - start
     /\ forall t, (t < length (p_fcasts p))%nat ->
          nth t (p_fcasts p) s_nan
          = dot (if start + Z.of_nat t <? _hold_back m
                 then repeat s_nan (Z.to_nat (n_columns m))
                 else nth (Z.to_nat (start + Z.of_nat t - _hold_back m))
                          (_x m) [])
                params)
  /\ (end_ + 1 < _hold_back m ->
      forall p,
        predict_from m params start end_ 0 None None None None None = Ok p ->
        p_model p = m
        /\ Z.of_nat (length (p_fcasts p))
           = _hold_back m - start
             + Z.max 0 (Z.of_nat (nobs_of m) + end_ + 1 - 2 * _hold_back m)).
Proof.
  intros Hm Hs He. split.
  - intros Hp Hl Hhb.
    exact (@static_predictions_closed args m params start end_ Hm Hp Hl Hs
             (conj Hhb He)).
  - intros Hlt p Hpred.
    destruct (ARDL_init_inv _ Hm)
      as [[E1 _] [_ [_ [[Hm0 [Hhn _]] [_ [Hxm _]]]]]].
    rewrite <- E1 in *. fold (nobs_of m) in *.
    destruct (@predict_from_length _ _ _ _ _ _ _ _ _ _ _ Hpred)
      as [e [eo [f [fo [x [He' [Hf' [Hx [Hmodel Hlen]]]]]]]]].
    assert (Ee : e = None) by now apply He'.
    assert (Ef : f = None) by now apply Hf'.
    subst e f. unfold _forecasting_x in Hx.
    destruct (Z.ltb_spec (end_ + 1) (Z.of_nat (nobs_of m))); [|lia].
    injection Hx as <-. unfold shortcut_x, pad_x, view_slice in *.
    destruct (Z.geb_spec start (_hold_back m)); [lia|].
    destruct (Z.eqb_spec (_hold_back m - start) 0); [lia|].
    cbn [write_back rows_of] in *. split; [exact Hmodel|].
    rewrite Hlen. unfold full_nan.
    rewrite length_app, repeat_length, length_firstn, length_skipn.
    assert (HL : length (_x m) = (nobs_of m - Z.to_nat (_hold_back m))%nat)
      by (rewrite Hxm; now rewrite length_map, length_seq).
    rewrite HL. unfold clamp.
    destruct (Z.ltb_spec (Z.max (start - _hold_back m) 0) 0); [lia|].
    destruct (Z.ltb_spec (end_ + 1 - _hold_back m) 0); lia.
Qed.

End StaticPredictions.

(** ** Predictions from new data *)

Ltac same_bind :=
  match goal with
  | |- bind ?c _ = bind ?c _ => destruct c; cbn [bind]; [|reflexivity]
  end.

Section NewData.

Context {V : Type} {Sc : Scalar V}.

Lemma check_exog_values (m : ARDL V) (arr : frame V) (name : string)
    (orig : option (frame V)) (exact : bool) (a : frame V) :
  check_exog m arr name orig exact = Ok a -> values a = values arr.
Proof.
  unfold check_exog. intros H.
  apply bind_ok in H. destruct H as [a0 [H0 H]].
  assert (values a0 = values arr) as <-.
  { destruct orig as [[[names|] ovals]|].
    - destruct (labels arr); [|discriminate].
      apply bind_ok in H0. destruct H0 as [s1 [_ H0]].
      apply bind_ok in H0. destruct H0 as [s2 [_ H0]].
      destruct (negb _); [discriminate|]. now injection H0 as <-.
    - destruct (rectangular (values arr)); [|discriminate].
      now injection H0 as <-.
    - destruct (rectangular (values arr)); [|discriminate].
      now injection H0 as <-. }
  destruct orig as [o|]; [|discriminate].
  destruct (negb _); [discriminate|].
  destruct (_ && _); [discriminate|]. now injection H as <-.
Qed.

Lemma forecasting_x_exog_values (m : ARDL V) (start end_ num_oos : Z)
    (e1 e2 : frame V) (exog_oos fixed fixed_oos : option (frame V)) :
  values e1 = values e2 ->
  _forecasting_x m start end_ num_oos (Some e1) exog_oos fixed fixed_oos
  = _forecasting_x m start end_ num_oos (Some e2) exog_oos fixed fixed_oos.
Proof.
  intros H. unfold _forecasting_x, rebuild_x. now rewrite H.
Qed.

(** A replacement [exog] is read by position. Two replacements that pass
    the checks of [predict] and hold the same values give the same result
    whatever their column labels are: for a DataFrame the check compares
    the sorted labels only, and the rebuilt matrix takes the columns in
    the order they come, under the labels of the original data. *)
Theorem replacement_exog_by_position (m : ARDL V) (params : list V)
    (start end_ num_oos : Z) (dynamic : option Z) (e1 e2 : frame V)
    (exog_oos fixed fixed_oos : option (frame V)) :
  values e1 = values e2 ->
  is_ok (check_exog m e1 "exog" (orig_exog m) true) ->
  is_ok (check_exog m e2 "exog" (orig_exog m) true) ->
  predict_from m params start end_ num_oos dynamic
               (Some e1) exog_oos fixed fixed_oos
  = predict_from m params start end_ num_oos dynamic
                 (Some e2) exog_oos fixed fixed_oos.
Proof.
  intros Hv [a1 H1] [a2 H2]. unfold predict_from. cbn [check_opt].
  rewrite H1, H2. cbn [bind].
  apply check_exog_values in H1, H2.
  repeat same_bind.
  rewrite (@forecasting_x_exog_values m start end_ num_oos a1 a2)
    by congruence.
  reflexivity.
Qed.

End NewData.

(** ** Out-of-sample data that is too short *)

Section ShortData.

Context {V : Type} {Sc : Scalar V}.

Lemma is_raise_bind {X Y : Type} (c : result X) (k : X -> result Y) :
  (forall a, c = Ok a -> is_raise (k a)) -> is_raise (bind c k).
Proof.
  intros H. destruct c as [a|e]; cbn [bind].
  - now apply H.
  - now exists e.
Qed.

Lemma forallb_false_in {A : Type} (f : A -> bool) (l : list A) (a : A) :
  In a l -> f a = false -> forallb f l = false.
Proof.
  intros Hin Hf. destruct (forallb f l) eqn:E; [|reflexivity].
  rewrite forallb_forall in E. rewrite (E a Hin) in Hf. discriminate.
Qed.

Lemma slice_to_short {A : Type} (l : list A) (hi : Z) :
  Z.of_nat (length l) <= hi -> slice_to l hi = l.
Proof.
  intros H. unfold slice_to, clamp.
  destruct (Z.ltb_spec hi 0); [lia|].
  apply firstn_all2. lia.
Qed.

Lemma rebuild_short_raises (args : ARDL_args V) (m : ARDL V)
    (start end_ num_oos : Z) (exog : option (frame V)) (oos : frame V)
    (fixed fixed_oos : option (frame V)) :
  ARDL_init args = Ok m ->
  _order m <> [] ->
  (forall e, exog = Some e -> length (values e) = nobs_of m) ->
  0 < num_oos ->
  shape0 (values oos) < num_oos ->
  is_raise (rebuild_x m start end_ num_oos exog (Some oos) fixed fixed_oos).
Proof.
  intros Hm Hne Hex Hk Hshort.
  destruct (ARDL_init_inv _ Hm)
    as [[E1 _] [_ [Hacc [_ [_ [_ [_ [_ [_ [_ [_ [_ [_ [_ [_ [_
         [Hxf [_ [Hcols _]]]]]]]]]]]]]]]]]]].
  destruct (Hcols Hne) as [f [Hf _]].
  destruct (Hxf f Hf) as [_ [Hlen _]].
  destruct (@ardl_order_closed _ _ args m Hm) as [q [Hq [_ Hsome]]].
  destruct (Hsome Hne) as [d [-> _]].
  unfold shape0 in Hshort.
  unfold rebuild_x.
  set (ex0 := match exog with
              | None => option_map values (orig_exog m)
              | Some e => Some (values e)
              end).
  assert (Hex0 : exists e0, ex0 = Some e0 /\ length e0 = nobs_of m).
  { subst ex0. destruct exog as [e|].
    - exists (values e). split; [reflexivity | now apply Hex].
    - rewrite Hf. exists (values f). split; [reflexivity|].
      unfold nobs_of. now rewrite E1. }
  destruct Hex0 as [e0 [-> He0]]. cbn [bind].
  rewrite slice_to_short by lia.
  apply is_raise_bind. intros x1 _.
  rewrite Hq. cbn [bind snd].
  apply is_raise_bind. intros x2 Hx2.
  apply bind_ok in Hx2. destruct Hx2 as [ex [Hfmt Hx2]].
  injection Hx2 as <-.
  cbn [option_map] in Hfmt.
  apply (@format_exog_inv _ _ false _ _ ex
           (length (e0 ++ values oos))) in Hfmt;
    [|assumption | intros f' Hf'; injection Hf' as <-; reflexivity].
  destruct Hfmt as [Hblocks _]. rewrite Hblocks.
  destruct (Z.eqb_spec num_oos 0); [lia|].
  unfold column_stack.
  destruct (_order m) as [|kv ord]; [congruence|].
  rewrite (@forallb_false_in _ _ _
             (lag_rows (column_of
                (Some {| labels := match orig_exog m with
                                   | Some f0 => labels f0
                                   | None => None
                                   end;
                         values := e0 ++ values oos |}) (fst kv))
                (snd kv) (length (e0 ++ values oos)))).
  - eexists. reflexivity.
  - apply in_or_app. right. apply in_or_app. right.
    apply in_or_app. left. now left.
  - apply Nat.eqb_neq. unfold lag_rows, in_sample, out_of_sample.
    rewrite !length_map, !length_seq, !length_app, !length_map, !length_seq.
    unfold nobs_of in *. lia.
Qed.

(** Out-of-sample data that is too short never gives forecasts. For a
    model with exogenous lags, a [predict] call for [num_oos] steps
    beyond the sample with an [exog_oos] of fewer than [num_oos] rows
    raises: where the check of the row count lets the call through, the
    lag blocks built from the stacked data have fewer rows than the
    deterministic terms and [column_stack] refuses them. *)
Theorem short_exog_oos_raises (args : ARDL_args V) (m : ARDL V)
    (params : list V) (start end_ num_oos : Z) (dynamic : option Z)
    (oos : frame V) (fixed fixed_oos : option (frame V)) :
  ARDL_init args = Ok m ->
  _order m <> [] ->
  Z.of_nat (nobs_of m) <= end_ + 1 ->
  0 < num_oos ->
  shape0 (values oos) < num_oos ->
  is_raise (predict_from m params start end_ num_oos dynamic
                         None (Some oos) fixed fixed_oos).
Proof.
  intros Hm Hne Hend Hk Hshort.
  unfold predict_from. cbn [check_opt bind].
  apply is_raise_bind. intros a Ha.
  apply bind_ok in Ha. destruct Ha as [a' [Ha' Ha]]. injection Ha as <-.
  apply check_exog_values in Ha'.
  apply is_raise_bind. intros fx _.
  apply is_raise_bind. intros fo _.
  apply is_raise_bind. intros b _.
  apply is_raise_bind. intros [] _.
  assert (Hraise : is_raise (rebuild_x m start end_ num_oos None (Some a')
                                       fx fo)).
  { apply (@rebuild_short_raises args m start end_ num_oos None a' fx fo
             Hm Hne); [discriminate | assumption | now rewrite Ha']. }
  destruct Hraise as [e He].
  replace (match orig_exog m with
           | Some f =>
               match Some a' with
               | Some _ => Some a'
               | None =>
                   if num_oos =? 0 then None
                   else Some {| labels := labels f;
                                values := full_nan (Z.to_nat num_oos)
                                            (Z.to_nat (shape1 (values f))) |}
               end
           | None => Some a'
           end) with (Some a') by (now destruct (orig_exog m)).
  unfold _forecasting_x.
  destruct (Z.ltb_spec (end_ + 1) (Z.of_nat (nobs_of m))); [lia|].
  exists e.
  destruct fx; rewrite He; reflexivity.
Qed.

End ShortData.

(** ** Out-of-sample data that is too long *)

Section LongData.

Context {V : Type} {Sc : Scalar V}.

Lemma slice_to_pos {A : Type} (l : list A) (hi : Z) :
  0 < hi -> slice_to l hi = firstn (Z.to_nat hi) l.
Proof.
  intros H. unfold slice_to, clamp.
  destruct (Z.ltb_spec hi 0); [lia|].
  destruct (Z.le_gt_cases hi (Z.of_nat (length l))).
  - f_equal. lia.
  - rewrite !firstn_all2 by lia. reflexivity.
Qed.

Lemma slice_to_idem {A : Type} (l : list A) (hi : Z) :
  0 < hi -> slice_to (slice_to l hi) hi = slice_to l hi.
Proof.
  intros H. rewrite !slice_to_pos by assumption.
  rewrite firstn_firstn. f_equal. lia.
Qed.

Lemma shape1_slice_to (a : matrix V) (hi : Z) :
  0 < hi -> shape1 (slice_to a hi) = shape1 a.
Proof.
  intros H. rewrite slice_to_pos by assumption.
  destruct (Z.to_nat hi) as [|k] eqn:E; [lia|].
  now destruct a.
Qed.

Lemma rectangular_slice_to (a : matrix V) (hi : Z) :
  0 < hi -> rectangular a = true -> rectangular (slice_to a hi) = true.
Proof.
  intros H Hr. unfold rectangular in *.
  rewrite shape1_slice_to by assumption.
  rewrite forallb_forall in *. intros r Hin. apply Hr.
  rewrite slice_to_pos in Hin by assumption.
  revert Hin. generalize (Z.to_nat hi). clear.
  induction a as [|x a IH]; intros [|k] Hin; try contradiction.
  destruct Hin as [<-|Hin]; [now left | right; eauto].
Qed.

Lemma check_exog_head_rows (m : ARDL V) (oos : frame V) (name : string)
    (orig : option (frame V)) (n : Z) :
  0 < n -> rectangular (values oos) = true ->
  check_exog m (head_rows oos n) name orig false
  = match check_exog m oos name orig false with
    | Ok a => Ok (head_rows a n)
    | Raise e => Raise e
    end.
Proof.
  intros Hn Hr. unfold check_exog.
  pose proof (rectangular_slice_to _ Hn Hr) as Hr'.
  pose proof (shape1_slice_to (values oos) Hn) as Hs.
  change (shape1 (slice_to (values oos) n))
    with (shape1 (values (head_rows oos n))) in Hs.
  change (rectangular (slice_to (values oos) n))
    with (rectangular (values (head_rows oos n))) in Hr'.
  destruct orig as [[[names|] ovals]|].
  - change (labels (head_rows oos n)) with (labels oos).
    destruct (labels oos) as [cols|] eqn:El; [|reflexivity].
    destruct (sorted_keys (map KStr cols)) as [s1|]; [|reflexivity].
    cbn [bind].
    destruct (sorted_keys _) as [s2|]; [|reflexivity]. cbn [bind].
    destruct (negb (keys_eqb s1 s2)); [reflexivity|]. cbn [bind].
    rewrite Hs. destruct (negb _); reflexivity.
  - rewrite Hr, Hr'. cbn [bind values]. fold (head_rows oos n).
    rewrite Hs. destruct (negb _); reflexivity.
  - rewrite Hr, Hr'. reflexivity.
Qed.

Lemma forecasting_x_oos_values (m : ARDL V) (start end_ num_oos : Z)
    (exog fixed fixed_oos : option (frame V)) (a b : frame V) :
  slice_to (values a) num_oos = slice_to (values b) num_oos ->
  _forecasting_x m start end_ num_oos exog (Some a) fixed fixed_oos
  = _forecasting_x m start end_ num_oos exog (Some b) fixed fixed_oos.
Proof.
  intros H. unfold _forecasting_x, rebuild_x. now rewrite H.
Qed.

Lemma shape0_slice_to (a : matrix V) (hi : Z) :
  0 < hi -> shape0 (slice_to a hi) = Z.min hi (shape0 a).
Proof.
  intros H. rewrite slice_to_pos by assumption. unfold shape0.
  rewrite length_firstn. lia.
Qed.

(** Rows of [exog_oos] beyond the number of forecasts are never read. For
    a constructed model and a call for [num_oos > 0] steps beyond the
    sample, [predict] gives the same result for an [exog_oos] and for its
    first [num_oos] rows, errors included. *)
Theorem exog_oos_rows_beyond_unused (args : ARDL_args V) (m : ARDL V)
    (params : list V) (start end_ num_oos : Z) (dynamic : option Z)
    (exog : option (frame V)) (oos : frame V)
    (fixed fixed_oos : option (frame V)) :
  ARDL_init args = Ok m ->
  0 < num_oos ->
  rectangular (values oos) = true ->
  predict_from m params start end_ num_oos dynamic
               exog (Some (head_rows oos num_oos)) fixed fixed_oos
  = predict_from m params start end_ num_oos dynamic
                 exog (Some oos) fixed fixed_oos.
Proof.
  intros Hm Hk Hr.
  pose proof (one_step_bound_nonneg _ Hm) as Hb.
  destruct (ARDL_init_inv _ Hm) as [_ [_ [Hacc _]]].
  unfold predict_from.
  same_bind.
  cbn [check_opt]. rewrite (@check_exog_head_rows m oos _ _ num_oos Hk Hr).
  destruct (check_exog m oos "exog_oos" (orig_exog m) false) as [b|e];
    cbn [bind]; [|reflexivity].
  same_bind. same_bind.
  rewrite max_1step_bound by exact Hacc. cbn [bind].
  assert (Hgate :
    (match _order m with [] => false | _ :: _ => true end)
    && plus_lt_ext (shape0 (values (head_rows b num_oos)))
                   (one_step_bound m) num_oos
    = (match _order m with [] => false | _ :: _ => true end)
      && plus_lt_ext (shape0 (values b)) (one_step_bound m) num_oos).
  { f_equal. cbn [head_rows values]. rewrite shape0_slice_to by assumption.
    destruct (one_step_bound m) as [x|]; [|reflexivity]. cbn in Hb |- *.
    destruct (Z.gtb_spec 0 x); [discriminate|].
    destruct (Z.ltb_spec (Z.min num_oos (shape0 (values b)) + x) num_oos);
      destruct (Z.ltb_spec (shape0 (values b) + x) num_oos);
      try reflexivity; lia. }
  rewrite Hgate.
  same_bind.
  assert (Hx : forall ex fx fo,
             _forecasting_x m start end_ num_oos ex
                            (Some (head_rows b num_oos)) fx fo
             = _forecasting_x m start end_ num_oos ex (Some b) fx fo).
  { intros ex fx fo. apply forecasting_x_oos_values.
    cbn [head_rows values]. now apply slice_to_idem. }
  destruct (orig_exog m); cbv beta iota zeta; rewrite Hx; reflexivity.
Qed.

End LongData.

(** ** Holding back more observations *)

Section HoldBack.

Context {V : Type} {Sc : Scalar V}.

Lemma same_design (args : ARDL_args V) (hb : option Z) (m m' : ARDL V) :
  ARDL_init args = Ok m ->
  ARDL_init (with_hold_back args hb) = Ok m' ->
  endog m' = endog m /\ orig_exog m' = orig_exog m
  /\ _deterministics m' = _deterministics m /\ _lags m' = _lags m
  /\ _order m' = _order m /\ _fixed m' = _fixed m
  /\ _maxlag m' = _maxlag m /\ _exog_names m' = _exog_names m.
Proof.
  intros Hm Hm'.
  destruct (ARDL_init_inv _ Hm)
    as [[E1 [E2 [E3 [E4 E5]]]] [_ [_ [_ [_ [_ [_ [_ [_ [_ [Hord [Hfix
         [[mo [Hmo Hmax]] [_ [Hnames [Hfn _]]]]]]]]]]]]]]]].
  destruct (ARDL_init_inv _ Hm')
    as [[F1 [F2 [F3 [F4 F5]]]] [_ [_ [_ [_ [_ [_ [_ [_ [_ [Hord' [Hfix'
         [[mo' [Hmo' Hmax']] [_ [Hnames' [Hfn' _]]]]]]]]]]]]]]]].
  cbn [with_hold_back a_endog a_exog a_det a_lags a_ynames a_order a_causal
       a_fixed] in *.
  assert (Ho : _order m' = _order m) by congruence.
  assert (El : _lags m' = _lags m) by congruence.
  repeat split; congruence.
Qed.

Lemma causal_step_ok (c : bool) (m0 : ARDL V) :
  Forall (accepted c) (_order m0) ->
  is_ok (match _order m0 with
         | [] => Ok (set_causal m0 true)
         | _ :: _ =>
             min_lags <- map_result py_min (map snd (_order m0)) ;;
             lowest <- py_min min_lags ;;
             Ok (set_causal m0 (lowest >? 0))
         end).
Proof.
  intros Hacc. destruct (_order m0) as [|kv ord] eqn:Eo.
  - eexists. reflexivity.
  - rewrite <- Eo in *.
    destruct (min_of_mins Hacc) as [mins [lowest [H1 [H2 _]]]];
      [rewrite Eo; discriminate|].
    rewrite H1. cbn [bind]. rewrite H2. eexists. reflexivity.
Qed.

Lemma n_columns_same (m m' : ARDL V) :
  _deterministics m' = _deterministics m -> _lags m' = _lags m ->
  _order m' = _order m -> _fixed m' = _fixed m ->
  n_columns m' = n_columns m.
Proof. intros H1 H2 H3 H4. unfold n_columns. now rewrite H1, H2, H3, H4. Qed.

Lemma hold_back_refused (args : ARDL_args V) (m : ARDL V) (h : Z) :
  ARDL_init args = Ok m ->
  h < _maxlag m \/ Z.of_nat (nobs_of m) - h < n_columns m ->
  is_raise (ARDL_init (with_hold_back args (Some h))).
Proof.
  intros Hm Hbad.
  destruct (ARDL_init (with_hold_back args (Some h))) as [m'|e] eqn:Hm';
    [exfalso | now exists e].
  destruct (@same_design args (Some h) m m' Hm Hm')
    as [S1 [S2 [S3 [S4 [S5 [S6 [S7 S8]]]]]]].
  destruct (ARDL_init_inv _ Hm')
    as [[E1 _] [_ [_ [[Hm0 [Hhn [_ [_ Hhb]]]] [[Hfl Hrect] [Hx [_ [Hsh
         [_ [Hn _]]]]]]]]]].
  cbn [with_hold_back a_hold_back a_endog] in *.
  rewrite S7 in Hm0. rewrite Hhb in *.
  destruct Hbad as [Hbad|Hbad]; [lia|].
  rewrite shape1_map_seq in Hsh by assumption.
  rewrite design_row_length in Hsh by (assumption || lia).
  rewrite (n_columns_same m m') in Hsh by assumption.
  rewrite Hx in Hsh. unfold shape0 in Hsh.
  rewrite length_map, length_seq in Hsh.
  unfold nobs_of in Hbad. rewrite <- S1, E1 in Hbad. lia.
Qed.

Lemma hold_back_accepted (args : ARDL_args V) (m : ARDL V) (h : Z) :
  ARDL_init args = Ok m ->
  _maxlag m <= h -> n_columns m <= Z.of_nat (nobs_of m) - h ->
  is_ok (ARDL_init (with_hold_back args (Some h))).
Proof.
  intros Hm Hlo Hhi.
  pose proof (n_columns_nonneg m) as Hnc.
  destruct (ARDL_init_inv _ Hm)
    as [[E1 [E2 [E3 [E4 E5]]]] [Hlags [Hacc [[Hm0 [Hhn [Hml [Hmo Hhb]]]]
         [[Hfl Hrect] [Hx [Hy [Hsh [Hdet [Hn [Hord [Hfix [[mo [Hmo' Hmax]]
         [Hc [Hnames [Hfn [Hxf [Hkeys [Hcols Hmlt]]]]]]]]]]]]]]]]]]].
  unfold nobs_of in Hhi. rewrite E1 in Hhi.
  unfold ARDL_init in Hm |- *.
  apply bind_ok in Hm. destruct Hm as [[] [Hbase Hm]].
  apply bind_ok in Hm. destruct Hm as [fx [Hfx Hm]].
  apply bind_ok in Hm. destruct Hm as [m0 [Hm0' Hm]].
  assert (Hbase' : AutoReg_init (with_hold_back args (Some h)) = Ok tt).
  { unfold AutoReg_init in Hbase |- *.
    cbn [with_hold_back a_lags a_hold_back a_endog a_exog].
    apply bind_ok in Hbase. destruct Hbase as [ar [Har Hbase]].
    rewrite Har. cbn [bind].
    assert (Ear : ar = lags_of (a_lags args)).
    { destruct (a_lags args) as [|k|l]; cbn [lags_of].
      - now injection Har as <-.
      - destruct (k <? 0); [discriminate | now injection Har as <-].
      - destruct (_ || _); [discriminate | now injection Har as <-]. }
    rewrite Ear, <- E4.
    destruct (Z.ltb_spec h (max_or_0 (_lags m))); [lia|]. cbn [bind].
    apply bind_ok in Hbase. destruct Hbase as [[] [_ Hbase]].
    apply bind_ok in Hbase. destruct Hbase as [[] [Hex _]].
    rewrite Hex. cbn [bind]. unfold _setup_regressors.
    destruct (Z.ltb_spec (Z.of_nat (length (a_endog args)) - h) 0); [lia|].
    reflexivity. }
  assert (Hfixed : fst fx = _fixed m).
  { assert (Hc0 : exists c, m = set_causal m0 c).
    { destruct (_order m0).
      - injection Hm as <-. now eexists.
      - apply bind_ok in Hm. destruct Hm as [mins [_ Hm]].
        apply bind_ok in Hm. destruct Hm as [lowest [_ Hm]].
        injection Hm as <-. now eexists. }
    destruct Hc0 as [c ->]. cbn [set_causal _fixed].
    apply initialize_model_inv in Hm0'.
    - now destruct Hm0' as [[_ [_ [F3 _]]] _].
    - now rewrite <- E4.
    - intros f Hf. cbn [s_orig_exog s_endog] in *. rewrite <- E2 in Hf.
      now destruct (Hxf f Hf) as [_ [Hlen _]]. }
  rewrite Hbase'. cbn [bind].
  cbn [with_hold_back a_fixed a_endog a_ynames a_exog a_det a_hold_back
       a_causal a_lags a_order].
  rewrite Hfx. cbn [bind].
  match goal with
  | |- is_ok (bind (_initialize_model ?self ?l ?o) _) =>
      destruct (@initialize_model_ok V Sc self l o (_order m) mo)
        as [m1 Hm1]
  end; cbn [s_endog s_orig_exog s_fixed s_hold_back s_causal
            s_deterministics].
  - now rewrite <- E4.
  - rewrite <- E4. lia.
  - exact Hord.
  - exact Hmo'.
  - intros Hne. destruct (Hcols Hne) as [f [Hf Hcol]].
    exists f. rewrite <- E2. split; [assumption|].
    destruct (Hxf f Hf) as [_ [Hlen _]].
    repeat split; try assumption. lia.
  - now rewrite Hfixed.
  - rewrite <- E4, <- Hmax. lia.
  - rewrite Hfixed, <- E1, <- E2, <- E3, <- E4.
    fold (design_row m 0).
    rewrite design_row_length by (assumption || lia).
    rewrite E1. lia.
  - rewrite Hm1. cbn [bind].
    apply (@causal_step_ok (a_causal args)).
    apply initialize_model_inv in Hm1.
    + destruct Hm1 as [_ [Hord1 _]].
      now apply format_order_accepted in Hord1.
    + cbn [s_endog]. now rewrite <- E4.
    + intros f Hf. cbn [s_orig_exog s_endog] in *. rewrite <- E2 in Hf.
      now destruct (Hxf f Hf) as [_ [Hlen _]].
Qed.

(** Holding back more observations only trims rows. From the arguments
    of a constructed model [m], the constructor with [hold_back=h] raises
    when [h] is below the largest lag of [m] or leaves fewer rows than
    [m] has columns; otherwise it returns a model with the lags, the
    orders and the column names of [m] whose design matrix and response
    are the rows from [h] on of the untrimmed ones, so that for an [h]
    at or above the hold-back of [m] they are those of [m] without their
    first [h - hold_back] rows. *)
Theorem hold_back_trims_rows (args : ARDL_args V) (m : ARDL V) (h : Z) :
  ARDL_init args = Ok m ->
  let nobs := nobs_of m in
  let again := ARDL_init (with_hold_back args (Some h)) in
  (h < _maxlag m \/ Z.of_nat nobs - h < n_columns m -> is_raise again)
  /\ (_maxlag m <= h -> n_columns m <= Z.of_nat nobs - h ->
      exists m',
        again = Ok m'
        /\ _hold_back m' = h
        /\ _lags m' = _lags m /\ _order m' = _order m
        /\ _exog_names m' = _exog_names m
        /\ _x m' = map (design_row m)
                       (seq (Z.to_nat h) (nobs - Z.to_nat h))
        /\ _y m' = skipn (Z.to_nat h) (endog m)
        /\ (_hold_back m <= h ->
            _x m' = skipn (Z.to_nat (h - _hold_back m)) (_x m)
            /\ _y m' = skipn (Z.to_nat (h - _hold_back m)) (_y m))).
Proof.
  intros Hm nobs again. split.
  - intros Hbad. exact (@hold_back_refused args m h Hm Hbad).
  - intros Hlo Hhi.
    destruct (@hold_back_accepted args m h Hm Hlo Hhi) as [m' Hm'].
    exists m'. split; [exact Hm'|].
    destruct (@same_design args (Some h) m m' Hm Hm')
      as [S1 [S2 [S3 [S4 [S5 [S6 [S7 S8]]]]]]].
    destruct (ARDL_init_inv _ Hm')
      as [[E1 _] [_ [_ [[_ [_ [_ [_ Hhb]]]] [_ [Hx [Hy _]]]]]]].
    destruct (ARDL_init_inv _ Hm)
      as [[F1 _] [_ [_ [[Hm0 [Hhn _]] [_ [Hx0 [Hy0 _]]]]]]].
    cbn [with_hold_back a_hold_back a_endog] in *.
    assert (Hrows : _x m' = map (design_row m)
                              (seq (Z.to_nat h) (nobs - Z.to_nat h))).
    { rewrite Hx, Hhb. subst nobs. unfold nobs_of. rewrite F1.
      apply map_ext. intros t. now apply design_row_same. }
    assert (Hresp : _y m' = skipn (Z.to_nat h) (endog m)).
    { rewrite Hy, Hhb. now rewrite S1. }
    repeat split; try assumption.
    + rewrite Hrows, Hx0. subst nobs. unfold nobs_of. rewrite F1.
      rewrite skipn_map. f_equal.
      rewrite skipn_seq. f_equal; lia.
    + rewrite Hresp, Hy0, skipn_skipn. f_equal. lia.
Qed.

End HoldBack.

(** ** The lag polynomial *)

Section LagPolynomialFacts.

Context {V : Type} {Sc : Scalar V} {Sg : Signed V}.

Lemma lag_loop (params : list V) (d : V) (l : list Z) :
  forall (k : Z) (ar : list V),
    0 <= k ->
    k + Z.of_nat (length l) <= Z.of_nat (length params) ->
    (forall z, In z l -> 0 <= z < Z.of_nat (length ar)) ->
    NoDup l ->
    exists ar',
      fold_result (fun ar il =>
          p <- index params (fst il) ;;
          set_index ar (snd il) (s_neg p))
        (combine (range k (k + Z.of_nat (length l))) l) ar = Ok ar'
      /\ length ar' = length ar
      /\ (forall i, (i < length l)%nat ->
            nth (Z.to_nat (nth i l 0)) ar' d
            = s_neg (nth (Z.to_nat k + i) params d))
      /\ (forall j, ~ In (Z.of_nat j) l -> nth j ar' d = nth j ar d).
Proof.
  induction l as [|a l IH]; intros k ar Hk Hlen Hin Hnd.
  - cbn [length]. rewrite range_empty by lia. cbn.
    exists ar. repeat split. intros i Hi. cbn in Hi. lia.
  - cbn [length] in *. rewrite range_cons by lia. cbn [combine fold_result].
    cbn [fst snd].
    rewrite (@index_ok _ params k d) by lia. cbn [bind].
    pose proof (Hin a (or_introl eq_refl)) as Ha.
    rewrite set_index_ok by lia. cbn [bind].
    set (ar1 := set_nth ar (Z.to_nat a) (s_neg (nth (Z.to_nat k) params d))).
    assert (Hl1 : length ar1 = length ar) by apply set_nth_length.
    inversion Hnd as [|a' l' Hnot Hnd']; subst.
    replace (k + Z.of_nat (S (length l)))
      with (k + 1 + Z.of_nat (length l)) by lia.
    destruct (IH (k + 1) ar1) as [ar' [Hf [Hl [Hset Hkeep]]]];
      [lia | lia | | assumption |].
    { intros z Hz. rewrite Hl1. apply Hin. now right. }
    exists ar'. split; [exact Hf|]. split; [congruence|]. split.
    + intros [|i] Hi.
      * cbn [nth]. rewrite Hkeep.
        -- unfold ar1. rewrite set_nth_same by lia. f_equal. f_equal. lia.
        -- rewrite Z2Nat.id by lia. exact Hnot.
      * cbn [nth]. rewrite Hset by lia. f_equal. f_equal. lia.
    + intros j Hj. rewrite Hkeep by (intros H; apply Hj; now right).
      unfold ar1. apply set_nth_other. intros E. apply Hj. left. lia.
Qed.

Lemma constructed_lags_NoDup (args : ARDL_args V) (m : ARDL V) :
  ARDL_init args = Ok m -> NoDup (_lags m).
Proof.
  intros Hm.
  destruct (ARDL_init_inv _ Hm) as [[_ [_ [_ [E4 _]]]] _]. rewrite E4.
  unfold ARDL_init in Hm.
  apply bind_ok in Hm. destruct Hm as [[] [Hbase _]].
  unfold AutoReg_init in Hbase.
  apply bind_ok in Hbase. destruct Hbase as [ar [Har _]].
  destruct (a_lags args) as [|k|l]; cbn [lags_of].
  - apply range_NoDup.
  - apply range_NoDup.
  - destruct (existsb _ l); [discriminate|]. cbn [orb] in Har.
    destruct (has_dup l) eqn:Ed; [discriminate|].
    now apply has_dup_NoDup.
Qed.

(** [_lag_repr] of the results of a constructed model, for parameters
    that cover the deterministic terms and the lags of the response: the
    array has one entry per lag from 0 to the largest lag of the
    response, entry 0 is one, the entry at the [i]-th lag of the model is
    minus the parameter at position [offset + i], where [offset] is the
    number of deterministic columns, and every other entry is zero. *)
Theorem lag_repr_polynomial (args : ARDL_args V) (m : ARDL V)
    (params : list V) :
  ARDL_init args = Ok m ->
  let offset := shape1 (_deterministic_reg m) in
  offset + Z.of_nat (length (_lags m)) <= Z.of_nat (length params) ->
  exists ar,
    _lag_repr {| model := m; _params := params |} = Ok ar
    /\ Z.of_nat (length ar) = max_or_0 (_lags m) + 1
    /\ nth 0 ar s_zero = s_one
    /\ (forall i, (i < length (_lags m))%nat ->
          nth (Z.to_nat (nth i (_lags m) 0)) ar s_zero
          = s_neg (nth (Z.to_nat offset + i) params s_zero))
    /\ (forall j, (0 < j)%nat -> ~ In (Z.of_nat j) (_lags m) ->
          nth j ar s_zero = s_zero).
Proof.
  intros Hm offset Hlen.
  pose proof (@constructed_lags_NoDup args m Hm) as Hnd.
  destruct (ARDL_init_inv _ Hm) as [_ [Hlags _]].
  destruct (max_or_0_valid Hlags) as [Hmax0 Hmax].
  assert (Hoff : 0 <= offset).
  { subst offset. unfold shape1. destruct (_deterministic_reg m); lia. }
  unfold _lag_repr. cbn [model _params].
  assert (Har : match ar_lags m with Some l => l | None => [] end = _lags m).
  { unfold ar_lags. now destruct (_lags m). }
  rewrite Har. fold offset.
  set (zeros := repeat s_zero (Z.to_nat (max_or_0 (_lags m) + 1))).
  assert (Hz : length zeros = Z.to_nat (max_or_0 (_lags m) + 1))
    by apply repeat_length.
  rewrite set_index_ok by lia. cbn [bind].
  set (ar0 := set_nth zeros (Z.to_nat 0) s_one).
  assert (Hl0 : length ar0 = length zeros) by apply set_nth_length.
  set (ps := slice params offset (offset + Z.of_nat (length (_lags m)))).
  assert (Hps : ps = firstn (length (_lags m))
                            (skipn (Z.to_nat offset) params)).
  { subst ps. unfold slice, clamp.
    destruct (Z.ltb_spec offset 0); [lia|].
    destruct (Z.ltb_spec (offset + Z.of_nat (length (_lags m))) 0); [lia|].
    f_equal; [lia | f_equal; lia]. }
  destruct (@lag_loop ps s_zero (_lags m) 0 ar0) as [ar [Hf [Hl [Hset Hkeep]]]].
  - lia.
  - rewrite Hps, length_firstn, length_skipn. lia.
  - intros z Hz'. apply Hmax in Hz'. lia.
  - assumption.
  - exists ar. unfold enumerate. rewrite Z.add_0_l in Hf.
    split; [exact Hf|]. split; [lia|]. split; [|split].
    + rewrite (Hkeep O).
      * unfold ar0. apply set_nth_same. lia.
      * intros H0. apply Hlags in H0. lia.
    + intros i Hi. rewrite (Hset i Hi). f_equal.
      rewrite Hps. cbn [Z.to_nat Nat.add].
      rewrite nth_firstn_lt by (rewrite length_skipn; lia).
      rewrite nth_skipn. reflexivity.
    + intros j Hj Hnot. rewrite (Hkeep j Hnot).
      unfold ar0. rewrite set_nth_other by (cbn; lia).
      unfold zeros. apply nth_repeat.
Qed.

End LagPolynomialFacts.

(** ** The candidates of the order selection *)

Section Blocks.

Context {V : Type} {Sc : Scalar V}.

Lemma format_exog_keys (f : option (frame V)) (ord : list (key * list Z))
    (ex : list (key * matrix V) * list (key * list string)) :
  _format_exog f ord = Ok ex -> map fst (fst ex) = map fst ord.
Proof.
  unfold _format_exog. destruct ord as [|kv0 ord0].
  { intros H. now injection H as <-. }
  remember (kv0 :: ord0) as ord eqn:Eord. clear Eord kv0 ord0.
  intros H. apply bind_ok in H. destruct H as [mo [_ H]].
  destruct f as [f|]; [|discriminate].
  apply bind_ok in H. destruct H as [bs [Hbs H]]. injection H as <-.
  cbn [fst]. apply map_result_inv in Hbs.
  induction Hbs as [|kv b l bs' Hb _ IH]; [reflexivity|].
  cbn [map]. rewrite IH. f_equal.
  apply bind_ok in Hb. destruct Hb as [col [_ Hb]].
  apply bind_ok in Hb. destruct Hb as [lc [_ Hb]].
  apply bind_ok in Hb. destruct Hb as [blk [_ Hb]].
  now injection Hb as <-.
Qed.

Lemma initialize_model_blocks (self : ARDL_self V) (lags : lags_spec)
    (order : order_spec) (m : ARDL V) :
  valid_lags (lags_of lags) ->
  (forall f, s_orig_exog self = Some f ->
     length (values f) = length (s_endog self)) ->
  _initialize_model self lags order = Ok m ->
  let nobs := length (s_endog self) in
  _endog_reg m = lag_rows (endog m) (endog_cols (_lags m)) nobs
  /\ map fst (_exog m) = map fst (_order m)
  /\ map snd (_exog m)
     = map (fun kv => lag_rows (column_of (orig_exog m) (fst kv)) (snd kv)
                               nobs) (_order m).
Proof.
  intros Hlags Hex H nobs. unfold _initialize_model in H. fold nobs in H.
  apply bind_ok in H. destruct H as [endog_reg0 [He0 H]].
  apply bind_ok in H. destruct H as [endog_reg [He H]].
  assert (Hereg : endog_reg
                  = lag_rows (s_endog self) (endog_cols (lags_of lags)) nobs).
  { pose proof (lagmat_inv _ _ _ He0) as [Hml _].
    pose proof (endog_block_ok (s_endog self) Hlags Hml) as Hb.
    rewrite He0 in Hb. cbn [bind] in Hb. rewrite He in Hb.
    now injection Hb. }
  apply bind_ok in H. destruct H as [ord [Hord H]].
  pose proof (format_order_accepted _ _ _ Hord) as Hacc.
  apply bind_ok in H. destruct H as [ex [Hexog H]].
  pose proof (format_exog_keys _ _ Hexog) as Hkeys.
  destruct (format_exog_inv Hacc Hex Hexog) as [Hblocks _].
  apply bind_ok in H. destruct H as [exog_maxlag [_ H]].
  apply bind_ok in H. destruct H as [full [_ H]].
  destruct (_ <? _); [discriminate|].
  destruct (_ >? _); [discriminate|].
  injection H as <-. cbn.
  repeat split; assumption.
Qed.

Lemma ARDL_init_blocks (args : ARDL_args V) (m : ARDL V) :
  ARDL_init args = Ok m ->
  let nobs := nobs_of m in
  _endog_reg m = lag_rows (endog m) (endog_cols (_lags m)) nobs
  /\ map fst (_exog m) = map fst (_order m)
  /\ map snd (_exog m)
     = map (fun kv => lag_rows (column_of (orig_exog m) (fst kv)) (snd kv)
                               nobs) (_order m).
Proof.
  intros Hm nobs.
  destruct (ARDL_init_inv _ Hm) as [[E1 _] _].
  unfold ARDL_init in Hm.
  apply bind_ok in Hm. destruct Hm as [[] [Hbase Hm]].
  apply AutoReg_init_inv in Hbase.
  destruct Hbase as [Hlags [_ [Hexog _]]].
  apply bind_ok in Hm. destruct Hm as [fx [_ Hm]].
  apply bind_ok in Hm. destruct Hm as [m0 [Hm0 Hm]].
  apply initialize_model_blocks in Hm0; [|assumption|assumption].
  cbn [s_endog] in Hm0.
  assert (Hc0 : exists c, m = set_causal m0 c).
  { destruct (_order m0).
    - injection Hm as <-. now eexists.
    - apply bind_ok in Hm. destruct Hm as [mins [_ Hm]].
      apply bind_ok in Hm. destruct Hm as [lowest [_ Hm]].
      injection Hm as <-. now eexists. }
  destruct Hc0 as [c ->]. subst nobs. unfold nobs_of.
  cbn [set_causal endog _endog_reg _lags _exog _order orig_exog] in *.
  rewrite <- E1 in Hm0. exact Hm0.
Qed.

Lemma shape1_trimmed_lag_rows (x : list V) (lags : list Z) (n : nat)
    (hb : Z) :
  0 <= hb < Z.of_nat n ->
  shape1 (slice_from (lag_rows x lags n) hb) = Z.of_nat (length lags).
Proof.
  intros H. unfold slice_from, lag_rows, clamp.
  rewrite length_map, length_seq.
  destruct (Z.ltb_spec hb 0); [lia|].
  rewrite skipn_map, skipn_seq.
  destruct (n - Z.to_nat (Z.min (Z.max hb 0) (Z.of_nat n)))%nat eqn:E; [lia|].
  cbn. now rewrite length_map.
Qed.

Lemma order_columns_positive (c : bool) (ord : list (key * list Z)) :
  Forall (accepted c) ord -> ord <> [] ->
  (0 < length (concat (map snd ord)))%nat.
Proof.
  intros Hacc Hne. destruct ord as [|kv ord]; [congruence|].
  apply Forall_inv in Hacc. destruct Hacc as [Hn _].
  cbn. rewrite length_app. destruct (snd kv); [congruence | cbn; lia].
Qed.

Lemma iter_orders_closed (args : ARDL_args V) (base : ARDL V) :
  ARDL_init args = Ok base ->
  iter_orders base
  = range 0 (Z.of_nat (length (_lags base)) + 1)
    :: map (fun kv => range 0 (Z.of_nat (length (snd kv)) + 1))
           (_order base)
  /\ var_names base = map fst (_order base).
Proof.
  intros Hm.
  destruct (@ARDL_init_blocks args base Hm) as [Hreg [Hfst Hsnd]].
  destruct (ARDL_init_inv _ Hm)
    as [[E1 _] [Hlags [Hacc [[Hm0 [Hhn _]] [[Hfl Hrect] [Hx [_ [Hsh [_ [Hn
        _]]]]]]]]]].
  pose proof (@shape1_x _ _ args base Hm) as Hw.
  split; [|exact Hfst].
  unfold iter_orders. f_equal.
  - rewrite Hreg, shape1_lag_rows by (unfold nobs_of; rewrite E1; lia).
    now rewrite endog_cols_length.
  - rewrite <- (@map_map (key * matrix V) (matrix V) _ snd
                 (fun b => range 0 (shape1 (slice_from b (_hold_back base))
                                    + 1))).
    rewrite Hsnd, map_map.
    destruct (_order base) as [|kv0 ord0] eqn:Eo; [reflexivity|].
    rewrite <- Eo in *.
    assert (Hpos : (0 < length (concat (map snd (_order base))))%nat).
    { apply (@order_columns_positive false _ Hacc). rewrite Eo.
      discriminate. }
    assert (Hlt : _hold_back base < Z.of_nat (nobs_of base)).
    { rewrite shape1_map_seq in Hsh by assumption.
      rewrite design_row_length in Hsh by (assumption || lia).
      rewrite Hx in Hsh. unfold shape0 in Hsh.
      rewrite length_map, length_seq in Hsh.
      unfold n_columns in Hsh. unfold nobs_of. rewrite E1.
      pose proof (n_columns_nonneg base).
      unfold shape1 in Hsh. destruct (_fixed base); lia. }
    apply map_ext. intros kv.
    rewrite shape1_trimmed_lag_rows by lia. reflexivity.
Qed.

End Blocks.

Section NestedSearch.

Context {V : Type} {Sc : Scalar V}.

Lemma in_product (ls : list (list Z)) :
  forall io, In io (product ls) <-> Forall2 (fun a l => In a l) io ls.
Proof.
  induction ls as [|l ls IH]; intros io; cbn [product].
  - split.
    + intros [<-|[]]. constructor.
    + intros H. inversion H. now left.
  - rewrite in_flat_map. split.
    + intros [a [Ha Hio]]. apply in_map_iff in Hio.
      destruct Hio as [io' [<- Hio']]. constructor; [assumption|].
      now apply IH.
    + intros H. inversion H as [|a l0 io' ls0 Ha Hio']; subst.
      exists a. split; [assumption|]. apply in_map. now apply IH.
Qed.

Lemma product_length (ls : list (list Z)) :
  length (product ls) = fold_right Nat.mul 1%nat (map (@length Z) ls).
Proof.
  induction ls as [|l ls IH]; [reflexivity|]. cbn [product map fold_right].
  rewrite (@flat_map_constant_length _ _ (length (product ls))).
  - now rewrite IH.
  - intros a _. apply length_map.
Qed.

Lemma product_NoDup (ls : list (list Z)) :
  Forall (@NoDup Z) ls -> NoDup (product ls).
Proof.
  induction ls as [|l ls IH]; intros H; cbn [product].
  - repeat constructor. intros [].
  - inversion H as [|l0 ls0 Hl Hls]; subst. specialize (IH Hls).
    clear H Hls. induction l as [|a l IHl]; cbn [flat_map]; [constructor|].
    inversion Hl as [|a0 l0 Hnot Hl']; subst.
    apply NoDup_app.
    + apply NoDup_map_NoDup_ForallPairs; [|assumption].
      intros x y _ _ E. now injection E.
    + now apply IHl.
    + intros io Hio Hio'. apply in_map_iff in Hio.
      destruct Hio as [io1 [<- _]]. apply in_flat_map in Hio'.
      destruct Hio' as [b [Hb Hio']]. apply in_map_iff in Hio'.
      destruct Hio' as [io2 [E _]]. injection E as -> _. contradiction.
Qed.

Lemma Forall2_map_r {A B C : Type} (R : A -> C -> Prop) (f : B -> C)
    (l : list A) (l' : list B) :
  Forall2 R l (map f l') <-> Forall2 (fun a b => R a (f b)) l l'.
Proof.
  revert l. induction l' as [|b l' IH]; intros l; cbn [map].
  - split; intros H; inversion H; constructor.
  - split; intros H; inversion H; subst; constructor;
      try assumption; now apply IH.
Qed.

Lemma nested_entries (causal : bool) (vars : list key) (ks : list Z) :
  forall k,
    (Z.to_nat k + length ks <= length vars)%nat -> 0 <= k ->
    map_result (fun jv =>
        var <- index vars (fst jv) ;;
        Ok (var, nested_entry causal (snd jv)))
      (combine (range k (k + Z.of_nat (length ks))) ks)
    = Ok (map (fun vk => (fst vk, nested_entry causal (snd vk)))
              (combine (skipn (Z.to_nat k) vars) ks)).
Proof.
  induction ks as [|a ks IH]; intros k Hlen Hk.
  - cbn [length]. rewrite range_empty by lia.
    cbn. now rewrite combine_nil.
  - cbn [length] in *. rewrite range_cons by lia.
    cbn [combine map_result fst snd].
    rewrite (@index_ok _ vars k (KInt 0)) by lia. cbn [bind].
    replace (k + Z.of_nat (S (length ks)))
      with (k + 1 + Z.of_nat (length ks)) by lia.
    rewrite IH by lia. cbn [bind].
    replace (Z.to_nat (k + 1)) with (S (Z.to_nat k)) by lia.
    assert (Hs : skipn (Z.to_nat k) vars
                 = nth (Z.to_nat k) vars (KInt 0)
                   :: skipn (S (Z.to_nat k)) vars).
    { clear - Hlen. revert vars Hlen.
      induction (Z.to_nat k) as [|n IHn]; intros [|v vars] Hlen;
        cbn in *; try lia; [reflexivity|].
      apply IHn. lia. }
    rewrite Hs. reflexivity.
Qed.

Lemma nested_key_candidate (causal : bool) (vars : list key) (k0 : Z)
    (ks : list Z) :
  length ks = length vars ->
  nested_key causal vars (k0 :: ks) = Ok (nested_key_of causal vars k0 ks).
Proof.
  intros Hlen. unfold nested_key, nested_key_of.
  rewrite (@index_ok _ (k0 :: ks) 0 0) by (cbn [length]; lia).
  cbn [bind Z.to_nat nth].
  assert (Hs : slice_from (k0 :: ks) 1 = ks).
  { unfold slice_from, clamp. cbn [length].
    replace (Z.to_nat (Z.min (Z.max (if 1 <? 0 then 1 + Z.of_nat (S (length ks))
                                     else 1) 0)
                             (Z.of_nat (S (length ks))))) with 1%nat.
    - reflexivity.
    - destruct (Z.ltb_spec 1 0); lia. }
  rewrite Hs. unfold enumerate.
  pose proof (@nested_entries causal vars ks 0) as He.
  rewrite Z.add_0_l in He. rewrite He by (cbn; lia).
  reflexivity.
Qed.

Lemma nested_entry_inj (causal : bool) (a b : Z) :
  0 <= a -> 0 <= b ->
  nested_entry causal a = nested_entry causal b -> a = b.
Proof.
  intros Ha Hb. unfold nested_entry. destruct causal.
  - destruct (Z.eqb_spec a 0); destruct (Z.eqb_spec b 0);
      intros E; try discriminate; [lia|]. now injection E.
  - destruct (Z.geb_spec (a - 1) 0); destruct (Z.geb_spec (b - 1) 0);
      intros E; try discriminate; [|lia]. injection E. lia.
Qed.

Lemma nested_key_of_inj (causal : bool) (vars : list key) (k0 k0' : Z)
    (ks ks' : list Z) :
  length ks = length vars -> length ks' = length vars ->
  0 <= k0 -> 0 <= k0' -> Forall (fun k => 0 <= k) ks ->
  Forall (fun k => 0 <= k) ks' ->
  nested_key_of causal vars k0 ks = nested_key_of causal vars k0' ks' ->
  k0 = k0' /\ ks = ks'.
Proof.
  intros Hl Hl' H0 H0' Hks Hks' E. unfold nested_key_of in E.
  injection E as E0 E1. split.
  - destruct (Z.eqb_spec k0 0); destruct (Z.eqb_spec k0' 0);
      try discriminate; [lia|]. now injection E0.
  - clear E0. revert ks ks' Hl Hl' Hks Hks' E1.
    induction vars as [|v vars IH]; intros [|a ks] [|b ks'] Hl Hl' Hks Hks' E;
      try discriminate; [reflexivity|].
    cbn in E. injection E as Ea E.
    inversion Hks; inversion Hks'; subst.
    f_equal.
    + now apply (@nested_entry_inj causal).
    + apply IH; cbn in *; try lia; assumption.
Qed.

Lemma nested_candidates (args : ARDL_args V) (base : ARDL V) :
  ARDL_init args = Ok base ->
  forall io,
    In io (product (iter_orders base))
    <-> exists k0 ks,
          io = k0 :: ks
          /\ 0 <= k0 <= Z.of_nat (length (_lags base))
          /\ Forall2 (fun k kv => 0 <= k <= Z.of_nat (length (snd kv)))
                     ks (_order base).
Proof.
  intros Hm io.
  destruct (@iter_orders_closed _ _ args base Hm) as [-> _].
  rewrite in_product. split.
  - intros H. inversion H as [|k0 r0 ks rs Hk0 Hks]; subst.
    exists k0, ks. split; [reflexivity|]. apply in_range in Hk0.
    split; [lia|].
    apply (proj1 (@Forall2_map_r _ _ _ (fun (a : Z) (l : list Z) => In a l)
                    (fun kv : key * list Z =>
                       range 0 (Z.of_nat (length (snd kv)) + 1))
                    ks (_order base))) in Hks.
    eapply Forall2_impl; [|exact Hks]. cbv beta.
    intros k kv Hk. apply in_range in Hk. lia.
  - intros [k0 [ks [-> [Hk0 Hks]]]]. constructor.
    + apply in_range. lia.
    + apply (proj2 (@Forall2_map_r _ _ _ (fun (a : Z) (l : list Z) => In a l)
                      (fun kv : key * list Z =>
                         range 0 (Z.of_nat (length (snd kv)) + 1))
                      ks (_order base))).
      eapply Forall2_impl; [|exact Hks]. cbv beta.
      intros k kv Hk. apply in_range. lia.
Qed.

(** The nested search fills the table with one key per combination of a
    number [k0] of lags of the response, from 0 to the number of lags of
    the base model, and a number of lags of each exogenous variable, from
    0 to the number of lags the base model has of it. The keys are
    pairwise distinct, so that no candidate overwrites another one. *)
Theorem nested_search_keys (args : ARDL_args V) (base : ARDL V)
    (causal : bool) :
  ARDL_init args = Ok base ->
  exists keys,
    nested_keys base causal = Ok keys
    /\ length keys
       = (S (length (_lags base))
          * fold_right Nat.mul 1
              (map (fun kv => S (length (snd kv))) (_order base)))%nat
    /\ NoDup keys
    /\ (forall key,
          In key keys
          <-> exists k0 ks,
                0 <= k0 <= Z.of_nat (length (_lags base))
                /\ Forall2 (fun k kv => 0 <= k <= Z.of_nat (length (snd kv)))
                           ks (_order base)
                /\ key = nested_key_of causal (map fst (_order base))
                                       k0 ks).
Proof.
  intros Hm.
  pose proof (@nested_candidates args base Hm) as Hc.
  destruct (@iter_orders_closed _ _ args base Hm) as [Hio Hvars].
  set (kf := fun io : list Z =>
               nested_key_of causal (map fst (_order base))
                             (hd 0 io) (tl io)).
  assert (Hkeys : nested_keys base causal
                  = Ok (map kf (product (iter_orders base)))).
  { unfold nested_keys. apply map_result_ok. intros io Hin.
    apply Hc in Hin. destruct Hin as [k0 [ks [-> [_ Hks]]]].
    rewrite Hvars. unfold kf. cbn [hd tl].
    apply nested_key_candidate.
    rewrite length_map. now apply Forall2_length in Hks. }
  exists (map kf (product (iter_orders base))).
  split; [exact Hkeys|]. split; [|split].
  - rewrite length_map, product_length, Hio. cbn [map fold_right].
    rewrite range_length, map_map. f_equal; [lia|]. f_equal.
    apply map_ext. intros kv. rewrite range_length. lia.
  - apply NoDup_map_NoDup_ForallPairs.
    + intros io io' Hin Hin' E.
      apply Hc in Hin. destruct Hin as [k0 [ks [-> [Hk0 Hks]]]].
      apply Hc in Hin'. destruct Hin' as [k0' [ks' [-> [Hk0' Hks']]]].
      unfold kf in E. cbn [hd tl] in E.
      apply nested_key_of_inj in E.
      * destruct E as [-> ->]. reflexivity.
      * rewrite length_map. now apply Forall2_length in Hks.
      * rewrite length_map. now apply Forall2_length in Hks'.
      * lia.
      * lia.
      * clear - Hks. induction Hks; constructor; [lia | assumption].
      * clear - Hks'. induction Hks'; constructor; [lia | assumption].
    + rewrite Hio. apply product_NoDup. constructor.
      * apply range_NoDup.
      * apply Forall_forall. intros l Hl. apply in_map_iff in Hl.
        destruct Hl as [kv [<- _]]. apply range_NoDup.
  - intros key. rewrite in_map_iff. split.
    + intros [io [<- Hin]]. apply Hc in Hin.
      destruct Hin as [k0 [ks [-> [Hk0 Hks]]]].
      exists k0, ks. repeat split; try assumption; lia.
    + intros [k0 [ks [Hk0 [Hks ->]]]]. exists (k0 :: ks).
      split; [reflexivity|]. apply Hc. now exists k0, ks.
Qed.

Lemma firstn_range (a k q : Z) :
  0 <= k <= q -> firstn (Z.to_nat k) (range a (a + q)) = range a (a + k).
Proof.
  intros H. unfold range. rewrite firstn_map. f_equal.
  replace (Z.to_nat (a + q - a)) with (Z.to_nat k + Z.to_nat (q - k))%nat
    by lia.
  rewrite seq_app, firstn_app, length_seq, Nat.sub_diag. cbn [firstn].
  rewrite app_nil_r, firstn_all2 by (rewrite length_seq; lia).
  f_equal. lia.
Qed.

Lemma nested_entry_checked (c : bool) (k : Z) :
  0 <= k -> _check_order (nested_entry c k) c = Ok true.
Proof.
  intros Hk. unfold nested_entry. destruct c; cbn [Z.b2z].
  - destruct (Z.eqb_spec k 0); [reflexivity|]. cbn [_check_order Z.b2z].
    destruct (Z.ltb_spec k 1); [lia | reflexivity].
  - destruct (Z.geb_spec (k - 1) 0); [|reflexivity].
    cbn [_check_order Z.b2z].
    destruct (Z.ltb_spec (k - 1) 0); [lia | reflexivity].
Qed.

Lemma nested_entry_expands (c : bool) (v : key) (k q : Z) :
  0 <= k <= q ->
  expand_order c (v, nested_entry c k)
  = Ok (if k =? 0 then []
        else [(v, firstn (Z.to_nat k) (range (Z.b2z c) (Z.b2z c + q)))]).
Proof.
  intros Hk. rewrite firstn_range by assumption.
  unfold expand_order, nested_entry. cbn [snd fst].
  destruct c; cbn [Z.b2z].
  - destruct (Z.eqb_spec k 0); [reflexivity|].
    now replace (1 + k) with (k + 1) by lia.
  - destruct (Z.geb_spec (k - 1) 0); destruct (Z.eqb_spec k 0);
      try lia; [|reflexivity].
    now replace (k - 1 + 1) with (0 + k) by lia.
Qed.

Lemma nested_orders_expand (c : bool) (order : list (key * list Z)) :
  (forall kv, In kv order ->
     snd kv = range (Z.b2z c) (Z.b2z c + Z.of_nat (length (snd kv)))) ->
  forall ks,
    Forall2 (fun k kv => 0 <= k <= Z.of_nat (length (snd kv))) ks order ->
    final_order c (map (fun vk => (fst vk, nested_entry c (snd vk)))
                       (combine (map fst order) ks))
    = Ok (prefix_orders order ks).
Proof.
  intros Hcont ks Hks. unfold final_order, prefix_orders.
  rewrite map_result_ok with
    (g := fun d : key * order_value =>
            match expand_order c d with Ok b => b | Raise _ => [] end).
  2:{ intros d Hd. apply in_map_iff in Hd. destruct Hd as [[v k] [<- Hin]].
      cbn [fst snd].
      assert (Hk : exists kv, In kv order /\ 0 <= k
                              <= Z.of_nat (length (snd kv))).
      { clear - Hks Hin. revert Hin.
        induction Hks as [|k' kv ks order Hk _ IH]; cbn; [contradiction|].
        intros [E|Hin].
        - injection E as _ <-. exists kv. split; [now left | assumption].
        - destruct (IH Hin) as [kv' [H1 H2]]. exists kv'.
          split; [now right | assumption]. }
      destruct Hk as [kv [_ Hk]].
      now rewrite (@nested_entry_expands c v k _ Hk). }
  cbn [bind]. f_equal. f_equal.
  induction Hks as [|k kv ks order Hk Hks IH]; [reflexivity|].
  cbn [map combine fst snd]. rewrite IH.
  2:{ intros kv' Hin. apply Hcont. now right. }
  f_equal. rewrite (@nested_entry_expands c (fst kv) k _ Hk).
  rewrite <- (Hcont kv) by now left. reflexivity.
Qed.

Lemma nested_key_orders (args : ARDL_args V) (base : ARDL V)
    (f : frame V) (c : bool) (k0 : Z) (ks : list Z) :
  ARDL_init args = Ok base ->
  orig_exog base = Some f ->
  (forall kv, In kv (_order base) ->
     snd kv = range (Z.b2z c) (Z.b2z c + Z.of_nat (length (snd kv)))) ->
  Forall2 (fun k kv => 0 <= k <= Z.of_nat (length (snd kv)))
          ks (_order base) ->
  snd (_format_order (Some (frame_keys f))
         (OMap (snd (nested_key_of c (map fst (_order base)) k0 ks))) c)
  = Ok (prefix_orders (_order base) ks).
Proof.
  intros Hm Hf Hcont Hks.
  destruct (ARDL_init_inv _ Hm)
    as [_ [_ [_ [_ [_ [_ [_ [_ [_ [_ [_ [_ [_ [_ [_ [_
         [_ [Hkeys _]]]]]]]]]]]]]]]]]].
  rewrite Hf in Hkeys.
  unfold nested_key_of. cbn [snd]. unfold frame_keys.
  rewrite mapping_checked.
  - now apply nested_orders_expand.
  - apply extra_keys_none. intros k Hk. rewrite map_map in Hk.
    cbn [fst] in Hk. apply in_map_iff in Hk.
    destruct Hk as [[v z] [<- Hvz]].
    apply in_combine_l in Hvz. now apply Hkeys.
  - intros kv Hkv. apply in_map_iff in Hkv.
    destruct Hkv as [[v k] [<- Hvk]]. cbn [snd].
    apply nested_entry_checked.
    apply in_combine_r in Hvk. clear - Hks Hvk.
    induction Hks as [|k' kv ks order Hk _ IH]; [contradiction|].
    destruct Hvk as [<-|Hvk]; [lia | now apply IH].
Qed.

(** A key of the nested search names the columns that were scored under
    it. For a base model built from an integer number of lags of the
    response and whose exogenous lags are consecutive from 0 (from 1 when
    causal), the key of the candidate that takes the first [k0] columns
    of the block of the response and the first [k] columns of the block
    of each variable gives the constructor the first [k0] lags of the
    base model and, for each variable with [k > 0], its first [k] lags:
    the lags that these columns hold. *)
Theorem nested_key_round_trip (args : ARDL_args V) (base : ARDL V)
    (f : frame V) (maxlag k0 : Z) (ks : list Z) :
  ARDL_init args = Ok base ->
  a_lags args = LInt maxlag ->
  orig_exog base = Some f ->
  let c := a_causal args in
  (forall kv, In kv (_order base) ->
     snd kv = range (Z.b2z c) (Z.b2z c + Z.of_nat (length (snd kv)))) ->
  In (k0 :: ks) (product (iter_orders base)) ->
  exists key,
    nested_key c (var_names base) (k0 :: ks) = Ok key
    /\ lags_of (fst key) = firstn (Z.to_nat k0) (_lags base)
    /\ snd (_format_order (Some (frame_keys f)) (OMap (snd key)) c)
       = Ok (prefix_orders (_order base) ks).
Proof.
  intros Hm Hlags Hf c Hcont Hin.
  apply (@nested_candidates args base Hm) in Hin.
  destruct Hin as [k0' [ks' [E [Hk0 Hks]]]]. injection E as <- <-.
  destruct (@iter_orders_closed _ _ args base Hm) as [_ Hvars].
  destruct (ARDL_init_inv _ Hm)
    as [[_ [_ [_ [E4 _]]]] [_ [_ [_ [_ [_ [_ [_ [_ [_ [_ [_ [_ [_ [_ [_
         [_ [Hkeys _]]]]]]]]]]]]]]]]]].
  rewrite Hf in Hkeys. rewrite Hlags in E4. cbn [lags_of] in E4.
  pose proof (Forall2_length Hks) as Hlen.
  exists (nested_key_of c (map fst (_order base)) k0 ks).
  split; [|split].
  - rewrite Hvars. apply nested_key_candidate. now rewrite length_map.
  - unfold nested_key_of. cbn [fst]. rewrite E4 in *.
    rewrite range_length in Hk0.
    destruct (Z.le_gt_cases 0 maxlag) as [Hge|Hneg].
    + replace (maxlag + 1) with (1 + maxlag) by lia.
      rewrite firstn_range by lia.
      destruct (Z.eqb_spec k0 0) as [->|]; cbn [lags_of]; f_equal; lia.
    + assert (k0 = 0) as -> by lia. reflexivity.
  - exact (@nested_key_orders args base f c k0 ks Hm Hf Hcont Hks).
Qed.

End NestedSearch.

Section GlobalSearch.

Context {V : Type} {Sc : Scalar V}.

Lemma subseq_length {A : Type} (p l : list A) :
  subseq p l -> (length p <= length l)%nat.
Proof. induction 1; cbn; lia. Qed.

Lemma in_combinations (l : list Z) :
  forall r p, In p (combinations l r) <-> subseq p l /\ length p = r.
Proof.
  induction l as [|a l IH]; intros r p.
  - destruct r; cbn.
    + split.
      * intros [<-|[]]. split; [constructor | reflexivity].
      * intros [H _]. inversion H. now left.
    + split; [contradiction|]. intros [H Hl]. inversion H; subst.
      discriminate.
  - destruct r as [|r]; cbn [combinations].
    + split.
      * intros [<-|[]]. split; [constructor | reflexivity].
      * intros [_ Hl]. destruct p; [now left | discriminate].
    + rewrite in_app_iff, in_map_iff. split.
      * intros [[p' [<- Hp']]|Hp].
        -- apply IH in Hp'. destruct Hp' as [Hs <-].
           split; [now constructor | reflexivity].
        -- apply IH in Hp. destruct Hp as [Hs Hl].
           split; [now constructor | assumption].
      * intros [Hs Hl]. inversion Hs; subst.
        -- discriminate.
        -- left. eexists. split; [reflexivity|]. apply IH.
           split; [assumption|]. cbn in Hl. lia.
        -- right. apply IH. now split.
Qed.

Lemma select_shapes (args : ARDL_args V) (base : ARDL V) :
  ARDL_init args = Ok base ->
  map (@shape1 V) (select_blocks base)
  = Z.of_nat (length (_lags base))
    :: map (fun kv => Z.of_nat (length (snd kv))) (_order base).
Proof.
  intros Hm.
  destruct (@ARDL_init_blocks _ _ args base Hm) as [Hreg [Hfst Hsnd]].
  destruct (ARDL_init_inv _ Hm)
    as [[E1 _] [Hlags [Hacc [[Hm0 [Hhn _]] [[Hfl Hrect] [Hx [_ [Hsh [_ [Hn
        _]]]]]]]]]].
  assert (Hcols : n_columns base
                  <= Z.of_nat (nobs_of base) - _hold_back base).
  { rewrite shape1_map_seq in Hsh by assumption.
    rewrite design_row_length in Hsh by (assumption || lia).
    rewrite Hx in Hsh. unfold shape0 in Hsh.
    rewrite length_map, length_seq in Hsh.
    unfold nobs_of. rewrite E1. lia. }
  assert (Hfx : 0 <= shape1 (_fixed base))
    by (unfold shape1; destruct (_fixed base); lia).
  unfold n_columns in Hcols. rewrite endog_cols_length in Hcols by assumption.
  unfold nobs_of in *. rewrite E1 in *.
  unfold select_blocks. cbn [map]. f_equal.
  - rewrite Hreg.
    destruct (Z.eq_dec (_hold_back base) (Z.of_nat (length (a_endog args))))
      as [Heq|Hne].
    + assert (length (_lags base) = 0%nat) as -> by lia.
      unfold slice_from, lag_rows, clamp.
      rewrite length_map, length_seq, Heq.
      destruct (Z.ltb_spec (Z.of_nat (length (a_endog args))) 0); [lia|].
      rewrite skipn_all2; [reflexivity|].
      rewrite length_map, length_seq. lia.
    + rewrite shape1_trimmed_lag_rows by lia.
      now rewrite endog_cols_length.
  - rewrite map_map.
    rewrite <- (@map_map (key * matrix V) (matrix V) _ snd
                 (fun b => shape1 (slice_from b (_hold_back base)))).
    rewrite Hsnd, map_map.
    destruct (_order base) as [|kv0 ord0] eqn:Eo; [reflexivity|].
    rewrite <- Eo in *.
    assert (Hpos : (0 < length (concat (map snd (_order base))))%nat).
    { apply (@order_columns_positive false _ Hacc). rewrite Eo.
      discriminate. }
    apply map_ext. intros kv.
    rewrite shape1_trimmed_lag_rows by lia. reflexivity.
Qed.

Lemma glob_width_closed (args : ARDL_args V) (base : ARDL V) :
  ARDL_init args = Ok base ->
  glob_width base
  = Z.of_nat (length (_lags base)
              + length (concat (map snd (_order base)))).
Proof.
  intros Hm. unfold glob_width.
  rewrite (@select_shapes args base Hm). cbn [map fold_right].
  rewrite Nat2Z.inj_add. f_equal.
  induction (_order base) as [|kv ord IH]; [reflexivity|].
  cbn [map fold_right concat]. rewrite length_app, IH. lia.
Qed.

Lemma glob_columns_length (base : ARDL V) :
  length (glob_columns base)
  = (length (_lags base) + length (concat (map snd (_order base))))%nat.
Proof.
  unfold glob_columns. rewrite length_app, length_map. f_equal.
  - unfold ar_lags. now destruct (_lags base).
  - induction (_order base) as [|kv ord IH]; [reflexivity|].
    cbn [flat_map map concat]. now rewrite !length_app, length_map, IH.
Qed.

Lemma in_glob_perms (args : ARDL_args V) (base : ARDL V) :
  ARDL_init args = Ok base ->
  forall perm,
    In perm (glob_perms base)
    <-> subseq perm (range 0 (glob_width base))
        /\ Z.of_nat (length perm) < glob_width base.
Proof.
  intros Hm perm. unfold glob_perms. rewrite in_flat_map. split.
  - intros [i [Hi Hp]]. apply in_range in Hi.
    apply in_combinations in Hp. destruct Hp as [Hs Hl].
    split; [assumption | lia].
  - intros [Hs Hl]. exists (Z.of_nat (length perm)). split.
    + apply in_range. lia.
    + apply in_combinations. split; [assumption | lia].
Qed.

(** The global search scores every selection of fewer than all columns
    of the base model, taken in increasing order of their positions: the
    selection of all columns, which is the base model itself, is never
    scored, and a base model without columns has no candidate at all.
    There is one column per lag of the response and per lag of every
    exogenous variable. *)
Theorem glob_search_subsets (args : ARDL_args V) (base : ARDL V) :
  ARDL_init args = Ok base ->
  let n := Z.of_nat (length (_lags base)
                     + length (concat (map snd (_order base)))) in
  glob_width base = n
  /\ Z.of_nat (length (glob_columns base)) = n
  /\ (forall perm,
        In perm (glob_perms base)
        <-> subseq perm (range 0 n) /\ Z.of_nat (length perm) < n)
  /\ ~ In (range 0 n) (glob_perms base)
  /\ (n = 0 -> glob_perms base = []).
Proof.
  intros Hm n.
  pose proof (@glob_width_closed args base Hm) as Hw. fold n in Hw.
  assert (Hiff : forall perm,
            In perm (glob_perms base)
            <-> subseq perm (range 0 n) /\ Z.of_nat (length perm) < n).
  { intros perm. rewrite (@in_glob_perms args base Hm), Hw. reflexivity. }
  split; [exact Hw|]. split; [|split; [exact Hiff|split]].
  - rewrite glob_columns_length. reflexivity.
  - intros H. apply Hiff in H. destruct H as [_ H].
    rewrite range_length in H. lia.
  - intros H0. unfold glob_perms. rewrite Hw, H0. reflexivity.
Qed.

Lemma dict_default_columns {B : Type} (v : B) (k : key) (lags : list Z) :
  forall d : list (key * B),
    In k (map fst d) ->
    fold_left (fun d (ck : column_key) =>
                 match fst ck with
                 | Some k => dict_default d k v
                 | None => d
                 end)
              (map (fun i => (Some k, i)) lags) d
    = d.
Proof.
  induction lags as [|i lags IH]; intros d Hin; [reflexivity|].
  cbn [map fold_left fst]. unfold dict_default at 2.
  rewrite (proj2 (key_in_In k _) Hin). now apply IH.
Qed.

Lemma dict_default_first {B : Type} (v : B) (k : key) (lags : list Z)
    (d : list (key * B)) :
  lags <> [] -> ~ In k (map fst d) ->
  fold_left (fun d (ck : column_key) =>
               match fst ck with
               | Some k => dict_default d k v
               | None => d
               end)
            (map (fun i => (Some k, i)) lags) d
  = d ++ [(k, v)].
Proof.
  intros Hne Hnot. destruct lags as [|i lags]; [congruence|].
  cbn [map fold_left fst].
  assert (Hd : dict_default d k v = d ++ [(k, v)]).
  { unfold dict_default. destruct (key_in k (map fst d)) eqn:Ek;
      [|reflexivity].
    apply key_in_In in Ek. contradiction. }
  rewrite Hd. apply dict_default_columns.
  rewrite map_app, in_app_iff. right. now left.
Qed.

Lemma dict_default_orders {B : Type} (v : B) (order : list (key * list Z)) :
  (forall kv, In kv order -> snd kv <> []) ->
  NoDup (map fst order) ->
  forall d : list (key * B),
    (forall kv, In kv order -> ~ In (fst kv) (map fst d)) ->
    fold_left (fun d (ck : column_key) =>
                 match fst ck with
                 | Some k => dict_default d k v
                 | None => d
                 end)
              (flat_map (fun kv => map (fun i => (Some (fst kv), i)) (snd kv))
                        order) d
    = d ++ map (fun kv => (fst kv, v)) order.
Proof.
  induction order as [|kv order IH]; intros Hne Hnd d Hfresh.
  - cbn. now rewrite app_nil_r.
  - cbn [flat_map map]. rewrite fold_left_app.
    inversion Hnd as [|k ks Hnot Hnd']; subst.
    rewrite dict_default_first;
      [| now apply Hne; left | now apply Hfresh; left].
    rewrite IH.
    + now rewrite <- app_assoc.
    + intros kv' Hin. apply Hne. now right.
    + assumption.
    + intros kv' Hin. rewrite map_app, in_app_iff. cbn [map fst In].
      intros [H|[H|[]]].
      * apply (Hfresh kv' (or_intror Hin)). exact H.
      * apply Hnot. rewrite H. now apply in_map.
Qed.

Lemma empty_perm_key (base : ARDL V) :
  (forall kv, In kv (_order base) -> snd kv <> []) ->
  NoDup (map fst (_order base)) ->
  perm_to_tuple (glob_columns base) []
  = Ok (LInt 0, map (fun kv => (fst kv, OInt false 0)) (_order base)).
Proof.
  intros Hne Hnd. unfold perm_to_tuple, glob_columns.
  rewrite fold_left_app.
  assert (H0 : forall l : list Z,
            fold_left (fun d (ck : column_key) =>
                         match fst ck with
                         | Some k => dict_default d k (OInt false 0)
                         | None => d
                         end)
                      (map (fun i => (@None key, i)) l) [] = []).
  { induction l as [|i l IH]; [reflexivity | exact IH]. }
  rewrite H0.
  rewrite (@dict_default_orders _ (OInt false 0) (_order base) Hne Hnd);
    [reflexivity | intros kv _ []].
Qed.

(** The global search records the candidate without any column under the
    key [(0, (var, 0), ...)], which names another model than the one
    scored: for a base model with exogenous lags, the constructor reads
    the key as lag 0 of every exogenous variable of the base model when
    the model is not causal, and refuses it when the model is causal. *)
Theorem glob_empty_candidate (args : ARDL_args V) (base : ARDL V)
    (f : frame V) :
  ARDL_init args = Ok base ->
  orig_exog base = Some f ->
  _order base <> [] ->
  NoDup (map fst (_order base)) ->
  exists key,
    In [] (glob_perms base)
    /\ perm_to_tuple (glob_columns base) [] = Ok key
    /\ lags_of (fst key) = []
    /\ snd (_format_order (Some (frame_keys f)) (OMap (snd key)) false)
       = Ok (map (fun kv => (fst kv, [0])) (_order base))
    /\ snd (_format_order (Some (frame_keys f)) (OMap (snd key)) true)
       = Raise (ValueError
           "integer orders must be at least 1 when causal is True.").
Proof.
  intros Hm Hf Hne Hnd.
  destruct (ARDL_init_inv _ Hm)
    as [_ [_ [Hacc [_ [_ [_ [_ [_ [_ [_ [_ [_ [_ [_ [_ [_
         [_ [Hkeys _]]]]]]]]]]]]]]]]]].
  rewrite Hf in Hkeys.
  assert (Hnonempty : forall kv, In kv (_order base) -> snd kv <> []).
  { intros kv Hkv. rewrite Forall_forall in Hacc. now apply Hacc. }
  exists (LInt 0, map (fun kv => (fst kv, OInt false 0)) (_order base)).
  assert (Hx : extra_keys
                 (keys_of (labels f) (Z.to_nat (shape1 (values f))))
                 (map (fun kv : key * list Z => (fst kv, OInt false 0))
                      (_order base)) = []).
  { apply extra_keys_none. intros k Hk. rewrite map_map in Hk.
    cbn [fst] in Hk. now apply Hkeys. }
  split; [|split; [|split; [|split]]].
  - apply (@in_glob_perms args base Hm). split; [constructor|].
    rewrite (@glob_width_closed args base Hm). cbn [length].
    pose proof (@order_columns_positive false _ Hacc Hne). lia.
  - now apply empty_perm_key.
  - reflexivity.
  - cbn [snd]. unfold frame_keys. rewrite mapping_checked.
    + rewrite <- (map_map fst (fun k => (k, OInt false 0))).
      rewrite final_order_int. now rewrite map_map.
    + exact Hx.
    + intros kv Hkv. apply in_map_iff in Hkv.
      destruct Hkv as [kv' [<- _]]. reflexivity.
  - cbn [snd]. unfold frame_keys. rewrite mapping_unchecked by exact Hx.
    destruct (_order base) as [|kv ord]; [congruence|]. reflexivity.
Qed.

Lemma is_raise_bind_l {X Y : Type} (c : result X) (k : X -> result Y) :
  is_raise c -> is_raise (bind c k).
Proof. intros [e ->]. now exists e. Qed.

Lemma ARDL_init_order_raises (args : ARDL_args V) :
  is_raise (snd (_format_order (option_map frame_keys (a_exog args))
                               (a_order args) (a_causal args))) ->
  is_raise (ARDL_init args).
Proof.
  intros Hr. unfold ARDL_init.
  apply is_raise_bind. intros [] _.
  apply is_raise_bind. intros fx _.
  apply is_raise_bind_l. unfold _initialize_model.
  apply is_raise_bind. intros endog_reg0 _.
  apply is_raise_bind. intros endog_reg _.
  apply is_raise_bind_l. exact Hr.
Qed.

(** With [causal=True], a global search in which the candidate without
    columns has the lowest criterion does not return: the key recorded
    for that candidate asks for order 0 of every exogenous variable,
    which the constructor of the selected model refuses. *)
Theorem glob_empty_selection_raises (args : ARDL_args V) (maxlag : Z)
    (maxorder : order_spec) (scores : ARDL V -> ics_table) (ic : ic_name)
    (base : ARDL V) :
  ARDL_init (with_orders args (LInt maxlag) maxorder (a_hold_back args))
  = Ok base ->
  a_causal args = true ->
  _order base <> [] ->
  NoDup (map fst (_order base)) ->
  select_order (scores base) ic = perm_to_tuple (glob_columns base) [] ->
  is_raise (ardl_select_order args maxlag maxorder scores ic).
Proof.
  intros Hm Hc Hne Hnd Hsel.
  destruct (ARDL_init_inv _ Hm)
    as [[_ [E2 _]] [_ [Hacc [_ [_ [_ [_ [_ [_ [_ [_ [_ [_ [_ [_ [_
         [_ [Hkeys [Hcols _]]]]]]]]]]]]]]]]]]].
  cbn [with_orders a_exog] in E2.
  destruct (Hcols Hne) as [f [Hf _]]. rewrite Hf in Hkeys.
  assert (Hnonempty : forall kv, In kv (_order base) -> snd kv <> []).
  { intros kv Hkv. rewrite Forall_forall in Hacc. now apply Hacc. }
  rewrite (empty_perm_key base Hnonempty Hnd) in Hsel.
  unfold ardl_select_order.
  change (ARDL_init (with_orders args (LInt maxlag) maxorder
                                 (a_hold_back args)) = Ok base) in Hm.
  unfold with_orders in Hm. rewrite Hm. cbn [bind].
  rewrite Hsel. cbn [bind fst snd].
  apply is_raise_bind_l. apply ARDL_init_order_raises.
  cbn [a_exog a_order a_causal]. rewrite <- E2, Hf, Hc.
  cbn [option_map]. unfold frame_keys.
  rewrite mapping_unchecked.
  - destruct (_order base) as [|kv ord]; [congruence|].
    eexists. reflexivity.
  - apply extra_keys_none. intros k Hk. rewrite map_map in Hk.
    cbn [fst] in Hk. now apply Hkeys.
Qed.

End GlobalSearch.

(** ** The candidate without columns *)

Section GlobalSelection.


End GlobalSelection.

(** ** Estimation without regressors *)

Section Fit.

Context {V : Type} {Sc : Scalar V}.

Lemma dot_nil (row : list V) : dot row [] = s_zero.
Proof. unfold dot. now rewrite combine_nil. Qed.

(** A model without any column is not estimated: [fit] returns the empty
    parameter vector, whatever the estimator, and static in-sample
    predictions from these results are zero at every date of the range,
    also before the hold-back, where models with columns give missing
    values; the model is left as it was. *)
Theorem fit_without_regressors (args : ARDL_args V) (m : ARDL V)
    (ols : list V -> matrix V -> list V) (start end_ : Z) :
  ARDL_init args = Ok m ->
  n_columns m = 0 ->
  0 <= start <= end_ + 1 ->
  _hold_back m <= end_ + 1 <= Z.of_nat (nobs_of m) ->
  fit ols m = {| model := m; _params := [] |}
  /\ exists p,
       predict_from (model (fit ols m)) (_params (fit ols m)) start end_ 0
                    None None None None None = Ok p
       /\ p_model p = m
       /\ p_fcasts p = repeat s_zero (Z.to_nat (end_ + 1 - start)).
Proof.
  intros Hm Hn Hs He.
  assert (Hfit : fit ols m = {| model := m; _params := [] |}).
  { unfold fit. rewrite (@shape1_x _ _ args m Hm), Hn. reflexivity. }
  split; [exact Hfit|]. rewrite Hfit. cbn [model _params].
  destruct (ARDL_init_inv _ Hm) as [_ [Hlags _]].
  assert (Hl : endog_cols (_lags m) = _lags m).
  { pose proof (endog_cols_length Hlags) as Hlen.
    assert (Hfx : 0 <= shape1 (_fixed m))
      by (unfold shape1; destruct (_fixed m); lia).
    unfold n_columns in Hn.
    destruct (_lags m) as [|z l]; [reflexivity|].
    rewrite Hlen in Hn. cbn [length] in Hn. lia. }
  destruct (@static_predictions_closed _ _ args m [] start end_ Hm)
    as [p [Hp [Hmodel [Hlen Hnth]]]]; try assumption.
  { now rewrite Hn. }
  exists p. split; [exact Hp|]. split; [exact Hmodel|].
  apply nth_ext with (d := s_nan) (d' := s_nan).
  - rewrite repeat_length. lia.
  - intros t Ht. rewrite (Hnth t Ht), dot_nil.
    rewrite nth_repeat_lt; [reflexivity|]. lia.
Qed.

End Fit.

(** ** The model of the selected candidate *)

Section SelectedModel.

Context {V : Type} {Sc : Scalar V}.

Lemma max_or_0_incl (l l' : list Z) :
  valid_lags l -> incl l' l -> max_or_0 l' <= max_or_0 l.
Proof.
  intros Hv Hincl. destruct (max_or_0_valid Hv) as [H0 Hmax].
  destruct l' as [|a l']; [exact H0|]. cbn [max_or_0].
  apply Hmax, Hincl, max_list_in.
Qed.

Lemma candidate_constructs (args : ARDL_args V) (base : ARDL V)
    (lags' : lags_spec) (order' : order_spec) (ord' : list (key * list Z)) :
  ARDL_init args = Ok base ->
  lags' = LNone \/ (exists k, lags' = LInt k /\ 0 <= k) ->
  incl (lags_of lags') (_lags base) ->
  (length (lags_of lags') <= length (_lags base))%nat ->
  snd (_format_order (option_map frame_keys (a_exog args)) order'
                     (a_causal args)) = Ok ord' ->
  (forall kv', In kv' ord' ->
     exists kv, In kv (_order base) /\ fst kv = fst kv'
                /\ incl (snd kv') (snd kv)) ->
  (length (concat (map snd ord'))
   <= length (concat (map snd (_order base))))%nat ->
  exists model,
    ARDL_init (with_orders args lags' order' (Some (_hold_back base)))
    = Ok model
    /\ _hold_back model = _hold_back base
    /\ _lags model = lags_of lags'
    /\ _order model = ord'.
Proof.
  intros Hm Hl' Hincl Hlen Hord' Hsub Hcnt.
  pose proof (n_columns_nonneg base) as Hnc.
  destruct (ARDL_init_inv _ Hm)
    as [[E1 [E2 [E3 [E4 E5]]]] [Hlags [Hacc [[Hm0 [Hhn [Hml [Hmo Hhb]]]]
         [[Hfl Hrect] [Hx [Hy [Hsh [Hdet [Hn [Hord [Hfix [[mo [Hmo' Hmax]]
         [Hc [Hnames [Hfn [Hxf [Hkeys [Hcols Hmlt]]]]]]]]]]]]]]]]]]].
  assert (Hv' : valid_lags (lags_of lags'))
    by (intros z Hz; apply Hlags; now apply Hincl).
  pose proof (max_or_0_incl Hlags Hincl) as Hmax'.
  pose proof (format_order_accepted _ _ _ Hord') as Hacc'.
  destruct (max_order_of_ok (map snd ord') 0) as [mo' Hmo1].
  { intros l Hl. apply in_map_iff in Hl. destruct Hl as [kv [<- Hkv]].
    rewrite Forall_forall in Hacc'. now apply Hacc'. }
  assert (Hmo'le : 0 <= mo' <= _maxlag base).
  { pose proof (max_order_of_inv _ _ Hmo1) as [H0 _]. split; [exact H0|].
    destruct (max_order_of_attained _ _ Hmo1) as [->|[l [Hl Hin]]]; [lia|].
    apply in_map_iff in Hl. destruct Hl as [kv' [<- Hkv']].
    destruct (Hsub kv' Hkv') as [kv [Hkv [_ Hi]]].
    apply (Hmo kv); [assumption | now apply Hi]. }
  assert (Hcols' : n_columns base
                   <= Z.of_nat (length (a_endog args)) - _hold_back base).
  { rewrite shape1_map_seq in Hsh by assumption.
    rewrite design_row_length in Hsh by (assumption || lia).
    rewrite Hx in Hsh. unfold shape0 in Hsh.
    rewrite length_map, length_seq in Hsh. lia. }
  pose proof Hm as Hm_copy.
  unfold ARDL_init in Hm.
  apply bind_ok in Hm. destruct Hm as [[] [Hbase Hm]].
  apply bind_ok in Hm. destruct Hm as [fx [Hfx Hm]].
  apply bind_ok in Hm. destruct Hm as [m0 [Hm0' Hm]].
  assert (Hbase' : AutoReg_init (with_orders args lags' order'
                                   (Some (_hold_back base))) = Ok tt).
  { unfold AutoReg_init in Hbase |- *.
    cbn [with_orders a_lags a_hold_back a_endog a_exog].
    assert (Har' : match lags' with
                   | LNone => Ok []
                   | LInt k =>
                       if k <? 0
                       then Raise (ValueError
                                     "lags must be a positive scalar.")
                       else Ok (range 1 (k + 1))
                   | LList l =>
                       if existsb (fun z => z <? 1) l || has_dup l
                       then Raise (ValueError
                         "All values in lags must be positive and distinct.")
                       else Ok l
                   end = Ok (lags_of lags')).
    { destruct Hl' as [->|[k [-> Hk]]]; [reflexivity|].
      destruct (Z.ltb_spec k 0); [lia | reflexivity]. }
    rewrite Har'. cbn [bind].
    destruct (Z.ltb_spec (_hold_back base) (max_or_0 (lags_of lags')));
      [lia|]. cbn [bind].
    apply bind_ok in Hbase. destruct Hbase as [ar [_ Hbase]].
    apply bind_ok in Hbase. destruct Hbase as [[] [_ Hbase]].
    apply bind_ok in Hbase. destruct Hbase as [[] [Hex _]].
    rewrite Hex. cbn [bind]. unfold _setup_regressors.
    destruct (Z.ltb_spec (Z.of_nat (length (a_endog args))
                          - _hold_back base) 0); [lia|].
    reflexivity. }
  assert (Hfixed : fst fx = _fixed base).
  { assert (Hc0 : exists c, base = set_causal m0 c).
    { destruct (_order m0).
      - injection Hm as <-. now eexists.
      - apply bind_ok in Hm. destruct Hm as [mins [_ Hm]].
        apply bind_ok in Hm. destruct Hm as [lowest [_ Hm]].
        injection Hm as <-. now eexists. }
    destruct Hc0 as [c ->]. cbn [set_causal _fixed].
    apply initialize_model_inv in Hm0'.
    - now destruct Hm0' as [[_ [_ [F3 _]]] _].
    - now rewrite <- E4.
    - intros f Hf. cbn [s_orig_exog s_endog] in *. rewrite <- E2 in Hf.
      now destruct (Hxf f Hf) as [_ [Hlen' _]]. }
  assert (Hok : is_ok (ARDL_init (with_orders args lags' order'
                                    (Some (_hold_back base))))).
  { unfold ARDL_init. rewrite Hbase'. cbn [bind].
    cbn [with_orders a_fixed a_endog a_ynames a_exog a_det a_hold_back
         a_causal a_lags a_order].
    rewrite Hfx. cbn [bind].
    match goal with
    | |- is_ok (bind (_initialize_model ?self ?l ?o) _) =>
        destruct (@initialize_model_ok V Sc self l o ord' mo')
          as [m1 Hm1]
    end; cbn [s_endog s_orig_exog s_fixed s_hold_back s_causal
              s_deterministics].
    - exact Hv'.
    - lia.
    - exact Hord'.
    - exact Hmo1.
    - intros Hne.
      assert (Hbne : _order base <> []).
      { destruct ord' as [|kv' t]; [congruence|].
        destruct (Hsub kv' (or_introl eq_refl)) as [kv [Hkv _]].
        intros E. rewrite E in Hkv. contradiction. }
      destruct (Hcols Hbne) as [f [Hf Hcol]].
      exists f. rewrite <- E2. split; [assumption|].
      destruct (Hxf f Hf) as [_ [Hlen' _]].
      split; [assumption|]. split; [lia|].
      intros kv' Hkv'. destruct (Hsub kv' Hkv') as [kv [Hkv [<- _]]].
      now apply Hcol.
    - now rewrite Hfixed.
    - lia.
    - unfold stacked_row.
      rewrite !length_app, !length_map, exog_part_length.
      rewrite (endog_cols_length Hv').
      rewrite Hfixed.
      assert (Hw : Z.of_nat (length (nth 0 (_fixed base) []))
                   = shape1 (_fixed base))
        by (apply rectangular_rows; [assumption | lia]).
      unfold n_columns in Hcols'.
      rewrite (endog_cols_length Hlags), E3 in Hcols'.
      unfold det_row. rewrite length_map. lia.
    - rewrite Hm1. cbn [bind].
      apply causal_step_ok with (c := a_causal args).
      apply initialize_model_inv in Hm1.
      + destruct Hm1 as [_ [Hord1 _]].
        now apply format_order_accepted in Hord1.
      + exact Hv'.
      + intros f Hf. cbn [s_orig_exog s_endog] in *. rewrite <- E2 in Hf.
        now destruct (Hxf f Hf) as [_ [Hlen' _]]. }
  destruct Hok as [model Hmodel]. exists model. split; [exact Hmodel|].
  destruct (ARDL_init_inv _ Hmodel)
    as [[_ [_ [_ [F4 _]]]] [_ [_ [[_ [_ [_ [_ Fhb]]]] [_ [_ [_ [_ [_ [_
         [Ford _]]]]]]]]]]].
  cbn [with_orders a_lags a_hold_back a_exog a_order a_causal] in *.
  repeat split; [assumption | assumption | congruence].
Qed.

Lemma prefix_orders_sub (order : list (key * list Z)) (ks : list Z) :
  forall kv', In kv' (prefix_orders order ks) ->
    exists kv, In kv order /\ fst kv = fst kv'
               /\ incl (snd kv') (snd kv).
Proof.
  unfold prefix_orders. revert ks.
  induction order as [|kv order IH]; intros [|k ks] kv' Hin;
    cbn in Hin; try contradiction.
  apply in_app_or in Hin. destruct Hin as [Hin|Hin].
  - destruct (k =? 0); [contradiction|]. destruct Hin as [<-|[]].
    exists kv. cbn [fst snd]. split; [now left|]. split; [reflexivity|].
    intros z Hz. revert Hz. generalize (Z.to_nat k). clear.
    induction (snd kv) as [|a l IHl]; intros [|n] Hz; try contradiction.
    destruct Hz as [<-|Hz]; [now left | right; eauto].
  - destruct (IH ks kv' Hin) as [kv0 [H1 H2]].
    exists kv0. split; [now right | assumption].
Qed.

Lemma prefix_orders_count (order : list (key * list Z)) (ks : list Z) :
  (length (concat (map snd (prefix_orders order ks)))
   <= length (concat (map snd order)))%nat.
Proof.
  unfold prefix_orders. revert ks.
  induction order as [|kv order IH]; intros [|k ks];
    cbn [combine map concat app length]; try lia.
  rewrite map_app, concat_app, !length_app. specialize (IH ks).
  cbn [fst snd].
  assert (Hk : (length (concat (map snd
                  (if (k =? 0)%Z then []
                   else [(fst kv, firstn (Z.to_nat k) (snd kv))])))
                <= length (snd kv))%nat).
  { destruct (k =? 0)%Z; cbn [map concat length snd]; [lia|].
    rewrite app_nil_r, length_firstn. lia. }
  lia.
Qed.

Lemma nested_keys_members (args : ARDL_args V) (base : ARDL V)
    (c : bool) (keys : list sel_key) (key : sel_key) :
  ARDL_init args = Ok base ->
  nested_keys base c = Ok keys -> In key keys ->
  exists k0 ks,
    0 <= k0 <= Z.of_nat (length (_lags base))
    /\ Forall2 (fun k kv => 0 <= k <= Z.of_nat (length (snd kv)))
               ks (_order base)
    /\ key = nested_key_of c (map fst (_order base)) k0 ks.
Proof.
  intros Hm Hkeys Hin. unfold nested_keys in Hkeys.
  apply map_result_inv in Hkeys.
  assert (Hio : exists io, In io (product (iter_orders base))
                           /\ nested_key c (var_names base) io = Ok key).
  { clear - Hkeys Hin. induction Hkeys as [|io k l ks Hk _ IH];
      [contradiction|].
    destruct Hin as [<-|Hin].
    - exists io. split; [now left | assumption].
    - destruct (IH Hin) as [io' [H1 H2]]. exists io'.
      split; [now right | assumption]. }
  destruct Hio as [io [Hio Hkey]].
  apply (@nested_candidates _ _ args base Hm) in Hio.
  destruct Hio as [k0 [ks [-> [Hk0 Hks]]]].
  destruct (@iter_orders_closed _ _ args base Hm) as [_ Hvars].
  rewrite Hvars, nested_key_candidate in Hkey
    by (rewrite length_map; now apply Forall2_length in Hks).
  injection Hkey as <-. now exists k0, ks.
Qed.

Lemma select_order_member (ics : ics_table) (ic : ic_name) :
  (exists row, In row ics /\ ic_ltb (ic_of ic (snd row)) IcInf = true) ->
  exists key e, select_order ics ic = Ok key /\ In (key, e) ics.
Proof.
  intros [row [Hrow Hlt]].
  pose proof (select_loop_inv ics ic) as Hinv.
  unfold select_order, loop_inv in *.
  destruct (snd (select_loop ics ic)) as [k|].
  - destruct Hinv as [i [e [Hnth _]]]. exists k, e.
    split; [reflexivity|]. now apply nth_error_In in Hnth.
  - destruct Hinv as [_ Hall]. rewrite (Hall row Hrow) in Hlt.
    discriminate.
Qed.

(** The nested search ends with a constructed model. For a base model
    built from the data with an integer [maxlag] and consecutive
    exogenous lags, a table of scores whose keys are keys of the nested
    search and that holds a value below infinity makes
    [ardl_select_order] return: the selected model has the hold-back of
    the base model, the first [k0] lags of the response and the first
    lags of each exogenous variable that its key names. *)
Theorem nested_selection_constructs (args : ARDL_args V) (maxlag : Z)
    (maxorder : order_spec) (scores : ARDL V -> ics_table) (ic : ic_name)
    (base : ARDL V) (keys : list sel_key) :
  ARDL_init (with_orders args (LInt maxlag) maxorder (a_hold_back args))
  = Ok base ->
  a_exog args <> None ->
  (forall kv, In kv (_order base) ->
     snd kv = range (Z.b2z (a_causal args))
                    (Z.b2z (a_causal args) + Z.of_nat (length (snd kv)))) ->
  nested_keys base (a_causal args) = Ok keys ->
  (forall row, In row (scores base) -> In (fst row) keys) ->
  (exists row, In row (scores base)
               /\ ic_ltb (ic_of ic (snd row)) IcInf = true) ->
  exists model k0 ks,
    ardl_select_order args maxlag maxorder scores ic
    = Ok (model, scores base)
    /\ 0 <= k0 <= Z.of_nat (length (_lags base))
    /\ Forall2 (fun k kv => 0 <= k <= Z.of_nat (length (snd kv)))
               ks (_order base)
    /\ _hold_back model = _hold_back base
    /\ _lags model = firstn (Z.to_nat k0) (_lags base)
    /\ _order model = prefix_orders (_order base) ks.
Proof.
  intros Hm Hexog Hcont Hkeys Htable Hfinite.
  destruct (@select_order_member (scores base) ic Hfinite)
    as [key [e [Hsel Hin]]].
  pose proof (Htable _ Hin) as Hkey. cbn [fst] in Hkey.
  destruct (@nested_keys_members
              (with_orders args (LInt maxlag) maxorder (a_hold_back args))
              base (a_causal args) keys key Hm Hkeys Hkey)
    as [k0 [ks [Hk0 [Hks ->]]]].
  destruct (ARDL_init_inv _ Hm) as [[_ [E2 [_ [E4 _]]]] _].
  cbn [with_orders a_exog a_lags lags_of] in E2, E4.
  destruct (a_exog args) as [f|] eqn:Ef; [|congruence].
  assert (Hlags' : lags_of (if k0 =? 0 then LNone else LInt k0)
                   = firstn (Z.to_nat k0) (_lags base)).
  { rewrite E4 in *. rewrite range_length in Hk0.
    destruct (Z.le_gt_cases 0 maxlag) as [Hge|Hneg].
    - replace (maxlag + 1) with (1 + maxlag) by lia.
      rewrite firstn_range by lia.
      destruct (Z.eqb_spec k0 0) as [->|]; cbn [lags_of]; f_equal; lia.
    - assert (k0 = 0) as -> by lia. reflexivity. }
  destruct (@candidate_constructs
              (with_orders args (LInt maxlag) maxorder (a_hold_back args))
              base (if k0 =? 0 then LNone else LInt k0)
              (OMap (snd (nested_key_of (a_causal args)
                            (map fst (_order base)) k0 ks)))
              (prefix_orders (_order base) ks) Hm)
    as [model [Hmodel [Hhb [Hl Ho]]]].
  - destruct (Z.eqb_spec k0 0); [now left | right].
    exists k0. split; [reflexivity | lia].
  - rewrite Hlags'. intros z Hz. clear - Hz. revert Hz.
    generalize (Z.to_nat k0).
    induction (_lags base) as [|a l IH]; intros [|n] Hz; try contradiction.
    destruct Hz as [<-|Hz]; [now left | right; eauto].
  - rewrite Hlags', length_firstn. lia.
  - cbn [with_orders a_exog a_causal]. rewrite Ef. cbn [option_map].
    exact (@nested_key_orders _ _
             (with_orders args (LInt maxlag) maxorder (a_hold_back args))
             base f (a_causal args) k0 ks Hm E2 Hcont Hks).
  - apply prefix_orders_sub.
  - apply prefix_orders_count.
  - exists model, k0, ks.
    split; [|repeat split; try assumption; try lia; congruence].
    unfold ardl_select_order.
    change (ARDL_init (with_orders args (LInt maxlag) maxorder
                                   (a_hold_back args)) = Ok base) in Hm.
    unfold with_orders in Hm. rewrite Hm. cbn [bind].
    rewrite Hsel. cbn [bind].
    unfold nested_key_of in Hmodel |- *. cbn [fst snd] in Hmodel |- *.
    unfold with_orders in Hmodel.
    cbn [a_endog a_ynames a_exog a_det a_fixed a_causal] in Hmodel.
    rewrite Hmodel. reflexivity.
Qed.

End SelectedModel.

(** ** The keys of the global search *)

Section GlobalKeys.

Context {V : Type} {Sc : Scalar V}.

Lemma dict_append_spec (d : list (key * list Z)) (k : key) (v : Z) :
  NoDup (map fst d) ->
  NoDup (map fst (dict_append d k v))
  /\ (forall k', In k' (map fst (dict_append d k v))
                 <-> k' = k \/ In k' (map fst d))
  /\ (forall k' l',
        In (k', l') (dict_append d k v)
        <-> (k' <> k /\ In (k', l') d)
            \/ (k' = k
                /\ ((exists l, In (k, l) d /\ l' = l ++ [v])
                    \/ (~ In k (map fst d) /\ l' = [v])))).
Proof.
  induction d as [|[k0 l0] d IH]; intros Hnd.
  - cbn. split; [repeat constructor; intros []|]. split.
    + intros k'. split; [intros [<-|[]]; now left | intros [->|[]]; now left].
    + intros k' l'. split.
      * intros [E|[]]. injection E as <- <-. right. split; [reflexivity|].
        right. split; [intros [] | reflexivity].
      * intros [[_ []]|[-> [[l [[] _]]|[_ ->]]]]. now left.
  - inversion Hnd as [|a b Hnot Hnd']; subst.
    destruct (IH Hnd') as [IH1 [IH2 IH3]]. cbn [dict_append].
    destruct (key_eqb k0 k) eqn:Ek.
    + apply key_eqb_eq in Ek. subst k0. cbn [map fst].
      split; [now constructor|]. split.
      * intros k'. cbn [In]. intuition (subst; auto).
      * intros k' l'. cbn [In]. split.
        -- intros [E|Hin].
           ++ injection E as <- <-. right. split; [reflexivity|].
              left. exists l0. split; [now left | reflexivity].
           ++ left. split; [|now right]. intros ->. apply Hnot.
              now apply (in_map fst) in Hin.
        -- intros [[Hne [E|Hin]]|[-> [[l [[E|Hin] ->]]|[Hn _]]]].
           ++ injection E as <- _. congruence.
           ++ now right.
           ++ injection E as <-. now left.
           ++ exfalso. apply Hnot. now apply (in_map fst) in Hin.
           ++ exfalso. apply Hn. now left.
    + assert (Hne0 : k0 <> k).
      { intros ->. rewrite (proj2 (key_eqb_eq k k) eq_refl) in Ek.
        discriminate. }
      cbn [map fst]. split; [|split].
      * constructor; [|assumption]. rewrite IH2. intros [E|H]; auto.
      * intros k'. cbn [In]. rewrite IH2. intuition (subst; auto).
      * intros k' l'. cbn [In]. rewrite IH3. split.
        -- intros [E|[[Hne Hin]|[-> [[l [Hin ->]]|[Hn ->]]]]].
           ++ injection E as <- <-. left. split; [assumption | now left].
           ++ left. split; [assumption | now right].
           ++ right. split; [reflexivity|]. left. exists l.
              split; [now right | reflexivity].
           ++ right. split; [reflexivity|]. right.
              split; [|reflexivity]. intros [E|H]; auto.
        -- intros [[Hne [E|Hin]]|[-> [[l [[E|Hin] ->]]|[Hn ->]]]].
           ++ now left.
           ++ right. left. now split.
           ++ injection E as E _. congruence.
           ++ right. right. split; [reflexivity|]. left. now exists l.
           ++ right. right. split; [reflexivity|]. right.
              split; [|reflexivity]. intros H. apply Hn. now right.
Qed.

Lemma selected_lags_snoc (sel : list column_key) (ck : column_key)
    (k : option key) :
  selected_lags (sel ++ [ck]) k
  = selected_lags sel k
    ++ (if same_variable (fst ck) k then [snd ck] else []).
Proof.
  unfold selected_lags. rewrite filter_app, map_app. cbn [filter].
  now destruct (same_variable (fst ck) k).
Qed.

Lemma same_variable_some (a b : key) :
  same_variable (Some a) (Some b) = true <-> a = b.
Proof. cbn. apply key_eqb_eq. Qed.

Lemma grouped_columns (sel : list column_key) :
  let st :=
    fold_left (fun (st : list (key * list Z) * list Z) (ck : column_key) =>
                 match fst ck with
                 | None => (fst st, snd st ++ [snd ck])
                 | Some k => (dict_append (fst st) k (snd ck), snd st)
                 end) sel ([], []) in
  snd st = selected_lags sel None
  /\ NoDup (map fst (fst st))
  /\ (forall k l, In (k, l) (fst st)
                  <-> l <> [] /\ l = selected_lags sel (Some k)).
Proof.
  induction sel as [|ck sel IH] using rev_ind.
  - cbn. split; [reflexivity|]. split; [constructor|].
    intros k l. split; [contradiction | intros [H ->]; now apply H].
  - cbv zeta in IH |- *. rewrite fold_left_app. cbn [fold_left].
    set (st := fold_left _ sel ([], [])) in *.
    destruct IH as [Hy [Hnd Hd]].
    destruct ck as [[k|] v]; cbn [fst snd].
    + destruct (@dict_append_spec (fst st) k v Hnd) as [S1 [S2 S3]].
      split; [|split; [exact S1|]].
      * rewrite selected_lags_snoc. cbn [fst same_variable].
        now rewrite app_nil_r.
      * intros k' l'. rewrite S3, selected_lags_snoc. cbn [fst snd].
        destruct (key_eqb k k') eqn:Ek.
        -- apply key_eqb_eq in Ek. subst k'.
           replace (same_variable (Some k) (Some k)) with true
             by (symmetry; now apply same_variable_some).
           split.
           ++ intros [[Hne _]|[_ [[l [Hin ->]]|[Hn ->]]]]; [congruence| |].
              ** apply Hd in Hin. destruct Hin as [_ <-].
                 split; [now destruct l | reflexivity].
              ** split; [discriminate|].
                 destruct (selected_lags sel (Some k)) as [|z l] eqn:El;
                   [reflexivity|].
                 exfalso. apply Hn. apply (in_map fst) with (x := (k, z :: l)).
                 apply Hd. split; [discriminate | now rewrite El].
           ++ intros [_ ->]. right. split; [reflexivity|].
              destruct (selected_lags sel (Some k)) as [|z l] eqn:El.
              ** right. split; [|reflexivity]. intros Hin.
                 apply in_map_iff in Hin. destruct Hin as [[k1 l1] [E Hin]].
                 cbn in E. subst k1. apply Hd in Hin.
                 destruct Hin as [H1 H2]. rewrite El in H2. congruence.
              ** left. exists (z :: l). split; [|reflexivity].
                 apply Hd. split; [discriminate | now rewrite El].
        -- assert (Hne : k' <> k).
           { intros ->. rewrite (proj2 (key_eqb_eq k k) eq_refl) in Ek.
             discriminate. }
           cbn [same_variable]. rewrite Ek, app_nil_r. rewrite <- Hd.
           split; [intros [[_ H]|[E _]]; [assumption | congruence]|].
           intros H. left. now split.
    + split; [|split; [exact Hnd|]].
      * rewrite selected_lags_snoc. cbn [fst snd same_variable].
        now rewrite Hy.
      * intros k l. rewrite selected_lags_snoc. cbn [fst same_variable].
        rewrite app_nil_r. apply Hd.
Qed.

Lemma selected_fold (cols : list column_key) (perm : list Z) :
  Forall (fun v => 0 <= v < Z.of_nat (length cols)) perm ->
  forall st,
    fold_result (fun (st : list (key * list Z) * list Z) v =>
        ck <- index cols v ;;
        match fst ck with
        | None => Ok (fst st, snd st ++ [snd ck])
        | Some k => Ok (dict_append (fst st) k (snd ck), snd st)
        end) perm st
    = Ok (fold_left
            (fun (st : list (key * list Z) * list Z) (ck : column_key) =>
               match fst ck with
               | None => (fst st, snd st ++ [snd ck])
               | Some k => (dict_append (fst st) k (snd ck), snd st)
               end) (selected_columns cols perm) st).
Proof.
  induction 1 as [|v perm Hv _ IH]; intros st; [reflexivity|].
  cbn [fold_result selected_columns map fold_left].
  rewrite (@index_ok _ cols v (None, 0)) by assumption. cbn [bind].
  destruct (fst (nth (Z.to_nat v) cols (None, 0)));
    cbn [bind]; apply IH.
Qed.

Lemma defaults_appended (cols : list column_key) :
  forall d0 : list (key * option (list Z)),
    exists rest,
      fold_left (fun d (ck : column_key) =>
                   match fst ck with
                   | Some k => dict_default d k None
                   | None => d
                   end) cols d0
      = d0 ++ rest
      /\ Forall (fun kv => snd kv = None) rest.
Proof.
  induction cols as [|ck cols IH]; intros d0.
  - exists []. split; [now rewrite app_nil_r | constructor].
  - cbn [fold_left]. destruct (fst ck) as [k|]; [|apply IH].
    change (dict_default d0 k (@None (list Z)))
      with (if key_in k (map fst d0) then d0 else d0 ++ [(k, None)]).
    destruct (key_in k (map fst d0)); [apply IH|].
    destruct (IH (d0 ++ [(k, None)])) as [rest [Hf Hr]].
    exists ((k, None) :: rest). rewrite Hf.
    split; [now rewrite <- app_assoc|]. now constructor.
Qed.

Lemma grouped_orders_expand (c : bool) (d : list (key * list Z))
    (rest : list (key * option (list Z))) :
  Forall (fun kv => snd kv = None) rest ->
  final_order c
    (map (fun kv : key * option (list Z) =>
            (fst kv,
             match snd kv with
             | None => ONone
             | Some l => OSeq (map EInt l)
             end))
         (map (fun kv => (fst kv, Some (snd kv))) d ++ rest))
  = Ok d.
Proof.
  intros Hr. unfold final_order.
  rewrite map_result_ok with
    (g := fun kv : key * order_value =>
            match snd kv with
            | OSeq l => [(fst kv, map int_of l)]
            | _ => []
            end).
  - cbn [bind]. f_equal. rewrite map_app, map_app, concat_app, !map_map.
    cbn [fst snd].
    assert (H1 : concat (map (fun x : key * list Z =>
                                [(fst x, map int_of (map EInt (snd x)))]) d)
                 = d).
    { induction d as [|[k l] d IH]; [reflexivity|].
      cbn [map concat app fst snd]. rewrite IH. f_equal. f_equal.
      rewrite map_map. cbn [int_of]. apply map_id. }
    assert (H2 : concat (map (fun x : key * option (list Z) =>
                    match match snd x with
                          | None => ONone
                          | Some l => OSeq (map EInt l)
                          end with
                    | OSeq l => [(fst x, map int_of l)]
                    | _ => []
                    end) rest) = []).
    { induction Hr as [|kv rest Hkv _ IH]; [reflexivity|].
      cbn [map concat]. now rewrite Hkv, IH. }
    rewrite H1, H2. apply app_nil_r.
  - intros kv Hin. apply in_map_iff in Hin.
    destruct Hin as [[k o] [<- Hin]]. cbn [fst snd].
    apply in_app_or in Hin. destruct Hin as [Hin|Hin].
    + apply in_map_iff in Hin. destruct Hin as [kv' [E _]].
      injection E as _ <-. reflexivity.
    + rewrite Forall_forall in Hr. specialize (Hr _ Hin). cbn in Hr.
      subst o. reflexivity.
Qed.

Lemma subseq_incl {A : Type} (p l : list A) : subseq p l -> incl p l.
Proof.
  induction 1 as [l|a p l _ IH|a p l _ IH]; intros x Hx.
  - contradiction.
  - destruct Hx as [<-|Hx]; [now left | right; now apply IH].
  - right. now apply IH.
Qed.

(** A key of the global search for a selection with at least one column
    names the lags of the columns selected. The constructor reads its
    first entry as the selected lags of the response and the last loop
    of [_format_order] reads the others as a mapping with one entry per
    exogenous variable of which a column is selected, holding the
    selected lags of that variable in the order of the columns. *)
Theorem glob_key_round_trip (args : ARDL_args V) (base : ARDL V)
    (perm : list Z) (c : bool) :
  ARDL_init args = Ok base ->
  In perm (glob_perms base) ->
  perm <> [] ->
  let sel := selected_columns (glob_columns base) perm in
  exists key fo,
    perm_to_tuple (glob_columns base) perm = Ok key
    /\ lags_of (fst key) = selected_lags sel None
    /\ final_order c (snd key) = Ok fo
    /\ NoDup (map fst fo)
    /\ (forall k l, In (k, l) fo
                    <-> l <> [] /\ l = selected_lags sel (Some k)).
Proof.
  intros Hm Hperm Hne sel.
  destruct (ARDL_init_inv _ Hm) as [_ [Hlags _]].
  assert (Hvalid : Forall (fun v => 0 <= v
                             < Z.of_nat (length (glob_columns base))) perm).
  { apply (@in_glob_perms _ _ args base Hm) in Hperm.
    destruct Hperm as [Hs _]. apply subseq_incl in Hs.
    rewrite (@glob_width_closed _ _ args base Hm) in Hs.
    rewrite glob_columns_length. apply Forall_forall. intros v Hv.
    apply Hs, in_range in Hv. lia. }
  pose proof (grouped_columns sel) as Hg. cbv zeta in Hg.
  set (st := fold_left _ sel ([], [])) in Hg.
  destruct Hg as [Hy [Hnd Hd]].
  destruct (defaults_appended (glob_columns base)
              (map (fun kv : key * list Z => (fst kv, Some (snd kv)))
                   (fst st))) as [rest [Hrest Hnone]].
  assert (Hpos : forall z, In z (selected_lags sel None) -> 1 <= z).
  { intros z Hz. unfold selected_lags in Hz. apply in_map_iff in Hz.
    destruct Hz as [[k z'] [E Hin]]. cbn in E. subst z'.
    apply filter_In in Hin. destruct Hin as [Hin Hk].
    destruct k; [discriminate|].
    unfold sel, selected_columns in Hin. apply in_map_iff in Hin.
    destruct Hin as [v [E Hv]].
    rewrite Forall_forall in Hvalid. specialize (Hvalid v Hv).
    assert (Hcol : In (@None key, z) (glob_columns base)).
    { rewrite <- E. apply nth_In. lia. }
    unfold glob_columns in Hcol. apply in_app_or in Hcol.
    destruct Hcol as [Hcol|Hcol].
    - apply in_map_iff in Hcol. destruct Hcol as [i [Ei Hi]].
      injection Ei as ->. apply Hlags. unfold ar_lags in Hi.
      destruct (_lags base); [contradiction | assumption].
    - apply in_flat_map in Hcol. destruct Hcol as [kv [_ Hcol]].
      apply in_map_iff in Hcol. destruct Hcol as [i [Ei _]].
      discriminate. }
  eexists. exists (fst st).
  split; [|split; [|split; [|split; [exact Hnd | exact Hd]]]].
  - unfold perm_to_tuple. destruct perm as [|v perm]; [congruence|].
    rewrite (@selected_fold (glob_columns base) (v :: perm) Hvalid).
    cbn [bind]. fold sel. fold st. reflexivity.
  - cbn [fst]. rewrite Hy.
    destruct (selected_lags sel None) as [|a [|b l]] eqn:El.
    + reflexivity.
    + specialize (Hpos a (or_introl eq_refl)).
      destruct a; [lia | reflexivity | reflexivity].
    + destruct a; reflexivity.
  - cbn [snd]. unfold column_key in Hrest. rewrite Hrest.
    now apply grouped_orders_expand.
Qed.

End GlobalKeys.

(** ** The further properties on the small models *)

Section FurtherWitnesses.

Lemma demo_two_constructs : ARDL_init demo_two_args = Ok demo_two_model.
Proof. vm_compute. reflexivity. Qed.

Lemma causal_flag_rederived_witness :
  ARDL_init demo_exog_args = Ok demo_exog_model
  /\ a_causal demo_exog_args = false
  /\ (_causal demo_exog_model = true
      <-> forall kv z, In kv (_order demo_exog_model) ->
                       In z (snd kv) -> 1 <= z).
Proof.
  refine (conj demo_exog_constructs (conj eq_refl _)).
  exact (proj1 (@causal_flag_rederived _ _ demo_exog_args demo_exog_model
                  demo_exog_constructs)).
Defined.

Lemma ardl_order_of_model_witness :
  ARDL_init demo_exog_args = Ok demo_exog_model
  /\ exists q,
       ardl_order demo_exog_model
       = Ok (max_or_0 (_lags demo_exog_model), q)
       /\ (_order demo_exog_model <> [] ->
           exists d,
             q = Some d
             /\ (exists kv, In kv (_order demo_exog_model) /\ In d (snd kv))
             /\ (forall kv z, In kv (_order demo_exog_model) ->
                              In z (snd kv) -> z <= d)
             /\ _maxlag demo_exog_model
                = Z.max (max_or_0 (_lags demo_exog_model)) d).
Proof.
  refine (conj demo_exog_constructs _).
  destruct (@ardl_order_of_model _ _ demo_exog_args demo_exog_model
              demo_exog_constructs) as [q [H1 [_ H3]]].
  exists q. exact (conj H1 H3).
Defined.

Lemma format_exog_blocks_witness :
  Forall (accepted false) demo_skip_order
  /\ demo_skip_order <> []
  /\ (forall kv, In kv demo_skip_order ->
        is_ok (get_column demo_short_frame (fst kv)))
  /\ exists mo,
       max_order_of (map snd demo_skip_order) 0 = Ok mo
       /\ (mo < 3 ->
           _format_exog (Some demo_short_frame) demo_skip_order
           = Ok ([(KStr "x", [[Some 5; Some 0]; [Some 6; Some 0];
                               [Some 7; Some 5]])],
                 [(KStr "x", ["x.L0"; "x.L2"])])).
Proof.
  assert (H1 : Forall (accepted false) demo_skip_order).
  { constructor; [|constructor]. split; [discriminate|].
    intros z [<-|[<-|[]]]; simpl; lia. }
  assert (H2 : demo_skip_order <> []) by discriminate.
  assert (H3 : forall kv, In kv demo_skip_order ->
                 is_ok (get_column demo_short_frame (fst kv))).
  { intros kv [<-|[]]. eexists. vm_compute. reflexivity. }
  refine (conj H1 (conj H2 (conj H3 _))).
  destruct (@format_exog_blocks _ _ false demo_short_frame demo_skip_order
              H1 H2 H3)
    as [mo [Hmo [_ [_ [Hok _]]]]].
  exists mo. split; [exact Hmo|]. intros Hlt.
  rewrite (Hok Hlt). vm_compute. reflexivity.
Defined.

Lemma predict_writes_lag_entries_only_witness :
  ARDL_init demo_args = Ok demo_model
  /\ _prepare_prediction (nobs_of demo_model) (Some 1) (Some 3)
     = Ok (1, 3, 0)
  /\ predict demo_model [Some 3] (Some 1) (Some 3) (Some 0)
             None None None None = Ok demo_prediction
  /\ length (_x (p_model demo_prediction)) = length (_x demo_model)
  /\ nth 3 (_x (p_model demo_prediction)) [] = nth 3 (_x demo_model) [].
Proof.
  assert (H1 : _prepare_prediction (nobs_of demo_model) (Some 1) (Some 3)
               = Ok (1, 3, 0)) by reflexivity.
  assert (H2 : predict demo_model [Some 3] (Some 1) (Some 3) (Some 0)
                       None None None None = Ok demo_prediction)
    by (vm_compute; reflexivity).
  assert (H3 : forall d : Z, Some 0 = Some d -> 0 <= d)
    by (intros d [= <-]; lia).
  refine (conj demo_constructs (conj H1 (conj H2 _))).
  destruct (@predict_writes_lag_entries_only _ _ demo_args demo_model
              [Some 3] (Some 1) (Some 3) (Some 0) None None None None
              1 3 0 demo_prediction demo_constructs H1 H3 H2)
    as [_ [K1 [_ [K2 _]]]].
  split; [exact K1|]. apply K2. right. vm_compute. reflexivity.
Defined.

Lemma predict_keeps_model_outside_dynamic_view_witness :
  ARDL_init demo_args = Ok demo_model
  /\ _prepare_prediction (nobs_of demo_model) (Some 1) (Some 6)
     = Ok (1, 4, 2)
  /\ exists p,
       predict demo_model [Some 3] (Some 1) (Some 6) (Some 0)
               None None None None = Ok p
       /\ p_model p = demo_model.
Proof.
  assert (H1 : _prepare_prediction (nobs_of demo_model) (Some 1) (Some 6)
               = Ok (1, 4, 2)) by reflexivity.
  refine (conj demo_constructs (conj H1 _)).
  destruct (@predict_keeps_model_outside_dynamic_view _ _ demo_args
              demo_model [Some 3] (Some 1) (Some 6) (Some 0) 1 4 2
              demo_constructs H1) as [Hkeep Hret].
  destruct Hret as [p Hp].
  - reflexivity.
  - right. split; reflexivity.
  - vm_compute. discriminate.
  - vm_compute. split; discriminate.
  - exists p. split; [exact Hp|].
    apply (Hkeep None None None None p); [|exact Hp].
    right. right. left. vm_compute. discriminate.
Defined.

Lemma in_sample_static_prediction_witness :
  ARDL_init demo_args = Ok demo_model
  /\ Z.of_nat (length [Some 3]) = n_columns demo_model
  /\ endog_cols (_lags demo_model) = _lags demo_model
  /\ exists p,
       predict_from demo_model [Some 3] 0 4 0 None None None None None
       = Ok p
       /\ p_model p = demo_model
       /\ Z.of_nat (length (p_fcasts p)) = 4 + 1 - 0.
Proof.
  assert (H2 : Z.of_nat (length [Some 3]) = n_columns demo_model)
    by reflexivity.
  assert (H3 : endog_cols (_lags demo_model) = _lags demo_model)
    by reflexivity.
  refine (conj demo_constructs (conj H2 (conj H3 _))).
  destruct (@in_sample_static_prediction _ _ demo_args demo_model [Some 3]
              0 4 demo_constructs) as [Hin _].
  - lia.
  - vm_compute. discriminate.
  - destruct (Hin H2 H3) as [p [Hp [Hm [Hl _]]]].
    + vm_compute. discriminate.
    + exists p. exact (conj Hp (conj Hm Hl)).
Defined.

Lemma replacement_exog_by_position_witness :
  values demo_exog_ab = values demo_exog_ba
  /\ labels demo_exog_ab <> labels demo_exog_ba
  /\ is_ok (check_exog demo_two_model demo_exog_ab "exog"
                       (orig_exog demo_two_model) true)
  /\ is_ok (check_exog demo_two_model demo_exog_ba "exog"
                       (orig_exog demo_two_model) true)
  /\ predict_from demo_two_model [Some 1; Some 1; Some 1] 1 4 0 None
                  (Some demo_exog_ab) None None None
     = predict_from demo_two_model [Some 1; Some 1; Some 1] 1 4 0 None
                    (Some demo_exog_ba) None None None.
Proof.
  assert (H1 : values demo_exog_ab = values demo_exog_ba) by reflexivity.
  assert (H3 : is_ok (check_exog demo_two_model demo_exog_ab "exog"
                                 (orig_exog demo_two_model) true))
    by (eexists; vm_compute; reflexivity).
  assert (H4 : is_ok (check_exog demo_two_model demo_exog_ba "exog"
                                 (orig_exog demo_two_model) true))
    by (eexists; vm_compute; reflexivity).
  refine (conj H1 (conj _ (conj H3 (conj H4 _)))).
  - discriminate.
  - exact (@replacement_exog_by_position _ _ demo_two_model
             [Some 1; Some 1; Some 1] 1 4 0 None demo_exog_ab demo_exog_ba
             None None None H1 H3 H4).
Defined.

Lemma demo_causal_constructs :
  ARDL_init demo_causal_args = Ok demo_causal_model.
Proof. vm_compute. reflexivity. Qed.

Lemma short_exog_oos_raises_witness :
  ARDL_init demo_causal_args = Ok demo_causal_model
  /\ _order demo_causal_model <> []
  /\ max_1step demo_causal_model = Ok (Fin 1)
  /\ shape0 (values demo_oos_1) < 2
  /\ is_raise (predict_from demo_causal_model [Some 1; Some 1] 6 5 2 None
                            None (Some demo_oos_1) None None).
Proof.
  assert (H2 : _order demo_causal_model <> []) by discriminate.
  assert (H4 : shape0 (values demo_oos_1) < 2) by reflexivity.
  refine (conj demo_causal_constructs (conj H2 (conj eq_refl (conj H4 _)))).
  apply (@short_exog_oos_raises _ _ demo_causal_args demo_causal_model
           [Some 1; Some 1] 6 5 2 None demo_oos_1 None None
           demo_causal_constructs H2).
  - vm_compute. discriminate.
  - reflexivity.
  - exact H4.
Defined.

Lemma exog_oos_rows_beyond_unused_witness :
  ARDL_init demo_exog_args = Ok demo_exog_model
  /\ rectangular (values demo_oos_3) = true
  /\ values (head_rows demo_oos_3 1) = values demo_oos_1
  /\ predict_from demo_exog_model [Some 1; Some 1; Some 1] 6 5 1 None
                  None (Some (head_rows demo_oos_3 1)) None None
     = predict_from demo_exog_model [Some 1; Some 1; Some 1] 6 5 1 None
                    None (Some demo_oos_3) None None.
Proof.
  assert (H2 : rectangular (values demo_oos_3) = true) by reflexivity.
  refine (conj demo_exog_constructs (conj H2 (conj eq_refl _))).
  apply (@exog_oos_rows_beyond_unused _ _ demo_exog_args demo_exog_model
           [Some 1; Some 1; Some 1] 6 5 1 None None demo_oos_3 None None
           demo_exog_constructs).
  - reflexivity.
  - exact H2.
Defined.

Lemma demo_unsorted_constructs :
  ARDL_init demo_unsorted_args = Ok demo_unsorted_model.
Proof. vm_compute. reflexivity. Qed.

Lemma hold_back_trims_rows_witness :
  ARDL_init demo_exog_args = Ok demo_exog_model
  /\ _maxlag demo_exog_model <= 3
  /\ n_columns demo_exog_model <= Z.of_nat (nobs_of demo_exog_model) - 3
  /\ exists m',
       ARDL_init (with_hold_back demo_exog_args (Some 3)) = Ok m'
       /\ _hold_back m' = 3
       /\ _lags m' = _lags demo_exog_model
       /\ _order m' = _order demo_exog_model.
Proof.
  assert (H2 : _maxlag demo_exog_model <= 3) by (vm_compute; discriminate).
  assert (H3 : n_columns demo_exog_model
               <= Z.of_nat (nobs_of demo_exog_model) - 3)
    by (vm_compute; discriminate).
  refine (conj demo_exog_constructs (conj H2 (conj H3 _))).
  destruct (@hold_back_trims_rows _ _ demo_exog_args demo_exog_model 3
              demo_exog_constructs) as [_ Hok].
  destruct (Hok H2 H3) as [m' [E1 [E2 [E3 [E4 _]]]]].
  exists m'. exact (conj E1 (conj E2 (conj E3 E4))).
Defined.

Lemma lag_repr_polynomial_witness :
  ARDL_init demo_unsorted_args = Ok demo_unsorted_model
  /\ shape1 (_deterministic_reg demo_unsorted_model)
     + Z.of_nat (length (_lags demo_unsorted_model))
     <= Z.of_nat (length [Some 5; Some 7])
  /\ exists ar,
       _lag_repr {| model := demo_unsorted_model;
                    _params := [Some 5; Some 7] |} = Ok ar
       /\ Z.of_nat (length ar) = max_or_0 (_lags demo_unsorted_model) + 1
       /\ nth 0 ar s_zero = s_one.
Proof.
  assert (H2 : shape1 (_deterministic_reg demo_unsorted_model)
               + Z.of_nat (length (_lags demo_unsorted_model))
               <= Z.of_nat (length [Some 5; Some 7]))
    by (vm_compute; discriminate).
  refine (conj demo_unsorted_constructs (conj H2 _)).
  destruct (@lag_repr_polynomial _ _ _ demo_unsorted_args
              demo_unsorted_model [Some 5; Some 7]
              demo_unsorted_constructs H2) as [ar [E1 [E2 [E3 _]]]].
  exists ar. exact (conj E1 (conj E2 E3)).
Defined.

Lemma nested_search_keys_witness :
  ARDL_init demo_exog_args = Ok demo_exog_model
  /\ exists keys,
       nested_keys demo_exog_model false = Ok keys
       /\ length keys = 6%nat
       /\ NoDup keys.
Proof.
  refine (conj demo_exog_constructs _).
  destruct (@nested_search_keys _ _ demo_exog_args demo_exog_model false
              demo_exog_constructs) as [keys [E1 [E2 [E3 _]]]].
  exists keys. exact (conj E1 (conj E2 E3)).
Defined.

Lemma nested_key_round_trip_witness :
  ARDL_init demo_exog_args = Ok demo_exog_model
  /\ a_lags demo_exog_args = LInt 1
  /\ orig_exog demo_exog_model = Some demo_x_frame
  /\ In [1; 1] (product (iter_orders demo_exog_model))
  /\ exists key,
       nested_key false (var_names demo_exog_model) [1; 1] = Ok key
       /\ lags_of (fst key) = firstn 1 (_lags demo_exog_model)
       /\ snd (_format_order (Some (frame_keys demo_x_frame))
                             (OMap (snd key)) false)
          = Ok (prefix_orders (_order demo_exog_model) [1]).
Proof.
  assert (H4 : In [1; 1] (product (iter_orders demo_exog_model)))
    by (vm_compute; intuition).
  refine (conj demo_exog_constructs (conj eq_refl (conj eq_refl
            (conj H4 _)))).
  apply (@nested_key_round_trip _ _ demo_exog_args demo_exog_model
           demo_x_frame 1 1 [1] demo_exog_constructs eq_refl eq_refl).
  - intros kv [<-|[]]. reflexivity.
  - exact H4.
Defined.

Lemma glob_search_subsets_witness :
  ARDL_init demo_exog_args = Ok demo_exog_model
  /\ glob_width demo_exog_model = 3
  /\ ~ In (range 0 3) (glob_perms demo_exog_model).
Proof.
  refine (conj demo_exog_constructs _).
  destruct (@glob_search_subsets _ _ demo_exog_args demo_exog_model
              demo_exog_constructs) as [E1 [_ [_ [E4 _]]]].
  exact (conj E1 E4).
Defined.

Lemma glob_empty_candidate_witness :
  ARDL_init demo_exog_args = Ok demo_exog_model
  /\ orig_exog demo_exog_model = Some demo_x_frame
  /\ _order demo_exog_model <> []
  /\ NoDup (map fst (_order demo_exog_model))
  /\ exists key,
       In [] (glob_perms demo_exog_model)
       /\ perm_to_tuple (glob_columns demo_exog_model) [] = Ok key
       /\ snd (_format_order (Some (frame_keys demo_x_frame))
                             (OMap (snd key)) false)
          = Ok (map (fun kv => (fst kv, [0])) (_order demo_exog_model)).
Proof.
  assert (H3 : _order demo_exog_model <> []) by discriminate.
  assert (H4 : NoDup (map fst (_order demo_exog_model)))
    by (repeat constructor; intros []).
  refine (conj demo_exog_constructs (conj eq_refl (conj H3 (conj H4 _)))).
  destruct (@glob_empty_candidate _ _ demo_exog_args demo_exog_model
              demo_x_frame demo_exog_constructs eq_refl H3 H4)
    as [key [E1 [E2 [_ [E4 _]]]]].
  exists key. exact (conj E1 (conj E2 E4)).
Defined.

Lemma glob_empty_selection_raises_witness :
  ARDL_init (with_orders demo_causal_args (LInt 1) (OVal (OInt false 1))
                         (a_hold_back demo_causal_args))
  = Ok demo_causal_model
  /\ a_causal demo_causal_args = true
  /\ select_order (demo_empty_best demo_causal_model) bic
     = perm_to_tuple (glob_columns demo_causal_model) []
  /\ is_raise (ardl_select_order demo_causal_args 1 (OVal (OInt false 1))
                                 demo_empty_best bic).
Proof.
  assert (H1 : ARDL_init (with_orders demo_causal_args (LInt 1)
                            (OVal (OInt false 1))
                            (a_hold_back demo_causal_args))
               = Ok demo_causal_model) by exact demo_causal_constructs.
  assert (H3 : select_order (demo_empty_best demo_causal_model) bic
               = perm_to_tuple (glob_columns demo_causal_model) [])
    by reflexivity.
  refine (conj H1 (conj eq_refl (conj H3 _))).
  apply (@glob_empty_selection_raises _ _ demo_causal_args 1
           (OVal (OInt false 1)) demo_empty_best bic demo_causal_model
           H1 eq_refl).
  - discriminate.
  - repeat constructor. intros [].
  - exact H3.
Defined.

Lemma demo_bare_constructs : ARDL_init demo_bare_args = Ok demo_bare_model.
Proof. vm_compute. reflexivity. Qed.

Lemma fit_without_regressors_witness :
  ARDL_init demo_bare_args = Ok demo_bare_model
  /\ n_columns demo_bare_model = 0
  /\ exists p,
       predict_from (model (fit (fun _ _ => [Some 1]) demo_bare_model))
                    (_params (fit (fun _ _ => [Some 1]) demo_bare_model))
                    0 2 0 None None None None None = Ok p
       /\ p_model p = demo_bare_model
       /\ p_fcasts p = repeat s_zero (Z.to_nat (2 + 1 - 0)).
Proof.
  assert (H2 : n_columns demo_bare_model = 0) by reflexivity.
  refine (conj demo_bare_constructs (conj H2 _)).
  destruct (@fit_without_regressors _ _ demo_bare_args demo_bare_model
              (fun _ _ => [Some 1]) 0 2 demo_bare_constructs H2)
    as [_ Hp].
  - lia.
  - vm_compute. split; discriminate.
  - exact Hp.
Defined.

Lemma nested_selection_constructs_witness :
  ARDL_init (with_orders demo_exog_args (LInt 1) (OVal (OInt false 1))
                         (a_hold_back demo_exog_args))
  = Ok demo_exog_model
  /\ nested_keys demo_exog_model (a_causal demo_exog_args)
     = Ok demo_nested_keys
  /\ (forall row, In row (demo_nested_scores demo_exog_model) ->
        In (fst row) demo_nested_keys)
  /\ exists model k0 ks,
       ardl_select_order demo_exog_args 1 (OVal (OInt false 1))
                         demo_nested_scores bic
       = Ok (model, demo_nested_scores demo_exog_model)
       /\ _hold_back model = _hold_back demo_exog_model
       /\ _lags model = firstn (Z.to_nat k0) (_lags demo_exog_model)
       /\ _order model = prefix_orders (_order demo_exog_model) ks.
Proof.
  assert (H1 : ARDL_init (with_orders demo_exog_args (LInt 1)
                            (OVal (OInt false 1))
                            (a_hold_back demo_exog_args))
               = Ok demo_exog_model) by exact demo_exog_constructs.
  assert (H2 : nested_keys demo_exog_model (a_causal demo_exog_args)
               = Ok demo_nested_keys) by reflexivity.
  assert (H3 : forall row, In row (demo_nested_scores demo_exog_model) ->
                 In (fst row) demo_nested_keys).
  { intros row [<-|[<-|[]]]; vm_compute; intuition. }
  refine (conj H1 (conj H2 (conj H3 _))).
  destruct (@nested_selection_constructs _ _ demo_exog_args 1
              (OVal (OInt false 1)) demo_nested_scores bic demo_exog_model
              demo_nested_keys H1)
    as [model [k0 [ks [E1 [_ [_ [E4 [E5 E6]]]]]]]].
  - discriminate.
  - intros kv [<-|[]]. reflexivity.
  - exact H2.
  - exact H3.
  - exists ((LInt 1, [(KStr "x", ONone)]), (IcFin 1, IcFin 1, IcFin 1)).
    split; [right; left; reflexivity | reflexivity].
  - exists model, k0, ks. exact (conj E1 (conj E4 (conj E5 E6))).
Defined.

Lemma glob_key_round_trip_witness :
  ARDL_init demo_exog_args = Ok demo_exog_model
  /\ In [0; 2] (glob_perms demo_exog_model)
  /\ selected_columns (glob_columns demo_exog_model) [0; 2]
     = [(None, 1); (Some (KStr "x"), 1)]
  /\ exists key fo,
       perm_to_tuple (glob_columns demo_exog_model) [0; 2] = Ok key
       /\ lags_of (fst key)
          = selected_lags
              (selected_columns (glob_columns demo_exog_model) [0; 2]) None
       /\ final_order false (snd key) = Ok fo
       /\ NoDup (map fst fo).
Proof.
  assert (H2 : In [0; 2] (glob_perms demo_exog_model))
    by (vm_compute; intuition).
  refine (conj demo_exog_constructs (conj H2 (conj eq_refl _))).
  destruct (@glob_key_round_trip _ _ demo_exog_args demo_exog_model [0; 2]
              false demo_exog_constructs H2)
    as [key [fo [E1 [E2 [E3 [E4 _]]]]]].
  - discriminate.
  - exists key, fo. exact (conj E1 (conj E2 (conj E3 E4))).
Defined.

End FurtherWitnesses.
